(* ===== verification/_CoqProject ===== *)
-Q . S2P
Prelude.v
Wire.v
Base64.v
Json.v
Serialization.v
ServerState.v
ServerMethods.v
ServerLogic.v
ServerInv.v
ServerSync.v
ServerSystem.v
ServerSpecs.v
ServerDispatch.v
ServerDefined.v
ServerLifecycle.v
ServerGraph.v
ServerScenarios.v
CallbackQueue.v
Client.v
Text.v
MessageDefinitionCache.v
SchemaText.v
ParameterInterface.v
BridgeParams.v
BridgeTables.v
ServerRuns.v
BridgeSync.v
BridgeUpdate.v
BridgeRefresh.v
GenericClient.v
Ros2Bridge.v
Ros2Handlers.v
Ros2System.v
Ros2Specs.v
Ros2Scenarios.v
Ros1Bridge.v
Ros1System.v
Ros1Specs.v
Ros1Scenarios.v
Standard.v
HttpServer.v
Control.v
SendQueue.v
Delivery.v
GenericPubSub.v
ServerFactory.v
Ros1Service.v
QueuedServer.v
BridgeDefined.v
Ros1Defined.v
Ros2Params.v
Ros2Defined.v
Races.v
Lifecycle.v
Ros2Lifecycle.v
Ros1Lifecycle.v
