(* ===== verification/Prelude.v ===== *)
(** * coBridge: a verification development

    coBridge connects ROS 1 and ROS 2 to web clients: a WebSocket server speaks a
    JSON and binary protocol (topics, services, parameters, the connection graph,
    assets), and a bridge per ROS version feeds it.  This development models the
    protocol core in [cobridge_base], which both bridges share; the ROS 2 bridge
    with its message definition cache, parameter interface and service client; the
    ROS 1 bridge; and the HTTP server that tells a machine's addresses.

    ** How the parts interact

    A client's frame enters the server at [handle_message]
    ([include/websocket_server.hpp]), is decoded ([serialization.hpp],
    [serialization.cpp], [base64.cpp], [parameter.hpp]), checked against the
    server's capabilities and dispatched to one of the [handle_*] methods, which
    change the server's members and call the bridge through [ServerHandlers]
    ([server_interface.hpp]).  The bridge calls back into the server
    ([add_channels], [send_message], [update_connection_graph], ...).  Callbacks of
    the connections run on the threads of [callback_queue.hpp].  The peer of the
    server is [websocket_client.hpp].  The ROS 2 bridge takes the schema of a topic
    from [message_definition_cache.cpp] and serves parameter requests with
    [parameter_interface.cpp].  The bridge nodes ([ros2_bridge.cpp],
    [ros1_bridge_nodelet.cpp]) are the two implementations of [ServerHandlers]:
    they follow the ROS graph, tell the server the channels and services, hold a
    ROS subscription per subscribed client and a ROS publisher per client channel,
    and forward messages, service calls, parameters and assets both ways.

    ** Files

    - [Prelude]: outcomes of C++ calls (return, throw, undefined behaviour),
      machine integers, bytes, automation.
    - [Wire]: [serialization.hpp], [ServiceResponse] and the binary frames of the
      server ([send_message], [broadcast_time], [send_service_response],
      [send_fetch_asset_response]) and of the client, with the client's decoders
      ([test_client.cpp]).  Buffers are byte lists; every access is checked.
    - [Base64]: [base64.cpp].
    - [Json]: the part of [nlohmann::json] the sources use; [dump] throws on a string
      that is not UTF-8.
    - [Serialization]: the structs of [common.hpp], [parameter.hpp], and
      [serialization.cpp].
    - [ServerState]: the members of [Server] as the record [Server], the world
      around it (connections, a trace of what is sent and of the handlers called),
      and the monad of the methods: state, exceptions, held mutexes.  Handlers are
      arbitrary programs of that monad.
    - [ServerMethods]: the methods of [Server], one definition per method.
    - [ServerLogic]: program logic for the monad; [ServerInv], [ServerSync]: the
      invariants each method keeps.
    - [ServerSystem]: the server as a transition system over its entry points.
    - [ServerSpecs], [ServerDispatch], [ServerDefined], [ServerLifecycle],
      [ServerGraph], [ServerScenarios]: the theorems about the server.
    - [CallbackQueue]: [callback_queue.hpp] as a step relation over its threads, and
      its [stop] as a function of the schedule of the stopper and the worker.
    - [Client]: [websocket_client.hpp] and the exchange between client and server.
    - [Text], [MessageDefinitionCache], [SchemaText]: the message definition cache;
      the regular expressions of the source are scanners, the ament index and the
      file system a parameter.
    - [ParameterInterface]: [parameter_interface.cpp] and [utils.hpp]; the ROS
      graph and the nodes' parameter services are a parameter.  A parameter event
      names the node it is of, and reaches the callbacks of all followed nodes.
    - [BridgeParams]: [param_utils.cpp] of both bridges.
    - [BridgeTables]: the members both bridge nodes have (channels, services,
      subscriptions, publications) as the record [Tables], and the pieces of code
      the two share; the class [HasTables] gives a node its tables.
    - [ServerRuns]: what a run of each server method does, as equations;
      [BridgeSync]: the relation between a node's tables and the server, the class
      [BridgeHandlers] of what the handlers of a bridge promise, and that every
      entry point of the server keeps the relation for such handlers;
      [BridgeUpdate], [BridgeRefresh]: the same for the bridge's own updates of
      channels and services.
    - [GenericClient]: [generic_client.cpp] and [typesupport_helpers.cpp].
    - [Ros2Bridge]: [ros2_bridge.cpp], one definition per method, in the monad of
      the server with the node as its world.  [Ros2Handlers]: the instances of the
      interface; [Ros2System]: node and server as one transition system;
      [Ros2Specs], [Ros2Scenarios]: its theorems and the runs that witness them.
    - [Ros1Bridge], [Ros1System], [Ros1Specs], [Ros1Scenarios]: the same for
      [ros1_bridge_nodelet.cpp] and [service_utils.cpp].
    - [Standard]: [standard.hpp], the backports of [any], [string_view] and
      [optional]; the storage of an [any] is a cell of a heap, and copying a value
      may throw.
    - [HttpServer]: [http_server.cpp].
    - [Control]: [start], [stop], [get_port] and the destructor of the server, which
      joins the worker of its queue, over a model of its endpoint ([ServerControl]), connecting and closing of the client
      ([ClientControl]), and [websocket_logging.hpp] ([Logging]).
    - [SendQueue]: the send queue of a websocketpp connection, as the repository
      patches it ([patches/connection_impl_hpp-fix.patch]); [Delivery]: the server
      and the send queue of one of its connections together.
    - [QueuedServer]: the constructor of the server, which puts its callbacks
      behind a [CallbackQueue] with one worker; [Races]: a request split into its
      critical sections.
    - [ServerFactory]: [server_factory.cpp]; [GenericPubSub]: the generic
      publisher and subscription of the ROS 2 bridge on Foxy; [Ros1Service]:
      [generic_service.hpp].
    - [BridgeDefined], [Ros1Defined], [Ros2Defined]: that the bridges have no
      undefined behaviour; [Ros2Params]: the relation between the parameters clients
      are subscribed to and those the parameter interface follows.
    - [Lifecycle], [Ros2Lifecycle], [Ros1Lifecycle]: construction and destruction
      of the bridges, the polling thread, and the two [main] functions.

    ** What the theorems show

    - State: after any sequence of entry points one client at most is logged in,
      subscriptions point to existing channels, the records of advertisements
      agree; what the parameter handler and the graph handler were told equals the
      union of what the clients asked for.
    - Methods: what login, disconnect, publishing, adding channels and a graph
      update do, to the members, to the clients and to the handlers, on every
      branch; applying a graph update to the old graph gives the new one.
    - Requests: a text or binary operation without its capability is refused, one
      with it runs, every exception becomes a status message, and handling a message
      returns; an operation that only hashes like one with a capability is not refused.
      No entry point has undefined behaviour on a message whose objects carry the
      members the decoders read unchecked ([input_safe]); a request without them
      is shown to have it.
    - Wire: frames, service payloads, base64, parameters, channels and services
      round-trip between the two ends, parameters also when the other end writes
      integral floating-point numbers as integers; [read] accepts exactly what [write]
      makes, but for encodings that are too long, which [write] lets pass.
    - Callback queue: first in first out under every interleaving, and no callback
      is stuck while the queue runs; [stop] returns unless it loses its wakeup, and
      then does not.  With the server behind it: requests are handled in the order they
      came, each of them after a bounded number of the worker's steps in any run that
      lets it step, and a client that has disconnected is no longer among the clients.
    - Send queue: [write_pop] equals a one-line reference; what must be delivered
      is delivered in order, writes are bounded, a queued message moves on; which
      stale messages are sent, and which fresh ones are lost, all the same.
    - Schemas: the text of a definition holds every definition it depends on
      exactly once, the recursion ends, and the cache is transparent.
    - ROS parameters: conversions round-trip, setting is all or nothing, reading
      returns exactly what the nodes answer, and the parameters followed are those
      subscribed; an event reports the followed names it changes, whichever node it
      is of.

    - Bridges: after any sequence of entry points of node and server the channels, the
      services, the subscriptions and the publications of the two agree, whatever
      the clients, the ROS graph and the middleware do between them; an update makes what is
      advertised equal to what ROS has and the configuration admits; a ROS message
      reaches the client that subscribed and what a client publishes reaches ROS;
      a service call is answered once; assets and parameters off the allowlist are
      refused (except where the ROS 1 bridge does not); QoS depths and update
      periods stay in their bounds.
    - Backports: a program over [any]s is memory safe and type safe and leaks
      nothing, as long as no assignment deletes what it copies: one of the any's own
      value, or one whose copy throws.  [substr] stays in its view.
    - HTTP server: which request gets which response, and starting and stopping
      the thread.
    - Start and stop: when stopping the server returns, within which time, and what
      it leaves; when it does not; which channels a logger passes.
    - Life of a bridge: what construction makes and what it leaves when a step of
      it fails, that both programs end with every thread joined, the workers of the
      callback queues included, when every thread gets its turns, no wakeup is lost and
      the requests are handled by then ([threads_scheduled]), and that the ROS 2
      component cannot be unloaded while rclcpp runs.  A request that is not handled by
      then runs on destroyed members.
    - Definedness: from its construction on, no safe input of a bridge has undefined
      behaviour and every subscribed parameter is followed.  The ROS 1 bridge needs
      fewer than 64 updates.  The ROS 2 bridge needs
      requests on parameters it does not check for: values that are not empty
      arrays, names of the form [node.parameter] on the whitelist, and names to
      unsubscribe that somebody is subscribed to.  Without the first and the last
      condition a client can cause undefined behaviour ([Ros2Defined]).

    The theorems about faults ([capability_gate_bypassed], [stop_can_hang],
    [unnamed_parameter_undefined] and others) state what the code does.

    ** Modelling choices

    - Entry points run one after the other: the steps of one are not interleaved with
      those of another.  This is the case for requests and disconnections, which have one
      worker, but not for the bridge's own threads beside it: the invariants of
      [ServerSystem], [Ros2System] and [Ros1System] hold of sequences of entry points,
      and [Races] shows one that an interleaving breaks.  The mutexes held are tracked,
      and locking one twice is undefined.
    - [unordered_map]s are finite maps; where the code iterates over one, no
      statement depends on the order, except that the order of messages to
      different clients follows the enumeration of the map.
    - A timeout is the absence of an answer; log output is left out.
    - Fuel: [split_string] and the regular-expression iterator take one unit per
      character, and each of their steps consumes a character;
      [append_recursive] needs one unit per definition reachable from the root,
      which the theorems state as a finite set closed under dependencies; the loop
      in [stop] takes 100 turns at most, of 10 of its 1000 milliseconds each.

    - ROS is a parameter: the record [RosEnv] of each bridge holds what the
      middleware, the master and the resource retriever answer, exceptions
      included, and can change between two steps.  The hypotheses on it are what
      the interfaces document: a visible service has a type, a name is not empty,
      queries by topic do not throw what the code does not catch.
    - Callbacks of ROS (a message, a response, a timer, a parameter event) are
      inputs of the transition systems; those for a subscription the node no
      longer holds are inputs too.
    - Times in milliseconds below 2^53 are integers, as they are exact in a
      [double]; shared libraries are named by their path.

    ** Not modelled

    The options of compression, the log handlers of bridges and HTTP server (they
    only print), malformed replies of the ROS master, the choice of the number of
    executor threads, the type traits of [standard.hpp], and the vendored libraries
    but for the patched send queue.  Handlers are
    not split into their critical sections, but for the one in [Races]: requests run
    on the one worker of the callback queue, and only the bridge's own threads run
    beside it. *)

(** ** Prelude *)

From Stdlib Require Import ZArith Lia.
From Stdlib Require Export Init.Byte.
From Stdlib Require Strings.Byte.
From stdpp Require Export base decidable gmap sets list strings pretty fin_maps.

Declare Scope cobridge_scope.
Delimit Scope cobridge_scope with cob.

(** ** C++ outcomes

    A C++ call returns normally, throws, or has undefined behaviour (an access
    outside a buffer, a failed [JSON_ASSERT], dereferencing [end()]). *)

Inductive exn :=
| RuntimeError (what : string)
| StdException (what : string)
| ChannelError (id : Z) (what : string)
| ClientChannelError (id : Z) (what : string)
| ServiceError (id : Z) (what : string)
| UnknownException.

Inductive outcome (A : Type) :=
| Ret (a : A)
| Throw (e : exn)
| Undefined.
Arguments Ret {A} a.
Arguments Throw {A} e.
Arguments Undefined {A}.

Definition outcome_bind {A B} (f : A → outcome B) (m : outcome A) : outcome B :=
  match m with
  | Ret a => f a
  | Throw e => Throw e
  | Undefined => Undefined
  end.

#[export] Instance outcome_mret : MRet outcome := @Ret.
#[export] Instance outcome_mbind : MBind outcome := @outcome_bind.

Section MapM.
Context {A B : Type} (f : A → outcome B).

Fixpoint outcome_mapM (l : list A) : outcome (list B) :=
  match l with
  | [] => Ret []
  | x :: l => y ← f x; ys ← outcome_mapM l; Ret (y :: ys)
  end.

End MapM.

(** ** Machine integers and bytes *)

Definition u8 (z : Z) : Z := (z mod 2 ^ 8)%Z.
Definition u32 (z : Z) : Z := (z mod 2 ^ 32)%Z.
Definition u64 (z : Z) : Z := (z mod 2 ^ 64)%Z.

Definition is_u32 (z : Z) : Prop := (0 ≤ z < 2 ^ 32)%Z.
Definition is_u64 (z : Z) : Prop := (0 ≤ z < 2 ^ 64)%Z.

Definition byte_to_Z (b : byte) : Z := Z.of_N (Byte.to_N b).
Definition byte_of_Z (z : Z) : byte := default x00 (Byte.of_N (Z.to_N (u8 z))).

Definition bytes_of_string : string → list byte := String.list_byte_of_string.
Definition string_of_bytes : list byte → string := String.string_of_list_byte.

(** [std::to_string] on integers. *)
Definition to_string (z : Z) : string := pretty z.

Lemma u8_range z : (0 ≤ u8 z < 2 ^ 8)%Z.
Proof. by apply Z.mod_pos_bound. Qed.
Lemma u32_range z : is_u32 (u32 z).
Proof. by apply Z.mod_pos_bound. Qed.
Lemma u64_range z : is_u64 (u64 z).
Proof. by apply Z.mod_pos_bound. Qed.
Lemma u8_small z : (0 ≤ z < 2 ^ 8)%Z → u8 z = z.
Proof. apply Z.mod_small. Qed.
Lemma u32_small z : is_u32 z → u32 z = z.
Proof. apply Z.mod_small. Qed.
Lemma u64_add_l a b : u64 (u64 a + b) = u64 (a + b).
Proof. unfold u64. apply Z.add_mod_idemp_l. lia. Qed.
Lemma u64_small z : is_u64 z → u64 z = z.
Proof. apply Z.mod_small. Qed.

Lemma lor_shiftl_add x y n :
  (0 ≤ n → 0 ≤ x < 2 ^ n → Z.lor x (Z.shiftl y n) = x + y * 2 ^ n)%Z.
Proof.
  intros Hn Hx.
  assert (Z.land x (Z.shiftl y n) = 0%Z) as Hland.
  { apply Z.bits_inj'. intros i Hi. rewrite Z.land_spec, Z.bits_0.
    destruct (decide (i < n)%Z); [by rewrite Z.shiftl_spec_low, andb_false_r by lia|].
    rewrite <-(Z.mod_small x (2 ^ n)), Z.mod_pow2_bits_high by lia. done. }
  by rewrite <-Z.lxor_lor, <-Z.add_nocarry_lxor, Z.shiftl_mul_pow2 by done.
Qed.

Lemma byte_to_Z_range b : (0 ≤ byte_to_Z b < 2 ^ 8)%Z.
Proof. unfold byte_to_Z. pose proof (Byte.to_N_bounded b). lia. Qed.

Lemma byte_to_of_Z z : byte_to_Z (byte_of_Z z) = u8 z.
Proof.
  pose proof (u8_range z) as Hz.
  unfold byte_to_Z, byte_of_Z.
  destruct (Byte.of_N (Z.to_N (u8 z))) as [b|] eqn:E; simpl.
  - apply Byte.to_of_N in E. rewrite E. lia.
  - apply Byte.of_N_None_iff in E. lia.
Qed.

Lemma byte_of_to_Z b : byte_of_Z (byte_to_Z b) = b.
Proof.
  pose proof (byte_to_Z_range b) as Hb.
  unfold byte_of_Z. rewrite u8_small by lia.
  unfold byte_to_Z. rewrite N2Z.id, Byte.of_to_N. done.
Qed.

Lemma byte_to_Z_inj b1 b2 : byte_to_Z b1 = byte_to_Z b2 → b1 = b2.
Proof. intros E. rewrite <-(byte_of_to_Z b1), E. apply byte_of_to_Z. Qed.

Lemma bytes_of_string_of_bytes bs : bytes_of_string (string_of_bytes bs) = bs.
Proof. apply String.list_byte_of_string_of_list_byte. Qed.

Lemma string_of_bytes_of_string s : string_of_bytes (bytes_of_string s) = s.
Proof. apply String.string_of_list_byte_of_string. Qed.

(** ** Automation *)

(** List lengths: [lens] rewrites them, [solve_length] closes the arithmetic. *)
Create Rewrite HintDb lens.
#[export] Hint Rewrite @length_app @length_take @length_drop @length_replicate
  @length_cons @length_nil @length_fmap @length_rev : lens.

Ltac solve_length := autorewrite with lens in *; cbn [length] in *; lia.

(** Monad laws of [outcome]. *)
Lemma outcome_bind_ret_r {A} (m : outcome A) : (x ← m; Ret x) = m.
Proof. by destruct m. Qed.

Lemma outcome_bind_assoc {A B C} (m : outcome A) (f : A → outcome B) (g : B → outcome C) :
  (y ← (x ← m; f x); g y) = (x ← m; y ← f x; g y).
Proof. by destruct m. Qed.

Lemma outcome_bind_Ret {A B} (m : outcome A) (f : A → outcome B) b :
  (x ← m; f x) = Ret b ↔ ∃ a, m = Ret a ∧ f a = Ret b.
Proof.
  split; [|by intros (a & -> & <-)].
  destruct m; simpl; [|done..]. eauto.
Qed.

Lemma length_bytes_of_string s : length (bytes_of_string s) = String.length s.
Proof.
  unfold bytes_of_string, String.list_byte_of_string. rewrite length_map.
  induction s; simpl; congruence.
Qed.

Lemma length_string_of_bytes bs : String.length (string_of_bytes bs) = length bs.
Proof. by rewrite <-length_bytes_of_string, bytes_of_string_of_bytes. Qed.

#[export] Hint Rewrite length_bytes_of_string length_string_of_bytes : lens.

(** Reduce the binds of [outcome] and nothing else. *)
Ltac simpl_bind := cbn [mbind outcome_mbind outcome_bind].

(** Induction over a list three elements at a time. *)
Lemma list_ind3 {A} (P : list A → Prop) :
  P [] → (∀ a, P [a]) → (∀ a b, P [a; b]) →
  (∀ a b c l, P l → P (a :: b :: c :: l)) → ∀ l, P l.
Proof.
  intros H0 H1 H2 H3. fix IH 1.
  intros [|a [|b [|c l]]]; [exact H0|apply H1|apply H2|apply H3, IH].
Qed.

Lemma string_compare_refl (s : string) : String.compare s s = Eq.
Proof. pose proof (String.compare_antisym s s). by destruct (String.compare s s). Qed.
