(* ===== verification/Wire.v ===== *)
(** * Binary wire formats

    The little-endian integer accessors of [serialization.hpp], the
    [ServiceResponse] codec of [serialization.cpp], the frames the server builds
    in [send_message], [broadcast_time], [send_service_response] and
    [send_fetch_asset_response], and the client side of these frames
    ([websocket_client.hpp], [test_client.cpp]).

    Buffers are byte lists; every access through a pointer is a bounds-checked
    [load] or [store] that is [Undefined] outside the buffer. *)

From Stdlib Require Import ZArith Lia.
From S2P Require Import Prelude.

Local Open Scope Z_scope.

(** The target: [ARCH_IS_BIG_ENDIAN], and the signedness of plain [char]. *)
Class Platform := { big_endian : bool; char_signed : bool }.

Definition x86_64 : Platform := {| big_endian := false; char_signed := true |}.
Definition aarch64 : Platform := {| big_endian := false; char_signed := false |}.
Definition s390x : Platform := {| big_endian := true; char_signed := false |}.

(** ** Memory *)

Definition store (buf : list byte) (off : nat) (bs : list byte) : outcome (list byte) :=
  if decide (off + length bs ≤ length buf)%nat
  then Ret (take off buf ++ bs ++ drop (off + length bs) buf)
  else Undefined.

Definition load (buf : list byte) (off n : nat) : outcome (list byte) :=
  if decide (off + n ≤ length buf)%nat
  then Ret (take n (drop off buf))
  else Undefined.

(** ** Byte orders *)

Fixpoint le_bytes (n : nat) (v : Z) : list byte :=
  match n with
  | O => []
  | S n => byte_of_Z v :: le_bytes n (Z.shiftr v 8)
  end.

Fixpoint le_value (bs : list byte) : Z :=
  match bs with
  | [] => 0
  | b :: bs => byte_to_Z b + 2 ^ 8 * le_value bs
  end.

Section Accessors.
Context `{Platform}.

(** Storing or loading an integer through a reinterpreted pointer. *)
Definition native_bytes (n : nat) (v : Z) : list byte :=
  if big_endian then rev (le_bytes n v) else le_bytes n v.
Definition native_value (bs : list byte) : Z :=
  if big_endian then le_value (rev bs) else le_value bs.

(** [buf\[off + i\] = (val >> 8 * i) & 0xff] for [i = 0 .. n - 1]. *)
Fixpoint store_shifted (buf : list byte) (off : nat) (val : Z) (i n : nat) :
    outcome (list byte) :=
  match n with
  | O => Ret buf
  | S n =>
      buf' ← store buf (off + i)
               [byte_of_Z (Z.land (Z.shiftr val (8 * Z.of_nat i)) 255)];
      store_shifted buf' off val (S i) n
  end.

Definition write_uint64_LE (buf : list byte) (off : nat) (val : Z) : outcome (list byte) :=
  if big_endian
  then store_shifted buf off val 0 8
  else store buf off (native_bytes 8 (u64 val)).

Definition write_uint32_LE (buf : list byte) (off : nat) (val : Z) : outcome (list byte) :=
  if big_endian
  then store_shifted buf off val 0 4
  else store buf off (native_bytes 4 (u32 val)).

Definition read_uint32_LE (buf : list byte) (off : nat) : outcome Z :=
  if big_endian
  then
    bs ← load buf off 4;
    match bs with
    | [b0; b1; b2; b3] =>
        Ret (u32 (Z.lor (Z.lor (Z.lor (byte_to_Z b0) (Z.shiftl (byte_to_Z b1) 8))
                               (Z.shiftl (byte_to_Z b2) 16))
                        (Z.shiftl (byte_to_Z b3) 24)))
    | _ => Undefined
    end
  else
    bs ← load buf off 4; Ret (native_value bs).

End Accessors.

(** ** Service calls *)

(** [ServiceResponse]; [ServiceRequest] is the same type. *)
Record ServiceResponse := {
  service_id : Z;
  call_id : Z;
  sr_encoding : string;
  serv_data : list byte
}.

Abbreviation ServiceRequest := ServiceResponse.

Definition ServiceResponse_size (r : ServiceResponse) : nat :=
  4 + 4 + 4 + String.length (sr_encoding r) + length (serv_data r).

(** A default-constructed [ServiceRequest]: empty string and vector; the two
    scalar members are indeterminate and never read before [read] sets them. *)
Definition ServiceRequest_default : ServiceRequest :=
  {| service_id := 0; call_id := 0; sr_encoding := EmptyString; serv_data := [] |}.

Definition MAX_ENCODING_LENGTH : Z := 256.

Section ServiceCalls.
Context `{Platform}.

(** [ServiceResponse::read]: [data] is the pointed-to buffer and its length is
    the [data_length] argument. *)
Definition ServiceResponse_read (data : list byte) : outcome ServiceResponse :=
  let data_length := Z.of_nat (length data) in
  if data_length <? 12 then
    Throw (RuntimeError ("ServiceResponse message too short: " +:+ to_string data_length
                         +:+ " bytes (minimum 12)"))
  else
    sid ← read_uint32_LE data 0;
    cid ← read_uint32_LE data 4;
    encoding_length ← read_uint32_LE data 8;
    if encoding_length >? MAX_ENCODING_LENGTH then
      Throw (RuntimeError ("ServiceResponse encoding length too large: "
                           +:+ to_string encoding_length +:+ " bytes (max "
                           +:+ to_string MAX_ENCODING_LENGTH +:+ ")"))
    else if 12 + encoding_length >? data_length then
      Throw (RuntimeError ("ServiceResponse encoding length " +:+ to_string encoding_length
                           +:+ " exceeds remaining data " +:+ to_string (data_length - 12)
                           +:+ " bytes"))
    else
      enc ← load data 12 (Z.to_nat encoding_length);
      let offset := 12 + encoding_length in
      if offset >? data_length then
        Throw (RuntimeError ("ServiceResponse offset " +:+ to_string offset
                             +:+ " exceeds data length " +:+ to_string data_length))
      else
        let payload_length := data_length - offset in
        payload ← load data (Z.to_nat offset) (Z.to_nat payload_length);
        Ret {| service_id := sid; call_id := cid;
               sr_encoding := string_of_bytes enc; serv_data := payload |}.

(** [ServiceResponse::write] through the pointer [buf + base]. *)
Definition ServiceResponse_write (r : ServiceResponse) (buf : list byte) (base : nat) :
    outcome (list byte) :=
  let offset := base in
  buf ← write_uint32_LE buf offset (service_id r);
  let offset := (offset + 4)%nat in
  buf ← write_uint32_LE buf offset (call_id r);
  let offset := (offset + 4)%nat in
  buf ← write_uint32_LE buf offset (u32 (Z.of_nat (String.length (sr_encoding r))));
  let offset := (offset + 4)%nat in
  buf ← store buf offset (bytes_of_string (sr_encoding r));
  let offset := (offset + String.length (sr_encoding r))%nat in
  store buf offset (serv_data r).

End ServiceCalls.

(** ** Frames *)

Inductive BinaryOpcode := MESSAGE_DATA | TIME_DATA | SERVICE_CALL_RESPONSE | FETCH_ASSET_RESPONSE.

Definition BinaryOpcode_value (op : BinaryOpcode) : Z :=
  match op with
  | MESSAGE_DATA => 1
  | TIME_DATA => 2
  | SERVICE_CALL_RESPONSE => 3
  | FETCH_ASSET_RESPONSE => 4
  end.

(** [enum class FetchAssetStatus : uint8_t]: any [uint8_t] is a value of it. *)
Definition FetchAssetStatus_Success : Z := 0.
Definition FetchAssetStatus_Error : Z := 1.

Record FetchAssetResponse := {
  fa_request_id : Z;
  fa_status : Z;
  fa_error_message : string;
  fa_data : list byte
}.

Section Frames.
Context `{Platform}.

(** The frame [Server::send_message] appends to the connection. *)
Definition message_data_frame (sub_id timestamp : Z) (payload : list byte) :
    outcome (list byte) :=
  msg_header ← store (replicate (1 + 4 + 8) x00) 0 [byte_of_Z (BinaryOpcode_value MESSAGE_DATA)];
  msg_header ← write_uint32_LE msg_header 1 sub_id;
  msg_header ← write_uint64_LE msg_header 5 timestamp;
  Ret (msg_header ++ payload).

(** The frame of [Server::broadcast_time]. *)
Definition time_data_frame (timestamp : Z) : outcome (list byte) :=
  message ← store (replicate (1 + 8) x00) 0 [byte_of_Z (BinaryOpcode_value TIME_DATA)];
  write_uint64_LE message 1 timestamp.

(** The frame of [Server::send_service_response]. *)
Definition service_response_frame (response : ServiceResponse) : outcome (list byte) :=
  payload ← store (replicate (1 + ServiceResponse_size response) x00) 0
              [byte_of_Z (BinaryOpcode_value SERVICE_CALL_RESPONSE)];
  ServiceResponse_write response payload 1.

(** The frame of [Server::send_fetch_asset_response]. *)
Definition fetch_asset_frame (response : FetchAssetResponse) : outcome (list byte) :=
  let err_msg_size :=
    if fa_status response =? FetchAssetStatus_Error
    then String.length (fa_error_message response) else 0%nat in
  let data_size :=
    if fa_status response =? FetchAssetStatus_Success
    then length (fa_data response) else 0%nat in
  uint32_data ← write_uint32_LE (replicate 4 x00) 0 (fa_request_id response);
  let message := byte_of_Z (BinaryOpcode_value FETCH_ASSET_RESPONSE) :: uint32_data
                   ++ [byte_of_Z (fa_status response)] in
  uint32_data ← write_uint32_LE uint32_data 0
                  (u32 (Z.of_nat (String.length (fa_error_message response))));
  err ← load (bytes_of_string (fa_error_message response)) 0 err_msg_size;
  dat ← load (fa_data response) 0 data_size;
  Ret (message ++ uint32_data ++ err ++ dat).

(** *** The client side *)

(** [Client::publish]: the frame a client sends on an advertised channel. *)
Definition client_publish_frame (channel_id : Z) (buffer : list byte) : outcome (list byte) :=
  payload ← store (replicate (1 + 4 + length buffer) x00) 0 [byte_of_Z 1];
  payload ← write_uint32_LE payload 1 channel_id;
  store payload (1 + 4) buffer.

(** [Client::send_service_request]. *)
Definition client_service_request_frame (request : ServiceRequest) : outcome (list byte) :=
  payload ← store (replicate (1 + ServiceResponse_size request) x00) 0 [byte_of_Z 2];
  ServiceResponse_write request payload 1.

(** The handler installed by [wait_for_channel_msg]: [None] when the frame
    belongs to another subscription. *)
Definition decode_channel_msg (subscription_id : Z) (data : list byte) :
    outcome (option (list byte)) :=
  sid ← read_uint32_LE data 1;
  if negb (sid =? subscription_id) then Ret None
  else
    let offset := (1 + 4 + 8)%nat in
    (* [dataLength - offset] is unsigned: below 13 bytes it wraps *)
    if decide (length data < offset)%nat then Undefined
    else bs ← load data offset (length data - offset); Ret (Some bs).

(** The handler installed by [wait_for_service_response]. *)
Definition decode_service_response (data : list byte) : outcome (option ServiceResponse) :=
  op ← load data 0 1;
  if negb (le_value op =? BinaryOpcode_value SERVICE_CALL_RESPONSE) then Ret None
  else r ← ServiceResponse_read (drop 1 data); Ret (Some r).

(** The handler installed by [wait_for_fetch_asset_response]. *)
Definition decode_fetch_asset_response (data : list byte) : outcome (option FetchAssetResponse) :=
  op ← load data 0 1;
  if negb (le_value op =? BinaryOpcode_value FETCH_ASSET_RESPONSE) then Ret None
  else
    let offset := 1%nat in
    rid ← read_uint32_LE data offset;
    let offset := (offset + 4)%nat in
    st ← load data offset 1;
    let offset := (offset + 1)%nat in
    errorMsgLength ← read_uint32_LE data offset;
    let offset := (offset + 4)%nat in
    err ← load data offset (Z.to_nat errorMsgLength);
    let offset := (offset + Z.to_nat errorMsgLength)%nat in
    payload ← load data offset (length data - offset);
    Ret (Some {| fa_request_id := rid; fa_status := le_value st;
                 fa_error_message := string_of_bytes err; fa_data := payload |}).

End Frames.

(** ** Facts on byte orders *)

Lemma length_le_bytes n v : length (le_bytes n v) = n.
Proof. revert v. induction n; intros; simpl; auto. Qed.

#[export] Hint Rewrite length_le_bytes : lens.

Lemma le_value_range bs : 0 ≤ le_value bs < 2 ^ (8 * Z.of_nat (length bs)).
Proof.
  induction bs as [|b bs IH]; [simpl; lia|].
  pose proof (byte_to_Z_range b). rewrite length_cons, Nat2Z.inj_succ.
  replace (8 * Z.succ (Z.of_nat (length bs))) with (8 + 8 * Z.of_nat (length bs)) by lia.
  rewrite Z.pow_add_r by lia. simpl le_value. nia.
Qed.

Lemma le_value_le_bytes n v : le_value (le_bytes n v) = v mod 2 ^ (8 * Z.of_nat n).
Proof.
  revert v. induction n as [|n IH]; intros v; [by rewrite Z.mod_1_r|].
  cbn [le_bytes]. simpl le_value. rewrite IH, byte_to_of_Z, Z.shiftr_div_pow2 by lia. unfold u8.
  replace (8 * Z.of_nat (S n)) with (8 + 8 * Z.of_nat n) by lia.
  rewrite Z.pow_add_r, Z.rem_mul_r by lia. done.
Qed.

Lemma le_bytes_le_value bs : le_bytes (length bs) (le_value bs) = bs.
Proof.
  induction bs as [|b bs IH]; [done|]. simpl le_value. simpl length. cbn [le_bytes].
  pose proof (byte_to_Z_range b). f_equal.
  - apply byte_to_Z_inj. rewrite byte_to_of_Z. unfold u8.
    rewrite Z.mul_comm, Z.mod_add, Z.mod_small by lia. done.
  - rewrite Z.shiftr_div_pow2, Z.mul_comm, Z.div_add, Z.div_small by lia.
    by rewrite Z.add_0_l.
Qed.

Lemma le_bytes_le_value' n bs : length bs = n → le_bytes n (le_value bs) = bs.
Proof. intros <-. apply le_bytes_le_value. Qed.

Lemma le_bytes_mod n v : le_bytes n (v mod 2 ^ (8 * Z.of_nat n)) = le_bytes n v.
Proof.
  rewrite <-le_value_le_bytes. rewrite <-(length_le_bytes n v) at 1.
  apply le_bytes_le_value.
Qed.

Lemma le_bytes_u32 v : le_bytes 4 (u32 v) = le_bytes 4 v.
Proof. apply (le_bytes_mod 4). Qed.

Lemma le_bytes_u64 v : le_bytes 8 (u64 v) = le_bytes 8 v.
Proof. apply (le_bytes_mod 8). Qed.

Lemma le_value_u32 v : is_u32 v → le_value (le_bytes 4 v) = v.
Proof. intros. rewrite le_value_le_bytes. by apply u32_small. Qed.

Lemma le_value_u64 v : is_u64 v → le_value (le_bytes 8 v) = v.
Proof. intros. rewrite le_value_le_bytes. by apply u64_small. Qed.

Lemma byte_of_Z_land v : byte_of_Z (Z.land v 255) = byte_of_Z v.
Proof.
  apply byte_to_Z_inj. rewrite !byte_to_of_Z. unfold u8.
  change 255 with (Z.ones 8). rewrite Z.land_ones, Z.mod_mod by lia. done.
Qed.

#[global] Arguments le_bytes : simpl never.

(** ** Facts on memory *)

Lemma store_ret buf off bs :
  (off + length bs ≤ length buf)%nat →
  store buf off bs = Ret (take off buf ++ bs ++ drop (off + length bs) buf).
Proof. intros. unfold store. by rewrite decide_True. Qed.

Lemma store_oob buf off bs : (length buf < off + length bs)%nat → store buf off bs = Undefined.
Proof. intros. unfold store. rewrite decide_False by lia. done. Qed.

Lemma load_ret buf off n :
  (off + n ≤ length buf)%nat → load buf off n = Ret (take n (drop off buf)).
Proof. intros. unfold load. by rewrite decide_True. Qed.

Lemma load_oob buf off n : (length buf < off + n)%nat → load buf off n = Undefined.
Proof. intros. unfold load. rewrite decide_False by lia. done. Qed.

Lemma load_middle pre bs post off n :
  off = length pre → n = length bs → load (pre ++ bs ++ post) off n = Ret bs.
Proof.
  intros -> ->. rewrite load_ret by solve_length.
  by rewrite drop_app_length, take_app_length.
Qed.

(** Side conditions of [load_at]: the buffer cut at the right place. *)
Ltac solve_at :=
  subst; rewrite ?app_nil_r; repeat first [rewrite <-app_assoc | progress cbn [app]];
  first [done | solve_length].

Lemma load_at pre bs post buf off n :
  buf = pre ++ bs ++ post → off = length pre → n = length bs → load buf off n = Ret bs.
Proof. intros ->. apply load_middle. Qed.

Lemma load_head b bs : load (b :: bs) 0 1 = Ret [b].
Proof. rewrite load_ret by (cbn [length]; lia). done. Qed.

Lemma store_full buf bs : length bs = length buf → store buf 0 bs = Ret bs.
Proof.
  intros E. rewrite store_ret by lia. rewrite take_0, drop_ge by lia.
  by rewrite app_nil_l, app_nil_r.
Qed.

(** Two adjacent stores are one store of the concatenation. *)
Lemma store_app buf off bs1 bs2 :
  (buf' ← store buf off bs1; store buf' (off + length bs1) bs2) = store buf off (bs1 ++ bs2).
Proof.
  destruct (decide (off + length (bs1 ++ bs2) ≤ length buf)%nat) as [Hle|Hgt];
    rewrite length_app in *.
  - rewrite (store_ret buf off bs1) by lia. simpl.
    rewrite !store_ret by solve_length.
    f_equal. rewrite length_app, !app_assoc. f_equal.
    + f_equal. rewrite take_app_le, take_ge by solve_length. done.
    + rewrite drop_app_ge by solve_length.
      rewrite drop_drop. f_equal. solve_length.
  - rewrite (store_oob buf off (bs1 ++ bs2)) by solve_length.
    destruct (decide (off + length bs1 ≤ length buf)%nat).
    + rewrite (store_ret buf off bs1) by lia. apply store_oob. solve_length.
    + by rewrite (store_oob buf off bs1) by lia.
Qed.

Lemma store_store buf off off2 bs1 bs2 :
  off2 = (off + length bs1)%nat →
  (buf' ← store buf off bs1; store buf' off2 bs2) = store buf off (bs1 ++ bs2).
Proof. intros ->. apply store_app. Qed.

Section Codec.
Context `{Platform}.

Lemma store_shifted_le buf off val i n :
  store_shifted buf off val i (S n) =
  store buf (off + i) (le_bytes (S n) (Z.shiftr val (8 * Z.of_nat i))).
Proof.
  revert buf i. induction n as [|n IH]; intros buf i.
  - cbn -[store Z.of_nat]. by rewrite outcome_bind_ret_r, byte_of_Z_land.
  - change (store_shifted buf off val i (S (S n))) with
      (buf' ← store buf (off + i) [byte_of_Z (Z.land (Z.shiftr val (8 * Z.of_nat i)) 255)];
       store_shifted buf' off val (S i) (S n)).
    rewrite byte_of_Z_land.
    change (le_bytes (S (S n)) (Z.shiftr val (8 * Z.of_nat i))) with
      ([byte_of_Z (Z.shiftr val (8 * Z.of_nat i))] ++
       le_bytes (S n) (Z.shiftr (Z.shiftr val (8 * Z.of_nat i)) 8)).
    rewrite <-store_app. destruct (store _ _ _) as [buf'| |]; [|done..]. simpl_bind.
    rewrite IH, Z.shiftr_shiftr by lia. f_equal; [simpl; lia|]. do 2 f_equal. lia.
Qed.

Lemma write_uint32_LE_le buf off v : write_uint32_LE buf off v = store buf off (le_bytes 4 v).
Proof.
  unfold write_uint32_LE, native_bytes. destruct big_endian.
  - rewrite store_shifted_le, Nat.add_0_r. by rewrite Z.shiftr_0_r.
  - by rewrite le_bytes_u32.
Qed.

Lemma write_uint64_LE_le buf off v : write_uint64_LE buf off v = store buf off (le_bytes 8 v).
Proof.
  unfold write_uint64_LE, native_bytes. destruct big_endian.
  - rewrite store_shifted_le, Nat.add_0_r. by rewrite Z.shiftr_0_r.
  - by rewrite le_bytes_u64.
Qed.

Lemma le_value_4 b0 b1 b2 b3 :
  u32 (Z.lor (Z.lor (Z.lor (byte_to_Z b0) (Z.shiftl (byte_to_Z b1) 8))
                    (Z.shiftl (byte_to_Z b2) 16)) (Z.shiftl (byte_to_Z b3) 24))
  = le_value [b0; b1; b2; b3].
Proof.
  pose proof (byte_to_Z_range b0). pose proof (byte_to_Z_range b1).
  pose proof (byte_to_Z_range b2). pose proof (byte_to_Z_range b3).
  rewrite (lor_shiftl_add _ _ 8) by lia. rewrite (lor_shiftl_add _ _ 16) by lia.
  rewrite (lor_shiftl_add _ _ 24) by lia. simpl le_value. rewrite u32_small; [lia|unfold is_u32; lia].
Qed.

Lemma read_uint32_LE_le buf off :
  read_uint32_LE buf off = (bs ← load buf off 4; Ret (le_value bs)).
Proof.
  unfold read_uint32_LE, native_value. destruct big_endian; [|done].
  destruct (decide (off + 4 ≤ length buf)%nat) as [Hle|]; [|by rewrite load_oob by lia].
  rewrite load_ret by lia. simpl_bind.
  assert (length (take 4 (drop off buf)) = 4%nat) as Hlen by solve_length.
  destruct (take 4 (drop off buf)) as [|b0 [|b1 [|b2 [|b3 [|b4 bs]]]]]; try done.
  by rewrite le_value_4.
Qed.

Lemma read_uint32_LE_middle pre v post off :
  is_u32 v → off = length pre →
  read_uint32_LE (pre ++ le_bytes 4 v ++ post) off = Ret v.
Proof.
  intros Hv ->. rewrite read_uint32_LE_le, load_middle by (by rewrite ?length_le_bytes).
  simpl_bind. by rewrite le_value_u32.
Qed.

(** The byte layout of a service call, as the protocol document gives it. *)
Definition ServiceResponse_bytes (r : ServiceResponse) : list byte :=
  le_bytes 4 (service_id r) ++ le_bytes 4 (call_id r) ++
  le_bytes 4 (Z.of_nat (String.length (sr_encoding r))) ++
  bytes_of_string (sr_encoding r) ++ serv_data r.

Definition ServiceResponse_wf (r : ServiceResponse) : Prop :=
  is_u32 (service_id r) ∧ is_u32 (call_id r) ∧
  Z.of_nat (String.length (sr_encoding r)) ≤ MAX_ENCODING_LENGTH.

Lemma ServiceResponse_write_bytes r buf base :
  ServiceResponse_write r buf base = store buf base (ServiceResponse_bytes r).
Proof.
  unfold ServiceResponse_write, ServiceResponse_bytes.
  rewrite write_uint32_LE_le, <-store_app, length_le_bytes.
  destruct (store buf base _) as [b1| |]; [|done..]. simpl_bind.
  rewrite write_uint32_LE_le, <-store_app, length_le_bytes.
  destruct (store b1 _ _) as [b2| |]; [|done..]. simpl_bind.
  rewrite write_uint32_LE_le, le_bytes_u32, <-store_app, length_le_bytes.
  destruct (store b2 _ _) as [b3| |]; [|done..]. simpl_bind.
  by rewrite <-store_app, length_bytes_of_string.
Qed.

Lemma length_ServiceResponse_bytes r :
  length (ServiceResponse_bytes r) = ServiceResponse_size r.
Proof.
  unfold ServiceResponse_bytes, ServiceResponse_size.
  autorewrite with lens. lia.
Qed.

Lemma read_uint32_LE_at pre bs post off :
  off = length pre → length bs = 4%nat →
  read_uint32_LE (pre ++ bs ++ post) off = Ret (le_value bs).
Proof. intros -> Hbs. by rewrite read_uint32_LE_le, load_middle. Qed.

(** [read] on a buffer cut at the header fields. *)
Lemma ServiceResponse_read_split a b c rest :
  length a = 4%nat → length b = 4%nat → length c = 4%nat →
  (le_value c ≤ MAX_ENCODING_LENGTH ∧ le_value c ≤ Z.of_nat (length rest) ∧
   ServiceResponse_read (a ++ b ++ c ++ rest) =
     Ret {| service_id := le_value a; call_id := le_value b;
            sr_encoding := string_of_bytes (take (Z.to_nat (le_value c)) rest);
            serv_data := drop (Z.to_nat (le_value c)) rest |})
  ∨ ((MAX_ENCODING_LENGTH < le_value c ∨ Z.of_nat (length rest) < le_value c) ∧
     ∃ what, ServiceResponse_read (a ++ b ++ c ++ rest) = Throw (RuntimeError what)).
Proof.
  intros Ha Hb Hc. unfold ServiceResponse_read.
  rewrite (proj2 (Z.ltb_ge _ 12)) by solve_length.
  rewrite (read_uint32_LE_at [] a (b ++ c ++ rest) 0 eq_refl Ha
             : read_uint32_LE (a ++ b ++ c ++ rest) 0 = _). simpl_bind.
  rewrite (read_uint32_LE_at a b _ 4) by solve_length. simpl_bind.
  rewrite (app_assoc a b), (read_uint32_LE_at (a ++ b) c _ 8) by solve_length. simpl_bind.
  rewrite <-(app_assoc a b).
  destruct (Z.gtb_spec (le_value c) MAX_ENCODING_LENGTH) as [|Hmax];
    [right; split; [lia|by eexists]|].
  destruct (Z.gtb_spec (12 + le_value c) (Z.of_nat (length (a ++ b ++ c ++ rest)))) as [|Hfit];
    [right; split; [solve_length|by eexists]|].
  left. pose proof (le_value_range c).
  split; [done|]. split; [solve_length|].
  rewrite !(app_assoc a), !(app_assoc _ c).
  rewrite load_ret by solve_length. simpl_bind. rewrite load_ret by solve_length. simpl_bind.
  do 2 f_equal.
  - f_equal. rewrite drop_app_length' by solve_length. done.
  - rewrite take_ge by solve_length. rewrite drop_app_ge by solve_length. f_equal. solve_length.
Qed.

Lemma split_header (data : list byte) :
  (12 ≤ length data)%nat →
  ∃ a b c rest, data = a ++ b ++ c ++ rest ∧
    length a = 4%nat ∧ length b = 4%nat ∧ length c = 4%nat.
Proof.
  intros Hlen.
  exists (take 4 data), (take 4 (drop 4 data)), (take 4 (drop 8 data)), (drop 12 data).
  split_and!; [|solve_length..].
  rewrite <-(take_drop 4 data) at 1. f_equal.
  rewrite <-(take_drop 4 (drop 4 data)) at 1. rewrite drop_drop. f_equal.
  rewrite <-(take_drop 4 (drop (4 + 4) data)) at 1. by rewrite drop_drop.
Qed.

Lemma ServiceResponse_read_bytes r :
  ServiceResponse_wf r → ServiceResponse_read (ServiceResponse_bytes r) = Ret r.
Proof.
  intros (Hs & Hc & He). unfold ServiceResponse_bytes.
  assert (is_u32 (Z.of_nat (String.length (sr_encoding r)))) as Hn.
  { unfold is_u32, MAX_ENCODING_LENGTH in *. lia. }
  destruct (ServiceResponse_read_split
    (le_bytes 4 (service_id r)) (le_bytes 4 (call_id r))
    (le_bytes 4 (Z.of_nat (String.length (sr_encoding r))))
    (bytes_of_string (sr_encoding r) ++ serv_data r))
    as [(_ & _ & ->)|([]&_)]; rewrite ?length_le_bytes; try done.
  - rewrite !le_value_u32, Nat2Z.id by done.
    rewrite <-length_bytes_of_string at 1 2.
    rewrite take_app_length, drop_app_length, string_of_bytes_of_string. by destruct r.
  - rewrite le_value_u32 in * by done. lia.
  - rewrite le_value_u32 in * by done. rewrite length_app, length_bytes_of_string in *. lia.
Qed.

Lemma ServiceResponse_read_inv data r :
  ServiceResponse_read data = Ret r → ServiceResponse_bytes r = data ∧ ServiceResponse_wf r.
Proof.
  intros Hr. destruct (decide (12 ≤ length data)%nat) as [Hlen|Hlen].
  2:{ unfold ServiceResponse_read in Hr. by rewrite (proj2 (Z.ltb_lt _ 12)) in Hr by lia. }
  destruct (split_header data) as (a & b & c & rest & -> & Ha & Hb & Hc); [done|].
  destruct (ServiceResponse_read_split a b c rest) as [(H1 & H2 & E)|(_ & what & E)];
    [done..| |congruence].
  rewrite E in Hr. simplify_eq.
  pose proof (le_value_range a). pose proof (le_value_range b). pose proof (le_value_range c).
  unfold ServiceResponse_bytes, ServiceResponse_wf, is_u32.
  cbn [service_id call_id sr_encoding serv_data].
  rewrite length_string_of_bytes, bytes_of_string_of_bytes, length_take.
  rewrite Nat.min_l, Z2Nat.id by lia.
  rewrite !le_bytes_le_value' by done. rewrite take_drop.
  rewrite Ha, Hb in *. split_and!; auto; lia.
Qed.

(** *** Layout of the frames *)

#[local] Hint Rewrite length_ServiceResponse_bytes : lens.
#[local] Arguments ServiceResponse_bytes : simpl never.
#[local] Arguments ServiceResponse_size : simpl never.

Lemma message_data_frame_layout sub_id timestamp payload :
  message_data_frame sub_id timestamp payload =
  Ret (x01 :: le_bytes 4 sub_id ++ le_bytes 8 timestamp ++ payload).
Proof.
  unfold message_data_frame.
  rewrite store_ret by solve_length. simpl_bind.
  rewrite write_uint32_LE_le, store_ret by solve_length. simpl_bind.
  rewrite write_uint64_LE_le, store_ret by solve_length. simpl_bind.
  rewrite !length_le_bytes. by cbn.
Qed.

Lemma time_data_frame_layout timestamp :
  time_data_frame timestamp = Ret (x02 :: le_bytes 8 timestamp).
Proof.
  unfold time_data_frame. rewrite store_ret by solve_length. simpl_bind.
  rewrite write_uint64_LE_le, store_ret by solve_length.
  rewrite length_le_bytes. by cbn.
Qed.

(** An opcode byte followed by a [ServiceResponse], both directions. *)
Lemma opcode_service_layout op r :
  (payload ← store (replicate (1 + ServiceResponse_size r) x00) 0 [op];
   ServiceResponse_write r payload 1) = Ret (op :: ServiceResponse_bytes r).
Proof.
  rewrite store_ret by solve_length. simpl_bind.
  rewrite ServiceResponse_write_bytes.
  rewrite store_ret by solve_length.
  f_equal. rewrite length_ServiceResponse_bytes. simpl.
  rewrite drop_ge by solve_length. by rewrite app_nil_r.
Qed.

Lemma service_response_frame_layout r :
  service_response_frame r = Ret (x03 :: ServiceResponse_bytes r).
Proof. apply opcode_service_layout. Qed.

Lemma client_service_request_layout r :
  client_service_request_frame r = Ret (x02 :: ServiceResponse_bytes r).
Proof. apply opcode_service_layout. Qed.

Lemma client_publish_layout channel_id buffer :
  client_publish_frame channel_id buffer = Ret (x01 :: le_bytes 4 channel_id ++ buffer).
Proof.
  unfold client_publish_frame.
  rewrite store_ret by solve_length. simpl_bind. rewrite write_uint32_LE_le.
  rewrite (store_store _ 1 (1 + 4) _ buffer) by (by rewrite length_le_bytes).
  rewrite store_ret by solve_length.
  f_equal. rewrite (drop_ge _ (1 + length (le_bytes _ _ ++ _))) by solve_length.
  by rewrite app_nil_r.
Qed.

Lemma fetch_asset_frame_layout r :
  fetch_asset_frame r =
  Ret (x04 :: le_bytes 4 (fa_request_id r) ++ [byte_of_Z (fa_status r)] ++
       le_bytes 4 (Z.of_nat (String.length (fa_error_message r))) ++
       (if fa_status r =? FetchAssetStatus_Error then bytes_of_string (fa_error_message r) else []) ++
       (if fa_status r =? FetchAssetStatus_Success then fa_data r else [])).
Proof.
  unfold fetch_asset_frame.
  rewrite write_uint32_LE_le, store_full by (by rewrite length_le_bytes). simpl_bind.
  rewrite write_uint32_LE_le, le_bytes_u32, store_full by (by rewrite !length_le_bytes). simpl_bind.
  rewrite (load_ret (bytes_of_string _)) by (rewrite ?length_bytes_of_string; case_match; lia). simpl_bind.
  rewrite (load_ret (fa_data r)) by (case_match; lia). simpl_bind. rewrite !drop_0.
  f_equal. cbn [app]. rewrite <-!app_assoc. f_equal. f_equal. cbn [app]. do 3 f_equal; case_match; rewrite ?take_0; auto.
  - by rewrite <-length_bytes_of_string, firstn_all.
  - by rewrite firstn_all.
Qed.

(** A response whose error text and payload agree with its status, as both
    bridges build it. *)
Definition FetchAssetResponse_wf (r : FetchAssetResponse) : Prop :=
  is_u32 (fa_request_id r) ∧ is_u32 (Z.of_nat (String.length (fa_error_message r))) ∧
  ((fa_status r = FetchAssetStatus_Success ∧ fa_error_message r = EmptyString) ∨
   (fa_status r = FetchAssetStatus_Error ∧ fa_data r = [])).

Lemma fetch_asset_frame_wf r :
  FetchAssetResponse_wf r →
  fetch_asset_frame r =
  Ret (x04 :: le_bytes 4 (fa_request_id r) ++ [byte_of_Z (fa_status r)] ++
       le_bytes 4 (Z.of_nat (String.length (fa_error_message r))) ++
       bytes_of_string (fa_error_message r) ++ fa_data r)
  ∧ byte_to_Z (byte_of_Z (fa_status r)) = fa_status r.
Proof.
  intros (_ & _ & [[Hs He]|[Hs He]]); rewrite fetch_asset_frame_layout, Hs, He; split; done.
Qed.

Lemma decode_fetch_asset_fields rid st nb err dat :
  length rid = 4%nat → length nb = 4%nat → le_value nb = Z.of_nat (length err) →
  decode_fetch_asset_response (x04 :: rid ++ [st] ++ nb ++ err ++ dat) =
  Ret (Some {| fa_request_id := le_value rid; fa_status := byte_to_Z st;
               fa_error_message := string_of_bytes err; fa_data := dat |}).
Proof.
  intros Hrid Hnb Hn. unfold decode_fetch_asset_response.
  rewrite load_head. simpl_bind. change (negb _) with false. cbv iota. rewrite !read_uint32_LE_le.
  remember (x04 :: rid ++ [st] ++ nb ++ err ++ dat) as buf eqn:Hbuf.
  rewrite (load_at [x04] rid ([st] ++ nb ++ err ++ dat) buf 1) by solve_at. simpl_bind.
  rewrite (load_at (x04 :: rid) [st] (nb ++ err ++ dat) buf (1 + 4)) by solve_at. simpl_bind.
  rewrite (load_at (x04 :: rid ++ [st]) nb (err ++ dat) buf (1 + 4 + 1) 4) by solve_at. simpl_bind.
  rewrite Hn, Nat2Z.id.
  rewrite (load_at (x04 :: rid ++ [st] ++ nb) err dat buf (1 + 4 + 1 + 4)) by solve_at. simpl_bind.
  rewrite (load_at (x04 :: rid ++ [st] ++ nb ++ err) dat [] buf) by solve_at. simpl_bind.
  cbn [le_value]. by rewrite Z.mul_0_r, Z.add_0_r.
Qed.

Lemma ServiceResponse_read_defined data : ServiceResponse_read data ≠ Undefined.
Proof.
  destruct (decide (12 ≤ length data)%nat) as [Hlen|Hlen].
  - destruct (split_header data Hlen) as (a & b & c & rest & -> & Ha & Hb & Hc).
    destruct (ServiceResponse_read_split a b c rest) as [(_ & _ & ->)|(_ & what & ->)]; done.
  - unfold ServiceResponse_read. by rewrite (proj2 (Z.ltb_lt _ 12)) by lia.
Qed.

(** *** Properties *)

(** Parsing a service call never reads outside the buffer, whatever bytes and
    length the peer sent: it returns or throws. *)
Theorem service_read_memory_safe (data : list byte) : ServiceResponse_read data ≠ Undefined.
Proof. apply ServiceResponse_read_defined. Qed.

(** C34. [read] accepts a buffer and returns [r] exactly when the buffer is what [write]
    makes of [r] in any buffer of the size [size] gives, and [r] is a message [read] can
    carry (ids of 32 bits and an encoding of at most [MAX_ENCODING_LENGTH] bytes).  That
    bound is [read]'s alone: a message with a longer encoding is written all the same, and
    [read] refuses what was written. *)
Theorem service_read_accepts_iff (data : list byte) (r : ServiceResponse) :
  (ServiceResponse_read data = Ret r ↔
   ServiceResponse_wf r ∧
   ∀ buf, length buf = ServiceResponse_size r → ServiceResponse_write r buf 0 = Ret data) ∧
  (MAX_ENCODING_LENGTH < Z.of_nat (String.length (sr_encoding r)) < 2 ^ 32 →
   ∀ buf, length buf = ServiceResponse_size r →
     ∃ written what, ServiceResponse_write r buf 0 = Ret written ∧
       ServiceResponse_read written = Throw (RuntimeError what)).
Proof.
  assert (∀ buf, length buf = ServiceResponse_size r →
            ServiceResponse_write r buf 0 = Ret (ServiceResponse_bytes r)) as Hw.
  { intros buf Hb. rewrite ServiceResponse_write_bytes. apply store_full.
    by rewrite length_ServiceResponse_bytes. }
  split.
  - split.
    + by intros [<- ?]%ServiceResponse_read_inv.
    + intros [Hwf Hall]. specialize (Hall (replicate (ServiceResponse_size r) x00)).
      rewrite Hw in Hall by apply length_replicate.
      rewrite <-(ServiceResponse_read_bytes r Hwf). specialize (Hall (length_replicate _ _)).
      by injection Hall as <-.
  - intros Hlong buf Hb. exists (ServiceResponse_bytes r).
    destruct (ServiceResponse_read_split
      (le_bytes 4 (service_id r)) (le_bytes 4 (call_id r))
      (le_bytes 4 (Z.of_nat (String.length (sr_encoding r))))
      (bytes_of_string (sr_encoding r) ++ serv_data r))
      as [(Hle & _)|(_ & what & E)]; try apply length_le_bytes.
    { rewrite le_value_u32 in Hle by (unfold is_u32; lia). lia. }
    exists what. split; [by apply Hw|exact E].
Qed.

(** The frame the server sends for a service response is decoded by the client
    into the same response. *)
Theorem service_response_roundtrip (r : ServiceResponse) :
  ServiceResponse_wf r →
  (frame ← service_response_frame r; decode_service_response frame) = Ret (Some r).
Proof.
  intros Hr. rewrite service_response_frame_layout. simpl_bind.
  unfold decode_service_response.
  rewrite load_head. simpl_bind. change (le_value [x03]) with 3. cbn [BinaryOpcode_value negb Z.eqb].
  change (drop 1 (x03 :: ?l)) with l.
  by rewrite (ServiceResponse_read_bytes r Hr).
Qed.

Lemma message_data_decode (sub_id timestamp : Z) (payload : list byte) :
  is_u32 sub_id →
  message_data_frame sub_id timestamp payload =
    Ret (x01 :: le_bytes 4 sub_id ++ le_bytes 8 timestamp ++ payload)
  ∧ (frame ← message_data_frame sub_id timestamp payload; decode_channel_msg sub_id frame)
    = Ret (Some payload).
Proof.
  intros Hid. rewrite message_data_frame_layout. split; [done|]. simpl_bind.
  unfold decode_channel_msg.
  rewrite (read_uint32_LE_middle [x01] sub_id _ 1 Hid eq_refl
             : read_uint32_LE (x01 :: le_bytes 4 sub_id ++ _) 1 = _).
  simpl_bind. rewrite Z.eqb_refl. cbn [negb].
  rewrite decide_False by solve_length.
  rewrite load_ret by solve_length. simpl_bind. do 2 f_equal.
  change (x01 :: ?l) with ([x01] ++ l). rewrite !app_assoc, drop_app_length' by solve_length.
  apply take_ge. solve_length.
Qed.

(** A message frame carries the subscription id, the timestamp and the payload
    at the documented offsets, and the subscribed client gets the payload back. *)
Theorem message_data_roundtrip (sub_id timestamp : Z) (payload : list byte) :
  is_u32 sub_id →
  message_data_frame sub_id timestamp payload =
    Ret (x01 :: le_bytes 4 sub_id ++ le_bytes 8 timestamp ++ payload)
  ∧ (frame ← message_data_frame sub_id timestamp payload; decode_channel_msg sub_id frame)
    = Ret (Some payload).
Proof. apply message_data_decode. Qed.

(** An asset response is decoded by the client into the same response. *)
Theorem fetch_asset_roundtrip (r : FetchAssetResponse) :
  FetchAssetResponse_wf r →
  (frame ← fetch_asset_frame r; decode_fetch_asset_response frame) = Ret (Some r).
Proof.
  intros Hr. destruct (fetch_asset_frame_wf r Hr) as [-> Hst].
  destruct Hr as (Hid & Herr & _). simpl_bind.
  rewrite decode_fetch_asset_fields by (rewrite ?le_value_u32 by done; solve_length).
  rewrite le_value_u32, Hst, string_of_bytes_of_string by done. by destruct r.
Qed.

End Codec.

(** The bytes on the wire do not depend on the byte order of the machine. *)
Theorem wire_platform_independent (p q : Platform) buf off v :
  @write_uint32_LE p buf off v = @write_uint32_LE q buf off v ∧
  @write_uint64_LE p buf off v = @write_uint64_LE q buf off v ∧
  @read_uint32_LE p buf off = @read_uint32_LE q buf off.
Proof.
  rewrite !write_uint32_LE_le, !write_uint64_LE_le, !read_uint32_LE_le. done.
Qed.

(** *** Witnesses *)

Definition sample_response : ServiceResponse :=
  {| service_id := 123; call_id := 456; sr_encoding := "cdr"; serv_data := [xaa; xbb; xcc] |}.

Lemma sample_response_wf : ServiceResponse_wf sample_response.
Proof. by vm_compute. Qed.

Lemma service_response_roundtrip_witness :
  ServiceResponse_wf sample_response ∧
  (frame ← @service_response_frame s390x sample_response; @decode_service_response s390x frame)
    = Ret (Some sample_response).
Proof.
  split; [exact sample_response_wf|].
  apply (@service_response_roundtrip s390x sample_response sample_response_wf).
Defined.

Lemma message_data_roundtrip_witness :
  is_u32 7 ∧
  (frame ← @message_data_frame x86_64 7 1000 [x2a]; @decode_channel_msg x86_64 7 frame)
    = Ret (Some [x2a]).
Proof.
  assert (is_u32 7) as H7 by (unfold is_u32; lia).
  split; [exact H7|]. apply (@message_data_roundtrip x86_64 7 1000 [x2a] H7).
Defined.

Definition sample_asset : FetchAssetResponse :=
  {| fa_request_id := 9; fa_status := FetchAssetStatus_Error;
     fa_error_message := "Failed to retrieve asset x"; fa_data := [] |}.

Lemma sample_asset_wf : FetchAssetResponse_wf sample_asset.
Proof.
  repeat split; try (by vm_compute). right. done.
Qed.

Lemma fetch_asset_roundtrip_witness :
  FetchAssetResponse_wf sample_asset ∧
  (frame ← @fetch_asset_frame x86_64 sample_asset; @decode_fetch_asset_response x86_64 frame)
    = Ret (Some sample_asset).
Proof.
  split; [exact sample_asset_wf|].
  apply (@fetch_asset_roundtrip x86_64 sample_asset sample_asset_wf).
Defined.
