(* ===== verification/Base64.v ===== *)
(** * Base64 ([cobridge_base/src/base64.cpp])

    The encoder over byte triples and the decoder as the state machine of the
    source: position in the quad, the 32-bit accumulator [temp], which is never
    reset between quads, and the output so far. *)

From Stdlib Require Import ZArith Lia.
From S2P Require Import Prelude Wire.

Local Open Scope Z_scope.

(** ** Definitions *)

Definition ALPHABET : list byte :=
  bytes_of_string "ABCDEFGHIJKLMNOPQRSTUVWXYZabcdefghijklmnopqrstuvwxyz0123456789+/".

(** [ALPHABET\[i\]]. *)
Definition alphabet_at (i : Z) : outcome byte :=
  match ALPHABET !! Z.to_nat i with
  | Some c => Ret c
  | None => Undefined
  end.

Definition kPadCharacter : byte := x3d.

Fixpoint base64_encode_bytes (data : list byte) : outcome (list byte) :=
  match data with
  | d0 :: d1 :: d2 :: rest =>
      c0 ← alphabet_at (Z.shiftr (byte_to_Z d0) 2);
      c1 ← alphabet_at (Z.lor (Z.shiftl (Z.land (byte_to_Z d0) 3) 4)
                              (Z.shiftr (byte_to_Z d1) 4));
      c2 ← alphabet_at (Z.lor (Z.shiftl (Z.land (byte_to_Z d1) 15) 2)
                              (Z.shiftr (byte_to_Z d2) 6));
      c3 ← alphabet_at (Z.land (byte_to_Z d2) 63);
      cs ← base64_encode_bytes rest;
      Ret (c0 :: c1 :: c2 :: c3 :: cs)
  | [d0; d1] =>
      c0 ← alphabet_at (Z.shiftr (byte_to_Z d0) 2);
      c1 ← alphabet_at (Z.lor (Z.shiftl (Z.land (byte_to_Z d0) 3) 4)
                              (Z.shiftr (byte_to_Z d1) 4));
      c2 ← alphabet_at (Z.shiftl (Z.land (byte_to_Z d1) 15) 2);
      Ret [c0; c1; c2; kPadCharacter]
  | [d0] =>
      c0 ← alphabet_at (Z.shiftr (byte_to_Z d0) 2);
      c1 ← alphabet_at (Z.shiftl (Z.land (byte_to_Z d0) 3) 4);
      Ret [c0; c1; kPadCharacter; kPadCharacter]
  | [] => Ret []
  end.

Definition base64_encode (input : list byte) : outcome string :=
  cs ← base64_encode_bytes input; Ret (string_of_bytes cs).

Section Decode.
Context `{Platform}.

(** The value of a [char] in a comparison. *)
Definition char_value (b : byte) : Z :=
  if char_signed && (byte_to_Z b >=? 128) then byte_to_Z b - 256 else byte_to_Z b.

(** The five digit branches of the decoder; [None] falls through. *)
Definition base64_digit (c : Z) : option Z :=
  if (c >=? 0x41) && (c <=? 0x5A) then Some (c - 0x41)
  else if (c >=? 0x61) && (c <=? 0x7A) then Some (c - 0x47)
  else if (c >=? 0x30) && (c <=? 0x39) then Some (c + 0x04)
  else if c =? 0x2B then Some 0x3E
  else if c =? 0x2F then Some 0x3F
  else None.

(** [it] is the unread input, [i] the position in the current quad. *)
Fixpoint base64_decode_loop (it : list byte) (i : nat) (temp : Z) (decoded : list byte) :
    outcome (list byte) :=
  match it with
  | [] => if decide (i = 0%nat) then Ret decoded else Undefined
  | c :: rest =>
      let temp := u32 (Z.shiftl temp 6) in
      match base64_digit (char_value c) with
      | Some d =>
          let temp := Z.lor temp d in
          if decide (i = 3%nat) then
            base64_decode_loop rest 0 temp
              (decoded ++ [byte_of_Z (Z.land (Z.shiftr temp 16) 255);
                           byte_of_Z (Z.land (Z.shiftr temp 8) 255);
                           byte_of_Z (Z.land temp 255)])
          else base64_decode_loop rest (S i) temp decoded
      | None =>
          if char_value c =? byte_to_Z kPadCharacter then
            match length (c :: rest) with
            | 1%nat => Ret (decoded ++ [byte_of_Z (Z.land (Z.shiftr temp 16) 255);
                                        byte_of_Z (Z.land (Z.shiftr temp 8) 255)])
            | 2%nat => Ret (decoded ++ [byte_of_Z (Z.land (Z.shiftr temp 10) 255)])
            | _ => Throw (RuntimeError "Invalid padding in base64!")
            end
          else Throw (RuntimeError "Invalid character in base64!")
      end
  end.

Definition base64_decode (input : string) : outcome (list byte) :=
  if negb (Z.of_nat (String.length input) mod 4 =? 0)
  then Throw (RuntimeError "Invalid base64 length!")
  else base64_decode_loop (bytes_of_string input) 0 0 [].

End Decode.

Example base64_encode_ex : base64_encode (bytes_of_string "Man!") = Ret "TWFuIQ==".
Proof. vm_compute. reflexivity. Qed.
Example base64_decode_ex : @base64_decode x86_64 "TWFuIQ==" = Ret (bytes_of_string "Man!").
Proof. vm_compute. reflexivity. Qed.

(** ** The alphabet and the accumulator *)

Section Facts.
Context `{Platform}.

Lemma alphabet_digits :
  Forall (λ n, match alphabet_at (Z.of_nat n) with
               | Ret c => base64_digit (char_value c) = Some (Z.of_nat n)
               | _ => False
               end) (seq 0 64).
Proof. destruct H as [be []]; repeat constructor. Qed.

(** Every sextet has a letter, which decodes to it. *)
Lemma alphabet_at_digit i :
  0 ≤ i < 64 → ∃ c, alphabet_at i = Ret c ∧ base64_digit (char_value c) = Some i.
Proof.
  intros Hi. pose proof alphabet_digits as Hall. rewrite Forall_forall in Hall.
  specialize (Hall (Z.to_nat i) ltac:(apply elem_of_seq; lia)).
  rewrite Z2Nat.id in Hall by lia. destruct (alphabet_at i) as [c| |]; [eauto|done..].
Qed.

Lemma pad_not_digit : base64_digit (char_value kPadCharacter) = None
  ∧ char_value kPadCharacter = byte_to_Z kPadCharacter.
Proof. destruct H as [be []]; done. Qed.

Lemma accumulate t d :
  0 ≤ d < 64 → Z.lor (u32 (Z.shiftl t 6)) d = u32 (64 * t + d).
Proof.
  intros Hd. rewrite Z.shiftl_mul_pow2 by lia. unfold u32.
  assert (t * 2 ^ 6 mod 2 ^ 32 = Z.shiftl (t mod 2 ^ 26) 6) as ->.
  { rewrite Z.shiftl_mul_pow2 by lia. change (2 ^ 32) with (2 ^ 26 * 2 ^ 6).
    by rewrite Z.mul_mod_distr_r by lia. }
  rewrite Z.lor_comm, lor_shiftl_add by lia.
  apply (Z.mod_unique_pos _ _ (t / 2 ^ 26)); Z.div_mod_to_equations; lia.
Qed.

Lemma byte_of_Z_u32 t v k :
  k = 0 ∨ k = 8 ∨ k = 16 → 0 ≤ v →
  byte_of_Z (Z.land (Z.shiftr (u32 (2 ^ 24 * t + v)) k) 255) = byte_of_Z (v / 2 ^ k).
Proof.
  intros Hk Hv. rewrite byte_of_Z_land. apply byte_to_Z_inj. rewrite !byte_to_of_Z.
  unfold u8, u32. rewrite Z.shiftr_div_pow2 by lia.
  destruct Hk as [->|[->| ->]]; Z.div_mod_to_equations; lia.
Qed.

Lemma u32_accumulate x d : u32 (64 * u32 x + d) = u32 (64 * x + d).
Proof. unfold u32. by rewrite Z.add_mod, Z.mul_mod_idemp_r, <-Z.add_mod by lia. Qed.

Lemma decode_digit c rest i temp decoded d :
  base64_digit (char_value c) = Some d → 0 ≤ d < 64 →
  base64_decode_loop (c :: rest) i temp decoded =
    let temp := u32 (64 * temp + d) in
    if decide (i = 3%nat) then
      base64_decode_loop rest 0 temp
        (decoded ++ [byte_of_Z (Z.land (Z.shiftr temp 16) 255);
                     byte_of_Z (Z.land (Z.shiftr temp 8) 255);
                     byte_of_Z (Z.land temp 255)])
    else base64_decode_loop rest (S i) temp decoded.
Proof. intros Hc Hd. cbn [base64_decode_loop]. by rewrite Hc, accumulate. Qed.

(** The sextets of three bytes. *)
Definition sextet0 (b0 : byte) : Z := byte_to_Z b0 / 4.
Definition sextet1 (b0 b1 : byte) : Z := (byte_to_Z b0 mod 4) * 16 + byte_to_Z b1 / 16.
Definition sextet2 (b1 b2 : byte) : Z := (byte_to_Z b1 mod 16) * 4 + byte_to_Z b2 / 64.
Definition sextet3 (b2 : byte) : Z := byte_to_Z b2 mod 64.

Ltac sextets :=
  unfold sextet0, sextet1, sextet2, sextet3;
  repeat match goal with b : byte |- _ =>
    lazymatch goal with
    | _ : 0 ≤ byte_to_Z b < _ |- _ => fail
    | _ => pose proof (byte_to_Z_range b)
    end
  end;
  Z.div_mod_to_equations; lia.

Lemma sextet0_spec b0 : Z.shiftr (byte_to_Z b0) 2 = sextet0 b0 ∧ 0 ≤ sextet0 b0 < 64.
Proof. rewrite Z.shiftr_div_pow2 by lia. sextets. Qed.

Lemma sextet1_spec b0 b1 :
  Z.lor (Z.shiftl (Z.land (byte_to_Z b0) 3) 4) (Z.shiftr (byte_to_Z b1) 4) = sextet1 b0 b1
  ∧ 0 ≤ sextet1 b0 b1 < 64.
Proof.
  pose proof (byte_to_Z_range b1).
  rewrite Z.lor_comm, Z.shiftr_div_pow2, lor_shiftl_add by (Z.div_mod_to_equations; lia).
  change 3 with (Z.ones 2). rewrite Z.land_ones by lia. sextets.
Qed.

Lemma sextet2_spec b1 b2 :
  Z.lor (Z.shiftl (Z.land (byte_to_Z b1) 15) 2) (Z.shiftr (byte_to_Z b2) 6) = sextet2 b1 b2
  ∧ 0 ≤ sextet2 b1 b2 < 64.
Proof.
  pose proof (byte_to_Z_range b2).
  rewrite Z.lor_comm, Z.shiftr_div_pow2, lor_shiftl_add by (Z.div_mod_to_equations; lia).
  change 15 with (Z.ones 4). rewrite Z.land_ones by lia. sextets.
Qed.

Lemma sextet3_spec b2 : Z.land (byte_to_Z b2) 63 = sextet3 b2 ∧ 0 ≤ sextet3 b2 < 64.
Proof. change 63 with (Z.ones 6). rewrite Z.land_ones by lia. sextets. Qed.

(** The short groups are the long ones with zero bytes. *)
Lemma sextet1_pad b0 : Z.shiftl (Z.land (byte_to_Z b0) 3) 4 = sextet1 b0 x00.
Proof. by rewrite <-(proj1 (sextet1_spec b0 x00)), Z.lor_0_r. Qed.
Lemma sextet2_pad b1 : Z.shiftl (Z.land (byte_to_Z b1) 15) 2 = sextet2 b1 x00.
Proof. by rewrite <-(proj1 (sextet2_spec b1 x00)), Z.lor_0_r. Qed.

Lemma sextets_value b0 b1 b2 :
  64 * (64 * (64 * sextet0 b0 + sextet1 b0 b1) + sextet2 b1 b2) + sextet3 b2 =
  byte_to_Z b0 * 2 ^ 16 + byte_to_Z b1 * 2 ^ 8 + byte_to_Z b2.
Proof. sextets. Qed.

(** [decode_letter] decodes the next letter of the goal with [decode_digit]. *)
Ltac decode_letter :=
  match goal with
  | E : base64_digit (char_value ?c) = Some ?d
    |- context [base64_decode_loop (?c :: _) _ _ _] =>
      rewrite (decode_digit c _ _ _ _ d E) by auto; cbv zeta;
      rewrite ?u32_accumulate;
      first [rewrite decide_False by done | rewrite decide_True by done]
  end.

(** One full group: the letters of three bytes decode to them, from any
    accumulator. *)
Lemma decode_group b0 b1 b2 c0 c1 c2 c3 rest temp decoded :
  base64_digit (char_value c0) = Some (sextet0 b0) →
  base64_digit (char_value c1) = Some (sextet1 b0 b1) →
  base64_digit (char_value c2) = Some (sextet2 b1 b2) →
  base64_digit (char_value c3) = Some (sextet3 b2) →
  ∃ temp', base64_decode_loop (c0 :: c1 :: c2 :: c3 :: rest) 0 temp decoded =
           base64_decode_loop rest 0 temp' (decoded ++ [b0; b1; b2]).
Proof.
  intros E0 E1 E2 E3.
  pose proof (proj2 (sextet0_spec b0)). pose proof (proj2 (sextet1_spec b0 b1)).
  pose proof (proj2 (sextet2_spec b1 b2)). pose proof (proj2 (sextet3_spec b2)).
  eexists. do 4 decode_letter. f_equal. f_equal.
  replace (64 * _ + sextet3 b2) with
    (2 ^ 24 * temp + (byte_to_Z b0 * 2 ^ 16 + byte_to_Z b1 * 2 ^ 8 + byte_to_Z b2))
    by (rewrite <-sextets_value; lia).
  pose proof (byte_to_Z_range b0). pose proof (byte_to_Z_range b1). pose proof (byte_to_Z_range b2).
  rewrite <-(Z.shiftr_0_r (u32 _)) at 3. rewrite !byte_of_Z_u32 by (auto; lia).
  repeat f_equal; apply byte_to_Z_inj; rewrite byte_to_of_Z; unfold u8;
    Z.div_mod_to_equations; lia.
Qed.

Lemma decode_pad rest i temp decoded :
  base64_decode_loop (kPadCharacter :: rest) i temp decoded =
    let temp := u32 (64 * temp) in
    match length (kPadCharacter :: rest) with
    | 1%nat => Ret (decoded ++ [byte_of_Z (Z.land (Z.shiftr temp 16) 255);
                                byte_of_Z (Z.land (Z.shiftr temp 8) 255)])
    | 2%nat => Ret (decoded ++ [byte_of_Z (Z.land (Z.shiftr temp 10) 255)])
    | _ => Throw (RuntimeError "Invalid padding in base64!")
    end.
Proof.
  cbn [base64_decode_loop]. destruct pad_not_digit as [-> ->]. rewrite Z.eqb_refl.
  rewrite Z.shiftl_mul_pow2, (Z.mul_comm 64) by lia. done.
Qed.

Lemma decode_tail1 b0 c0 c1 temp decoded :
  base64_digit (char_value c0) = Some (sextet0 b0) →
  base64_digit (char_value c1) = Some (sextet1 b0 x00) →
  base64_decode_loop [c0; c1; kPadCharacter; kPadCharacter] 0 temp decoded = Ret (decoded ++ [b0]).
Proof.
  intros E0 E1.
  pose proof (proj2 (sextet0_spec b0)). pose proof (proj2 (sextet1_spec b0 x00)).
  do 2 decode_letter. rewrite decode_pad. cbv zeta. cbn [length]. f_equal. f_equal.
  rewrite byte_of_Z_land. f_equal. apply byte_to_Z_inj. rewrite byte_to_of_Z.
  rewrite Z.shiftr_div_pow2 by lia. unfold u8, u32.
  change (byte_to_Z x00) with 0 in *. unfold sextet0, sextet1 in *.
  pose proof (byte_to_Z_range b0). change (byte_to_Z x00) with 0.
  Z.div_mod_to_equations. lia.
Qed.

Lemma decode_tail2 b0 b1 c0 c1 c2 temp decoded :
  base64_digit (char_value c0) = Some (sextet0 b0) →
  base64_digit (char_value c1) = Some (sextet1 b0 b1) →
  base64_digit (char_value c2) = Some (sextet2 b1 x00) →
  base64_decode_loop [c0; c1; c2; kPadCharacter] 0 temp decoded = Ret (decoded ++ [b0; b1]).
Proof.
  intros E0 E1 E2.
  pose proof (proj2 (sextet0_spec b0)). pose proof (proj2 (sextet1_spec b0 b1)).
  pose proof (proj2 (sextet2_spec b1 x00)).
  do 3 decode_letter. rewrite decode_pad. cbv zeta. cbn [length]. f_equal. f_equal.
  pose proof (byte_to_Z_range b0). pose proof (byte_to_Z_range b1).
  unfold sextet0, sextet1, sextet2 in *. change (byte_to_Z x00) with 0 in *.
  repeat f_equal; rewrite byte_of_Z_land; apply byte_to_Z_inj; rewrite byte_to_of_Z;
    rewrite Z.shiftr_div_pow2 by lia; unfold u8, u32; Z.div_mod_to_equations; lia.
Qed.

(** A sextet is written as a letter which decodes to it. *)
Ltac letter c E :=
  match goal with
  | |- context [alphabet_at ?i] =>
      destruct (alphabet_at_digit i) as (c & -> & E);
      [first [apply sextet0_spec | apply sextet1_spec | apply sextet2_spec | apply sextet3_spec]|];
      simpl_bind
  end.

Lemma encode_decode data :
  ∃ cs, base64_encode_bytes data = Ret cs ∧ (length cs mod 4 = 0)%nat ∧
    ∀ temp decoded, base64_decode_loop cs 0 temp decoded = Ret (decoded ++ data).
Proof.
  induction data as [|b0|b0 b1|b0 b1 b2 data (cs & IHe & IHm & IHd)] using list_ind3.
  - exists []. split_and!; [done..|]. intros. simpl. by rewrite app_nil_r.
  - cbn [base64_encode_bytes]. rewrite sextet1_pad, (proj1 (sextet0_spec b0)).
    letter c1 E1. letter c0 E0. eexists. split_and!; [done..|]. intros. by apply decode_tail1.
  - cbn [base64_encode_bytes].
    rewrite sextet2_pad, (proj1 (sextet1_spec b0 b1)), (proj1 (sextet0_spec b0)).
    letter c2 E2. letter c1 E1. letter c0 E0.
    eexists. split_and!; [done..|]. intros. by apply decode_tail2.
  - cbn [base64_encode_bytes].
    rewrite (proj1 (sextet3_spec b2)), (proj1 (sextet2_spec b1 b2)),
      (proj1 (sextet1_spec b0 b1)), (proj1 (sextet0_spec b0)).
    letter c3 E3. letter c2 E2. letter c1 E1. letter c0 E0. rewrite IHe. simpl_bind.
    exists (c0 :: c1 :: c2 :: c3 :: cs). split_and!; [done|..].
    + cbn [length]. replace (S (S (S (S (length cs))))) with (length cs + 1 * 4)%nat by lia.
      by rewrite Nat.Div0.mod_add.
    + intros temp decoded. destruct (decode_group b0 b1 b2 c0 c1 c2 c3 cs temp decoded) as [temp' ->]; [done..|].
      by rewrite IHd, <-app_assoc.
Qed.

Lemma base64_decode_encode data :
  ∃ s, base64_encode data = Ret s ∧ base64_decode s = Ret data.
Proof.
  destruct (encode_decode data) as (cs & He & Hm & Hd).
  exists (string_of_bytes cs). unfold base64_encode, base64_decode. rewrite He. split; [done|].
  rewrite length_string_of_bytes, bytes_of_string_of_bytes, Hd.
  change 4 with (Z.of_nat 4). by rewrite <-Nat2Z.inj_mod, Hm.
Qed.

(** *** Properties *)

(** C36. Every byte vector survives encoding and decoding, and encoding never
    indexes outside the alphabet. *)
Theorem base64_roundtrip (data : list byte) :
  ∃ s, base64_encode data = Ret s ∧ base64_decode s = Ret data.
Proof. apply base64_decode_encode. Qed.

Lemma base64_decode_loop_defined it i temp decoded :
  (i < 4)%nat → ((i + length it) mod 4 = 0)%nat →
  base64_decode_loop it i temp decoded ≠ Undefined.
Proof.
  revert i temp decoded. induction it as [|c it IH]; intros i temp decoded Hi Hm.
  - cbn. rewrite Nat.add_0_r, Nat.mod_small in Hm by done. by rewrite decide_True.
  - cbn [base64_decode_loop]. cbn [length] in Hm. destruct (base64_digit _); [|by repeat case_match].
    case_decide as E; apply IH; [lia| |lia|].
    + subst. replace (3 + S (length it))%nat with (0 + length it + 1 * 4)%nat in Hm by lia.
      by rewrite Nat.Div0.mod_add in Hm.
    + by rewrite Nat.add_succ_comm.
Qed.

Lemma base64_decode_defined input : base64_decode input ≠ Undefined.
Proof.
  unfold base64_decode. destruct (Z.eqb_spec (Z.of_nat (String.length input) mod 4) 0); [|done].
  apply base64_decode_loop_defined; [lia|]. rewrite length_bytes_of_string.
  change 4 with (Z.of_nat 4) in *. rewrite <-Nat2Z.inj_mod in *. simpl in *. lia.
Qed.

(** Decoding any string returns or throws: no read past the end of the input. *)
Theorem base64_decode_safe (input : string) : base64_decode input ≠ Undefined.
Proof. apply base64_decode_defined. Qed.

End Facts.

(** A padding character inside the last quad ends the decoding: what follows it
    is ignored, so a malformed group is accepted. *)
Theorem base64_accepts_misplaced_padding :
  @base64_decode x86_64 "AA=A" = Ret [x00] ∧
  @base64_decode x86_64 "AA==" = Ret [x00].
Proof. split; vm_compute; reflexivity. Qed.
