(* ===== verification/Json.v ===== *)
(** * JSON values

    The part of [nlohmann::json] (3.11.3, vendored) that the sources use: the
    value type with its two integer kinds, objects as maps sorted by key, the
    throwing and the asserting accessors, the [get<T>] conversions, when [dump]
    throws, and what a peer reads back after [dump] and [parse]. The text of JSON
    itself is not modelled. *)

From Stdlib Require Import ZArith Lia SpecFloat.
From S2P Require Import Prelude.

Local Open Scope Z_scope.

(** ** Doubles *)

Abbreviation double := spec_float.

(** [static_cast<double>] of an integer: IEEE 754 binary64, round to nearest. *)
Definition double_of_Z (z : Z) : double := binary_normalize 53 1024 z 0 false.

(** The integer part of a finite double. *)
Definition double_trunc (f : double) : option Z :=
  match f with
  | S754_zero _ => Some 0
  | S754_finite s m e =>
      let a := if 0 <=? e then Zpos m * 2 ^ e else Zpos m / 2 ^ (- e) in
      Some (if s then - a else a)
  | S754_infinity _ | S754_nan => None
  end.

Definition double_is_finite (f : double) : bool :=
  match f with S754_zero _ | S754_finite _ _ _ => true | _ => false end.

(** ** Values *)

#[warnings="-register-all"]
Inductive json :=
| JNull
| JBool (b : bool)
| JInt (z : Z)
| JUnsigned (z : Z)
| JFloat (f : double)
| JStr (s : string)
| JArr (l : list json)
| JObj (o : list (string * json)).

Definition type_name (j : json) : string :=
  match j with
  | JNull => "null"
  | JBool _ => "boolean"
  | JInt _ | JUnsigned _ | JFloat _ => "number"
  | JStr _ => "string"
  | JArr _ => "array"
  | JObj _ => "object"
  end.

(** Objects are [std::map]s: lists sorted by key. *)
Fixpoint obj_find {A} (k : string) (o : list (string * A)) : option A :=
  match o with
  | [] => None
  | (k', v) :: o => if String.eqb k k' then Some v else obj_find k o
  end.

(** [o\[k\] = v]. *)
Fixpoint obj_set {A} (k : string) (v : A) (o : list (string * A)) : list (string * A) :=
  match o with
  | [] => [(k, v)]
  | (k', v') :: o' =>
      match String.compare k k' with
      | Eq => (k, v) :: o'
      | Lt => (k, v) :: o
      | Gt => (k', v') :: obj_set k v o'
      end
  end.

(** [o.emplace(k, v)]: an existing entry is kept. *)
Definition obj_emplace {A} (k : string) (v : A) (o : list (string * A)) : list (string * A) :=
  match obj_find k o with Some _ => o | None => obj_set k v o end.

(** The value of an initializer list [{{k, v}, ...}]. *)
Definition json_object (l : list (string * json)) : json :=
  JObj (foldl (λ o kv, obj_emplace kv.1 kv.2 o) [] l).

Definition json_strings (l : list string) : json := JArr (JStr <$> l).

(** ** Exceptions *)

Definition type_error (id : string) (what : string) : exn :=
  StdException ("[json.exception.type_error." +:+ id +:+ "] " +:+ what).

Definition type_must_be (ty : string) (j : json) : exn :=
  type_error "302" ("type must be " +:+ ty +:+ ", but is " +:+ type_name j).

(** ** Accessors *)

(** [j.at(k)]. *)
Definition json_at (j : json) (k : string) : outcome json :=
  match j with
  | JObj o =>
      match obj_find k o with
      | Some v => Ret v
      | None => Throw (StdException ("[json.exception.out_of_range.403] key '" +:+ k +:+ "' not found"))
      end
  | _ => Throw (type_error "304" ("cannot use at() with " +:+ type_name j))
  end.

(** [j\[k\]] on a constant: a missing key fails [JSON_ASSERT], and without
    assertions dereferences [end()]. *)
Definition json_index (j : json) (k : string) : outcome json :=
  match j with
  | JObj o => match obj_find k o with Some v => Ret v | None => Undefined end
  | _ => Throw (type_error "305" ("cannot use operator[] with a string argument with "
                                    +:+ type_name j))
  end.

(** [j.find(k)]; [None] is [end()]. *)
Definition json_find (j : json) (k : string) : option json :=
  match j with JObj o => obj_find k o | _ => None end.

(** [for (const auto & e : j)]. *)
Definition json_elements (j : json) : list json :=
  match j with
  | JNull => []
  | JArr l => l
  | JObj o => o.*2
  | _ => [j]
  end.

(** ** Conversions *)

Definition get_string (j : json) : outcome string :=
  match j with JStr s => Ret s | _ => Throw (type_must_be "string" j) end.

Definition get_bool (j : json) : outcome bool :=
  match j with JBool b => Ret b | _ => Throw (type_must_be "boolean" j) end.

(** Casting a double to an integer type is undefined out of its range. *)
Definition cast_double (lo hi : Z) (f : double) : outcome Z :=
  match double_trunc f with
  | Some z => if (lo <=? z) && (z <=? hi) then Ret z else Undefined
  | None => Undefined
  end.

Definition s64 (z : Z) : Z := (z + 2 ^ 63) mod 2 ^ 64 - 2 ^ 63.

Definition get_uint32 (j : json) : outcome Z :=
  match j with
  | JUnsigned z | JInt z => Ret (u32 z)
  | JFloat f => cast_double 0 (2 ^ 32 - 1) f
  | JBool b => Ret (if b then 1 else 0)
  | _ => Throw (type_must_be "number" j)
  end.

Definition get_int64 (j : json) : outcome Z :=
  match j with
  | JUnsigned z | JInt z => Ret (s64 z)
  | JFloat f => cast_double (- 2 ^ 63) (2 ^ 63 - 1) f
  | _ => Throw (type_must_be "number" j)
  end.

Definition get_double (j : json) : outcome double :=
  match j with
  | JUnsigned z | JInt z => Ret (double_of_Z z)
  | JFloat f => Ret f
  | _ => Throw (type_must_be "number" j)
  end.

(** [j.get<std::vector<T>>()]. *)
Definition get_vector {A} (get : json → outcome A) (j : json) : outcome (list A) :=
  match j with JArr l => outcome_mapM get l | _ => Throw (type_must_be "array" j) end.

(** [j.get<std::unordered_set<std::string>>()]. *)
Definition get_string_set (j : json) : outcome (gset string) :=
  l ← get_vector get_string j; Ret (list_to_set l).

(** ** [dump]

    Strings are byte strings; [dump] throws when one of them is not UTF-8 (RFC 3629:
    no overlong forms, no surrogates, nothing above U+10FFFF). *)

Definition byte_in (lo hi : N) (c : Ascii.ascii) : bool :=
  ((lo <=? Ascii.N_of_ascii c) && (Ascii.N_of_ascii c <=? hi))%N.

(** A byte that continues a sequence. *)
Definition continues : Ascii.ascii → bool := byte_in 128 191.

(** The range of the second byte of a sequence of three or four bytes. *)
Definition second_byte (first : Ascii.ascii) : Ascii.ascii → bool :=
  let n := Ascii.N_of_ascii first in
  if (n =? 224)%N then byte_in 160 191
  else if (n =? 237)%N then byte_in 128 159
  else if (n =? 240)%N then byte_in 144 191
  else if (n =? 244)%N then byte_in 128 143
  else continues.

Fixpoint valid_utf8 (s : string) : bool :=
  match s with
  | EmptyString => true
  | String c s =>
      if byte_in 0 127 c then valid_utf8 s
      else if byte_in 194 223 c
      then match s with String c1 s => continues c1 && valid_utf8 s | _ => false end
      else if byte_in 224 239 c
      then match s with
           | String c1 (String c2 s) => second_byte c c1 && continues c2 && valid_utf8 s
           | _ => false
           end
      else if byte_in 240 244 c
      then match s with
           | String c1 (String c2 (String c3 s)) =>
               second_byte c c1 && continues c2 && continues c3 && valid_utf8 s
           | _ => false
           end
      else false
  end.

(** Every string of the value, keys included, is UTF-8. *)
Fixpoint dumps (j : json) : bool :=
  match j with
  | JStr s => valid_utf8 s
  | JArr l => forallb dumps l
  | JObj o => forallb (λ kv, valid_utf8 kv.1 && dumps kv.2) o
  | _ => true
  end.

(** [j.dump()], with the value in place of its text; the message of the exception is
    shortened (it names the byte). *)
Definition dump (j : json) : outcome json :=
  if dumps j then Ret j else Throw (type_error "316" "invalid UTF-8 byte").

(** ** The wire: [parse(dump(j))]

    A non-negative integer comes back unsigned; a NaN or an infinity is written
    as [null]. *)
Fixpoint reparse (j : json) : json :=
  match j with
  | JInt z => if 0 <=? z then JUnsigned z else JInt z
  | JFloat f => if double_is_finite f then JFloat f else JNull
  | JArr l => JArr (map reparse l)
  | JObj o => JObj (map (λ kv, (kv.1, reparse kv.2)) o)
  | _ => j
  end.

(** ** Facts *)

Lemma obj_find_set_eq {A} k (v : A) o : obj_find k (obj_set k v o) = Some v.
Proof.
  induction o as [|[k' v'] o IH]; simpl; [by rewrite String.eqb_refl|].
  destruct (String.compare k k') eqn:E; simpl; [by rewrite String.eqb_refl..|].
  destruct (String.eqb_spec k k') as [->|]; [|done].
  by rewrite string_compare_refl in E.
Qed.

Lemma obj_find_set_ne {A} k k' (v : A) o : k ≠ k' → obj_find k' (obj_set k v o) = obj_find k' o.
Proof.
  intros Hne%not_eq_sym. apply String.eqb_neq in Hne as Hne'.
  induction o as [|[k0 v0] o IH]; simpl; [by rewrite Hne'|].
  destruct (String.compare k k0) eqn:E; simpl; [|by rewrite Hne'|by rewrite IH].
  apply String.compare_eq_iff in E as <-. by rewrite Hne'.
Qed.

Lemma obj_find_map {A B} (f : A → B) k o :
  obj_find k (map (λ kv, (kv.1, f kv.2)) o) = f <$> obj_find k o.
Proof. induction o as [|[k' v] o IH]; simpl; [done|]. by destruct (String.eqb k k'). Qed.

Lemma s64_small z : - 2 ^ 63 ≤ z < 2 ^ 63 → s64 z = z.
Proof. intros. unfold s64. rewrite Z.mod_small by lia. lia. Qed.

(** *** What can be dumped *)

Lemma dump_ret j : dumps j = true → dump j = Ret j.
Proof. unfold dump. by intros ->. Qed.

Lemma dump_defined j : dump j ≠ Undefined.
Proof. unfold dump. by destruct (dumps j). Qed.

Lemma obj_set_dumps k v o :
  valid_utf8 k = true → dumps v = true → dumps (JObj o) = true → dumps (JObj (obj_set k v o)) = true.
Proof.
  intros Hk Hv. induction o as [|[k' v'] o IH]; cbn [obj_set dumps forallb fst snd] in *.
  - by rewrite Hk, Hv.
  - intros [[Hk' Hv']%andb_true_iff Ho]%andb_true_iff.
    destruct (String.compare k k'); cbn [forallb fst snd]; by rewrite ?Hk, ?Hv, ?Hk', ?Hv', ?IH.
Qed.

Lemma obj_emplace_dumps k v o :
  valid_utf8 k = true → dumps v = true → dumps (JObj o) = true →
  dumps (JObj (obj_emplace k v o)) = true.
Proof. intros. unfold obj_emplace. destruct (obj_find k o); [done|by apply obj_set_dumps]. Qed.

Lemma json_object_dumps l :
  forallb (λ kv, valid_utf8 kv.1 && dumps kv.2) l = true → dumps (json_object l) = true.
Proof.
  unfold json_object. assert (dumps (JObj []) = true) as Ho by done. revert Ho.
  generalize (@nil (string * json)). induction l as [|[k v] l IH]; intros o Ho; [done|].
  cbn [forallb fst snd foldl]. intros [[Hk Hv]%andb_true_iff Hl]%andb_true_iff.
  apply IH; [by apply obj_emplace_dumps|done].
Qed.

Lemma json_strings_dumps l : forallb valid_utf8 l = true → dumps (json_strings l) = true.
Proof.
  unfold json_strings. cbn [dumps]. induction l as [|s l IH]; [done|].
  cbn [forallb fmap list_fmap dumps]. intros [-> Hl]%andb_true_iff. by rewrite IH.
Qed.

Lemma array_dumps {A} (f : A → json) l :
  (∀ x, x ∈ l → dumps (f x) = true) → dumps (JArr (f <$> l)) = true.
Proof.
  intros Hl. cbn [dumps]. induction l as [|x l IH]; [done|]. cbn [forallb fmap list_fmap].
  rewrite Hl by left. apply IH. intros y Hy. apply Hl. by right.
Qed.
