(* ===== verification/Serialization.v ===== *)
(** * Protocol data and its JSON form

    The structs of [common.hpp], the parameter values of [parameter.hpp] and
    [parameter.cpp], and their [to_json]/[from_json] of [serialization.cpp]. *)

From Stdlib Require Import ZArith Lia.
From S2P Require Import Prelude Wire Base64 Json.

Local Open Scope Z_scope.

(** ** Channels and services ([common.hpp]) *)

Record ChannelWithoutId := {
  topic : string;
  encoding : string;
  schema_name : string;
  schema : string;
  schema_encoding : option string
}.

(** [Channel] derives from [ChannelWithoutId]. *)
Record Channel := { channel_id : Z; channel_base : ChannelWithoutId }.

Record ClientAdvertisement := {
  adv_channel_id : Z;
  adv_topic : string;
  adv_encoding : string;
  adv_schema_name : string;
  adv_schema : list byte
}.

Record ClientMessage := {
  log_time : Z;
  publish_time : Z;
  sequence : Z;
  advertisement : ClientAdvertisement;
  data_length : nat;
  msg_data : list byte
}.

Definition MSG_PAYLOAD_OFFSET : nat := 5.

(** The constructor copies [data_length] bytes from [raw_data]. *)
Definition new_ClientMessage (log_time publish_time sequence : Z) (adv : ClientAdvertisement)
    (data_length : nat) (raw_data : list byte) : outcome ClientMessage :=
  bs ← load raw_data 0 data_length;
  Ret {| log_time := log_time; publish_time := publish_time; sequence := sequence;
         advertisement := adv; data_length := data_length; msg_data := bs |}.

(** [getLength()]: unsigned, so it wraps below the payload offset. *)
Definition getLength (m : ClientMessage) : Z :=
  u64 (Z.of_nat (length (msg_data m)) - Z.of_nat MSG_PAYLOAD_OFFSET).

(** The bytes [getData()\[0 .. getLength())]. *)
Definition getData (m : ClientMessage) : outcome (list byte) :=
  load (msg_data m) MSG_PAYLOAD_OFFSET (Z.to_nat (getLength m)).

Record ServiceWithoutId := {
  service_name : string;
  service_type : string;
  request_schema : string;
  response_schema : string
}.

Record Service := { service_base : ServiceWithoutId; svc_id : Z }.

(** ** Parameters ([parameter.hpp], [parameter.cpp]) *)

Inductive ParameterSubscriptionOperation := SUBSCRIBE | UNSUBSCRIBE.

Inductive ParameterType :=
| PARAMETER_NOT_SET
| PARAMETER_BOOL
| PARAMETER_INTEGER
| PARAMETER_DOUBLE
| PARAMETER_STRING
| PARAMETER_ARRAY
| PARAMETER_STRUCT
| PARAMETER_BYTE_ARRAY.

#[export] Instance ParameterType_eq_dec : EqDecision ParameterType.
Proof. solve_decision. Defined.

(** One constructor per constructor of the class. The [unordered_map] of a
    struct is kept as its entries sorted by key. *)
#[warnings="-register-all"]
Inductive ParameterValue :=
| PNotSet
| PBool (value : bool)
| PInt (value : Z)
| PDouble (value : double)
| PString (value : string)
| PByteArray (value : list byte)
| PArray (value : list ParameterValue)
| PStruct (value : list (string * ParameterValue)).

Definition getType (v : ParameterValue) : ParameterType :=
  match v with
  | PNotSet => PARAMETER_NOT_SET
  | PBool _ => PARAMETER_BOOL
  | PInt _ => PARAMETER_INTEGER
  | PDouble _ => PARAMETER_DOUBLE
  | PString _ => PARAMETER_STRING
  | PByteArray _ => PARAMETER_BYTE_ARRAY
  | PArray _ => PARAMETER_ARRAY
  | PStruct _ => PARAMETER_STRUCT
  end.

(** The class [Parameter] (a reserved word here). *)
Record ParameterT := { param_name : string; param_value : ParameterValue }.

Definition get_type (p : ParameterT) : ParameterType := getType (param_value p).

(** ** [to_json] and [from_json] *)

Definition Channel_to_json (chan : Channel) : json :=
  let c := channel_base chan in
  let o := json_object [("id", JUnsigned (channel_id chan)); ("topic", JStr (topic c));
                        ("encoding", JStr (encoding c)); ("schemaName", JStr (schema_name c));
                        ("schema", JStr (schema c))] in
  match schema_encoding c, o with
  | Some e, JObj o => JObj (obj_set "schemaEncoding" (JStr e) o)
  | _, o => o
  end.

Definition Channel_from_json (j : json) : outcome Channel :=
  sch_enc ← (match json_find j "schemaEncoding" with
             | None => Ret None
             | Some v => s ← get_string v; Ret (Some s)
             end);
  t ← (v ← json_index j "topic"; get_string v);
  e ← (v ← json_index j "encoding"; get_string v);
  n ← (v ← json_index j "schemaName"; get_string v);
  s ← (v ← json_index j "schema"; get_string v);
  id ← (v ← json_index j "id"; get_uint32 v);
  Ret {| channel_id := id;
         channel_base := {| topic := t; encoding := e; schema_name := n; schema := s;
                            schema_encoding := sch_enc |} |}.

Definition Service_to_json (s : Service) : json :=
  json_object [("id", JUnsigned (svc_id s)); ("name", JStr (service_name (service_base s)));
               ("type", JStr (service_type (service_base s)));
               ("requestSchema", JStr (request_schema (service_base s)));
               ("responseSchema", JStr (response_schema (service_base s)))].

Definition Service_from_json (j : json) : outcome Service :=
  id ← (v ← json_index j "id"; get_uint32 v);
  n ← (v ← json_index j "name"; get_string v);
  t ← (v ← json_index j "type"; get_string v);
  rq ← (v ← json_index j "requestSchema"; get_string v);
  rs ← (v ← json_index j "responseSchema"; get_string v);
  Ret {| svc_id := id;
         service_base := {| service_name := n; service_type := t;
                            request_schema := rq; response_schema := rs |} |}.

Fixpoint ParameterValue_to_json (v : ParameterValue) : outcome json :=
  match v with
  | PBool b => Ret (JBool b)
  | PInt z => Ret (JInt z)
  | PDouble f => Ret (JFloat f)
  | PString s => Ret (JStr s)
  | PByteArray bs => s ← base64_encode bs; Ret (JStr s)
  | PStruct fields =>
      o ← outcome_mapM (λ kv, j ← ParameterValue_to_json kv.2; Ret (kv.1, j)) fields;
      Ret (JObj o)
  | PArray values => l ← outcome_mapM ParameterValue_to_json values; Ret (JArr l)
  | PNotSet => Ret JNull
  end.

Fixpoint ParameterValue_from_json (j : json) : outcome ParameterValue :=
  match j with
  | JStr _ => s ← get_string j; Ret (PString s)
  | JBool _ => b ← get_bool j; Ret (PBool b)
  | JInt _ | JUnsigned _ => z ← get_int64 j; Ret (PInt z)
  | JFloat _ => f ← get_double j; Ret (PDouble f)
  | JObj o =>
      fields ← outcome_mapM (λ kv, v ← ParameterValue_from_json kv.2; Ret (kv.1, v)) o;
      Ret (PStruct fields)
  | JArr l => values ← outcome_mapM ParameterValue_from_json l; Ret (PArray values)
  | JNull => Ret PNotSet
  end.

(** The ["type"] field [to_json] adds to a parameter. *)
Definition type_field (v : ParameterValue) : option string :=
  match v with
  | PByteArray _ => Some "byte_array"
  | PDouble _ => Some "float64"
  | PArray (PDouble _ :: _) => Some "float64_array"
  | _ => None
  end.

Definition Parameter_to_json (p : ParameterT) : outcome json :=
  v ← ParameterValue_to_json (param_value p);
  let o := obj_set "name" (JStr (param_name p)) (obj_set "value" v []) in
  Ret (JObj (match type_field (param_value p) with
             | Some t => obj_set "type" (JStr t) o
             | None => o
             end)).

(** The loop over a [float64_array]. *)
Definition float64_element (name : string) (value : ParameterValue) : outcome ParameterValue :=
  match value with
  | PInt z => Ret (PDouble (double_of_Z z))
  | PDouble _ => Ret value
  | _ => Throw (RuntimeError ("Parameter '" +:+ name
                              +:+ "' (float64_array) contains non-numeric elements."))
  end.

Section ParameterFromJson.
Context `{Platform}.

Definition Parameter_from_json (j : json) : outcome ParameterT :=
  name ← (v ← json_index j "name"; get_string v);
  match json_find j "value" with
  | None => Ret {| param_name := name; param_value := PNotSet |}
  | Some _ =>
      param_val ← (v ← json_index j "value"; ParameterValue_from_json v);
      type ← (match json_find j "type" with
              | Some t => get_string t
              | None => Ret EmptyString
              end);
      match param_val with
      | PString s =>
          if decide (type = "byte_array")
          then bs ← base64_decode s; Ret {| param_name := name; param_value := PByteArray bs |}
          else Ret {| param_name := name; param_value := param_val |}
      | PInt z =>
          if decide (type = "float64")
          then Ret {| param_name := name; param_value := PDouble (double_of_Z z) |}
          else Ret {| param_name := name; param_value := param_val |}
      | PArray values =>
          if decide (type = "float64_array")
          then values ← outcome_mapM (float64_element name) values;
               Ret {| param_name := name; param_value := PArray values |}
          else Ret {| param_name := name; param_value := param_val |}
      | _ => Ret {| param_name := name; param_value := param_val |}
      end
  end.

End ParameterFromJson.

(** ** Facts *)

(** *** Objects with literal keys compute *)

Lemma Channel_to_json_eq c :
  Channel_to_json c =
  let b := channel_base c in
  JObj ([("encoding", JStr (encoding b)); ("id", JUnsigned (channel_id c));
         ("schema", JStr (schema b))] ++
        match schema_encoding b with Some e => [("schemaEncoding", JStr e)] | None => [] end ++
        [("schemaName", JStr (schema_name b)); ("topic", JStr (topic b))]).
Proof. destruct c as [id [t e n s [se|]]]; reflexivity. Qed.

Lemma Service_to_json_eq s :
  Service_to_json s =
  let b := service_base s in
  JObj [("id", JUnsigned (svc_id s)); ("name", JStr (service_name b));
        ("requestSchema", JStr (request_schema b)); ("responseSchema", JStr (response_schema b));
        ("type", JStr (service_type b))].
Proof. destruct s as [[n t rq rs] id]. reflexivity. Qed.

(** *** Induction on parameter values *)

Section ValueInd.
Context (P : ParameterValue → Prop).
Context (Hnotset : P PNotSet) (Hbool : ∀ b, P (PBool b)) (Hint : ∀ z, P (PInt z))
  (Hdouble : ∀ f, P (PDouble f)) (Hstring : ∀ s, P (PString s))
  (Hbytes : ∀ bs, P (PByteArray bs))
  (Harray : ∀ l, Forall P l → P (PArray l))
  (Hstruct : ∀ o, Forall (λ kv, P kv.2) o → P (PStruct o)).

Fixpoint ParameterValue_nested_ind (v : ParameterValue) : P v :=
  match v with
  | PNotSet => Hnotset
  | PBool b => Hbool b
  | PInt z => Hint z
  | PDouble f => Hdouble f
  | PString s => Hstring s
  | PByteArray bs => Hbytes bs
  | PArray l =>
      Harray l ((fix go l : Forall P l :=
                   match l with
                   | [] => Forall_nil_2 _
                   | v :: l => Forall_cons_2 _ _ _ (ParameterValue_nested_ind v) (go l)
                   end) l)
  | PStruct o =>
      Hstruct o ((fix go o : Forall (λ kv, P kv.2) o :=
                    match o with
                    | [] => Forall_nil_2 _
                    | kv :: o => Forall_cons_2 _ _ _ (ParameterValue_nested_ind kv.2) (go o)
                    end) o)
  end.

End ValueInd.

Section JsonInd.
Context (P : json → Prop).
Context (Hleaf : ∀ j, match j with JArr _ | JObj _ => True | _ => P j end)
  (Harr : ∀ l, Forall P l → P (JArr l))
  (Hobj : ∀ o, Forall (λ kv, P kv.2) o → P (JObj o)).

Fixpoint json_nested_ind (j : json) : P j :=
  match j with
  | JArr l =>
      Harr l ((fix go l : Forall P l :=
                 match l with
                 | [] => Forall_nil_2 _
                 | v :: l => Forall_cons_2 _ _ _ (json_nested_ind v) (go l)
                 end) l)
  | JObj o =>
      Hobj o ((fix go o : Forall (λ kv, P kv.2) o :=
                 match o with
                 | [] => Forall_nil_2 _
                 | kv :: o => Forall_cons_2 _ _ _ (json_nested_ind kv.2) (go o)
                 end) o)
  | j => Hleaf j
  end.

End JsonInd.

(** *** Peers *)

(** What a peer sends back for JSON it got: other encoders write a double with an integral
    value without a fraction, so that it is read back as an integer; [as_int] tells for
    which doubles the peer does. *)
Fixpoint echo (as_int : double → option Z) (j : json) : json :=
  match j with
  | JInt z => if 0 <=? z then JUnsigned z else JInt z
  | JFloat f =>
      match as_int f with
      | Some z => if 0 <=? z then JUnsigned z else JInt z
      | None => if double_is_finite f then JFloat f else JNull
      end
  | JArr l => JArr (map (echo as_int) l)
  | JObj o => JObj (map (λ kv, (kv.1, echo as_int kv.2)) o)
  | _ => j
  end.

(** The integer it writes has the value of the double, and is a 64-bit one. *)
Definition same_value (as_int : double → option Z) : Prop :=
  ∀ f z, as_int f = Some z → f = double_of_Z z ∧ - 2 ^ 63 ≤ z < 2 ^ 63.

(** The server's own encoder writes the fraction. *)
Lemma echo_reparse j : echo (λ _, None) j = reparse j.
Proof.
  revert j. apply json_nested_ind; [by intros []|intros l IH|intros o IH]; simpl; f_equal.
  - induction IH as [|x l Hx _ IHl]; [done|]. simpl. by rewrite Hx, IHl.
  - induction IH as [|[k x] o Hx _ IHl]; [done|]. simpl in *. by rewrite Hx, IHl.
Qed.

(** *** Values that survive the wire *)

(** Inside another value, a byte array would come back as a string, and a
    non-finite double as a value that is not set; with [doubles] false there is no double
    at all. *)
Fixpoint value_wf (doubles : bool) (v : ParameterValue) : bool :=
  match v with
  | PInt z => (- 2 ^ 63 <=? z) && (z <? 2 ^ 63)
  | PDouble f => doubles && double_is_finite f
  | PByteArray _ => false
  | PArray l => forallb (value_wf doubles) l
  | PStruct o => forallb (λ kv, value_wf doubles kv.2) o
  | _ => true
  end.

Definition is_double (v : ParameterValue) : bool :=
  match v with PDouble _ => true | _ => false end.

(** A parameter: byte arrays are allowed at the top; an array that starts with
    a double is sent as a [float64_array], so it has to hold doubles only. *)
Definition param_wf (p : ParameterT) : bool :=
  match param_value p with
  | PByteArray _ => true
  | PArray ((PDouble _ :: _) as l) => forallb (value_wf true) l && forallb is_double l
  | v => value_wf true v
  end.

(** A parameter whose type the ["type"] field records: a byte array, a double, an array of
    doubles, or a value without doubles. *)
Definition param_typed (p : ParameterT) : bool :=
  match param_value p with
  | PByteArray _ => true
  | PDouble f => double_is_finite f
  | PArray ((PDouble _ :: _) as l) => forallb (value_wf true) l && forallb is_double l
  | v => value_wf false v
  end.

Lemma mapM_roundtrip {A B C} (f : A → outcome B) (h : B → C) (g : C → outcome A)
    (wf : A → bool) l :
  Forall (λ x, wf x → ∃ y, f x = Ret y ∧ g (h y) = Ret x) l → forallb wf l →
  ∃ ys, outcome_mapM f l = Ret ys ∧ outcome_mapM g (map h ys) = Ret l.
Proof.
  induction 1 as [|x l Hx _ IH]; intros Hwf; [by exists []|].
  simpl in Hwf. apply andb_prop_elim in Hwf as [Hwx Hwl].
  destruct (Hx Hwx) as (y & Hy & Hgy), (IH Hwl) as (ys & Hys & Hgys).
  exists (y :: ys). simpl. rewrite Hy, Hys. simpl. rewrite Hgy, Hgys. done.
Qed.

Lemma value_roundtrip (d : bool) as_int v :
  (d = true → ∀ f, as_int f = None) → value_wf d v →
  ∃ j, ParameterValue_to_json v = Ret j ∧ ParameterValue_from_json (echo as_int j) = Ret v.
Proof.
  intros Has. induction v as [|b|z|f|s|bs|l IH|o IH] using ParameterValue_nested_ind; intros Hwf; simpl in Hwf.
  - by exists JNull.
  - by exists (JBool b).
  - exists (JInt z). split; [done|]. simpl.
    assert (s64 z = z) as Hz by (apply Is_true_true in Hwf; apply s64_small; lia).
    destruct (0 <=? z); simpl; by rewrite Hz.
  - apply andb_prop_elim in Hwf as [Hd Hf]. exists (JFloat f). split; [done|]. simpl.
    rewrite Has by (by destruct d). by destruct (double_is_finite f).
  - by exists (JStr s).
  - done.
  - destruct (mapM_roundtrip _ (echo as_int) _ (value_wf d) l IH Hwf) as (js & Hjs & Hback).
    exists (JArr js). simpl. rewrite Hjs. simpl. by rewrite Hback.
  - destruct (mapM_roundtrip
      (λ kv, j ← ParameterValue_to_json kv.2; Ret (kv.1, j))
      (λ kv, (kv.1, echo as_int kv.2))
      (λ kv, v ← ParameterValue_from_json kv.2; Ret (kv.1, v)) (λ kv, value_wf d kv.2) o)
      as (js & Hjs & Hback); [|done|].
    { eapply Forall_impl; [exact IH|]. intros [k v] Hv Hwv. simpl in *.
      destruct (Hv Hwv) as (j & Hj & Hb). exists (k, j). by rewrite Hj; simpl; rewrite Hb. }
    exists (JObj js). simpl. rewrite Hjs. simpl. by rewrite Hback.
Qed.

Lemma float64_elements name l : forallb is_double l → outcome_mapM (float64_element name) l = Ret l.
Proof.
  induction l as [|v l IH]; [done|]. simpl. intros [Hv Hl]%andb_prop_elim.
  destruct v; try done. simpl. by rewrite IH.
Qed.

(** A double comes back as one, or as the integer with its value. *)
Lemma double_echo as_int f :
  same_value as_int → double_is_finite f = true →
  ParameterValue_from_json (echo as_int (JFloat f)) = Ret (PDouble f) ∨
  ∃ z, ParameterValue_from_json (echo as_int (JFloat f)) = Ret (PInt z) ∧ f = double_of_Z z.
Proof.
  intros Hs Hf. simpl. destruct (as_int f) as [z|] eqn:E; [|left; by rewrite Hf].
  right. exists z. destruct (Hs f z E) as [-> Hz].
  split; [|done]. assert (s64 z = z) as Hz' by (apply s64_small; lia).
  destruct (0 <=? z); simpl; by rewrite Hz'.
Qed.

Lemma doubles_echo as_int name l :
  same_value as_int → forallb (value_wf true) l → forallb is_double l →
  ∃ js vs, outcome_mapM ParameterValue_to_json l = Ret js ∧
    outcome_mapM ParameterValue_from_json (map (echo as_int) js) = Ret vs ∧
    outcome_mapM (float64_element name) vs = Ret l.
Proof.
  intros Hs. induction l as [|v l IH]; [by exists [], []|]. simpl.
  intros [Hv Hl]%andb_prop_elim [Hd Hds]%andb_prop_elim. destruct v as [| | |f| | | |]; try done.
  destruct (IH Hl Hds) as (js & vs & Hjs & Hvs & Hb). simpl in Hv. apply Is_true_true in Hv.
  exists (JFloat f :: js). simpl. rewrite Hjs. simpl_bind.
  destruct (double_echo as_int f Hs Hv) as [E|(z & E & Ez)]; simpl in E; rewrite E.
  - exists (PDouble f :: vs). simpl. rewrite Hvs, Hb. done.
  - exists (PInt z :: vs). simpl. rewrite Hvs, Hb. simpl_bind. by rewrite Ez.
Qed.

Lemma Parameter_to_json_eq p j :
  ParameterValue_to_json (param_value p) = Ret j →
  Parameter_to_json p =
  Ret (JObj ([("name", JStr (param_name p))] ++
             match type_field (param_value p) with Some t => [("type", JStr t)] | None => [] end ++
             [("value", j)])).
Proof. intros Hj. unfold Parameter_to_json. rewrite Hj. by destruct (type_field _). Qed.

Section Properties.
Context `{Platform}.

(** What [Parameter_from_json] does with an object as [Parameter_to_json] builds it. *)
Lemma Parameter_from_json_eq name (ty : option string) j v :
  ParameterValue_from_json j = Ret v →
  Parameter_from_json
    (JObj ([("name", JStr name)] ++
           match ty with Some t => [("type", JStr t)] | None => [] end ++ [("value", j)])) =
  (let type := default EmptyString ty in
   match v with
   | PString s =>
       if decide (type = "byte_array")
       then bs ← base64_decode s; Ret {| param_name := name; param_value := PByteArray bs |}
       else Ret {| param_name := name; param_value := v |}
   | PInt z =>
       if decide (type = "float64")
       then Ret {| param_name := name; param_value := PDouble (double_of_Z z) |}
       else Ret {| param_name := name; param_value := v |}
   | PArray l =>
       if decide (type = "float64_array")
       then l ← outcome_mapM (float64_element name) l;
            Ret {| param_name := name; param_value := PArray l |}
       else Ret {| param_name := name; param_value := v |}
   | _ => Ret {| param_name := name; param_value := v |}
   end).
Proof.
  intros Hv. destruct ty as [t|]; unfold Parameter_from_json; cbn; rewrite Hv; by destruct v.
Qed.

Lemma Parameter_roundtrip_aux p :
  param_wf p → ∃ j, Parameter_to_json p = Ret j ∧ Parameter_from_json (reparse j) = Ret p.
Proof.
  destruct p as [name v]. unfold param_wf. simpl. intros Hwf.
  assert ((∃ bs, v = PByteArray bs) ∨ value_wf true v ∧
          (∀ f l, v = PArray (PDouble f :: l) → forallb is_double (PDouble f :: l))) as [[bs ->]|[Hv Hd]].
  { destruct v as [| | | | |bs|[|[] l]|]; eauto; right; split; try done;
      apply andb_prop_elim in Hwf as [??]; [done|]. by intros ?? [= -> ->]. }
  - destruct (base64_decode_encode bs) as (s & Hs & Hd).
    eexists. split; [apply Parameter_to_json_eq; simpl; rewrite Hs; done|].
    simpl. etransitivity; [apply (Parameter_from_json_eq name (Some "byte_array")); done|].
    simpl. by rewrite Hd.
  - destruct (value_roundtrip true (λ _, None) v) as (j & Hj & Hb); [done..|].
    rewrite echo_reparse in Hb. eexists. split; [by apply Parameter_to_json_eq|].
    etransitivity; [|etransitivity; [apply (Parameter_from_json_eq name (type_field v) _ v Hb)|]].
    { simpl. by destruct (type_field v). }
    destruct v as [| | | | | |[|[] l]|]; try done. simpl.
    specialize (Hd _ _ eq_refl). simpl in Hd. by rewrite float64_elements.
Qed.

(** *** Properties *)

(** The same with a peer that may write integral doubles as integers. *)
Lemma parameter_echo as_int p :
  same_value as_int → param_typed p →
  (j ← Parameter_to_json p; Parameter_from_json (echo as_int j)) = Ret p.
Proof.
  intros Hs. destruct p as [name v]. unfold param_typed. simpl. intros Hwf.
  assert (∀ j w, ParameterValue_to_json v = Ret j →
            ParameterValue_from_json (echo as_int j) = Ret w →
            (let type := default EmptyString (type_field v) in
             match w with
             | PString s =>
                 if decide (type = "byte_array")
                 then bs ← base64_decode s; Ret {| param_name := name; param_value := PByteArray bs |}
                 else Ret {| param_name := name; param_value := w |}
             | PInt z =>
                 if decide (type = "float64")
                 then Ret {| param_name := name; param_value := PDouble (double_of_Z z) |}
                 else Ret {| param_name := name; param_value := w |}
             | PArray l =>
                 if decide (type = "float64_array")
                 then l ← outcome_mapM (float64_element name) l;
                      Ret {| param_name := name; param_value := PArray l |}
                 else Ret {| param_name := name; param_value := w |}
             | _ => Ret {| param_name := name; param_value := w |}
             end) = Ret {| param_name := name; param_value := v |} →
            (j ← Parameter_to_json {| param_name := name; param_value := v |};
             Parameter_from_json (echo as_int j)) =
            Ret {| param_name := name; param_value := v |}) as Hback.
  { intros j w Hj Hw Hv. rewrite (Parameter_to_json_eq _ j) by done. simpl_bind.
    etransitivity; [|etransitivity; [apply (Parameter_from_json_eq name (type_field v) _ w Hw)|exact Hv]].
    simpl. by destruct (type_field v). }
  assert (value_wf false v → type_field v = None →
          (j ← Parameter_to_json {| param_name := name; param_value := v |};
           Parameter_from_json (echo as_int j)) =
          Ret {| param_name := name; param_value := v |}) as Hplain.
  { intros Hv Ht. destruct (value_roundtrip false as_int v) as (j & Hj & Hb); [done..|].
    apply (Hback j v Hj Hb). rewrite Ht. by destruct v. }
  destruct v as [| | |f| |bs|[|[] l]|]; try (by apply Hplain).
  - apply Is_true_true in Hwf. destruct (double_echo as_int f Hs Hwf) as [E|(z & E & Ez)];
      eapply Hback; [done|exact E|done|done|exact E|]. simpl. by rewrite Ez.
  - destruct (base64_decode_encode bs) as (s & Hes & Hd).
    apply (Hback (JStr s) (PString s)); [simpl; by rewrite Hes|done|]. simpl. by rewrite Hd.
  - apply andb_prop_elim in Hwf as [Hl Hds].
    destruct (doubles_echo as_int name _ Hs Hl Hds) as (js & vs & Hjs & Hvs & Hb).
    eapply Hback; [simpl in *; rewrite Hjs; done|simpl; rewrite Hvs; done|].
    simpl. by rewrite Hb.
Qed.


End Properties.

#[export] Instance double_eq_dec : EqDecision double.
Proof. solve_decision. Defined.


Lemma channel_service_decode (c : Channel) (s : Service) :
  is_u32 (channel_id c) → is_u32 (svc_id s) →
  Channel_from_json (reparse (Channel_to_json c)) = Ret c ∧
  Service_from_json (reparse (Service_to_json s)) = Ret s.
Proof.
  intros Hc Hs. rewrite Channel_to_json_eq, Service_to_json_eq.
  destruct c as [id [t e n sc [se|]]], s as [[? ? ? ?] sid]; simpl in *; cbn;
    by rewrite !u32_small by done.
Qed.

(** The channel a client decodes from an [advertise] message is the channel the
    server announced; so is the service of [advertiseServices]. *)
Theorem channel_service_roundtrip (c : Channel) (s : Service) :
  is_u32 (channel_id c) → is_u32 (svc_id s) →
  Channel_from_json (reparse (Channel_to_json c)) = Ret c ∧
  Service_from_json (reparse (Service_to_json s)) = Ret s.
Proof. apply channel_service_decode. Qed.

Lemma channel_service_roundtrip_witness :
  let c := {| channel_id := 1;
              channel_base := {| topic := "/chatter"; encoding := "ros1";
                                 schema_name := "std_msgs/String"; schema := "string data";
                                 schema_encoding := Some "ros1msg" |} |} in
  let s := {| svc_id := 2;
              service_base := {| service_name := "/add"; service_type := "AddTwoInts";
                                 request_schema := "int64 a"; response_schema := "int64 sum" |} |} in
  Channel_from_json (reparse (Channel_to_json c)) = Ret c ∧
  Service_from_json (reparse (Service_to_json s)) = Ret s.
Proof. intros c s. apply channel_service_roundtrip; by compute. Defined.

Lemma mapM_total {A B} (f : A → outcome B) l :
  Forall (λ x, ∃ y, f x = Ret y) l → ∃ ys, outcome_mapM f l = Ret ys.
Proof.
  induction 1 as [|x l [y Hy] _ [ys Hys]]; [by exists []|].
  exists (y :: ys). simpl. by rewrite Hy, Hys.
Qed.

Lemma ParameterValue_from_json_total j : ∃ v, ParameterValue_from_json j = Ret v.
Proof.
  revert j. apply json_nested_ind; [by intros []; simpl; eauto|intros l IH|intros o IH]; simpl.
  - destruct (mapM_total _ _ IH) as [vs ->]. eauto.
  - destruct (mapM_total (λ kv, v ← ParameterValue_from_json kv.2; Ret (kv.1, v)) o) as [vs ->];
      [|eauto].
    eapply Forall_impl; [exact IH|]. intros [k v] [w Hw]. simpl in *. rewrite Hw. eauto.
Qed.

Lemma ParameterValue_to_json_total v : ∃ j, ParameterValue_to_json v = Ret j.
Proof.
  induction v as [|b|z|f|s|bs|l IH|o IH] using ParameterValue_nested_ind; simpl; eauto.
  - destruct (@base64_decode_encode x86_64 bs) as (s & -> & _). eauto.
  - destruct (mapM_total _ _ IH) as [vs ->]. eauto.
  - destruct (mapM_total (λ kv, j ← ParameterValue_to_json kv.2; Ret (kv.1, j)) o) as [vs ->];
      [|eauto].
    eapply Forall_impl; [exact IH|]. intros [k v] [w Hw]. simpl in *. rewrite Hw. eauto.
Qed.

Lemma Parameter_from_json_undefined_iff `{Platform} o :
  Parameter_from_json (JObj o) = Undefined ↔ obj_find "name" o = None.
Proof.
  unfold Parameter_from_json, json_index, json_find.
  destruct (obj_find "name" o) as [n|] eqn:E; [|done].
  split; [|done]. destruct n; try done. cbn.
  destruct (obj_find "value" o) as [jv|]; [|done]. cbn.
  destruct (ParameterValue_from_json_total jv) as [v ->]. cbn.
  destruct (match obj_find "type" o with Some t => get_string t | None => Ret EmptyString end)
    as [ty| |] eqn:Ety; [|done|]; cbn.
  - destruct v as [| | | |bs| |l|]; try (by repeat case_decide).
    + case_decide; [|done]. pose proof (base64_decode_defined bs). by destruct (base64_decode bs).
    + case_decide; [|done].
      assert (outcome_mapM (float64_element s) l ≠ Undefined) as Hd.
      { induction l as [|v l IH]; [done|]. simpl. destruct v; try done; simpl;
          by destruct (outcome_mapM _ l). }
      by destruct (outcome_mapM _ l).
  - destruct (obj_find "type" o) as [[]|]; done.
Qed.

Lemma Parameter_from_json_defined `{Platform} j :
  (∀ o, j = JObj o → is_Some (obj_find "name" o)) → Parameter_from_json j ≠ Undefined.
Proof.
  intros Hj. destruct j as [| | | | | | |o]; try done.
  intros ?%Parameter_from_json_undefined_iff. destruct (Hj o eq_refl). congruence.
Qed.

(** Reading a parameter from an arbitrary object has undefined behaviour
    exactly when the object has no ["name"]: the only unchecked access. A client
    reaches it with a [setParameters] request. *)
Theorem parameter_from_json_undefined `{Platform} (o : list (string * json)) :
  Parameter_from_json (JObj o) = Undefined ↔ obj_find "name" o = None.
Proof. apply Parameter_from_json_undefined_iff. Qed.
