(* ===== verification/ServerState.v ===== *)
(** * State and effects of the websocket server

    The data members of [Server] ([websocket_server.hpp]), the interface it has to
    its environment ([server_interface.hpp]: options and handlers; the live
    connections of websocketpp; the messages it sends), and the monad its methods
    are written in. *)

From Stdlib Require Import ZArith Lia.
From S2P Require Import Prelude Wire Json Serialization.

Local Open Scope Z_scope.

(** ** Options and handlers ([server_interface.hpp]) *)

Abbreviation MapOfSets := (gmap string (gset string)).

(** A [std::regex] is what [std::regex_match] decides with it. *)
Definition regex := string → bool.

Record ServerOptions := {
  capabilities : list string;
  supported_encodings : list string;
  metadata : gmap string string;
  send_buffer_limit_bytes : Z;
  use_tls : bool;
  cert_file : string;
  key_file : string;
  session_id : string;
  use_compression : bool;
  client_topic_whitelist_patterns : list regex;
  mac_addr : string;
  ip_addrs : list string
}.

Definition set_metadata (m : gmap string string) (o : ServerOptions) : ServerOptions :=
  {| capabilities := capabilities o; supported_encodings := supported_encodings o;
     metadata := m; send_buffer_limit_bytes := send_buffer_limit_bytes o;
     use_tls := use_tls o; cert_file := cert_file o; key_file := key_file o;
     session_id := session_id o; use_compression := use_compression o;
     client_topic_whitelist_patterns := client_topic_whitelist_patterns o;
     mac_addr := mac_addr o; ip_addrs := ip_addrs o |}.

(** [is_whitelisted] ([regex_utils.hpp]). *)
Definition is_whitelisted (name : string) (regex_patterns : list regex) : bool :=
  existsb (λ r, r name) regex_patterns.

(** A connection handle names one websocketpp connection. *)
Abbreviation ConnHandle := nat.

(** One constructor per member of [ServerHandlers]: a call of that handler. *)
Inductive handler_call :=
| CallSubscribe (channel_id : Z) (hdl : ConnHandle)
| CallUnsubscribe (channel_id : Z) (hdl : ConnHandle)
| CallClientAdvertise (adv : ClientAdvertisement) (hdl : ConnHandle)
| CallClientUnadvertise (channel_id : Z) (hdl : ConnHandle)
| CallClientMessage (msg : ClientMessage) (hdl : ConnHandle)
| CallParameterRequest (names : list string) (request_id : option string) (hdl : ConnHandle)
| CallParameterChange (ps : list ParameterT) (request_id : option string) (hdl : ConnHandle)
| CallParameterSubscription (names : list string) (op : ParameterSubscriptionOperation)
    (hdl : ConnHandle)
| CallServiceRequest (request : ServiceRequest) (hdl : ConnHandle)
| CallSubscribeConnectionGraph (subscribe : bool)
| CallFetchAsset (uri : string) (request_id : Z) (hdl : ConnHandle).

(** ** Server state *)

Record ClientInfo := {
  endpoint_name : string;
  user_name : string;
  user_id : string;
  handle : ConnHandle;
  subscriptions_by_channel : gmap Z Z;
  advertised_channels : gset Z;
  subscribed_to_connection_graph : bool;
  login : bool
}.

Definition new_ClientInfo (endpoint_name user_name user_id : string) (hdl : ConnHandle) :
    ClientInfo :=
  {| endpoint_name := endpoint_name; user_name := user_name; user_id := user_id; handle := hdl;
     subscriptions_by_channel := ∅; advertised_channels := ∅;
     subscribed_to_connection_graph := false; login := true |}.

Definition set_subscriptions (m : gmap Z Z) (c : ClientInfo) : ClientInfo :=
  {| endpoint_name := endpoint_name c; user_name := user_name c; user_id := user_id c;
     handle := handle c; subscriptions_by_channel := m;
     advertised_channels := advertised_channels c;
     subscribed_to_connection_graph := subscribed_to_connection_graph c; login := login c |}.

Definition set_advertised (a : gset Z) (c : ClientInfo) : ClientInfo :=
  {| endpoint_name := endpoint_name c; user_name := user_name c; user_id := user_id c;
     handle := handle c; subscriptions_by_channel := subscriptions_by_channel c;
     advertised_channels := a;
     subscribed_to_connection_graph := subscribed_to_connection_graph c; login := login c |}.

Definition set_graph_flag (b : bool) (c : ClientInfo) : ClientInfo :=
  {| endpoint_name := endpoint_name c; user_name := user_name c; user_id := user_id c;
     handle := handle c; subscriptions_by_channel := subscriptions_by_channel c;
     advertised_channels := advertised_channels c;
     subscribed_to_connection_graph := b; login := login c |}.

Definition set_login (b : bool) (c : ClientInfo) : ClientInfo :=
  {| endpoint_name := endpoint_name c; user_name := user_name c; user_id := user_id c;
     handle := handle c; subscriptions_by_channel := subscriptions_by_channel c;
     advertised_channels := advertised_channels c;
     subscribed_to_connection_graph := subscribed_to_connection_graph c; login := b |}.

Record ConnectionGraph := {
  subscription_count : Z;
  published_topics : MapOfSets;
  subscribed_topics : MapOfSets;
  advertised_services : MapOfSets
}.

Record Server := {
  _name : string;
  _options : ServerOptions;
  _next_channel_id : Z;
  _clients : gmap ConnHandle ClientInfo;
  _channels : gmap Z Channel;
  _client_channels : gmap ConnHandle (gmap Z ClientAdvertisement);
  _client_param_subscriptions : gmap ConnHandle (gset string);
  _nextService_id : Z;
  _services : gmap Z ServiceWithoutId;
  _connection_graph : ConnectionGraph
}.

(** [Server::Server]: every other member has its default initializer. *)
Definition new_Server (name : string) (options : ServerOptions) : Server :=
  {| _name := name; _options := options; _next_channel_id := 0; _clients := ∅; _channels := ∅;
     _client_channels := ∅; _client_param_subscriptions := ∅; _nextService_id := 0;
     _services := ∅;
     _connection_graph := {| subscription_count := 0; published_topics := ∅;
                             subscribed_topics := ∅; advertised_services := ∅ |} |}.

Section Setters.
Context (s : Server).

Definition set_options (o : ServerOptions) : Server :=
  {| _name := _name s; _options := o; _next_channel_id := _next_channel_id s;
     _clients := _clients s; _channels := _channels s; _client_channels := _client_channels s;
     _client_param_subscriptions := _client_param_subscriptions s;
     _nextService_id := _nextService_id s; _services := _services s;
     _connection_graph := _connection_graph s |}.

Definition set_next_channel_id (n : Z) : Server :=
  {| _name := _name s; _options := _options s; _next_channel_id := n;
     _clients := _clients s; _channels := _channels s; _client_channels := _client_channels s;
     _client_param_subscriptions := _client_param_subscriptions s;
     _nextService_id := _nextService_id s; _services := _services s;
     _connection_graph := _connection_graph s |}.

Definition set_clients (m : gmap ConnHandle ClientInfo) : Server :=
  {| _name := _name s; _options := _options s; _next_channel_id := _next_channel_id s;
     _clients := m; _channels := _channels s; _client_channels := _client_channels s;
     _client_param_subscriptions := _client_param_subscriptions s;
     _nextService_id := _nextService_id s; _services := _services s;
     _connection_graph := _connection_graph s |}.

Definition set_channels (m : gmap Z Channel) : Server :=
  {| _name := _name s; _options := _options s; _next_channel_id := _next_channel_id s;
     _clients := _clients s; _channels := m; _client_channels := _client_channels s;
     _client_param_subscriptions := _client_param_subscriptions s;
     _nextService_id := _nextService_id s; _services := _services s;
     _connection_graph := _connection_graph s |}.

Definition set_client_channels (m : gmap ConnHandle (gmap Z ClientAdvertisement)) : Server :=
  {| _name := _name s; _options := _options s; _next_channel_id := _next_channel_id s;
     _clients := _clients s; _channels := _channels s; _client_channels := m;
     _client_param_subscriptions := _client_param_subscriptions s;
     _nextService_id := _nextService_id s; _services := _services s;
     _connection_graph := _connection_graph s |}.

Definition set_param_subscriptions (m : gmap ConnHandle (gset string)) : Server :=
  {| _name := _name s; _options := _options s; _next_channel_id := _next_channel_id s;
     _clients := _clients s; _channels := _channels s; _client_channels := _client_channels s;
     _client_param_subscriptions := m;
     _nextService_id := _nextService_id s; _services := _services s;
     _connection_graph := _connection_graph s |}.

Definition set_nextService_id (n : Z) : Server :=
  {| _name := _name s; _options := _options s; _next_channel_id := _next_channel_id s;
     _clients := _clients s; _channels := _channels s; _client_channels := _client_channels s;
     _client_param_subscriptions := _client_param_subscriptions s;
     _nextService_id := n; _services := _services s;
     _connection_graph := _connection_graph s |}.

Definition set_services (m : gmap Z ServiceWithoutId) : Server :=
  {| _name := _name s; _options := _options s; _next_channel_id := _next_channel_id s;
     _clients := _clients s; _channels := _channels s; _client_channels := _client_channels s;
     _client_param_subscriptions := _client_param_subscriptions s;
     _nextService_id := _nextService_id s; _services := m;
     _connection_graph := _connection_graph s |}.

Definition set_connection_graph (g : ConnectionGraph) : Server :=
  {| _name := _name s; _options := _options s; _next_channel_id := _next_channel_id s;
     _clients := _clients s; _channels := _channels s; _client_channels := _client_channels s;
     _client_param_subscriptions := _client_param_subscriptions s;
     _nextService_id := _nextService_id s; _services := _services s;
     _connection_graph := g |}.

End Setters.

Definition set_subscription_count (n : Z) (g : ConnectionGraph) : ConnectionGraph :=
  {| subscription_count := n; published_topics := published_topics g;
     subscribed_topics := subscribed_topics g; advertised_services := advertised_services g |}.

Definition set_graph_maps (p q r : MapOfSets) (g : ConnectionGraph) : ConnectionGraph :=
  {| subscription_count := subscription_count g; published_topics := p;
     subscribed_topics := q; advertised_services := r |}.

(** ** The environment *)

(** A connection websocketpp still owns. *)
Record Connection := {
  remote_endpoint : string;
  requested_subprotocols : list string;
  selected_subprotocol : option string
}.

(** The payload of a sent message: the JSON value that is dumped, or bytes. *)
Inductive message := Text (payload : json) | Binary (payload : list byte).

(** What the server does to its environment: hand a message to [con->send], call
    a handler. *)
Inductive event :=
| Send (hdl : ConnHandle) (m : message) (reliable : bool)
| Call (c : handler_call).

(** The mutexes of the server, and the three of a bridge node whose handlers run
    in this monad. *)
Inductive mutex :=
| clients_mutex | channels_mutex | client_channels_mutex | services_mutex
| client_param_subscriptions_mutex | connection_graph_mutex
| bridge_subscriptions_mutex | bridge_publications_mutex | bridge_services_mutex.

#[export] Instance mutex_eq_dec : EqDecision mutex.
Proof. solve_decision. Defined.

(** [world] is the state of the handlers. *)
Record St (W : Type) := mkSt {
  srv : Server;
  net : gmap ConnHandle Connection;
  trace : list event;
  world : W
}.
Arguments mkSt {W}.
Arguments srv {W}.
Arguments net {W}.
Arguments trace {W}.
Arguments world {W}.

(** ** The monad

    A method runs with the mutexes its callers hold, and returns its outcome and
    the state it leaves (also when it throws). *)

Definition M (W A : Type) : Type := list mutex → St W → outcome A * St W.

Section Monad.
Context {W : Type}.

Definition M_ret {A} (a : A) : M W A := λ L s, (Ret a, s).
Definition M_bind {A B} (f : A → M W B) (m : M W A) : M W B := λ L s,
  match m L s with
  | (Ret a, s') => f a L s'
  | (Throw e, s') => (Throw e, s')
  | (Undefined, s') => (Undefined, s')
  end.

#[export] Instance M_mret : MRet (M W) := @M_ret.
#[export] Instance M_mbind : MBind (M W) := @M_bind.

Definition throw {A} (e : exn) : M W A := λ L s, (Throw e, s).
Definition undefined {A} : M W A := λ L s, (Undefined, s).
Definition lift {A} (o : outcome A) : M W A := λ L s, (o, s).

(** Reading and writing the server's members. *)
Definition get {A} (f : Server → A) : M W A := λ L s, (Ret (f (srv s)), s).
Definition update (f : Server → Server) : M W unit := λ L s,
  (Ret tt, mkSt (f (srv s)) (net s) (trace s) (world s)).

Definition emit (e : event) : M W unit := λ L s,
  (Ret tt, mkSt (srv s) (net s) (trace s ++ [e]) (world s)).

(** A block under a [std::lock_guard]: locking a mutex the thread already owns is
    undefined; the guard unlocks on every exit. *)
Definition with_lock {A} (m : mutex) (body : M W A) : M W A := λ L s,
  if decide (m ∈ L) then (Undefined, s) else body (m :: L) s.

Definition try_catch {A} (body : M W A) (handler : exn → M W A) : M W A := λ L s,
  match body L s with
  | (Throw e, s') => handler e L s'
  | r => r
  end.

(** [for (const auto & x : l) { ... }]. *)
Fixpoint for_each {A} (l : list A) (body : A → M W unit) : M W unit :=
  match l with
  | [] => mret tt
  | x :: l => body x;; for_each l body
  end.

(** The pieces of websocketpp. *)

(** [get_con_from_hdl(hdl, ec)]. *)
Definition find_connection (hdl : ConnHandle) : M W (option Connection) := λ L s,
  (Ret (net s !! hdl), s).

Definition bad_connection : exn := StdException "Bad Connection".

(** [get_con_from_hdl(hdl)]. *)
Definition get_con_from_hdl (hdl : ConnHandle) : M W Connection :=
  con ← find_connection hdl;
  match con with Some c => mret c | None => throw bad_connection end.

Definition select_subprotocol (hdl : ConnHandle) (p : string) : M W unit := λ L s,
  (Ret tt, mkSt (srv s)
     (alter (λ c, {| remote_endpoint := remote_endpoint c;
                     requested_subprotocols := requested_subprotocols c;
                     selected_subprotocol := Some p |}) hdl (net s))
     (trace s) (world s)).

End Monad.

(** [e.what()]; [None] for an exception that is not a [std::exception]. *)
Definition what (e : exn) : option string :=
  match e with
  | RuntimeError w | StdException w | ChannelError _ w | ClientChannelError _ w
  | ServiceError _ w => Some w
  | UnknownException => None
  end.

(** The id of an [ExceptionWithId<uint32_t>]. *)
Definition exn_id (e : exn) : option Z :=
  match e with
  | ChannelError i _ | ClientChannelError i _ | ServiceError i _ => Some i
  | _ => None
  end.

(** [ServerHandlers]: unset [std::function]s are [None]. *)
Record ServerHandlers (W : Type) := {
  subscribe_handler : option (Z → ConnHandle → M W unit);
  unsubscribe_handler : option (Z → ConnHandle → M W unit);
  client_advertise_handler : option (ClientAdvertisement → ConnHandle → M W unit);
  client_unadvertise_handler : option (Z → ConnHandle → M W unit);
  client_message_handler : option (ClientMessage → ConnHandle → M W unit);
  parameter_request_handler :
    option (list string → option string → ConnHandle → M W unit);
  parameter_change_handler :
    option (list ParameterT → option string → ConnHandle → M W unit);
  parameter_subscription_handler :
    option (list string → ParameterSubscriptionOperation → ConnHandle → M W unit);
  service_request_handler : option (ServiceRequest → ConnHandle → M W unit);
  subscribe_connection_graph_handler : option (bool → M W unit);
  fetch_asset_handler : option (string → Z → ConnHandle → M W unit)
}.
Arguments subscribe_handler {W}.
Arguments unsubscribe_handler {W}.
Arguments client_advertise_handler {W}.
Arguments client_unadvertise_handler {W}.
Arguments client_message_handler {W}.
Arguments parameter_request_handler {W}.
Arguments parameter_change_handler {W}.
Arguments parameter_subscription_handler {W}.
Arguments service_request_handler {W}.
Arguments subscribe_connection_graph_handler {W}.
Arguments fetch_asset_handler {W}.

Section Handlers.
Context {W : Type} (H : ServerHandlers W).

Definition handler_body (c : handler_call) : option (M W unit) :=
  match c with
  | CallSubscribe ch hdl => (λ f, f ch hdl) <$> subscribe_handler H
  | CallUnsubscribe ch hdl => (λ f, f ch hdl) <$> unsubscribe_handler H
  | CallClientAdvertise adv hdl => (λ f, f adv hdl) <$> client_advertise_handler H
  | CallClientUnadvertise ch hdl => (λ f, f ch hdl) <$> client_unadvertise_handler H
  | CallClientMessage m hdl => (λ f, f m hdl) <$> client_message_handler H
  | CallParameterRequest ns i hdl => (λ f, f ns i hdl) <$> parameter_request_handler H
  | CallParameterChange ps i hdl => (λ f, f ps i hdl) <$> parameter_change_handler H
  | CallParameterSubscription ns op hdl =>
      (λ f, f ns op hdl) <$> parameter_subscription_handler H
  | CallServiceRequest r hdl => (λ f, f r hdl) <$> service_request_handler H
  | CallSubscribeConnectionGraph b => (λ f, f b) <$> subscribe_connection_graph_handler H
  | CallFetchAsset u i hdl => (λ f, f u i hdl) <$> fetch_asset_handler H
  end.

(** Calling an empty [std::function] throws. *)
Definition call (c : handler_call) : M W unit :=
  match handler_body c with
  | Some body => emit (Call c);; body
  | None => throw (StdException "bad_function_call")
  end.

End Handlers.
