(* ===== verification/ServerMethods.v ===== *)
(** * The methods of the websocket server

    Every public and private method of [Server] ([websocket_server.hpp]) that
    reads or changes its members, written over the monad of [ServerState]. The
    order in which an unordered container is traversed is the one of
    [map_to_list] or [elements]. Log output is left out. *)

From Stdlib Require Import ZArith Lia.
From S2P Require Import Prelude Wire Json Serialization ServerState.

Local Open Scope Z_scope.

(** ** Operation codes: FNV-1a hashes of the operation's name *)

Section Hash.
Context `{Platform}.

(** [static_cast<uint32_t>(str\[i\])]: a signed [char] is sign extended. *)
Definition char_to_u32 (c : byte) : Z :=
  let v := byte_to_Z c in
  if char_signed && (128 <=? v) then u32 (v - 256) else v.

Fixpoint string_hash_impl (str : list byte) (result : Z) : Z :=
  match str with
  | [] => result
  | c :: str => string_hash_impl str (u32 (Z.lxor (char_to_u32 c) result * 0x01000193))
  end.

Definition string_hash (str : string) : Z :=
  string_hash_impl (bytes_of_string str) 0x811C9DC5.

End Hash.

(** The client operations, and the [constexpr] the [switch] compares with. *)
Inductive client_op :=
| LOGIN | OP_SUBSCRIBE | OP_UNSUBSCRIBE | ADVERTISE | UNADVERTISE
| GET_PARAMETERS | SET_PARAMETERS
| SUBSCRIBE_PARAMETER_UPDATES | UNSUBSCRIBE_PARAMETER_UPDATES
| SUBSCRIBE_CONNECTION_GRAPH | UNSUBSCRIBE_CONNECTION_GRAPH | FETCH_ASSET.

Definition op_name (o : client_op) : string :=
  match o with
  | LOGIN => "login"
  | OP_SUBSCRIBE => "subscribe"
  | OP_UNSUBSCRIBE => "unsubscribe"
  | ADVERTISE => "advertise"
  | UNADVERTISE => "unadvertise"
  | GET_PARAMETERS => "getParameters"
  | SET_PARAMETERS => "setParameters"
  | SUBSCRIBE_PARAMETER_UPDATES => "subscribeParameterUpdates"
  | UNSUBSCRIBE_PARAMETER_UPDATES => "unsubscribeParameterUpdates"
  | SUBSCRIBE_CONNECTION_GRAPH => "subscribeConnectionGraph"
  | UNSUBSCRIBE_CONNECTION_GRAPH => "unsubscribeConnectionGraph"
  | FETCH_ASSET => "fetchAsset"
  end.

Definition client_ops : list client_op :=
  [LOGIN; OP_SUBSCRIBE; OP_UNSUBSCRIBE; ADVERTISE; UNADVERTISE; GET_PARAMETERS; SET_PARAMETERS;
   SUBSCRIBE_PARAMETER_UPDATES; UNSUBSCRIBE_PARAMETER_UPDATES;
   SUBSCRIBE_CONNECTION_GRAPH; UNSUBSCRIBE_CONNECTION_GRAPH; FETCH_ASSET].

(** The [case] a [switch] over hashes takes; [None] is [default]. *)
Definition switch_op `{Platform} (hash : Z) : option client_op :=
  find (λ o, string_hash (op_name o) =? hash) client_ops.

(** ** Capabilities ([common.hpp]) *)

Definition CAPABILITY_CLIENT_PUBLISH := "clientPublish".
Definition CAPABILITY_TIME := "time".
Definition CAPABILITY_PARAMETERS := "parameters".
Definition CAPABILITY_PARAMETERS_SUBSCRIBE := "parametersSubscribe".
Definition CAPABILITY_SERVICES := "services".
Definition CAPABILITY_CONNECTION_GRAPH := "connectionGraph".
Definition CAPABILITY_ASSETS := "assets".

Definition SUPPORTED_SUB_PROTOCOL := "coBridge.websocket.v1".
Definition FOXGLOVE_SUB_PROTOCOL := "foxglove.websocket.v1".

Definition CAPABILITY_BY_CLIENT_OPERATION : list (string * string) :=
  [("advertise", CAPABILITY_CLIENT_PUBLISH);
   ("unadvertise", CAPABILITY_CLIENT_PUBLISH);
   ("getParameters", CAPABILITY_PARAMETERS);
   ("setParameters", CAPABILITY_PARAMETERS);
   ("subscribeParameterUpdates", CAPABILITY_PARAMETERS_SUBSCRIBE);
   ("unsubscribeParameterUpdates", CAPABILITY_PARAMETERS_SUBSCRIBE);
   ("subscribeConnectionGraph", CAPABILITY_CONNECTION_GRAPH);
   ("unsubscribeConnectionGraph", CAPABILITY_CONNECTION_GRAPH);
   ("fetchAsset", CAPABILITY_ASSETS)].

(** [ClientBinaryOpcode]: [MESSAGE_DATA] is 1, [SERVICE_CALL_REQUEST] is 2. *)
Definition CAPABILITY_BY_CLIENT_BINARY_OPERATION (op : Z) : option string :=
  if op =? 1 then Some CAPABILITY_CLIENT_PUBLISH
  else if op =? 2 then Some CAPABILITY_SERVICES
  else None.

Inductive StatusLevel := Info | Warning | Error.

Definition StatusLevel_value (l : StatusLevel) : Z :=
  match l with Info => 0 | Warning => 1 | Error => 2 end.

(** The double quote. *)
Definition dquote : string := String (Ascii.ascii_of_nat 34) EmptyString.

(** An incoming websocket message. *)
Inductive OpCode := TEXT | BINARY | OTHER_OPCODE.

(** ** Building blocks *)

Section Blocks.
Context {W : Type}.

(** [catch (const std::exception & e) { ... } catch (...) { ... }]. *)
Definition catch_std {A} (std_handler : string → M W A) (any_handler : M W A) (e : exn) : M W A :=
  match what e with Some w => std_handler w | None => any_handler end.

(** [_clients.at(hdl)]. *)
Definition clients_at (hdl : ConnHandle) : M W ClientInfo :=
  clients ← get _clients;
  match clients !! hdl with
  | Some c => mret c
  | None => throw (StdException "map::at")
  end.

(** Assignment through a reference to [_clients.at(hdl)]. *)
Definition update_client (hdl : ConnHandle) (f : ClientInfo → ClientInfo) : M W unit :=
  update (λ s, set_clients s (alter f hdl (_clients s))).

Definition catch_log (e : exn) : M W unit :=
  match what e with Some _ => mret tt | None => throw e end.

Definition send_json (hdl : ConnHandle) (payload : json) (reliable : bool) : M W unit :=
  try_catch (get_con_from_hdl hdl;;
             text ← lift (dump payload);
             emit (Send hdl (Text text) reliable)) catch_log.

(** The payload is the text of a JSON value at every call. *)
Definition send_raw_json (hdl : ConnHandle) (payload : json) (reliable : bool) : M W unit :=
  try_catch (get_con_from_hdl hdl;; emit (Send hdl (Text payload) reliable)) catch_log.

Definition send_binary (hdl : ConnHandle) (payload : list byte) (reliable : bool) : M W unit :=
  try_catch (get_con_from_hdl hdl;; emit (Send hdl (Binary payload) reliable)) catch_log.

Definition status_json (level : StatusLevel) (msg : string) : json :=
  json_object [("op", JStr "status"); ("level", JUnsigned (StatusLevel_value level));
               ("message", JStr msg)].

Definition send_status_and_log_msg (hdl : ConnHandle) (level : StatusLevel) (msg : string) :
    M W unit :=
  send_json hdl (status_json level msg) true.

Definition remote_endpoint_string (hdl : ConnHandle) : M W string :=
  con ← find_connection hdl;
  mret (match con with Some c => remote_endpoint c | None => "(unknown)" end).

(** [for (const auto & client : _clients) send_raw_json(client.first, msg)]. *)
Definition broadcast (msg : json) : M W unit :=
  clients ← get _clients;
  for_each (map_to_list clients) (λ client, send_raw_json client.1 msg true).

(** ** Public methods *)

Fixpoint add_channels_loop (channels : list ChannelWithoutId) : M W (list Channel) :=
  match channels with
  | [] => mret []
  | channel_without_id :: channels =>
      update (λ s, set_next_channel_id s (u32 (_next_channel_id s + 1)));;
      new_id ← get _next_channel_id;
      let new_channel := {| channel_id := new_id; channel_base := channel_without_id |} in
      update (λ s, set_channels s
                     (match _channels s !! new_id with
                      | Some _ => _channels s
                      | None => <[new_id := new_channel]> (_channels s)
                      end));;
      rest ← add_channels_loop channels;
      mret (new_channel :: rest)
  end.

Definition advertise_json (channels : list Channel) : json :=
  json_object [("op", JStr "advertise"); ("channels", JArr (Channel_to_json <$> channels))].

Definition add_channels (channels : list ChannelWithoutId) : M W (list Z) :=
  match channels with
  | [] => mret []
  | _ =>
      new_channels ← with_lock channels_mutex (add_channels_loop channels);
      msg ← lift (dump (advertise_json new_channels));
      with_lock clients_mutex (broadcast msg);;
      mret (channel_id <$> new_channels)
  end.

Definition json_ids (ids : list Z) : json := JArr (JUnsigned <$> ids).

Definition unadvertise_json (channel_ids : list Z) : json :=
  json_object [("op", JStr "unadvertise"); ("channelIds", json_ids channel_ids)].

Definition remove_channels (channel_ids : list Z) : M W unit :=
  match channel_ids with
  | [] => mret tt
  | _ =>
      with_lock channels_mutex
        (for_each channel_ids (λ id, update (λ s, set_channels s (delete id (_channels s)))));;
      msg ← lift (dump (unadvertise_json channel_ids));
      with_lock clients_mutex
        (clients ← get _clients;
         for_each (map_to_list clients) (λ client,
           for_each channel_ids (λ id,
             update_client client.1
               (λ c, set_subscriptions (delete id (subscriptions_by_channel c)) c));;
           send_raw_json client.1 msg true))
  end.

Definition publish_parameter_values (hdl : ConnHandle) (parameters : list ParameterT)
    (request_id : option string) : M W unit :=
  let non_empty := filter (λ p, get_type p ≠ PARAMETER_NOT_SET) parameters in
  ps ← lift (outcome_mapM Parameter_to_json non_empty);
  let payload := [("op", JStr "parameterValues"); ("parameters", JArr ps)] ++
                 match request_id with Some id => [("id", JStr id)] | None => [] end in
  text ← lift (dump (json_object payload));
  send_raw_json hdl text true.

Definition update_parameter_values (parameters : list ParameterT) : M W unit :=
  with_lock client_param_subscriptions_mutex
    (subs ← get _client_param_subscriptions;
     for_each (map_to_list subs) (λ client_subs,
       let to_send := filter (λ p, param_name p ∈ client_subs.2) parameters in
       match to_send with
       | [] => mret tt
       | _ => publish_parameter_values client_subs.1 to_send None
       end)).

Fixpoint add_services_loop (services : list ServiceWithoutId) : M W (list Service) :=
  match services with
  | [] => mret []
  | service :: services =>
      update (λ s, set_nextService_id s (u32 (_nextService_id s + 1)));;
      service_id ← get _nextService_id;
      update (λ s, set_services s
                     (match _services s !! service_id with
                      | Some _ => _services s
                      | None => <[service_id := service]> (_services s)
                      end));;
      rest ← add_services_loop services;
      mret ({| service_base := service; svc_id := service_id |} :: rest)
  end.

Definition advertise_services_json (services : list Service) : json :=
  json_object [("op", JStr "advertiseServices");
               ("services", JArr (Service_to_json <$> services))].

Definition add_services (services : list ServiceWithoutId) : M W (list Z) :=
  match services with
  | [] => mret []
  | _ =>
      with_lock services_mutex
        (new_services ← add_services_loop services;
         msg ← lift (dump (advertise_services_json new_services));
         with_lock clients_mutex (broadcast msg);;
         mret (svc_id <$> new_services))
  end.

Fixpoint remove_services_loop (service_ids : list Z) : M W (list Z) :=
  match service_ids with
  | [] => mret []
  | service_id :: service_ids =>
      services ← get _services;
      match services !! service_id with
      | Some _ =>
          update (λ s, set_services s (delete service_id (_services s)));;
          removed ← remove_services_loop service_ids;
          mret (service_id :: removed)
      | None => remove_services_loop service_ids
      end
  end.

Definition remove_services (service_ids : list Z) : M W unit :=
  with_lock services_mutex
    (removed ← remove_services_loop service_ids;
     match removed with
     | [] => mret tt
     | _ =>
         msg ← lift (dump (json_object [("op", JStr "unadvertiseServices");
                                        ("serviceIds", json_ids removed)]));
         with_lock clients_mutex (broadcast msg)
     end).

Definition send_message `{Platform} (hdl : ConnHandle) (chan_id timestamp : Z)
    (payload : list byte) : M W unit :=
  con ← find_connection hdl;
  match con with
  | None => mret tt
  | Some _ =>
      sub_id ← with_lock clients_mutex
        (clients ← get _clients;
         mret (match clients !! hdl with
               | Some client => subscriptions_by_channel client !! chan_id
               | None => None
               end));
      match sub_id with
      | None => mret tt
      | Some sub_id =>
          frame ← lift (message_data_frame sub_id timestamp payload);
          emit (Send hdl (Binary frame) false)
      end
  end.

Definition broadcast_time `{Platform} (timestamp : Z) : M W unit :=
  frame ← lift (time_data_frame timestamp);
  with_lock clients_mutex
    (clients ← get _clients;
     for_each (map_to_list clients) (λ client, send_binary client.1 frame true)).

Definition send_service_response `{Platform} (hdl : ConnHandle) (response : ServiceResponse) :
    M W unit :=
  payload ← lift (service_response_frame response);
  send_binary hdl payload true.

Definition send_fetch_asset_response `{Platform} (hdl : ConnHandle)
    (response : FetchAssetResponse) : M W unit :=
  con ← find_connection hdl;
  match con with
  | None => mret tt
  | Some _ =>
      frame ← lift (fetch_asset_frame response);
      emit (Send hdl (Binary frame) true)
  end.

(** *** Connection graph *)

Definition json_set (ids : gset string) : json := json_strings (elements ids).

Definition graph_entry (ids_key : string) (entry : string * gset string) : json :=
  json_object [("name", JStr entry.1); (ids_key, json_set entry.2)].

(** The entries that are new or changed. *)
Definition changed_entries (old new : MapOfSets) : list (string * gset string) :=
  filter (λ e, old !! e.1 ≠ Some e.2) (map_to_list new).

(** The names that are gone. *)
Definition removed_names (known names : gset string) : list string :=
  filter (λ n, n ∉ names) (elements known).

Definition graph_update_json (published subscribed services : list (string * gset string))
    (removed_topics removed_services : list string) : json :=
  json_object [("op", JStr "connectionGraphUpdate");
               ("publishedTopics", JArr (graph_entry "publisherIds" <$> published));
               ("subscribedTopics", JArr (graph_entry "subscriberIds" <$> subscribed));
               ("advertisedServices", JArr (graph_entry "providerIds" <$> services));
               ("removedTopics", json_strings removed_topics);
               ("removedServices", json_strings removed_services)].

Definition is_nil {A} (l : list A) : bool := match l with [] => true | _ => false end.

Definition update_connection_graph (published subscribed services : MapOfSets) : M W unit :=
  g ← with_lock connection_graph_mutex
    (g ← get _connection_graph;
     update (λ s, set_connection_graph s
                    (set_graph_maps published subscribed services (_connection_graph s)));;
     mret g);
  let publisher_diff := changed_entries (published_topics g) published in
  let subscriber_diff := changed_entries (subscribed_topics g) subscribed in
  let services_diff := changed_entries (advertised_services g) services in
  let removed_topics := removed_names (dom (published_topics g) ∪ dom (subscribed_topics g))
                                      (dom published ∪ dom subscribed) in
  let removed_services := removed_names (dom (advertised_services g)) (dom services) in
  if is_nil publisher_diff && is_nil subscriber_diff && is_nil services_diff &&
     is_nil removed_topics && is_nil removed_services
  then mret tt
  else
    msg ← lift (dump (graph_update_json publisher_diff subscriber_diff services_diff
                                        removed_topics removed_services));
    with_lock clients_mutex
      (clients ← get _clients;
       for_each (map_to_list clients) (λ client,
         if subscribed_to_connection_graph client.2
         then get_con_from_hdl client.1;; emit (Send client.1 (Text msg) true)
         else mret tt)).

(** ** Connections *)

Definition validate_connection (hdl : ConnHandle) : M W bool :=
  con ← get_con_from_hdl hdl;
  if decide (SUPPORTED_SUB_PROTOCOL ∈ requested_subprotocols con)
  then select_subprotocol hdl SUPPORTED_SUB_PROTOCOL;; mret true
  else if decide (FOXGLOVE_SUB_PROTOCOL ∈ requested_subprotocols con)
  then select_subprotocol hdl FOXGLOVE_SUB_PROTOCOL;; mret true
  else mret false.

Definition kicked_json (user_id user_name : string) : json :=
  json_object [("op", JStr "kicked");
               ("message", JStr "The client was forcibly disconnected by the server.");
               ("userId", JStr user_id); ("username", JStr user_name)].

(** The body of the loop over the clients that are there. *)
Definition kick_client (user_id user_name : string) (client : ConnHandle * ClientInfo) :
    M W unit :=
  get_con_from_hdl client.1;;
  text ← lift (dump (kicked_json user_id user_name));
  emit (Send client.1 (Text text) true);;
  update_client client.1 (set_login false).

Definition serverInfo_json (s : Server) : json :=
  let o := _options s in
  json_object
    [("op", JStr "serverInfo"); ("name", JStr (_name s));
     ("capabilities", json_strings (capabilities o));
     ("supportedEncodings", json_strings (supported_encodings o));
     ("metadata", json_object (prod_map id JStr <$> map_to_list (metadata o)));
     ("sessionId", JStr (session_id o))].

Definition handle_login (payload : json) (hdl : ConnHandle) : M W unit :=
  user_name ← lift (v ← json_at payload "username"; get_string v);
  user_id ← lift (v ← json_at payload "userId"; get_string v);
  endpoint ← remote_endpoint_string hdl;
  with_lock clients_mutex
    (clients ← get _clients;
     for_each (map_to_list clients) (kick_client user_id user_name);;
     update (λ s, set_clients s
                    (match _clients s !! hdl with
                     | Some _ => _clients s
                     | None =>
                         <[hdl := new_ClientInfo endpoint user_name user_id hdl]> (_clients s)
                     end)));;
  get_con_from_hdl hdl;;
  info ← get serverInfo_json;
  text ← lift (dump info);
  emit (Send hdl (Text text) true);;
  channels ← with_lock channels_mutex (get _channels);
  send_json hdl (advertise_json (map_to_list channels).*2) true;;
  services ← with_lock services_mutex (get _services);
  send_json hdl
    (advertise_services_json
       ((λ e, {| service_base := e.2; svc_id := e.1 |}) <$> map_to_list services)) true.

(** [endpoint.substr(0, endpoint.find(":"))]. *)
Definition strip_port (endpoint : string) : string :=
  match String.index 0 ":" endpoint with
  | Some n => String.substring 0 n endpoint
  | None => endpoint
  end.

Definition login_json (o : ServerOptions) (user_id user_name link_type : string) : json :=
  json_object [("op", JStr "login"); ("userId", JStr user_id); ("username", JStr user_name);
               ("infoPort", JStr "21275"); ("macAddr", JStr (mac_addr o));
               ("lanCandidates", json_strings (ip_addrs o)); ("linkType", JStr link_type)].

Definition handle_connection_opened (hdl : ConnHandle) : M W unit :=
  get_con_from_hdl hdl;;
  endpoint ← remote_endpoint_string hdl;
  (* [_options.metadata\["COLINK"\]] inserts an empty string when there is none *)
  update (λ s, let m := metadata (_options s) in
               set_options s (set_metadata
                 (match m !! "COLINK" with Some _ => m | None => <["COLINK" := EmptyString]> m end)
                 (_options s)));;
  o ← get _options;
  let colink_ip := default EmptyString (metadata o !! "COLINK") in
  let link_type := if decide (colink_ip ≠ EmptyString ∧ strip_port endpoint = colink_ip)
                   then "colink" else "other" in
  clients ← get _clients;
  let '(login_user_id, login_user_name) :=
    match find (λ e, login e.2) (map_to_list clients) with
    | Some (_, c) => (user_id c, user_name c)
    | None => (EmptyString, EmptyString)
    end in
  send_json hdl (login_json o login_user_id login_user_name link_type) true.

Definition param_subscribed (subs : gmap ConnHandle (gset string)) (name : string) : bool :=
  existsb (λ e : ConnHandle * gset string, bool_decide (name ∈ e.2)) (map_to_list subs).

Definition is_parameter_subscribed (name : string) : M W bool :=
  subs ← get _client_param_subscriptions;
  mret (param_subscribed subs name).

(** [std::copy_if(..., !is_parameter_subscribed)]. *)
Fixpoint not_subscribed (names : list string) : M W (list string) :=
  match names with
  | [] => mret []
  | name :: names =>
      b ← is_parameter_subscribed name;
      rest ← not_subscribed names;
      mret (if b : bool then rest else name :: rest)
  end.

End Blocks.

(** ** Client requests *)

Section Requests.
Context {plat : Platform} {W : Type} (H : ServerHandlers W).

Definition unsubscribe_params_without_subscriptions (hdl : ConnHandle)
    (param_names : gset string) : M W unit :=
  params_to_unsubscribe ← with_lock client_param_subscriptions_mutex
    (not_subscribed (elements param_names));
  if bool_decide (is_Some (parameter_subscription_handler H)) &&
     negb (is_nil params_to_unsubscribe)
  then
    try_catch (call H (CallParameterSubscription params_to_unsubscribe UNSUBSCRIBE hdl))
      (catch_std (send_status_and_log_msg hdl Error)
         (send_status_and_log_msg hdl Error
            "Failed to unsubscribe from one more more parameters"))
  else mret tt.

(** [catch] blocks that only log. *)
Definition ignore_exception (body : M W unit) : M W unit :=
  try_catch body (λ _, mret tt).

Definition handle_connection_closed (hdl : ConnHandle) : M W unit :=
  client ← with_lock clients_mutex
    (clients ← get _clients;
     match clients !! hdl with
     | None => mret None
     | Some client =>
         update (λ s, set_clients s (delete hdl (_clients s)));;
         mret (Some client)
     end);
  match client with
  | None => mret tt
  | Some client =>
      for_each (elements (advertised_channels client)) (λ client_channel_id,
        if bool_decide (is_Some (client_unadvertise_handler H))
        then ignore_exception (call H (CallClientUnadvertise client_channel_id hdl))
        else mret tt);;
      with_lock client_channels_mutex
        (update (λ s, set_client_channels s (delete hdl (_client_channels s))));;
      (if bool_decide (is_Some (unsubscribe_handler H))
       then for_each (map_to_list (subscriptions_by_channel client)) (λ subs,
              ignore_exception (call H (CallUnsubscribe subs.1 hdl)))
       else mret tt);;
      client_subscribed_parameters ← with_lock client_param_subscriptions_mutex
        (subs ← get _client_param_subscriptions;
         update (λ s, set_param_subscriptions s (delete hdl (_client_param_subscriptions s)));;
         mret (default ∅ (subs !! hdl)));
      unsubscribe_params_without_subscriptions hdl client_subscribed_parameters;;
      if subscribed_to_connection_graph client
      then
        with_lock connection_graph_mutex
          (update (λ s, let g := _connection_graph s in
                        set_connection_graph s
                          (set_subscription_count (subscription_count g - 1) g));;
           g ← get _connection_graph;
           if bool_decide (subscription_count g = 0) &&
              bool_decide (is_Some (subscribe_connection_graph_handler H))
           then ignore_exception (call H (CallSubscribeConnectionGraph false))
           else mret tt)
      else mret tt
  end.

Definition find_subscription_by_sub_id (subs : gmap Z Z) (sub_id : Z) : option (Z * Z) :=
  find (λ e, e.2 =? sub_id) (map_to_list subs).

Definition handle_subscribe (payload : json) (hdl : ConnHandle) : M W unit :=
  client ← with_lock clients_mutex (clients_at hdl);
  let client_subscriptions_by_channel := subscriptions_by_channel client in
  subscriptions ← lift (json_at payload "subscriptions");
  for_each (json_elements subscriptions) (λ sub,
    sub_id ← lift (v ← json_at sub "id"; get_uint32 v);
    channel_id ← lift (v ← json_at sub "channelId"; get_uint32 v);
    match find_subscription_by_sub_id client_subscriptions_by_channel sub_id with
    | Some _ =>
        send_status_and_log_msg hdl Error
          ("Client subscription id " +:+ to_string sub_id
             +:+ " was already used; ignoring subscription")
    | None =>
        channels ← get _channels;
        match channels !! channel_id with
        | None =>
            send_status_and_log_msg hdl Warning
              ("Channel " +:+ to_string channel_id
                 +:+ " is not available; ignoring subscription")
        | Some _ =>
            call H (CallSubscribe channel_id hdl);;
            with_lock clients_mutex
              (clients_at hdl;;
               update_client hdl (λ c,
                 match subscriptions_by_channel c !! channel_id with
                 | Some _ => c
                 | None =>
                     set_subscriptions (<[channel_id := sub_id]> (subscriptions_by_channel c)) c
                 end))
        end
    end).

Definition handle_unsubscribe (payload : json) (hdl : ConnHandle) : M W unit :=
  client ← with_lock clients_mutex (clients_at hdl);
  let client_subscriptions_by_channel := subscriptions_by_channel client in
  ids ← lift (json_at payload "subscriptionIds");
  for_each (json_elements ids) (λ sub_id_json,
    sub_id ← lift (get_uint32 sub_id_json);
    match find_subscription_by_sub_id client_subscriptions_by_channel sub_id with
    | None =>
        send_status_and_log_msg hdl Warning
          ("Client subscription id " +:+ to_string sub_id
             +:+ " did not exist; ignoring unsubscription")
    | Some (chan_id, _) =>
        call H (CallUnsubscribe chan_id hdl);;
        with_lock clients_mutex
          (clients_at hdl;;
           update_client hdl (λ c,
             set_subscriptions (delete chan_id (subscriptions_by_channel c)) c))
    end).

(** [client_publications], a reference to [_client_channels\[hdl\]]. *)
Definition get_publications (hdl : ConnHandle) : M W (option (gmap Z ClientAdvertisement)) :=
  m ← get _client_channels; mret (m !! hdl).

Definition update_publications (hdl : ConnHandle)
    (f : gmap Z ClientAdvertisement → gmap Z ClientAdvertisement) : M W unit :=
  update (λ s, set_client_channels s (alter f hdl (_client_channels s))).

Definition handle_advertise (payload : json) (hdl : ConnHandle) : M W unit :=
  with_lock client_channels_mutex
    (publications ← get_publications hdl;
     let is_first_publication := bool_decide (publications = None) in
     (if is_first_publication
      then update (λ s, set_client_channels s (<[hdl := ∅]> (_client_channels s)))
      else mret tt);;
     channels ← lift (json_at payload "channels");
     for_each (json_elements channels) (λ chan,
       channel_id ← lift (v ← json_at chan "id"; get_uint32 v);
       client_publications ← get_publications hdl;
       if negb is_first_publication &&
          bool_decide (is_Some (client_publications ≫= lookup channel_id))
       then
         send_status_and_log_msg hdl Error
           ("Channel " +:+ to_string channel_id +:+ " was already advertised")
       else
         topic ← lift (v ← json_at chan "topic"; get_string v);
         o ← get _options;
         if negb (is_whitelisted topic (client_topic_whitelist_patterns o))
         then
           send_status_and_log_msg hdl Error
             ("Can't advertise channel " +:+ to_string channel_id +:+ ", topic '" +:+ topic
                +:+ "' not whitelisted")
         else
           encoding ← lift (v ← json_at chan "encoding"; get_string v);
           schema_name ← lift (v ← json_at chan "schemaName"; get_string v);
           let advertisement :=
             {| adv_channel_id := channel_id; adv_topic := topic; adv_encoding := encoding;
                adv_schema_name := schema_name; adv_schema := [] |} in
           call H (CallClientAdvertise advertisement hdl);;
           with_lock clients_mutex
             (clients_at hdl;;
              update_client hdl (λ c, set_advertised ({[channel_id]} ∪ advertised_channels c) c);;
              update_publications hdl (λ m,
                match m !! channel_id with
                | Some _ => m
                | None => <[channel_id := advertisement]> m
                end)))).

Definition handle_unadvertise (payload : json) (hdl : ConnHandle) : M W unit :=
  with_lock client_channels_mutex
    (publications ← get_publications hdl;
     match publications with
     | None => send_status_and_log_msg hdl Error "Client has no advertised channels"
     | Some _ =>
         ids ← lift (json_at payload "channelIds");
         for_each (json_elements ids) (λ chan_id_json,
           channel_id ← lift (get_uint32 chan_id_json);
           client_publications ← get_publications hdl;
           if bool_decide (is_Some (client_publications ≫= lookup channel_id))
           then
             call H (CallClientUnadvertise channel_id hdl);;
             with_lock clients_mutex
               (clients_at hdl;;
                update_publications hdl (delete channel_id);;
                update_client hdl (λ c,
                  set_advertised (advertised_channels c ∖ {[channel_id]}) c))
           else mret tt)
     end).

(** [payload.find("id") == payload.end() ? nullopt : payload\["id"\]]. *)
Definition get_request_id (payload : json) : outcome (option string) :=
  match json_find payload "id" with
  | None => Ret None
  | Some _ => v ← json_index payload "id"; s ← get_string v; Ret (Some s)
  end.

Definition handle_get_parameters (payload : json) (hdl : ConnHandle) : M W unit :=
  param_names ← lift (v ← json_at payload "parameterNames"; get_vector get_string v);
  request_id ← lift (get_request_id payload);
  call H (CallParameterRequest param_names request_id hdl).

Definition handle_set_parameters (payload : json) (hdl : ConnHandle) : M W unit :=
  parameters ← lift (v ← json_at payload "parameters"; get_vector Parameter_from_json v);
  request_id ← lift (get_request_id payload);
  call H (CallParameterChange parameters request_id hdl).

Definition handle_subscribe_parameter_updates (payload : json) (hdl : ConnHandle) : M W unit :=
  param_names ← lift (v ← json_at payload "parameterNames"; get_string_set v);
  params_to_subscribe ← with_lock client_param_subscriptions_mutex
    (names ← not_subscribed (elements param_names);
     update (λ s, let subs := _client_param_subscriptions s in
                  set_param_subscriptions s
                    (<[hdl := default ∅ (subs !! hdl) ∪ param_names]> subs));;
     mret names);
  if is_nil params_to_subscribe then mret tt
  else call H (CallParameterSubscription params_to_subscribe SUBSCRIBE hdl).

Definition handle_unsubscribe_parameter_updates (payload : json) (hdl : ConnHandle) : M W unit :=
  param_names ← lift (v ← json_at payload "parameterNames"; get_string_set v);
  with_lock client_param_subscriptions_mutex
    (update (λ s, let subs := _client_param_subscriptions s in
                  set_param_subscriptions s
                    (<[hdl := default ∅ (subs !! hdl) ∖ param_names]> subs)));;
  unsubscribe_params_without_subscriptions hdl param_names.

Definition INT_MAX : Z := 2 ^ 31 - 1.

Definition handle_subscribe_connection_graph (hdl : ConnHandle) : M W unit :=
  subscribe_to_connection_graph ← with_lock connection_graph_mutex
    (g ← get _connection_graph;
     if decide (subscription_count g = INT_MAX) then undefined
     else
       update (λ s, set_connection_graph s
                      (set_subscription_count (subscription_count g + 1) (_connection_graph s)));;
       mret (bool_decide (subscription_count g + 1 = 1)));
  (if subscribe_to_connection_graph : bool
   then
     call H (CallSubscribeConnectionGraph true);;
     with_lock clients_mutex (clients_at hdl;; update_client hdl (set_graph_flag true))
   else mret tt);;
  g ← with_lock connection_graph_mutex (get _connection_graph);
  text ← lift (dump (graph_update_json (map_to_list (published_topics g))
                       (map_to_list (subscribed_topics g)) (map_to_list (advertised_services g))
                       [] []));
  send_raw_json hdl text true.

Definition handle_unsubscribe_connection_graph (hdl : ConnHandle) : M W unit :=
  client_was_subscribed ← with_lock clients_mutex
    (client ← clients_at hdl;
     if subscribed_to_connection_graph client
     then update_client hdl (set_graph_flag false);; mret true
     else mret false);
  if client_was_subscribed : bool
  then
    unsubscribe_from_connection_graph ← with_lock connection_graph_mutex
      (update (λ s, let g := _connection_graph s in
                    set_connection_graph s
                      (set_subscription_count (subscription_count g - 1) g));;
       g ← get _connection_graph;
       mret (bool_decide (subscription_count g = 0)));
    if unsubscribe_from_connection_graph : bool
    then call H (CallSubscribeConnectionGraph false)
    else mret tt
  else
    send_status_and_log_msg hdl Error "Client was not subscribed to connection graph updates".

Definition handle_fetch_asset (payload : json) (hdl : ConnHandle) : M W unit :=
  uri ← lift (v ← json_at payload "uri"; get_string v);
  request_id ← lift (v ← json_at payload "requestId"; get_uint32 v);
  call H (CallFetchAsset uri request_id hdl).

(** ** Dispatch *)

Definition has_capability (capability : string) : M W bool :=
  o ← get _options; mret (bool_decide (capability ∈ capabilities o)).

Definition has_handler (op : Z) : M W bool :=
  match switch_op op with
  | Some LOGIN => mret true
  | Some OP_SUBSCRIBE => mret (bool_decide (is_Some (subscribe_handler H)))
  | Some OP_UNSUBSCRIBE => mret (bool_decide (is_Some (unsubscribe_handler H)))
  | Some ADVERTISE => mret (bool_decide (is_Some (client_advertise_handler H)))
  | Some UNADVERTISE => mret (bool_decide (is_Some (client_unadvertise_handler H)))
  | Some GET_PARAMETERS => mret (bool_decide (is_Some (parameter_request_handler H)))
  | Some SET_PARAMETERS => mret (bool_decide (is_Some (parameter_change_handler H)))
  | Some SUBSCRIBE_PARAMETER_UPDATES | Some UNSUBSCRIBE_PARAMETER_UPDATES =>
      mret (bool_decide (is_Some (parameter_subscription_handler H)))
  | Some SUBSCRIBE_CONNECTION_GRAPH | Some UNSUBSCRIBE_CONNECTION_GRAPH =>
      mret (bool_decide (is_Some (subscribe_connection_graph_handler H)))
  | Some FETCH_ASSET => mret (bool_decide (is_Some (fetch_asset_handler H)))
  | None => throw (RuntimeError ("Unknown operation: " +:+ to_string op))
  end.

Definition run_op (o : client_op) (payload : json) (hdl : ConnHandle) : M W unit :=
  match o with
  | LOGIN => handle_login payload hdl
  | OP_SUBSCRIBE => handle_subscribe payload hdl
  | OP_UNSUBSCRIBE => handle_unsubscribe payload hdl
  | ADVERTISE => handle_advertise payload hdl
  | UNADVERTISE => handle_unadvertise payload hdl
  | GET_PARAMETERS => handle_get_parameters payload hdl
  | SET_PARAMETERS => handle_set_parameters payload hdl
  | SUBSCRIBE_PARAMETER_UPDATES => handle_subscribe_parameter_updates payload hdl
  | UNSUBSCRIBE_PARAMETER_UPDATES => handle_unsubscribe_parameter_updates payload hdl
  | SUBSCRIBE_CONNECTION_GRAPH => handle_subscribe_connection_graph hdl
  | UNSUBSCRIBE_CONNECTION_GRAPH => handle_unsubscribe_connection_graph hdl
  | FETCH_ASSET => handle_fetch_asset payload hdl
  end.

(** The [catch] blocks around the [switch]. *)
Definition report_op_failure (op : string) (hdl : ConnHandle) (e : exn) : M W unit :=
  send_status_and_log_msg hdl Error
    (match exn_id e, what e with
     | Some id, Some w => w +:+ (" (op: " +:+ op +:+ ", id: " +:+ to_string id +:+ ")")
     | None, Some w => w +:+ (" (op: " +:+ op +:+ ")")
     | _, None => "Failed to execute handler" +:+ (" (op: " +:+ op +:+ ")")
     end).

Definition missing_capability (op : string) : M W (option string) :=
  match obj_find op CAPABILITY_BY_CLIENT_OPERATION with
  | None => mret None
  | Some cap => b ← has_capability cap; mret (if b : bool then None else Some cap)
  end.

Definition handle_text_payload (hdl : ConnHandle) (payload : json) : M W unit :=
  op ← lift (v ← json_at payload "op"; get_string v);
  missing ← missing_capability op;
  match missing with
  | Some cap =>
      send_status_and_log_msg hdl Error
        ("Operation '" +:+ op +:+ "' not supported as server capability '" +:+ cap
           +:+ "' is missing")
  | None =>
      b ← has_handler (string_hash op);
      if negb b
      then
        send_status_and_log_msg hdl Error
          ("Operation '" +:+ op +:+ "' not supported as server handler function is missing")
      else
        try_catch
          (match switch_op (string_hash op) with
           | Some o => run_op o payload hdl
           | None =>
               send_status_and_log_msg hdl Error
                 ("Unrecognized client opcode " +:+ dquote +:+ op +:+ dquote)
           end)
          (report_op_failure op hdl)
  end.

End Requests.

Section Messages.
Context {plat : Platform} {W : Type} (H : ServerHandlers W).
(** [Json::parse], and the clock: nanoseconds since the epoch. *)
Context (parse : list byte → outcome json) (now : Z).

Definition handle_text_message (hdl : ConnHandle) (msg : list byte) : M W unit :=
  payload ← lift (parse msg);
  handle_text_payload H hdl payload.

(** [case ClientBinaryOpcode::MESSAGE_DATA]. *)
Definition handle_message_data (hdl : ConnHandle) (data : list byte) : M W unit :=
  let length := Z.of_nat (length data) in
  if bool_decide (client_message_handler H = None) then mret tt
  else if length <? 5 then
    send_status_and_log_msg hdl Error ("Invalid message length " +:+ to_string length)
  else
    id_bytes ← lift (load data 1 4);
    let channel_id := native_value id_bytes in
    with_lock client_channels_mutex
      (publications ← get_publications hdl;
       match publications with
       | None => send_status_and_log_msg hdl Error "Client has no advertised channels"
       | Some client_publications =>
           match client_publications !! channel_id with
           | None =>
               send_status_and_log_msg hdl Error
                 ("Channel " +:+ to_string channel_id +:+ " is not advertised")
           | Some advertisement =>
               try_catch
                 (client_message ← lift
                    (new_ClientMessage (u64 now) (u64 now) 0 advertisement
                       (Z.to_nat length) data);
                  call H (CallClientMessage client_message hdl))
                 (λ e, match e with
                       | ServiceError _ w => send_status_and_log_msg hdl Error w
                       | _ => send_status_and_log_msg hdl Error
                                "callService: Failed to execute handler"
                       end)
           end
       end).

(** [case ClientBinaryOpcode::SERVICE_CALL_REQUEST]. *)
Definition handle_service_call_request (hdl : ConnHandle) (data : list byte) : M W unit :=
  let length := Z.of_nat (length data) in
  if length <? Z.of_nat (ServiceResponse_size ServiceRequest_default) then
    send_status_and_log_msg hdl Error
      ("Invalid service call request length " +:+ to_string length)
  else
    request ← lift (ServiceResponse_read (drop 1 data));
    known ← with_lock services_mutex
      (services ← get _services;
       match services !! service_id request with
       | Some _ => mret true
       | None =>
           send_status_and_log_msg hdl Error
             ("Service " +:+ to_string (service_id request) +:+ " is not advertised");;
           mret false
       end);
    if (known : bool) && bool_decide (is_Some (service_request_handler H))
    then call H (CallServiceRequest request hdl)
    else mret tt.

Definition handle_binary_message (hdl : ConnHandle) (data : list byte) : M W unit :=
  match data with
  | [] => send_status_and_log_msg hdl Error "Received an empty binary message"
  | op_byte :: _ =>
      let op := byte_to_Z op_byte in
      missing ← (match CAPABILITY_BY_CLIENT_BINARY_OPERATION op with
                 | None => mret None
                 | Some cap => b ← has_capability cap; mret (if b : bool then None else Some cap)
                 end);
      match missing with
      | Some cap =>
          send_status_and_log_msg hdl Error
            ("Binary operation '" +:+ to_string op
               +:+ "' not supported as server capability '" +:+ cap +:+ "' is missing")
      | None =>
          if op =? 1 then handle_message_data hdl data
          else if op =? 2 then handle_service_call_request hdl data
          else
            send_status_and_log_msg hdl Error
              ("Unrecognized client opcode " +:+ to_string op)
      end
  end.

Definition handle_message (hdl : ConnHandle) (op : OpCode) (payload : list byte) : M W unit :=
  try_catch
    (match op with
     | TEXT => handle_text_message hdl payload
     | BINARY => handle_binary_message hdl payload
     | OTHER_OPCODE => mret tt
     end)
    (catch_std (send_status_and_log_msg hdl Error)
       (send_status_and_log_msg hdl Error
          "Exception occurred when executing message handler")).

End Messages.
