(* ===== verification/ServerLogic.v ===== *)
(** * Reasoning about server methods

    A Hoare logic for the monad of [ServerState] whose exceptional postcondition
    says what a method leaves behind when it does not return, and the contract the
    server has with its handlers. *)

From Stdlib Require Import ZArith Lia.
From S2P Require Import Prelude Wire Json Serialization ServerState ServerMethods.

(** Unfold the monad, when a method is applied to the locks and the state. *)
Ltac run :=
  cbv beta iota delta [mbind M_mbind M_bind mret M_mret M_ret get update emit throw undefined lift
                       find_connection outcome_mbind outcome_bind];
  cbn [fst snd srv net trace world].

(** ** Messages that can be dumped *)

Lemma json_ids_dumps ids : dumps (json_ids ids) = true.
Proof. by apply array_dumps. Qed.

(** Ids are numbers. *)
Lemma dump_unadvertise ids : dump (unadvertise_json ids) = Ret (unadvertise_json ids).
Proof. apply dump_ret, json_object_dumps. cbn [forallb fst snd]. by rewrite json_ids_dumps. Qed.

Lemma dump_unadvertise_services ids :
  let j := json_object [("op", JStr "unadvertiseServices"); ("serviceIds", json_ids ids)] in
  dump j = Ret j.
Proof. apply dump_ret, json_object_dumps. cbn [forallb fst snd]. by rewrite json_ids_dumps. Qed.

(** The texts of a channel and of a service are UTF-8. *)
Definition channel_text (c : ChannelWithoutId) : bool :=
  valid_utf8 (topic c) && valid_utf8 (encoding c) && valid_utf8 (schema_name c) &&
  valid_utf8 (schema c) && from_option valid_utf8 true (schema_encoding c).

Definition service_text (v : ServiceWithoutId) : bool :=
  valid_utf8 (service_name v) && valid_utf8 (service_type v) &&
  valid_utf8 (request_schema v) && valid_utf8 (response_schema v).

Lemma Channel_dumps c : channel_text (channel_base c) = true → dumps (Channel_to_json c) = true.
Proof.
  rewrite Channel_to_json_eq. destruct c as [id [t e n sc se]]. unfold channel_text.
  cbn [channel_base topic encoding schema_name schema schema_encoding channel_id].
  rewrite !andb_true_iff. intros [[[[Ht He] Hn] Hsc] Hse].
  destruct se as [se|]; cbn [app dumps forallb fst snd from_option] in *;
    rewrite Ht, He, Hn, Hsc, ?Hse; vm_compute; reflexivity.
Qed.

Lemma Service_dumps v : service_text (service_base v) = true → dumps (Service_to_json v) = true.
Proof.
  rewrite Service_to_json_eq. destruct v as [[n ty rq rs] id]. unfold service_text.
  cbn [service_base service_name service_type request_schema response_schema svc_id].
  rewrite !andb_true_iff. intros [[[Hn Ht] Hq] Hs].
  cbn [dumps forallb fst snd]. rewrite Hn, Ht, Hq, Hs. vm_compute. reflexivity.
Qed.

Lemma dump_advertise cs :
  Forall (λ c, channel_text (channel_base c) = true) cs →
  dump (advertise_json cs) = Ret (advertise_json cs).
Proof.
  intros Hcs. apply dump_ret, json_object_dumps. cbn [forallb fst snd]. rewrite Forall_forall in Hcs.
  rewrite (array_dumps Channel_to_json cs); [done|]. intros c Hc. by apply Channel_dumps, Hcs.
Qed.

Lemma dump_advertise_services vs :
  Forall (λ v, service_text (service_base v) = true) vs →
  dump (advertise_services_json vs) = Ret (advertise_services_json vs).
Proof.
  intros Hvs. apply dump_ret, json_object_dumps. cbn [forallb fst snd]. rewrite Forall_forall in Hvs.
  rewrite (array_dumps Service_to_json vs); [done|]. intros v Hv. by apply Service_dumps, Hvs.
Qed.

(** ** Triples *)

Section Triples.
Context {W : Type}.
Implicit Types (P E : St W → Prop) (L : list mutex) (s : St W).

(** From a state in [P], [m] returns a value in [Q] or throws in a state in [E].
    That its behaviour is defined is a matter of its own, see [defined]. *)
Definition triple {A} P (m : M W A) (Q : A → St W → Prop) E : Prop :=
  ∀ L s, P s →
    match m L s with
    | (Ret a, s') => Q a s'
    | (Throw _, s') => E s'
    | (Undefined, _) => True
    end.

(** [m] leaves [P], also when it throws. *)
Definition preserves {A} P (m : M W A) : Prop := triple P m (λ _, P) P.

Lemma preserves_state {A} P (m : M W A) :
  preserves P m ↔ ∀ L s, P s → (m L s).1 ≠ Undefined → P (m L s).2.
Proof.
  split; intros Hm L s HP; specialize (Hm L s HP); destruct (m L s) as [[] ?]; naive_solver.
Qed.

Lemma triple_conseq {A} P P' (m : M W A) (Q Q' : A → St W → Prop) E E' :
  triple P' m Q' E' → (∀ s, P s → P' s) → (∀ a s, Q' a s → Q a s) → (∀ s, E' s → E s) →
  triple P m Q E.
Proof.
  intros Hm HP HQ HE L s Hs. specialize (Hm L s (HP s Hs)).
  destruct (m L s) as [[] ?]; auto.
Qed.

Lemma triple_post {A} P (m : M W A) (Q Q' : A → St W → Prop) E :
  triple P m Q' E → (∀ a s, Q' a s → Q a s) → triple P m Q E.
Proof. intros Hm HQ. eapply triple_conseq; eauto. Qed.

Lemma triple_pre {A} P P' (m : M W A) (Q : A → St W → Prop) E :
  triple P' m Q E → (∀ s, P s → P' s) → triple P m Q E.
Proof. intros Hm HP. eapply triple_conseq; eauto. Qed.

(** A fact that does not depend on the state. *)
Lemma triple_pure {A} (φ : Prop) P (m : M W A) (Q : A → St W → Prop) E :
  (φ → triple P m Q E) → triple (λ s, P s ∧ φ) m Q E.
Proof. intros Hm L s [HP Hφ]. by apply Hm. Qed.

Lemma triple_ret {A} (a : A) P (Q : A → St W → Prop) E :
  (∀ s, P s → Q a s) → triple P (mret a) Q E.
Proof. intros HQ L s. apply HQ. Qed.

Lemma triple_throw {A} e P (Q : A → St W → Prop) E :
  (∀ s, P s → E s) → triple P (throw e) Q E.
Proof. intros HE L s. apply HE. Qed.

Lemma triple_undefined {A} P (Q : A → St W → Prop) E : triple P undefined Q E.
Proof. by intros L s. Qed.

Lemma triple_lift {A} (o : outcome A) P (Q : A → St W → Prop) E :
  (∀ a s, o = Ret a → P s → Q a s) → (∀ s, P s → E s) → triple P (lift o) Q E.
Proof. intros HQ HE L s HP. cbn. destruct o; auto. Qed.

Lemma triple_get {A} (f : Server → A) P E :
  triple P (get f) (λ a s, P s ∧ a = f (srv s)) E.
Proof. intros L s HP. done. Qed.

Lemma triple_update f P (Q : unit → St W → Prop) E :
  (∀ s, P s → Q tt (mkSt (f (srv s)) (net s) (trace s) (world s))) → triple P (update f) Q E.
Proof. intros HQ L s. apply HQ. Qed.

Lemma triple_emit e P (Q : unit → St W → Prop) E :
  (∀ s, P s → Q tt (mkSt (srv s) (net s) (trace s ++ [e]) (world s))) → triple P (emit e) Q E.
Proof. intros HQ L s. apply HQ. Qed.

Lemma triple_find_connection hdl P E :
  triple P (find_connection hdl) (λ c s, P s ∧ c = net s !! hdl) E.
Proof. intros L s HP. done. Qed.

Lemma triple_bind {A B} P (R : A → St W → Prop) (m : M W A) (f : A → M W B)
    (Q : B → St W → Prop) E :
  triple P m R E → (∀ a, triple (R a) (f a) Q E) → triple P (m ≫= f) Q E.
Proof.
  intros Hm Hf L s HP. specialize (Hm L s HP). unfold mbind, M_mbind, M_bind.
  destruct (m L s) as [[a|e|] s']; [|done..]. apply (Hf a L s' Hm).
Qed.

Lemma triple_with_lock {A} mu P (body : M W A) (Q : A → St W → Prop) E :
  triple P body Q E → triple P (with_lock mu body) Q E.
Proof. intros Hb L s HP. unfold with_lock. case_decide; [done|]. apply (Hb _ _ HP). Qed.

Lemma triple_try_catch {A} P (body : M W A) h (Q : A → St W → Prop) E' E :
  triple P body Q E' → (∀ e, triple E' (h e) Q E) →
  triple P (try_catch body h) Q E.
Proof.
  intros Hb Hh L s HP. specialize (Hb L s HP). unfold try_catch.
  destruct (body L s) as [[a|e|] s']; [done| |done]. apply (Hh e L s' Hb).
Qed.

(** A loop, with an invariant over the elements that are done. *)
Lemma triple_for_each_done {A} (l : list A) body (I : list A → St W → Prop) E :
  (∀ prev x rest, l = prev ++ x :: rest → triple (I prev) (body x) (λ _, I (prev ++ [x])) E) →
  triple (I []) (for_each l body) (λ _, I l) E.
Proof.
  intros Hb.
  enough (∀ rest prev, l = prev ++ rest →
            triple (I prev) (for_each rest body) (λ _, I l) E) as Hrest
    by (by apply (Hrest l [])).
  intros rest. induction rest as [|x rest IH]; intros prev Hl; cbn [for_each].
  - apply triple_ret. intros. by rewrite Hl, app_nil_r.
  - eapply triple_bind; [by eapply Hb|]. intros []. apply IH. by rewrite <-app_assoc.
Qed.

Lemma triple_for_each {A} (l : list A) body P E :
  (∀ x, x ∈ l → triple P (body x) (λ _, P) E) → triple P (for_each l body) (λ _, P) E.
Proof.
  intros Hb. apply (triple_for_each_done l body (λ _, P)). intros prev x rest ->. apply Hb.
  set_solver.
Qed.

(** ** Preservation *)

Lemma preserves_ret {A} (a : A) P : preserves P (mret a).
Proof. by apply triple_ret. Qed.
Lemma preserves_throw {A} e P : preserves P (throw (A:=A) e).
Proof. by apply triple_throw. Qed.
Lemma preserves_undefined {A} P : preserves P (undefined (A:=A)).
Proof. by apply triple_undefined. Qed.
Lemma preserves_lift {A} (o : outcome A) P : preserves P (lift o).
Proof. by apply triple_lift. Qed.
Lemma preserves_get {A} (f : Server → A) P : preserves P (get f).
Proof. eapply triple_post; [apply triple_get|]. by intros ? ? []. Qed.
Lemma preserves_find_connection hdl P : preserves P (find_connection hdl).
Proof. eapply triple_post; [apply triple_find_connection|]. by intros ? ? []. Qed.
Lemma preserves_bind {A B} P (m : M W A) (f : A → M W B) :
  preserves P m → (∀ a, preserves P (f a)) → preserves P (m ≫= f).
Proof. intros Hm Hf. by eapply triple_bind. Qed.
Lemma preserves_with_lock {A} mu P (body : M W A) :
  preserves P body → preserves P (with_lock mu body).
Proof. intros. by apply triple_with_lock. Qed.
Lemma preserves_try_catch {A} P (body : M W A) h :
  preserves P body → (∀ e, preserves P (h e)) → preserves P (try_catch body h).
Proof. intros. by eapply triple_try_catch. Qed.
Lemma preserves_for_each {A} P (l : list A) body :
  (∀ x, preserves P (body x)) → preserves P (for_each l body).
Proof. intros Hb. apply triple_for_each. intros x _. apply Hb. Qed.
Lemma preserves_update f P :
  (∀ s, P s → P (mkSt (f (srv s)) (net s) (trace s) (world s))) → preserves P (update f).
Proof. intros HP. by apply triple_update. Qed.

End Triples.

Create HintDb server discriminated.
#[export] Hint Resolve preserves_ret preserves_throw preserves_undefined preserves_lift
  preserves_get preserves_find_connection preserves_with_lock preserves_try_catch
  preserves_for_each : server.

(** One step of a proof of [preserves], by the shape of the method. *)
Ltac preserves_step :=
  match goal with
  | |- triple ?P ?m (λ _, ?P) ?P => change (preserves P m)
  | |- preserves _ (mbind _ _) => apply preserves_bind; [|intros ?]
  | |- preserves _ (let '(_, _) := ?x in _) => destruct x
  | |- preserves _ (if ?b then _ else _) => destruct b
  | |- preserves _ (match ?x with _ => _ end) => destruct x
  | |- preserves _ _ => progress eauto with server
  | |- preserves _ (with_lock _ _) => apply preserves_with_lock
  | |- preserves _ (try_catch _ _) => apply preserves_try_catch; [|intros ?]
  | |- preserves _ (for_each _ _) => apply preserves_for_each; intros ?
  end.
Ltac solve_preserves := repeat preserves_step.

(** ** Sending *)

Definition is_send (e : event) : Prop := match e with Send _ _ _ => True | Call _ => False end.

(** A property of states that ignores what has been sent. *)
Class SendStable {W} (P : St W → Prop) :=
  send_stable : ∀ s hdl m r, P s → P (mkSt (srv s) (net s) (trace s ++ [Send hdl m r]) (world s)).

Section Sending.
Context {W : Type} (P : St W → Prop) `{!SendStable P}.

Lemma preserves_emit_send hdl m r : preserves P (emit (Send hdl m r)).
Proof. apply triple_emit. intros. by apply send_stable. Qed.

Lemma preserves_get_con hdl : preserves P (get_con_from_hdl hdl).
Proof. unfold get_con_from_hdl. solve_preserves. Qed.

#[local] Hint Resolve preserves_emit_send preserves_get_con : server.

Lemma preserves_catch_log e : preserves P (catch_log e).
Proof. unfold catch_log. solve_preserves. Qed.
#[local] Hint Resolve preserves_catch_log : server.

Lemma preserves_send_json hdl j r : preserves P (send_json hdl j r).
Proof. unfold send_json. solve_preserves. Qed.
Lemma preserves_send_raw_json hdl j r : preserves P (send_raw_json hdl j r).
Proof. unfold send_raw_json. solve_preserves. Qed.
Lemma preserves_send_binary hdl bs r : preserves P (send_binary hdl bs r).
Proof. unfold send_binary. solve_preserves. Qed.
#[local] Hint Resolve preserves_send_json preserves_send_raw_json preserves_send_binary : server.

Lemma preserves_send_status hdl l m : preserves P (send_status_and_log_msg hdl l m).
Proof. apply preserves_send_json. Qed.
Lemma preserves_remote_endpoint hdl : preserves P (remote_endpoint_string hdl).
Proof. unfold remote_endpoint_string. solve_preserves. Qed.
Lemma preserves_broadcast j : preserves P (broadcast j).
Proof. unfold broadcast. solve_preserves. Qed.
Lemma preserves_clients_at hdl : preserves P (clients_at hdl).
Proof. unfold clients_at. solve_preserves. Qed.
Lemma preserves_get_publications hdl : preserves P (get_publications hdl).
Proof. unfold get_publications. solve_preserves. Qed.
Lemma preserves_not_subscribed names : preserves P (not_subscribed names).
Proof. induction names; simpl; unfold is_parameter_subscribed; solve_preserves. Qed.
Lemma preserves_has_capability cap : preserves P (has_capability cap).
Proof. unfold has_capability. solve_preserves. Qed.
Lemma preserves_missing_capability op : preserves P (missing_capability op).
Proof. unfold missing_capability, has_capability. solve_preserves. Qed.
#[local] Hint Resolve preserves_send_status preserves_remote_endpoint preserves_broadcast
  preserves_clients_at preserves_get_publications preserves_not_subscribed : server.

(** The senders catch every exception. *)
Lemma triple_send_json hdl j r E : triple P (send_json hdl j r) (λ _, P) E.
Proof.
  intros L s HP. unfold send_json, try_catch, get_con_from_hdl, dump. run.
  destruct (net s !! hdl); [|done]. destruct (dumps j); run; [by apply send_stable|done].
Qed.

Lemma triple_send_raw_json hdl j r E : triple P (send_raw_json hdl j r) (λ _, P) E.
Proof.
  intros L s HP. unfold send_raw_json, try_catch, get_con_from_hdl. run.
  destruct (net s !! hdl); [by apply send_stable|done].
Qed.

(** *** Methods that only read and send *)

Lemma preserves_publish_parameter_values hdl ps i :
  preserves P (publish_parameter_values hdl ps i).
Proof. unfold publish_parameter_values. solve_preserves. Qed.
#[local] Hint Resolve preserves_publish_parameter_values : server.

Lemma preserves_update_parameter_values ps : preserves P (update_parameter_values ps).
Proof. unfold update_parameter_values. solve_preserves. Qed.

Context {plat : Platform}.

Lemma preserves_send_message hdl ch t bs : preserves P (send_message hdl ch t bs).
Proof. unfold send_message. solve_preserves. Qed.
Lemma preserves_broadcast_time t : preserves P (broadcast_time t).
Proof. unfold broadcast_time. solve_preserves. Qed.
Lemma preserves_send_service_response hdl r : preserves P (send_service_response hdl r).
Proof. unfold send_service_response. solve_preserves. Qed.
Lemma preserves_send_fetch_asset_response hdl r : preserves P (send_fetch_asset_response hdl r).
Proof. unfold send_fetch_asset_response. solve_preserves. Qed.

End Sending.

#[export] Hint Resolve preserves_emit_send preserves_get_con preserves_catch_log
  preserves_send_json preserves_send_raw_json preserves_send_binary
  preserves_send_status preserves_remote_endpoint preserves_broadcast
  preserves_clients_at preserves_get_publications preserves_not_subscribed
  preserves_has_capability preserves_missing_capability
  preserves_publish_parameter_values preserves_update_parameter_values preserves_send_message
  preserves_broadcast_time preserves_send_service_response
  preserves_send_fetch_asset_response : server.

(** ** The contract with the handlers

    A handler may send, and may report the connection graph; every other member
    of the server is as it was when the handler was called. *)

Definition handler_frame {W} (s s' : St W) : Prop :=
  net s' = net s ∧
  (∃ p q r, srv s' = set_connection_graph (srv s)
                       (set_graph_maps p q r (_connection_graph (srv s)))) ∧
  (∃ sends, trace s' = trace s ++ sends ∧ Forall is_send sends).

Class HandlersFrame {W} (H : ServerHandlers W) :=
  handlers_frame : ∀ c body L s, handler_body H c = Some body → handler_frame s (body L s).2.

(** A property of states that the handlers cannot falsify. *)
Class FrameStable {W} (P : St W → Prop) :=
  frame_stable : ∀ s s', handler_frame s s' → P s → P s'.

Lemma set_same_graph sv :
  ∃ p q r, sv = set_connection_graph sv (set_graph_maps p q r (_connection_graph sv)).
Proof. destruct sv as [? ? ? ? ? ? ? ? ? [n p q r]]. by exists p, q, r. Qed.

Lemma handler_frame_refl {W} (s : St W) : handler_frame s s.
Proof.
  split_and!; [done| |by exists []; rewrite app_nil_r].
  apply set_same_graph.
Qed.

Lemma handler_frame_send {W} (s : St W) hdl m r :
  handler_frame s (mkSt (srv s) (net s) (trace s ++ [Send hdl m r]) (world s)).
Proof.
  split_and!; [done| |by exists [Send hdl m r]; repeat constructor].
  apply set_same_graph.
Qed.

#[export] Instance frame_stable_send {W} (P : St W → Prop) : FrameStable P → SendStable P.
Proof. intros HP s hdl m r. apply HP, handler_frame_send. Qed.

(** A property of states that does not depend on the history of a call. *)
Class CallStable {W} (P : St W → Prop) (c : handler_call) :=
  call_stable : ∀ s, P s → P (mkSt (srv s) (net s) (trace s ++ [Call c]) (world s)).

(** A call of a handler that is set. *)
Lemma triple_call {W} (H : ServerHandlers W) `{!HandlersFrame H} (P Q : St W → Prop)
    `{!FrameStable Q} c :
  is_Some (handler_body H c) →
  (∀ s, P s → Q (mkSt (srv s) (net s) (trace s ++ [Call c]) (world s))) →
  triple P (call H c) (λ _, Q) Q.
Proof.
  intros [body E] HPQ L s HP. apply HPQ in HP. unfold call. rewrite E. run.
  pose proof (frame_stable _ _ (handlers_frame c body L _ E) HP) as HQ.
  revert HQ. by destruct (body L _) as [[] ?].
Qed.

Lemma preserves_call {W} (H : ServerHandlers W) `{!HandlersFrame H} (P : St W → Prop)
    `{!FrameStable P} c `{!CallStable P c} : preserves P (call H c).
Proof.
  destruct (handler_body H c) as [body|] eqn:E.
  - apply (triple_call H P P); [by exists body|]. intros s. apply call_stable.
  - unfold call. rewrite E. apply preserves_throw.
Qed.
#[export] Hint Resolve preserves_call : server.
#[export] Hint Extern 0 (SendStable _) => typeclasses eauto : server.
#[export] Hint Extern 0 (FrameStable _) => typeclasses eauto : server.
#[export] Hint Extern 0 (CallStable _ _) => typeclasses eauto : server.
#[export] Hint Extern 0 (HandlersFrame _) => typeclasses eauto : server.
