(* ===== verification/ServerInv.v ===== *)
(** * The invariant of the websocket server

    What holds of the members of [Server] between any two of its methods, and
    that every method keeps it, whatever the client sent and also when the method
    throws. *)

From Stdlib Require Import ZArith Lia.
From S2P Require Import Prelude Wire Json Serialization ServerState ServerMethods ServerLogic.

Local Open Scope Z_scope.

(** ** The invariant *)

(** The clients marked as subscribed to the connection graph. *)
Definition flagged (m : gmap ConnHandle ClientInfo) : nat :=
  size (filter (λ e, subscribed_to_connection_graph e.2 = true) m).

Definition client_advertised (sv : Server) (hdl : ConnHandle) : gset Z :=
  default ∅ (advertised_channels <$> _clients sv !! hdl).

Definition publications (sv : Server) (hdl : ConnHandle) : gmap Z ClientAdvertisement :=
  default ∅ (_client_channels sv !! hdl).

Record server_inv (sv : Server) : Prop := {
  (** a client is stored under its own handle *)
  inv_handle hdl c : _clients sv !! hdl = Some c → handle c = hdl;
  (** one client at most is logged in *)
  inv_login h1 c1 h2 c2 :
    _clients sv !! h1 = Some c1 → _clients sv !! h2 = Some c2 →
    login c1 = true → login c2 = true → h1 = h2;
  (** clients are subscribed to channels that exist *)
  inv_subs hdl c :
    _clients sv !! hdl = Some c → dom (subscriptions_by_channel c) ⊆ dom (_channels sv);
  (** the two records of what a client advertised agree *)
  inv_advertised hdl : client_advertised sv hdl = dom (publications sv hdl);
  inv_publications hdl id a : publications sv hdl !! id = Some a → adv_channel_id a = id;
  inv_channels id c : _channels sv !! id = Some c → channel_id c = id;
  (** subscribers to the connection graph are counted *)
  inv_graph :
    Z.of_nat (flagged (_clients sv)) ≤ subscription_count (_connection_graph sv) ≤ INT_MAX
}.

Definition inv {W} (s : St W) : Prop := server_inv (srv s).

#[export] Instance inv_frame_stable {W} : FrameStable (inv (W:=W)).
Proof.
  intros s s' (_ & (p & q & r & E) & _) []. unfold inv. rewrite E. split; done.
Qed.
#[export] Instance inv_call_stable {W} c : CallStable (inv (W:=W)) c.
Proof. by intros s. Qed.

Lemma new_Server_inv name o : server_inv (new_Server name o).
Proof.
  split; simpl; try (intros *; by rewrite lookup_empty).
  - intros hdl. unfold client_advertised, publications. simpl. rewrite !lookup_empty. set_solver.
  - intros hdl id a. unfold publications. simpl. by rewrite lookup_empty.
  - by compute.
Qed.

(** ** Updates that keep it *)

Lemma flagged_insert m hdl c :
  flagged (<[hdl := c]> m) =
  (flagged (delete hdl m) + Nat.b2n (subscribed_to_connection_graph c))%nat.
Proof.
  unfold flagged. rewrite <-(insert_delete_eq m hdl c).
  destruct (subscribed_to_connection_graph c) eqn:E; simpl.
  - rewrite map_filter_insert_True by done.
    rewrite map_size_insert_None; [lia|]. apply map_lookup_filter_None. left. by simplify_map_eq.
  - rewrite map_filter_insert_not'; [lia|simpl; congruence|]. intros y. by simplify_map_eq.
Qed.

Lemma flagged_delete m hdl c :
  m !! hdl = Some c →
  flagged m = (flagged (delete hdl m) + Nat.b2n (subscribed_to_connection_graph c))%nat.
Proof. intros Hc. by rewrite <-flagged_insert, insert_id. Qed.

Lemma set_clients_same sv : set_clients sv (_clients sv) = sv.
Proof. by destruct sv. Qed.

(** Changing one client, as far as the other members are concerned. *)
Lemma update_client_inv sv hdl f :
  server_inv sv →
  (∀ c, _clients sv !! hdl = Some c →
     handle (f c) = handle c ∧ (login (f c) = true → login c = true) ∧
     dom (subscriptions_by_channel (f c)) ⊆ dom (_channels sv) ∧
     advertised_channels (f c) = advertised_channels c ∧
     subscribed_to_connection_graph (f c) = subscribed_to_connection_graph c) →
  server_inv (set_clients sv (alter f hdl (_clients sv))).
Proof.
  intros Hinv Hf. destruct (_clients sv !! hdl) as [c|] eqn:Hc; last first.
  { rewrite alter_id by (intros c; by rewrite Hc). by destruct sv. }
  destruct (Hf c eq_refl) as (Hh & Hl & Hs & Ha & Hg). destruct Hinv.
  rewrite (alter_alt_Some _ _ _ c) by done. split; simpl; try done.
  - intros h c'. destruct (decide (h = hdl)) as [->|]; intros; simplify_map_eq;
      [rewrite Hh|]; eauto.
  - intros h1 c1 h2 c2. destruct (decide (h1 = hdl)) as [->|], (decide (h2 = hdl)) as [->|];
      intros; simplify_map_eq; eauto.
  - intros h c'. destruct (decide (h = hdl)) as [->|]; intros; simplify_map_eq; eauto.
  - intros h. etransitivity; [|apply inv_advertised0]. unfold client_advertised. simpl.
    destruct (decide (h = hdl)) as [->|]; by simplify_map_eq.
  - by rewrite flagged_insert, Hg, <-(flagged_delete _ _ c).
Qed.

(** Changing what a client advertises, on both sides. *)
Lemma advertised_inv sv hdl c m m' :
  server_inv sv → _clients sv !! hdl = Some c → _client_channels sv !! hdl = Some m →
  (∀ id a, m' !! id = Some a → adv_channel_id a = id) →
  server_inv (set_client_channels
                (set_clients sv (<[hdl := set_advertised (dom m') c]> (_clients sv)))
                (<[hdl := m']> (_client_channels sv))).
Proof.
  intros [] Hc Hm Hids. split; simpl; try done.
  - intros h c'. destruct (decide (h = hdl)) as [->|]; intros; simplify_map_eq; eauto.
  - intros h1 c1 h2 c2. destruct (decide (h1 = hdl)) as [->|], (decide (h2 = hdl)) as [->|];
      intros; simplify_map_eq; eauto.
  - intros h c'. destruct (decide (h = hdl)) as [->|]; intros; simplify_map_eq; eauto.
  - intros h. specialize (inv_advertised0 h). unfold client_advertised, publications in *. simpl.
    destruct (decide (h = hdl)) as [->|]; by simplify_map_eq.
  - intros h id a. specialize (inv_publications0 h id a). unfold publications in *. simpl.
    destruct (decide (h = hdl)) as [->|]; simplify_map_eq; eauto.
  - by rewrite flagged_insert, <-(flagged_delete _ _ c).
Qed.

Lemma set_client_channels_same sv hdl :
  server_inv sv → _client_channels sv !! hdl = None →
  server_inv (set_client_channels sv (<[hdl := ∅]> (_client_channels sv))).
Proof.
  intros [] Hm. split; simpl; try done.
  - intros h. etransitivity; [apply inv_advertised0|]. unfold publications. simpl.
    destruct (decide (h = hdl)) as [->|]; by simplify_map_eq.
  - intros h id a. specialize (inv_publications0 h id a). unfold publications in *. simpl.
    destruct (decide (h = hdl)) as [->|]; simplify_map_eq; eauto.
Qed.

(** A client that was not known logs in, after the others were logged out. *)
Lemma login_inv sv hdl e u i :
  server_inv sv → _clients sv !! hdl = None →
  (∀ h c, _clients sv !! h = Some c → login c = false) →
  server_inv (set_clients sv (<[hdl := new_ClientInfo e u i hdl]> (_clients sv))).
Proof.
  intros [] Hc Hout. split; simpl; try done.
  - intros h c'. destruct (decide (h = hdl)) as [->|]; intros; simplify_map_eq; eauto.
  - intros h1 c1 h2 c2. destruct (decide (h1 = hdl)) as [->|], (decide (h2 = hdl)) as [->|];
      intros; simplify_map_eq; try done;
      match goal with Hc' : _ !! _ = Some ?c, _ : login ?c = true |- _ =>
        apply Hout in Hc'; congruence end.
  - intros h c'. destruct (decide (h = hdl)) as [->|]; intros; simplify_map_eq; [|eauto].
    simpl. set_solver.
  - intros h. etransitivity; [|apply inv_advertised0]. unfold client_advertised. simpl.
    destruct (decide (h = hdl)) as [->|]; by simplify_map_eq.
  - rewrite flagged_insert, delete_id by done. simpl. lia.
Qed.

(** The flag of a client and the count change together. *)
Lemma graph_flag_inv sv hdl c b n :
  server_inv sv → _clients sv !! hdl = Some c →
  Z.of_nat (flagged (delete hdl (_clients sv))) + Z.b2z b ≤ n ≤ INT_MAX →
  server_inv (set_connection_graph
                (set_clients sv (<[hdl := set_graph_flag b c]> (_clients sv)))
                (set_subscription_count n (_connection_graph sv))).
Proof.
  intros [] Hc Hn. split; simpl; try done.
  - intros h c'. destruct (decide (h = hdl)) as [->|]; intros; simplify_map_eq; eauto.
  - intros h1 c1 h2 c2. destruct (decide (h1 = hdl)) as [->|], (decide (h2 = hdl)) as [->|];
      intros; simplify_map_eq; eauto.
  - intros h c'. destruct (decide (h = hdl)) as [->|]; intros; simplify_map_eq; eauto.
  - intros h. etransitivity; [|apply inv_advertised0]. unfold client_advertised. simpl.
    destruct (decide (h = hdl)) as [->|]; by simplify_map_eq.
  - rewrite flagged_insert. simpl. destruct b; simpl in *; lia.
Qed.

Lemma set_count_inv sv n :
  server_inv sv → Z.of_nat (flagged (_clients sv)) ≤ n ≤ INT_MAX →
  server_inv (set_connection_graph sv (set_subscription_count n (_connection_graph sv))).
Proof. intros [] Hn. by split. Qed.

(** A client goes, together with what it advertised. *)
Lemma erase_client_inv sv hdl :
  server_inv sv →
  server_inv (set_client_channels (set_clients sv (delete hdl (_clients sv)))
                (delete hdl (_client_channels sv))).
Proof.
  intros []. split; simpl; try done.
  - intros h c'. destruct (decide (h = hdl)) as [->|]; intros; simplify_map_eq; eauto.
  - intros h1 c1 h2 c2. destruct (decide (h1 = hdl)) as [->|], (decide (h2 = hdl)) as [->|];
      intros; simplify_map_eq; eauto.
  - intros h c'. destruct (decide (h = hdl)) as [->|]; intros; simplify_map_eq; eauto.
  - intros h. specialize (inv_advertised0 h). unfold client_advertised, publications in *. simpl.
    destruct (decide (h = hdl)) as [->|]; by simplify_map_eq.
  - intros h id a. specialize (inv_publications0 h id a). unfold publications in *. simpl.
    destruct (decide (h = hdl)) as [->|]; by simplify_map_eq.
  - destruct (_clients sv !! hdl) as [c|] eqn:Hc; [|by rewrite delete_id].
    rewrite (flagged_delete _ _ c) in inv_graph0 by done. lia.
Qed.

(** Members the invariant does not mention. *)
Lemma set_param_subscriptions_inv sv m : server_inv sv → server_inv (set_param_subscriptions sv m).
Proof. by intros []. Qed.
Lemma set_options_inv sv o : server_inv sv → server_inv (set_options sv o).
Proof. by intros []. Qed.
Lemma set_services_inv sv m n :
  server_inv sv → server_inv (set_services (set_nextService_id sv n) m).
Proof. by intros []. Qed.
Lemma set_graph_maps_inv sv p q r :
  server_inv sv →
  server_inv (set_connection_graph sv (set_graph_maps p q r (_connection_graph sv))).
Proof. by intros []. Qed.

Lemma add_channel_inv sv n c :
  server_inv sv → channel_id c = n →
  server_inv (set_channels (set_next_channel_id sv n)
                (match _channels sv !! n with
                 | Some _ => _channels sv
                 | None => <[n := c]> (_channels sv)
                 end)).
Proof.
  intros [? ? Hsubs ? ? ? ?] Hn. destruct (_channels sv !! n) eqn:E; split; simpl; try done.
  - intros h c' Hc. rewrite dom_insert_L. by etransitivity; [apply (Hsubs _ _ Hc)|apply union_subseteq_r].
  - intros id c'. destruct (decide (id = n)) as [->|]; intros; simplify_map_eq; eauto.
Qed.

(** ** Methods that keep it *)

Section Methods.
Context {W : Type}.
Implicit Types s : St W.

(** [update] applied to the server of the state. *)
Lemma update_inv (f : Server → Server) :
  (∀ sv, server_inv sv → server_inv (f sv)) → preserves (W:=W) inv (update f).
Proof. intros Hf. apply preserves_update. intros s. apply Hf. Qed.

Lemma triple_update2 f g P (Q : unit → St W → Prop) E :
  (∀ s, P s → Q tt (mkSt (g (f (srv s))) (net s) (trace s) (world s))) →
  triple P (update f;; update g) Q E.
Proof. intros HQ L s HP. exact (HQ s HP). Qed.

Lemma triple_clients_at hdl P (E : St W → Prop) :
  (∀ s, P s → E s) →
  triple P (clients_at hdl) (λ c s, P s ∧ _clients (srv s) !! hdl = Some c) E.
Proof.
  intros HE L s HP. unfold clients_at. run.
  destruct (_clients (srv s) !! hdl) eqn:Hc; [by split|by apply HE].
Qed.

Lemma add_channels_preserves channels : preserves (W:=W) inv (add_channels channels).
Proof.
  assert (preserves (W:=W) inv (add_channels_loop channels)) as Hloop.
  { induction channels as [|c channels IH]; simpl; [apply preserves_ret|].
    apply preserves_state. intros L s Hinv.
    set (s1 := mkSt (set_channels (set_next_channel_id (srv s) (u32 (_next_channel_id (srv s) + 1)))
             (match _channels (srv s) !! u32 (_next_channel_id (srv s) + 1) with
              | Some _ => _channels (srv s)
              | None => <[u32 (_next_channel_id (srv s) + 1) :=
                  {| channel_id := u32 (_next_channel_id (srv s) + 1); channel_base := c |}]>
                  (_channels (srv s))
              end)) (net s) (trace s) (world s)).
    assert (inv s1) as Hs1 by (by apply add_channel_inv).
    apply (proj1 (preserves_state inv
      (rest ← add_channels_loop channels;
       mret ({| channel_id := u32 (_next_channel_id (srv s) + 1); channel_base := c |} :: rest)))
      (preserves_bind _ _ _ IH (λ _, preserves_ret _ _)) L s1 Hs1). }
  unfold add_channels. destruct channels; [apply preserves_ret|]. solve_preserves.
Qed.

Lemma add_services_preserves services : preserves (W:=W) inv (add_services services).
Proof.
  assert (preserves (W:=W) inv (add_services_loop services)) as Hloop.
  { induction services as [|c services IH]; cbn [add_services_loop]; [apply preserves_ret|].
    solve_preserves; apply update_inv; by intros sv []. }
  unfold add_services. destruct services; [apply preserves_ret|]. solve_preserves.
Qed.

Lemma remove_services_preserves ids : preserves (W:=W) inv (remove_services ids).
Proof.
  assert (preserves (W:=W) inv (remove_services_loop ids)) as Hloop.
  { induction ids as [|i ids IH]; cbn [remove_services_loop]; [apply preserves_ret|].
    solve_preserves; apply update_inv; by intros sv []. }
  unfold remove_services. solve_preserves.
Qed.

Lemma update_connection_graph_preserves p q r :
  preserves (W:=W) inv (update_connection_graph p q r).
Proof.
  unfold update_connection_graph. solve_preserves.
  apply update_inv. intros. by apply set_graph_maps_inv.
Qed.

Lemma validate_connection_preserves hdl : preserves (W:=W) inv (validate_connection hdl).
Proof. unfold validate_connection. solve_preserves; by intros L s. Qed.

Lemma handle_connection_opened_preserves hdl :
  preserves (W:=W) inv (handle_connection_opened hdl).
Proof.
  unfold handle_connection_opened. solve_preserves.
  apply update_inv. intros. by apply set_options_inv.
Qed.

(** *** Removing channels *)

(** [remove_channels] after its first phase: the invariant holds if the removed
    channels are put back, and the clients in [hs] are unsubscribed from [ids]. *)
Record removing (chans : gmap Z Channel) (clients : gmap ConnHandle ClientInfo)
    (ids : list Z) (hs : list ConnHandle) (s : St W) : Prop := {
  rm_inv : server_inv (set_channels (srv s) chans);
  rm_channels : _channels (srv s) = filter (λ e, e.1 ∉ ids) chans;
  rm_clients : dom (_clients (srv s)) = dom clients;
  rm_cleared h c i :
    h ∈ hs → _clients (srv s) !! h = Some c → i ∈ ids → subscriptions_by_channel c !! i = None
}.

#[local] Instance removing_send_stable chans clients ids hs :
  SendStable (removing chans clients ids hs).
Proof. by intros s ? ? ? []. Qed.

Lemma removing_done chans clients ids s :
  removing chans clients ids (map_to_list clients).*1 s → inv s.
Proof.
  intros [[] Hch Hcl Hclr]. unfold inv. split; try done.
  - intros h c Hc. specialize (inv_subs0 h c Hc). rewrite Hch. intros i Hi.
    apply elem_of_dom. specialize (inv_subs0 i Hi). simpl in inv_subs0.
    apply elem_of_dom in inv_subs0 as [ch Hi']. exists ch.
    apply map_lookup_filter_Some. split; [done|]. simpl. intros Hin.
    apply elem_of_dom in Hi as [x Hx].
    assert (h ∈ dom clients) as Hh by (rewrite <-Hcl; by eapply elem_of_dom_2).
    rewrite (Hclr h c i) in Hx; [done| |done..].
    apply elem_of_dom in Hh as [c' Hc']. apply list_elem_of_fmap.
    exists (h, c'). split; [done|]. by apply elem_of_map_to_list.
  - intros i c. rewrite Hch. intros [Hc _]%map_lookup_filter_Some. by apply inv_channels0.
Qed.

Lemma unsubscribe_step chans clients ids hs h i s :
  removing chans clients ids hs s →
  removing chans clients ids hs
    (mkSt (set_clients (srv s) (alter
       (λ c, set_subscriptions (delete i (subscriptions_by_channel c)) c) h (_clients (srv s))))
       (net s) (trace s) (world s)).
Proof.
  intros [Hinv Hch Hcl Hclr]. split; simpl; [|done|by rewrite dom_alter_L|].
  - apply (update_client_inv (set_channels (srv s) chans)); [done|]. intros c Hc. simpl.
    split_and!; try done. pose proof (inv_subs _ Hinv h c Hc). simpl in *. set_solver.
  - intros h' c i' Hh. rewrite alter_alt.
    destruct (_clients (srv s) !! h) as [c0|] eqn:Hc0; [|by apply Hclr].
    destruct (decide (h' = h)) as [->|]; intros; simplify_map_eq; [|by eapply Hclr].
    apply lookup_delete_None. right. by eapply Hclr.
Qed.

Lemma unsubscribe_all_step chans clients ids hs h :
  triple (removing chans clients ids hs)
    (for_each ids (λ i, update_client (W:=W) h
       (λ c, set_subscriptions (delete i (subscriptions_by_channel c)) c)))
    (λ _, removing chans clients ids (hs ++ [h])) inv.
Proof.
  set (I := λ (prev : list Z) s, removing chans clients ids hs s ∧
        ∀ c i, _clients (srv s) !! h = Some c → i ∈ prev → subscriptions_by_channel c !! i = None).
  eapply triple_conseq with (P' := I []) (Q' := λ _, I ids) (E' := inv); [| |..|done].
  - apply triple_for_each_done. intros prev i rest _. apply triple_update. intros s [Hrm Hi].
    split; [by apply unsubscribe_step|]. simpl. intros c j.
    rewrite alter_alt. destruct (_clients (srv s) !! h) as [c0|] eqn:Hc0; [|by rewrite Hc0].
    rewrite lookup_insert_eq. intros [= <-] [Hj|Hj]%elem_of_app; simpl; apply lookup_delete_None.
    + right. by eapply Hi.
    + left. set_solver.
  - intros s Hrm. split; [done|]. set_solver.
  - intros _ s [[Hinv Hch Hcl Hclr] Hi]. split; try done.
    intros h' c i [?|Hh]%elem_of_app; [by apply Hclr|].
    apply list_elem_of_singleton in Hh as ->. apply Hi.
Qed.

Lemma remove_channels_preserves ids : preserves (W:=W) inv (remove_channels ids).
Proof.
  unfold remove_channels. destruct ids as [|i0 ids0]; [apply preserves_ret|].
  set (ids := i0 :: ids0). intros L s Hinv.
  set (I := λ (prev : list Z) s',
    ∃ sv, server_inv sv ∧ srv s' = set_channels sv (filter (λ e, e.1 ∉ prev) (_channels sv))).
  assert (triple (W:=W) (I []) (remove_channels ids) (λ _, inv) inv) as Ht.
  2:{ apply (Ht L s). exists (srv s). split; [done|].
      rewrite map_filter_id by set_solver. by destruct (srv s). }
  unfold remove_channels. subst ids. set (ids := i0 :: ids0).
  eapply triple_bind with (R := λ _, I ids); [apply triple_with_lock, triple_for_each_done|].
  { intros prev i rest _. apply triple_update. intros s' (sv & Hsv & E). exists sv.
    split; [done|]. simpl. rewrite E. simpl. f_equal. apply map_eq. intros j.
    apply option_eq. intros c.
    rewrite lookup_delete_Some, !map_lookup_filter_Some. set_solver. }
  intros []. rewrite dump_unadvertise.
  eapply (triple_bind _ (λ _, I ids)); [by intros L' s'|]. intros msg. apply triple_with_lock.
  eapply triple_bind; [apply triple_get|]. intros clients.
  eapply triple_pre with (P' := λ s, ∃ chans, removing chans clients ids [] s).
  2:{ intros s' [(sv & Hsv & E) ->]. exists (_channels sv). split; try done.
      - rewrite E. by destruct sv.
      - by rewrite E.
      - set_solver. }
  intros L' s' [chans Hrm].
  refine (triple_post _ _ _ _ _
    (triple_for_each_done (map_to_list clients) _
       (λ prev, removing chans clients ids prev.*1) inv _)
    (λ _ s, removing_done chans clients ids s) L' s' Hrm).
  intros prev [h c] rest _. eapply triple_bind; [apply unsubscribe_all_step|].
  intros []. rewrite fmap_app. simpl.
  apply triple_send_raw_json, _.
Qed.

(** *** Logging in *)

Record kicking (clients : gmap ConnHandle ClientInfo) (hs : list ConnHandle) (s : St W) :
    Prop := {
  kick_inv : inv s;
  kick_clients : dom (_clients (srv s)) = dom clients;
  kick_out h c : h ∈ hs → _clients (srv s) !! h = Some c → login c = false
}.

#[local] Instance kicking_send_stable clients hs : SendStable (kicking clients hs).
Proof. by intros s ? ? ? []. Qed.

Lemma kick_step clients hs h s :
  kicking clients hs s →
  kicking clients (hs ++ [h])
    (mkSt (set_clients (srv s) (alter (set_login false) h (_clients (srv s))))
       (net s) (trace s) (world s)).
Proof.
  intros [Hinv Hcl Hout]. split; simpl; [|by rewrite dom_alter_L|].
  - apply update_client_inv; [done|]. intros c Hc. split_and!; try done.
    apply (inv_subs _ Hinv h c Hc).
  - intros h' c Hh. rewrite lookup_alter.
    case_decide as E; [by intros (c0 & _ & ->)%fmap_Some|].
    apply Hout. apply elem_of_app in Hh as [?|?%list_elem_of_singleton]; [done|congruence].
Qed.

Lemma kicking_done clients s :
  kicking clients (map_to_list clients).*1 s →
  inv s ∧ ∀ h c, _clients (srv s) !! h = Some c → login c = false.
Proof.
  intros [Hinv Hcl Hout]. split; [done|]. intros h c Hc. eapply Hout; [|done].
  assert (h ∈ dom clients) as [c' Hc']%elem_of_dom by (rewrite <-Hcl; by eapply elem_of_dom_2).
  apply list_elem_of_fmap. exists (h, c'). split; [done|]. by apply elem_of_map_to_list.
Qed.

Lemma handle_login_preserves payload hdl : preserves (W:=W) inv (handle_login payload hdl).
Proof.
  unfold handle_login.
  apply preserves_bind; [solve_preserves|]. intros user_name.
  apply preserves_bind; [solve_preserves|]. intros user_id.
  apply preserves_bind; [solve_preserves|]. intros endpoint.
  apply preserves_bind; [|intros; solve_preserves].
  apply preserves_with_lock.
  eapply triple_bind; [apply triple_get|]. intros clients.
  eapply triple_bind with
    (R := λ _ s, inv s ∧ ∀ h c, _clients (srv s) !! h = Some c → login c = false).
  - eapply triple_conseq; [apply (triple_for_each_done _ _ (λ prev, kicking clients prev.*1) inv)| | |].
    + intros prev [h c] rest _. rewrite fmap_app. unfold kick_client. simpl.
      eapply triple_bind; [eapply triple_conseq; [apply (preserves_get_con _ h)|..]|]; [done..| |].
      { intros s'. apply kick_inv. }
      intros con. eapply triple_bind.
      { eapply triple_conseq; [apply (preserves_lift _ (kicking clients prev.*1))|..]; [done..|].
        intros s'. apply kick_inv. }
      intros text. eapply triple_bind.
      { apply (triple_emit _ _ (λ _, kicking clients prev.*1)). by intros s' []. }
      intros []. apply triple_update, kick_step.
    + intros s [Hinv ->]. split; [done..|]. set_solver.
    + intros [] s. apply kicking_done.
    + done.
  - intros []. apply triple_update. intros s [Hinv Hout]. unfold inv. simpl.
    destruct (_clients (srv s) !! hdl) eqn:E; [by rewrite set_clients_same|]. by apply login_inv.
Qed.

End Methods.

(** ** Requests *)

(** The invariant and a fact about members that handlers leave alone. *)
Definition inv_and {W} (φ : Server → Prop) (s : St W) : Prop := inv s ∧ φ (srv s).

Class HandlerIndep (φ : Server → Prop) :=
  handler_indep : ∀ sv p q r,
    φ sv → φ (set_connection_graph sv (set_graph_maps p q r (_connection_graph sv))).

#[export] Instance inv_and_frame_stable {W} φ : HandlerIndep φ → FrameStable (inv_and (W:=W) φ).
Proof.
  intros Hφ s s' Hf [Hinv Hs]. split; [by eapply inv_frame_stable|].
  destruct Hf as (_ & (p & q & r & ->) & _). by apply Hφ.
Qed.
#[export] Instance inv_and_call_stable {W} φ c : CallStable (inv_and (W:=W) φ) c.
Proof. by intros s []. Qed.

(** A step under a stronger invariant, whose exceptions only need [inv]. *)
Lemma triple_inv_and {W A} φ (m : M W A) :
  preserves (inv_and φ) m → triple (inv_and φ) m (λ _, inv_and φ) inv.
Proof. intros Hm. eapply triple_conseq; [exact Hm|done..|]. by intros s []. Qed.

(** [get] followed by a stronger invariant. *)
Lemma triple_get_and {W A B} (f : Server → A) (k : A → M W B) (φ : A → Server → Prop) Q :
  (∀ sv, server_inv sv → φ (f sv) sv) →
  (∀ a, triple (inv_and (φ a)) (k a) Q inv) → triple inv (get f ≫= k) Q inv.
Proof.
  intros Hφ Hk. eapply triple_bind; [apply triple_get|]. intros a.
  eapply triple_pre; [apply Hk|]. intros s [Hinv ->]. split; [done|]. by apply Hφ.
Qed.

(** What follows only needs the invariant. *)
Lemma preserves_bind_inv {W A B} φ (m : M W A) (k : A → M W B) :
  triple (inv_and φ) m (λ _, inv) inv → (∀ a, preserves inv (k a)) →
  triple (inv_and φ) (m ≫= k) (λ _, inv) inv.
Proof. intros Hm Hk. eapply triple_bind; [exact Hm|]. intros a. apply Hk. Qed.

Section Requests.
Context {plat : Platform} {W : Type} (H : ServerHandlers W) `{!HandlersFrame H}.

Lemma triple_update_client hdl f φ :
  (∀ sv c, server_inv sv → φ sv → _clients sv !! hdl = Some c →
     server_inv (set_clients sv (<[hdl := f c]> (_clients sv)))) →
  triple (W:=W) (inv_and φ) (with_lock clients_mutex (clients_at hdl;; update_client hdl f))
    (λ _, inv) inv.
Proof.
  intros Hf. apply triple_with_lock. eapply triple_bind.
  - apply triple_clients_at. by intros s [].
  - intros c. apply triple_update. intros s [[Hinv Hφ] Hc]. unfold inv. simpl.
    rewrite (alter_alt_Some _ _ _ c) by done. by apply Hf.
Qed.

(** [update_client_inv] when the client is known. *)
Lemma insert_client_inv sv hdl c c' :
  server_inv sv → _clients sv !! hdl = Some c →
  handle c' = handle c → login c' = login c →
  dom (subscriptions_by_channel c') ⊆ dom (_channels sv) →
  advertised_channels c' = advertised_channels c →
  subscribed_to_connection_graph c' = subscribed_to_connection_graph c →
  server_inv (set_clients sv (<[hdl := c']> (_clients sv))).
Proof.
  intros Hinv Hc ? Hl ? ? ?. rewrite <-(alter_alt_Some (λ _, c') _ _ c) by done.
  apply update_client_inv; [done|]. intros c0 Hc0. simplify_eq. split_and!; try done.
  by rewrite Hl.
Qed.

Lemma handle_subscribe_preserves payload hdl : preserves inv (handle_subscribe H payload hdl).
Proof.
  unfold handle_subscribe.
  apply preserves_bind; [solve_preserves|]. intros client.
  apply preserves_bind; [solve_preserves|]. intros subs.
  apply preserves_for_each. intros sub.
  apply preserves_bind; [solve_preserves|]. intros sub_id.
  apply preserves_bind; [solve_preserves|]. intros cid.
  destruct (find_subscription_by_sub_id _ _); [solve_preserves|].
  apply (triple_get_and _ _ (λ a sv, a = _channels sv)); [done|]. intros channels.
  destruct (channels !! cid) as [ch|] eqn:Hch.
  2:{ eapply triple_pre; [apply preserves_send_status, _|]. by intros s []. }
  assert (HandlerIndep (λ sv, is_Some (_channels sv !! cid))) by (by intros sv p q r).
  eapply triple_pre with (P' := inv_and (λ sv, is_Some (_channels sv !! cid))).
  2:{ intros s [Hinv ->]. by split; [|exists ch]. }
  eapply triple_bind; [apply triple_inv_and, preserves_call; apply _|]. intros [].
  apply triple_update_client. intros sv c Hinv Hcid Hc. pose proof (inv_subs _ Hinv _ _ Hc).
  destruct (subscriptions_by_channel c !! cid); [by rewrite insert_id; [rewrite set_clients_same|]|].
  apply (insert_client_inv _ _ c); try done. simpl. rewrite dom_insert_L.
  apply union_subseteq. split; [|done]. by apply singleton_subseteq_l, elem_of_dom.
Qed.

Lemma inv_True : ∀ s : St W, inv s → inv_and (λ _, True) s.
Proof. by split. Qed.

Lemma handle_unsubscribe_preserves payload hdl :
  preserves inv (handle_unsubscribe H payload hdl).
Proof.
  unfold handle_unsubscribe.
  apply preserves_bind; [solve_preserves|]. intros client.
  apply preserves_bind; [solve_preserves|]. intros ids.
  apply preserves_for_each. intros sub.
  apply preserves_bind; [solve_preserves|]. intros sub_id.
  destruct (find_subscription_by_sub_id _ _) as [[cid ?]|]; [|solve_preserves].
  apply preserves_bind; [solve_preserves|]. intros [].
  eapply triple_pre; [apply (triple_update_client _ _ (λ _, True))|apply inv_True].
  intros sv c Hinv _ Hc. pose proof (inv_subs _ Hinv _ _ Hc).
  apply (insert_client_inv _ _ c); try done. simpl. set_solver.
Qed.

(** Both records of a client's advertisements change together. *)
Lemma triple_update_advertised hdl A f :
  (∀ c m, dom m = advertised_channels c → dom (f m) = A (advertised_channels c)) →
  (∀ m, (∀ id a, m !! id = Some a → adv_channel_id a = id) →
        ∀ id a, f m !! id = Some a → adv_channel_id a = id) →
  ∀ s : St W, inv s → is_Some (_client_channels (srv s) !! hdl) →
  is_Some (_clients (srv s) !! hdl) →
  server_inv
    (set_client_channels
       (set_clients (srv s)
          (alter (λ c, set_advertised (A (advertised_channels c)) c) hdl (_clients (srv s))))
       (alter f hdl (_client_channels (srv s)))).
Proof.
  intros HA Hids s Hinv [m Hm] [c Hc].
  rewrite (alter_alt_Some _ _ _ c), (alter_alt_Some _ _ _ m) by done.
  pose proof (inv_advertised _ Hinv hdl) as Ha.
  pose proof (inv_publications _ Hinv hdl) as Hp.
  unfold client_advertised, publications in Ha, Hp. rewrite Hc, Hm in *. simpl in *.
  rewrite <-(HA c m) by done. by eapply advertised_inv; [..|apply Hids].
Qed.

Definition has_publications (hdl : ConnHandle) (sv : Server) : Prop :=
  is_Some (_client_channels sv !! hdl).

#[local] Instance has_publications_indep hdl : HandlerIndep (has_publications hdl).
Proof. by intros sv p q r. Qed.

Lemma handle_advertise_preserves payload hdl : preserves inv (handle_advertise H payload hdl).
Proof.
  unfold handle_advertise. apply preserves_with_lock. unfold get_publications at 1.
  eapply triple_bind with (R := λ a s, inv s ∧ a = _client_channels (srv s) !! hdl).
  { by intros L s Hinv. }
  intros pubs. eapply triple_bind with (R := λ _, inv_and (has_publications hdl)).
  { case_bool_decide as Hp.
    - apply triple_update. intros s [Hinv ->]. split; [by apply set_client_channels_same|].
      unfold has_publications. simpl. by rewrite lookup_insert_eq.
    - apply triple_ret. intros s [Hinv ->]. split; [done|]. by apply not_eq_None_Some. }
  intros []. eapply triple_bind; [apply triple_inv_and, preserves_lift|]. intros channels.
  eapply triple_post with (Q' := λ _, inv_and (has_publications hdl)); [|by intros [] s []].
  apply triple_for_each. intros chan _.
  eapply triple_bind; [apply triple_inv_and, preserves_lift|]. intros cid.
  eapply triple_bind; [apply triple_inv_and, preserves_get_publications; apply _|]. intros cp.
  destruct (_ && _); [apply triple_inv_and; solve_preserves|].
  eapply triple_bind; [apply triple_inv_and, preserves_lift|]. intros topic.
  eapply triple_bind; [apply triple_inv_and, preserves_get|]. intros o.
  destruct (negb _); [apply triple_inv_and; solve_preserves|].
  eapply triple_bind; [apply triple_inv_and, preserves_lift|]. intros enc.
  eapply triple_bind; [apply triple_inv_and, preserves_lift|]. intros sn.
  eapply triple_bind; [apply triple_inv_and, preserves_call; apply _|]. intros [].
  apply triple_with_lock. eapply triple_bind.
  { apply triple_clients_at. by intros s []. }
  intros c. apply triple_update2. intros s [[Hinv Hp] Hc]. split.
  - refine (triple_update_advertised hdl (λ x, {[cid]} ∪ x) _ _ _ s Hinv Hp (mk_is_Some _ _ Hc)).
    + intros c' m Hm. destruct (m !! cid) eqn:E; rewrite <-?Hm, ?dom_insert_L; [|done].
      apply elem_of_dom_2 in E. set_solver.
    + intros m Hm id a. destruct (m !! cid); [apply Hm|].
      destruct (decide (id = cid)) as [->|]; intros; simplify_map_eq; eauto.
  - unfold has_publications. simpl. by apply lookup_alter_is_Some.
Qed.

Lemma handle_unadvertise_preserves payload hdl :
  preserves inv (handle_unadvertise H payload hdl).
Proof.
  unfold handle_unadvertise. apply preserves_with_lock. unfold get_publications at 1.
  eapply triple_bind with (R := λ a s, inv s ∧ a = _client_channels (srv s) !! hdl).
  { by intros L s Hinv. }
  intros [m|].
  2:{ eapply triple_pre; [apply preserves_send_status, _|]. by intros s []. }
  eapply triple_pre with (P' := inv_and (has_publications hdl)).
  2:{ intros s [Hinv Hm]. split; [done|]. by exists m. }
  eapply triple_bind; [apply triple_inv_and, preserves_lift|]. intros ids.
  eapply triple_post with (Q' := λ _, inv_and (has_publications hdl)); [|by intros [] s []].
  apply triple_for_each. intros chan _.
  eapply triple_bind; [apply triple_inv_and, preserves_lift|]. intros cid.
  eapply triple_bind; [apply triple_inv_and, preserves_get_publications; apply _|]. intros cp.
  destruct (bool_decide _); [|apply triple_inv_and, preserves_ret].
  eapply triple_bind; [apply triple_inv_and, preserves_call; apply _|]. intros [].
  apply triple_with_lock. eapply triple_bind.
  { apply triple_clients_at. by intros s []. }
  intros c. apply triple_update2. intros s [[Hinv Hp] Hc]. split.
  - refine (triple_update_advertised hdl (λ x, x ∖ {[cid]}) _ _ _ s Hinv Hp (mk_is_Some _ _ Hc)).
    + intros c' m' Hm'. rewrite <-Hm'. by rewrite dom_delete_L.
    + intros m' Hm' id a. rewrite lookup_delete_Some. naive_solver.
  - unfold has_publications. simpl. by apply lookup_alter_is_Some.
Qed.

(** *** Parameters *)

Lemma unsubscribe_params_preserves P `{!FrameStable P}
    `{!∀ names hdl, CallStable P (CallParameterSubscription names UNSUBSCRIBE hdl)} hdl names :
  preserves P (unsubscribe_params_without_subscriptions H hdl names).
Proof. unfold unsubscribe_params_without_subscriptions, catch_std. solve_preserves. Qed.

Lemma handle_subscribe_parameter_updates_preserves payload hdl :
  preserves inv (handle_subscribe_parameter_updates H payload hdl).
Proof.
  unfold handle_subscribe_parameter_updates. solve_preserves.
  apply update_inv. intros. by apply set_param_subscriptions_inv.
Qed.

Lemma handle_unsubscribe_parameter_updates_preserves payload hdl :
  preserves inv (handle_unsubscribe_parameter_updates H payload hdl).
Proof.
  unfold handle_unsubscribe_parameter_updates. solve_preserves.
  - apply update_inv. intros. by apply set_param_subscriptions_inv.
  - apply unsubscribe_params_preserves; apply _.
Qed.

(** *** Connection graph *)

(** There is room in the count for a flag that is not set yet. *)
Definition graph_slack (k : Z) (sv : Server) : Prop :=
  Z.of_nat (flagged (_clients sv)) + k ≤ subscription_count (_connection_graph sv) ≤ INT_MAX.

#[local] Instance graph_slack_indep k : HandlerIndep (graph_slack k).
Proof. by intros sv p q r. Qed.

Lemma handle_subscribe_connection_graph_preserves hdl :
  preserves inv (handle_subscribe_connection_graph H hdl).
Proof.
  unfold handle_subscribe_connection_graph.
  eapply triple_bind with (R := λ _, inv_and (graph_slack 1)).
  { apply triple_with_lock. eapply triple_bind; [apply triple_get|]. intros g.
    case_decide; [apply triple_undefined|]. apply triple_bind with (R := λ _, inv_and (graph_slack 1));
      [|intros []; by apply triple_ret].
    apply triple_update. intros s [Hinv ->]. pose proof (inv_graph _ Hinv).
    unfold graph_slack. split; [apply set_count_inv|]; simpl; [done|lia..]. }
  intros b. apply preserves_bind_inv; [|intros; solve_preserves]. destruct b.
  - eapply triple_bind; [apply triple_inv_and, preserves_call; apply _|]. intros [].
    apply triple_update_client. intros sv c Hinv Hsl Hc. unfold graph_slack in Hsl.
    pose proof (graph_flag_inv sv hdl c true (subscription_count (_connection_graph sv)) Hinv Hc)
      as Hnew.
    rewrite (flagged_delete _ _ _ Hc) in Hsl. simpl in Hnew.
    assert (server_inv (set_clients sv (<[hdl:=set_graph_flag true c]> (_clients sv)))) as Hgoal.
    { destruct Hnew; [lia|]. by split. }
    exact Hgoal.
  - eapply triple_post; [apply triple_inv_and, preserves_ret|]. by intros [] s [].
Qed.

Lemma handle_unsubscribe_connection_graph_preserves hdl :
  preserves inv (handle_unsubscribe_connection_graph H hdl).
Proof.
  unfold handle_unsubscribe_connection_graph.
  eapply triple_bind with (R := λ b, inv_and (graph_slack (Z.b2z b))).
  { apply triple_with_lock. eapply triple_bind; [by apply triple_clients_at|]. intros c.
    destruct (subscribed_to_connection_graph c) eqn:Hf.
    - eapply triple_bind with (R := λ _, inv_and (graph_slack 1));
        [|intros []; by apply triple_ret].
      apply triple_update. intros s [Hinv Hc]. pose proof (inv_graph _ Hinv) as Hg.
      rewrite (flagged_delete _ _ _ Hc), Hf in Hg. simpl in Hg. unfold inv_and, inv. simpl.
      rewrite (alter_alt_Some _ _ _ c) by done.
      pose proof (graph_flag_inv _ hdl c false (subscription_count (_connection_graph (srv s)))
        Hinv Hc) as Hnew. simpl in Hnew.
      split; [destruct Hnew; [lia|]; by split|].
      unfold graph_slack. simpl. rewrite flagged_insert. simpl. lia.
    - apply triple_ret. intros s [Hinv Hc]. split; [done|]. unfold graph_slack. simpl.
      pose proof (inv_graph _ Hinv). lia. }
  intros []; simpl.
  - eapply triple_bind with (R := λ _, inv).
    + apply triple_with_lock. eapply triple_bind with (R := λ _, inv).
      * apply triple_update. intros s [Hinv Hsl]. unfold graph_slack in Hsl.
        apply set_count_inv; [done|lia].
      * intros []. solve_preserves.
    + intros b. destruct b; [apply preserves_call; apply _|apply preserves_ret].
  - eapply triple_pre; [apply preserves_send_status, _|]. by intros s [].
Qed.

(** *** Closing a connection *)

(** A client that had the flag [b] is gone, what it advertised is not. *)
Definition closing (hdl : ConnHandle) (b : bool) (s : St W) : Prop :=
  server_inv (set_client_channels (srv s) (delete hdl (_client_channels (srv s)))) ∧
  graph_slack (Z.b2z b) (srv s).

#[local] Instance closing_frame_stable hdl b : FrameStable (closing hdl b).
Proof.
  intros s s' (_ & (p & q & r & E) & _) [[] Hsl]. unfold closing. rewrite E.
  split; [by split|done].
Qed.
#[local] Instance closing_call_stable hdl b c : CallStable (closing hdl b) c.
Proof. by intros s. Qed.

(** Exceptions that are only logged do not leave the method. *)
Lemma triple_ignore (P E : St W → Prop) body :
  preserves P body → triple P (ignore_exception body) (λ _, P) E.
Proof.
  intros Hb. eapply triple_try_catch; [exact Hb|]. intros e. by apply triple_ret.
Qed.

Lemma handle_connection_closed_preserves hdl :
  preserves inv (handle_connection_closed H hdl).
Proof.
  unfold handle_connection_closed.
  eapply triple_bind with (R := λ oc s,
    match oc with
    | None => inv s
    | Some c => closing hdl (subscribed_to_connection_graph c) s
    end).
  { apply triple_with_lock. eapply triple_bind; [apply triple_get|]. intros clients.
    destruct (clients !! hdl) as [c|] eqn:Hc; [|apply triple_ret; by intros s []].
    eapply triple_bind with (R := λ _, closing hdl (subscribed_to_connection_graph c));
      [|intros []; by apply triple_ret].
    apply triple_update. intros s [Hinv ->]. pose proof (erase_client_inv _ hdl Hinv) as He.
    split; [done|]. pose proof (inv_graph _ Hinv) as Hg.
    rewrite (flagged_delete _ _ _ Hc) in Hg. unfold graph_slack. simpl.
    destruct (subscribed_to_connection_graph c); simpl in *; lia. }
  intros [c|]; [|apply preserves_ret]. set (b := subscribed_to_connection_graph c).
  eapply triple_bind with (R := λ _, closing hdl b).
  { apply triple_for_each. intros i _. destruct (bool_decide _); [|by apply triple_ret].
    apply triple_ignore. solve_preserves. }
  intros []. eapply triple_bind with (R := λ _, inv_and (graph_slack (Z.b2z b))).
  { apply triple_with_lock, triple_update. by intros s []. }
  intros []. eapply triple_bind with (R := λ _, inv_and (graph_slack (Z.b2z b))).
  { apply triple_inv_and. unfold ignore_exception. solve_preserves. }
  intros []. eapply triple_bind with (R := λ _, inv_and (graph_slack (Z.b2z b))).
  { apply triple_inv_and, preserves_with_lock. solve_preserves. apply preserves_update.
    intros s [Hinv ?]. by split; [apply set_param_subscriptions_inv|]. }
  intros names. eapply triple_bind; [apply triple_inv_and, unsubscribe_params_preserves; apply _|].
  intros []. destruct b; simpl.
  2:{ apply triple_ret. by intros s []. }
  apply triple_with_lock. apply preserves_bind_inv; [|unfold ignore_exception; intros; solve_preserves].
  apply triple_update. intros s [Hinv Hsl]. unfold graph_slack in Hsl.
  apply set_count_inv; [done|lia].
Qed.

(** *** Dispatch *)

#[local] Hint Resolve handle_login_preserves handle_subscribe_preserves
  handle_unsubscribe_preserves handle_advertise_preserves handle_unadvertise_preserves
  handle_subscribe_parameter_updates_preserves handle_unsubscribe_parameter_updates_preserves
  handle_subscribe_connection_graph_preserves handle_unsubscribe_connection_graph_preserves
  : server.

Lemma has_handler_preserves (P : St W → Prop) op : preserves P (has_handler H op).
Proof. unfold has_handler. solve_preserves. Qed.

Lemma run_op_preserves o payload hdl : preserves inv (run_op H o payload hdl).
Proof.
  destruct o; cbn [run_op];
    unfold handle_get_parameters, handle_set_parameters, handle_fetch_asset; solve_preserves.
Qed.
#[local] Hint Resolve has_handler_preserves run_op_preserves : server.

Lemma handle_text_payload_preserves hdl payload :
  preserves inv (handle_text_payload H hdl payload).
Proof. unfold handle_text_payload, report_op_failure. solve_preserves. Qed.
#[local] Hint Resolve handle_text_payload_preserves : server.

Lemma handle_message_preserves parse now hdl op payload :
  preserves inv (handle_message H parse now hdl op payload).
Proof.
  unfold handle_message, handle_text_message, handle_binary_message, handle_message_data,
    handle_service_call_request, catch_std. solve_preserves.
Qed.

End Requests.
