(* ===== verification/ServerSync.v ===== *)
(** * What the handlers have been told

    The server calls the parameter and the connection-graph handlers when the
    first client subscribes and when the last one is gone. The abstract
    specification is the set of parameters (the flag) the handler was told last;
    the refinement: it is always the union over the clients (whether somebody is
    counted). *)

From Stdlib Require Import ZArith Lia.
From S2P Require Import Prelude Wire Json Serialization ServerState ServerMethods ServerLogic.
From S2P Require Import ServerInv.

Local Open Scope Z_scope.

(** ** The abstract view: folding over the calls *)

Definition tell_params (X : gset string) (e : event) : gset string :=
  match e with
  | Call (CallParameterSubscription names SUBSCRIBE _) => X ∪ list_to_set names
  | Call (CallParameterSubscription names UNSUBSCRIBE _) => X ∖ list_to_set names
  | _ => X
  end.

Definition told_params (tr : list event) : gset string := foldl tell_params ∅ tr.

Definition tell_graph (b : bool) (e : event) : bool :=
  match e with Call (CallSubscribeConnectionGraph b') => b' | _ => b end.

Definition told_graph (tr : list event) : bool := foldl tell_graph false tr.

(** ** The concrete view *)

Definition subscribed_param (sv : Server) (n : string) : Prop :=
  ∃ h x, _client_param_subscriptions sv !! h = Some x ∧ n ∈ x.

Definition params_in_sync {W} (s : St W) : Prop :=
  ∀ n, n ∈ told_params (trace s) ↔ subscribed_param (srv s) n.

Definition graph_in_sync {W} (s : St W) : Prop :=
  told_graph (trace s) = bool_decide (0 < subscription_count (_connection_graph (srv s))).

Lemma param_subscribed_spec subs n :
  param_subscribed subs n = true ↔ ∃ h x, subs !! h = Some x ∧ n ∈ x.
Proof.
  unfold param_subscribed. rewrite existsb_exists. split.
  - intros ([h x] & Hin & Hn%bool_decide_eq_true). exists h, x. split; [|done].
    by apply elem_of_map_to_list, list_elem_of_In.
  - intros (h & x & Hx & Hn). exists (h, x). split; [|by apply bool_decide_eq_true].
    by apply list_elem_of_In, elem_of_map_to_list.
Qed.

Lemma told_params_sends tr sends :
  Forall is_send sends → told_params (tr ++ sends) = told_params tr.
Proof.
  intros Hs. unfold told_params. rewrite foldl_app. generalize (foldl tell_params ∅ tr).
  induction Hs as [|e sends He _ IH]; [done|]. intros X. simpl. by destruct e.
Qed.

Lemma told_graph_sends tr sends :
  Forall is_send sends → told_graph (tr ++ sends) = told_graph tr.
Proof.
  intros Hs. unfold told_graph. rewrite foldl_app. generalize (foldl tell_graph false tr).
  induction Hs as [|e sends He _ IH]; [done|]. intros X. simpl. by destruct e.
Qed.

(** Properties of what was told and of the two members it is about. *)
Definition told {W} (ψ : gset string → bool → gmap ConnHandle (gset string) → Z → Prop)
    (s : St W) : Prop :=
  ψ (told_params (trace s)) (told_graph (trace s)) (_client_param_subscriptions (srv s))
    (subscription_count (_connection_graph (srv s))).

#[export] Instance told_frame_stable {W} ψ : FrameStable (told (W:=W) ψ).
Proof.
  intros s s' (_ & (p & q & r & E) & (sends & Et & Hs)). unfold told.
  by rewrite E, Et, told_params_sends, told_graph_sends by done.
Qed.

(** A call that is neither of the two. *)
Definition tells_nothing (c : handler_call) : bool :=
  match c with
  | CallParameterSubscription _ _ _ | CallSubscribeConnectionGraph _ => false
  | _ => true
  end.

Lemma told_call {W} ψ (s : St W) c :
  tells_nothing c → told ψ s →
  told ψ (mkSt (srv s) (net s) (trace s ++ [Call c]) (world s)).
Proof.
  intros Hc. unfold told, told_params, told_graph. simpl. rewrite !foldl_app. by destruct c.
Qed.

#[export] Hint Extern 0 (CallStable (told _) _) =>
  (intros ?s; apply told_call; exact I) : typeclass_instances.

(** Updates of other members. *)
Lemma told_update {W} ψ (f : Server → Server) :
  (∀ sv, _client_param_subscriptions (f sv) = _client_param_subscriptions sv) →
  (∀ sv, subscription_count (_connection_graph (f sv)) =
         subscription_count (_connection_graph sv)) →
  preserves (told (W:=W) ψ) (update f).
Proof. intros Hp Hc. apply preserves_update. intros s. unfold told. simpl. by rewrite Hp, Hc. Qed.

Lemma told_update_client {W} ψ hdl f : preserves (told (W:=W) ψ) (update_client hdl f).
Proof. by apply told_update. Qed.
Lemma told_update_publications {W} ψ hdl f :
  preserves (told (W:=W) ψ) (update_publications hdl f).
Proof. by apply told_update. Qed.
#[export] Hint Resolve told_update_client told_update_publications : server.

Ltac solve_told := solve_preserves; try (by apply told_update).

(** ** Methods that touch neither *)

Section Methods.
Context {plat : Platform} {W : Type} (H : ServerHandlers W) `{!HandlersFrame H}.
Context (ψ : gset string → bool → gmap ConnHandle (gset string) → Z → Prop).
Abbreviation P := (told (W:=W) ψ).

Lemma add_channels_told cs : preserves P (add_channels cs).
Proof.
  assert (preserves P (add_channels_loop cs)) as Hloop.
  { induction cs; cbn [add_channels_loop]; solve_told. }
  unfold add_channels. destruct cs; solve_told.
Qed.
Lemma add_services_told ss : preserves P (add_services ss).
Proof.
  assert (preserves P (add_services_loop ss)) as Hloop.
  { induction ss; cbn [add_services_loop]; solve_told. }
  unfold add_services. destruct ss; solve_told.
Qed.
Lemma remove_services_told ids : preserves P (remove_services ids).
Proof.
  assert (preserves P (remove_services_loop ids)) as Hloop.
  { induction ids; cbn [remove_services_loop]; solve_told. }
  unfold remove_services. solve_told.
Qed.
Lemma remove_channels_told ids : preserves P (remove_channels ids).
Proof. unfold remove_channels. solve_told. Qed.
Lemma update_connection_graph_told p q r : preserves P (update_connection_graph p q r).
Proof. unfold update_connection_graph. solve_told. Qed.
Lemma validate_connection_told hdl : preserves P (validate_connection hdl).
Proof. unfold validate_connection. solve_preserves; by intros L s. Qed.
Lemma handle_connection_opened_told hdl : preserves P (handle_connection_opened hdl).
Proof. unfold handle_connection_opened. solve_told. Qed.

(** The client operations other than the four that subscribe or unsubscribe. *)
Definition tells (o : client_op) : bool :=
  match o with
  | SUBSCRIBE_PARAMETER_UPDATES | UNSUBSCRIBE_PARAMETER_UPDATES
  | SUBSCRIBE_CONNECTION_GRAPH | UNSUBSCRIBE_CONNECTION_GRAPH => true
  | _ => false
  end.

Lemma run_op_told o payload hdl : tells o = false → preserves P (run_op H o payload hdl).
Proof.
  destruct o; try done; intros _; cbn [run_op];
    unfold handle_login, kick_client, handle_subscribe, handle_unsubscribe, handle_advertise,
      handle_unadvertise, handle_get_parameters, handle_set_parameters, handle_fetch_asset;
    solve_told.
Qed.

Lemma handle_binary_message_told now hdl payload :
  preserves P (handle_binary_message H now hdl payload).
Proof.
  unfold handle_binary_message, handle_message_data, handle_service_call_request. solve_told.
Qed.

End Methods.

(** ** Parameters *)

Definition params_ok (X : gset string) (subs : gmap ConnHandle (gset string)) : Prop :=
  ∀ n, n ∈ X ↔ ∃ h x, subs !! h = Some x ∧ n ∈ x.

(** Between the update and the call: the handler is told [Y] on top of [X]; the
    handler knows too much, but not outside [Y]. *)
Definition params_pending (Y X : gset string) (subs : gmap ConnHandle (gset string)) : Prop :=
  params_ok (X ∪ Y) subs.

Definition params_stale (Y X : gset string) (subs : gmap ConnHandle (gset string)) : Prop :=
  ∀ n, (n ∈ X → (∃ h x, subs !! h = Some x ∧ n ∈ x) ∨ n ∈ Y) ∧
       ((∃ h x, subs !! h = Some x ∧ n ∈ x) → n ∈ X).

Abbreviation about_params φ :=
  (told (λ (X : gset string) (_ : bool) subs (_ : Z), φ X subs)).

#[export] Instance about_params_graph_call {W} φ b :
  CallStable (about_params φ : St W → Prop) (CallSubscribeConnectionGraph b).
Proof. intros s. unfold told, told_params. simpl. by rewrite foldl_app. Qed.

Lemma params_in_sync_told {W} (s : St W) : params_in_sync s ↔ about_params params_ok s.
Proof. done. Qed.

Definition unsubscribed (subs : gmap ConnHandle (gset string)) (names : list string) :
    list string :=
  filter (λ n, param_subscribed subs n = false) names.

Lemma not_subscribed_run {W} names L (s : St W) :
  not_subscribed names L s = (Ret (unsubscribed (_client_param_subscriptions (srv s)) names), s).
Proof.
  unfold unsubscribed.
  induction names as [|n names IH]; [done|]. cbn [not_subscribed]. run.
  unfold is_parameter_subscribed. run. rewrite IH. run. rewrite filter_cons.
  by destruct (param_subscribed _ n).
Qed.

Lemma elem_of_unsubscribed subs names n :
  n ∈ unsubscribed subs names ↔ n ∈ names ∧ ¬ ∃ h x, subs !! h = Some x ∧ n ∈ x.
Proof.
  unfold unsubscribed. rewrite list_elem_of_filter, <-param_subscribed_spec.
  destruct (param_subscribed subs n); intuition congruence.
Qed.

Section Parameters.
Context {plat : Platform} {W : Type} (H : ServerHandlers W) `{!HandlersFrame H}.
Context (Hh : is_Some (parameter_subscription_handler H)).

Abbreviation sync := (about_params params_ok : St W → Prop).

Lemma tell_params_triple names op hdl (Y : gset string → gmap ConnHandle (gset string) → Prop) :
  (∀ X subs, Y X subs → params_ok (tell_params X (Call (CallParameterSubscription names op hdl)))
                          subs) →
  triple (about_params Y) (call H (CallParameterSubscription names op hdl)) (λ _, sync) sync.
Proof.
  intros HY. apply (triple_call H _ sync); [by destruct Hh as [f Hf]; simpl; rewrite Hf|].
  intros s Hs. unfold told, told_params in *. simpl. rewrite foldl_app. by apply HY.
Qed.

Lemma subscribe_params_sync payload hdl :
  preserves sync (handle_subscribe_parameter_updates H payload hdl).
Proof.
  unfold handle_subscribe_parameter_updates.
  apply preserves_bind; [solve_preserves|]. intros names.
  eapply triple_bind with (R := λ l, about_params (params_pending (list_to_set l))).
  - apply triple_with_lock. intros L s Hs. cbn [mbind M_mbind M_bind]. run.
    rewrite not_subscribed_run. run. unfold told, params_pending, params_ok in *. simpl.
    intros n. rewrite elem_of_union, elem_of_list_to_set, elem_of_unsubscribed, Hs,
      elem_of_elements.
    set (subs := _client_param_subscriptions (srv s)). split.
    + intros [(h & x & Hx & Hn)|[Hn _]].
      * destruct (decide (h = hdl)) as [->|Hne].
        -- exists hdl, (default ∅ (subs !! hdl) ∪ names). rewrite lookup_insert_eq, Hx. set_solver.
        -- exists h, x. by rewrite lookup_insert_ne.
      * exists hdl, (default ∅ (subs !! hdl) ∪ names). rewrite lookup_insert_eq. set_solver.
    + intros (h & x & Hx & Hn).
      assert (n ∈ names ∨ ∃ h x, subs !! h = Some x ∧ n ∈ x) as [Hin|?]; [| |by left].
      { destruct (decide (h = hdl)) as [->|Hne].
        - rewrite lookup_insert_eq in Hx. injection Hx as <-.
          apply elem_of_union in Hn as [Hn|Hn]; [right|by left].
          destruct (subs !! hdl) as [x|] eqn:E; simpl in Hn; [eauto|set_solver].
        - rewrite lookup_insert_ne in Hx by done. eauto. }
      destruct (param_subscribed subs n) eqn:E.
      * left. by apply param_subscribed_spec.
      * right. split; [done|]. rewrite <-param_subscribed_spec. by rewrite E.
  - intros l. destruct l as [|n l]; cbn [is_nil].
    + apply triple_ret. intros s. unfold told, params_pending. cbn [list_to_set]. by rewrite union_empty_r_L.
    + apply tell_params_triple. intros X subs. done.
Qed.

(** The handler is told about the names nobody is subscribed to any more. *)
Lemma unsubscribe_params_sync hdl names :
  triple (about_params (params_stale names))
    (unsubscribe_params_without_subscriptions H hdl names) (λ _, sync) sync.
Proof.
  unfold unsubscribe_params_without_subscriptions.
  eapply triple_bind with (R := λ l, about_params (λ X subs,
    params_stale names X subs ∧ l = unsubscribed subs (elements names))).
  { apply triple_with_lock. intros L s Hs. rewrite not_subscribed_run. by split. }
  intros l. rewrite bool_decide_eq_true_2 by done.
  assert (∀ X subs, params_stale names X subs ∧ l = unsubscribed subs (elements names) →
                    params_ok (X ∖ list_to_set l) subs) as Hok.
  { intros X subs [Hst ->] n. destruct (Hst n) as [H1 H2].
    rewrite elem_of_difference, elem_of_list_to_set, elem_of_unsubscribed, elem_of_elements.
    split; [|naive_solver]. intros [HX Hn].
    destruct (param_subscribed subs n) eqn:E; [by apply param_subscribed_spec|].
    destruct (H1 HX) as [?|?]; [done|]. destruct Hn. split; [done|].
    rewrite <-param_subscribed_spec. by rewrite E. }
  destruct l as [|n l]; cbn [is_nil negb andb].
  - apply triple_ret. intros s Hs. unfold told in *. specialize (Hok _ _ Hs).
    rewrite list_to_set_nil, difference_empty_L in Hok. done.
  - eapply triple_try_catch; [by apply tell_params_triple|]. intros e. unfold catch_std.
    solve_preserves.
Qed.

Lemma unsubscribe_updates_sync payload hdl :
  preserves sync (handle_unsubscribe_parameter_updates H payload hdl).
Proof.
  unfold handle_unsubscribe_parameter_updates.
  apply preserves_bind; [solve_preserves|]. intros names.
  eapply triple_bind with (R := λ _, about_params (params_stale names));
    [|intros []; apply unsubscribe_params_sync].
  apply triple_with_lock, triple_update. intros s Hs n. unfold told, params_ok in Hs. simpl.
  rewrite Hs. set (subs := _client_param_subscriptions (srv s)). split.
  - intros (h & x & Hx & Hn). destruct (decide (n ∈ names)); [by right|left].
    destruct (decide (h = hdl)) as [->|Hne].
    + exists hdl, (default ∅ (subs !! hdl) ∖ names). rewrite lookup_insert_eq, Hx. set_solver.
    + exists h, x. by rewrite lookup_insert_ne.
  - intros (h & x & Hx & Hn). destruct (decide (h = hdl)) as [->|Hne].
    + rewrite lookup_insert_eq in Hx. injection Hx as <-. apply elem_of_difference in Hn as [Hn _].
      destruct (subs !! hdl) as [x|] eqn:E; simpl in Hn; [eauto|set_solver].
    + rewrite lookup_insert_ne in Hx by done. eauto.
Qed.

Lemma graph_requests_params_sync hdl :
  preserves sync (handle_subscribe_connection_graph H hdl) ∧
  preserves sync (handle_unsubscribe_connection_graph H hdl).
Proof.
  split; unfold handle_subscribe_connection_graph, handle_unsubscribe_connection_graph;
    solve_preserves; by apply preserves_update.
Qed.

Lemma closed_params_sync hdl : preserves sync (handle_connection_closed H hdl).
Proof.
  unfold handle_connection_closed.
  apply preserves_bind; [solve_told|]. intros [c|]; [|apply preserves_ret].
  apply preserves_bind; [unfold ignore_exception; solve_told|]. intros [].
  apply preserves_bind; [solve_told|]. intros [].
  apply preserves_bind; [unfold ignore_exception; solve_told|]. intros [].
  eapply triple_bind with (R := λ names, about_params (params_stale names)).
  - apply triple_with_lock. intros L s Hs. run. intros n. unfold told, params_ok in Hs. simpl.
    rewrite Hs. set (subs := _client_param_subscriptions (srv s)). split.
    + intros (h & x & Hx & Hn). destruct (decide (h = hdl)) as [->|Hne].
      * right. fold subs. by rewrite Hx.
      * left. exists h, x. by rewrite lookup_delete_ne.
    + intros (h & x & [_ Hx]%lookup_delete_Some & Hn). eauto.
  - intros names. eapply triple_bind; [apply unsubscribe_params_sync|]. intros [].
    unfold ignore_exception. solve_preserves. by apply preserves_update.
Qed.

Lemma handle_message_params_sync parse now hdl op payload :
  preserves sync (handle_message H parse now hdl op payload).
Proof.
  pose proof (graph_requests_params_sync hdl) as [Hg1 Hg2].
  assert (∀ o j, preserves sync (run_op H o j hdl)) as Hop.
  { intros o j. destruct (tells o) eqn:Ho; [|by apply run_op_told].
    destruct o; try done; cbn [run_op]; [apply subscribe_params_sync|apply unsubscribe_updates_sync]. }
  pose proof (handle_binary_message_told H (λ X _ subs _, params_ok X subs) now hdl payload).
  pose proof (λ op', has_handler_preserves H sync op').
  unfold handle_message, handle_text_message, handle_text_payload, catch_std, report_op_failure.
  solve_preserves.
Qed.

End Parameters.

(** ** Connection graph *)

Abbreviation about_graph φ :=
  (told (λ (_ : gset string) (b : bool) (_ : gmap ConnHandle (gset string)) c, φ b c)).

#[export] Instance about_graph_params_call {W} φ names op hdl :
  CallStable (about_graph φ : St W → Prop) (CallParameterSubscription names op hdl).
Proof. intros s. unfold told, told_graph. simpl. by rewrite foldl_app. Qed.

Definition graph_ok (b : bool) (c : Z) : Prop := b = bool_decide (0 < c).

(** The flag of a client that is about to be uncounted. *)
Definition graph_counted (f : bool) (b : bool) (c : Z) : Prop :=
  graph_ok b c ∧ (f = true → 1 ≤ c).

Lemma graph_ok_succ b c : graph_ok b c → 0 ≤ c → c + 1 ≠ 1 → graph_ok b (c + 1).
Proof. unfold graph_ok. intros -> ? ?. by rewrite !bool_decide_eq_true_2 by lia. Qed.
Lemma graph_ok_pred b c : graph_ok b c → 1 ≤ c → c - 1 ≠ 0 → graph_ok b (c - 1).
Proof. unfold graph_ok. intros -> ? ?. by rewrite !bool_decide_eq_true_2 by lia. Qed.

Lemma flagged_count sv hdl c :
  server_inv sv → _clients sv !! hdl = Some c → subscribed_to_connection_graph c = true →
  1 ≤ subscription_count (_connection_graph sv).
Proof.
  intros Hinv Hc Hf. pose proof (inv_graph _ Hinv) as Hg.
  rewrite (flagged_delete _ _ _ Hc), Hf in Hg. simpl in Hg. lia.
Qed.

(** What follows keeps any statement about what was told. *)
Lemma preserves_bind_told {W A B} P ψ (m : M W A) (k : A → M W B) :
  triple P m (λ _, told ψ) (told ψ) → (∀ a, preserves (told ψ) (k a)) →
  triple P (m ≫= k) (λ _, told ψ) (told ψ).
Proof. intros Hm Hk. eapply triple_bind; [exact Hm|]. intros a. apply Hk. Qed.

Section Graph.
Context {plat : Platform} {W : Type} (H : ServerHandlers W) `{!HandlersFrame H}.
Context (Hh : is_Some (subscribe_connection_graph_handler H)).

Abbreviation sync := (about_graph graph_ok : St W → Prop).

Lemma tell_graph_triple b (φ : bool → Z → Prop) :
  (∀ b' c, φ b' c → graph_ok b c) →
  triple (about_graph φ) (call H (CallSubscribeConnectionGraph b)) (λ _, sync) sync.
Proof.
  intros Hφ. apply (triple_call H _ sync); [by destruct Hh as [f Hf]; simpl; rewrite Hf|].
  intros s Hs. unfold told, told_graph in *. simpl. rewrite foldl_app. by eapply Hφ.
Qed.

Lemma subscribe_graph_sync hdl :
  triple (λ s, inv s ∧ sync s) (handle_subscribe_connection_graph H hdl) (λ _, sync) sync.
Proof.
  unfold handle_subscribe_connection_graph.
  eapply triple_bind with (R := λ b : bool,
    about_graph (λ t c, if b then c = 1 else graph_ok t c)).
  - apply triple_with_lock. intros L s [Hinv Hs]. run. case_decide; [done|]. run.
    pose proof (inv_graph _ Hinv). unfold told in *. simpl.
    case_bool_decide; [done|]. apply graph_ok_succ; [done|lia|done].
  - intros b. apply preserves_bind_told; [|intros; solve_preserves]. destruct b.
    + eapply triple_bind; [apply tell_graph_triple; by intros _ c ->|]. intros []. solve_preserves.
    + by apply triple_ret.
Qed.

(** Counting a client out; the last one is reported. *)
Lemma uncount_sync :
  triple (about_graph (graph_counted true) : St W → Prop)
    (with_lock connection_graph_mutex
       (update (λ s, let g := _connection_graph s in
                     set_connection_graph s
                       (set_subscription_count (subscription_count g - 1) g));;
        g ← get _connection_graph;
        mret (bool_decide (subscription_count g = 0))))
    (λ b : bool, about_graph (λ t c, if b then c = 0 else graph_ok t c)) sync.
Proof.
  apply triple_with_lock. intros L s [Hs Hc]. run. unfold told in *. simpl in *.
  specialize (Hc eq_refl). case_bool_decide; [done|]. by apply graph_ok_pred.
Qed.

Lemma unsubscribe_graph_sync hdl :
  triple (λ s, inv s ∧ sync s) (handle_unsubscribe_connection_graph H hdl) (λ _, sync) sync.
Proof.
  unfold handle_unsubscribe_connection_graph.
  eapply triple_bind with (R := λ b, about_graph (graph_counted b)).
  - apply triple_with_lock. eapply triple_bind.
    { apply triple_clients_at. by intros s []. }
    intros c. intros L s [[Hinv Hs] Hc].
    destruct (subscribed_to_connection_graph c) eqn:Hf; run; [|by split].
    split; [done|]. intros _. exact (flagged_count _ _ _ Hinv Hc Hf).
  - intros [].
    + eapply triple_bind; [apply uncount_sync|]. intros b.
      destruct b; [apply tell_graph_triple; by intros _ c ->|by apply triple_ret].
    + eapply triple_pre; [apply preserves_send_status, _|]. by intros s [].
Qed.

Lemma closed_graph_sync hdl :
  triple (λ s, inv s ∧ sync s) (handle_connection_closed H hdl) (λ _, sync) sync.
Proof.
  unfold handle_connection_closed.
  eapply triple_bind with (R := λ oc,
    about_graph (graph_counted (from_option subscribed_to_connection_graph false oc))).
  { apply triple_with_lock. intros L s [Hinv Hs]. run.
    destruct (_clients (srv s) !! hdl) as [c|] eqn:Hc; run; [|by split].
    split; [done|]. intros Hf. exact (flagged_count _ _ _ Hinv Hc Hf). }
  intros [c|]; simpl; [|apply triple_ret; by intros s []].
  set (f := subscribed_to_connection_graph c).
  assert (∀ A (m : M W A), preserves (about_graph (graph_counted f)) m →
    triple (about_graph (graph_counted f)) m (λ _, about_graph (graph_counted f)) sync) as Hweak.
  { intros A m Hm. eapply triple_conseq; [exact Hm|done..|]. by intros s []. }
  eapply triple_bind; [apply Hweak; unfold ignore_exception; solve_told|]. intros [].
  eapply triple_bind; [apply Hweak; solve_told|]. intros [].
  eapply triple_bind; [apply Hweak; unfold ignore_exception; solve_told|]. intros [].
  eapply triple_bind; [apply Hweak; solve_preserves; by apply preserves_update|]. intros names.
  eapply triple_bind; [apply Hweak, unsubscribe_params_preserves; apply _|]. intros [].
  destruct f; [|apply triple_ret; by intros s []].
  apply triple_with_lock. rewrite (bool_decide_eq_true_2 (is_Some _)) by done.
  eapply triple_bind with (R := λ _, about_graph (λ t c, c = 0 ∨ graph_ok t c ∧ c ≠ 0)).
  { apply triple_update. intros s [Hs Hc]. unfold told in *. simpl in *. specialize (Hc eq_refl).
    destruct (decide (subscription_count (_connection_graph (srv s)) - 1 = 0)); [by left|right].
    split; [by apply graph_ok_pred|done]. }
  intros []. eapply triple_bind; [apply triple_get|]. intros g.
  case_bool_decide as Hg; simpl.
  - eapply triple_try_catch with (E' := sync); [|intros; by apply triple_ret].
    eapply triple_pre; [apply (tell_graph_triple false (λ _ c, c = 0)); by intros _ c' ->|].
    intros s [_ ->]. done.
  - apply triple_ret. intros s [[?|[? _]] ->]; done.
Qed.

Lemma param_requests_graph_sync payload hdl :
  preserves sync (handle_subscribe_parameter_updates H payload hdl) ∧
  preserves sync (handle_unsubscribe_parameter_updates H payload hdl).
Proof.
  split; unfold handle_subscribe_parameter_updates, handle_unsubscribe_parameter_updates;
    solve_preserves; try by apply preserves_update.
  apply unsubscribe_params_preserves; apply _.
Qed.

(** Both invariants together, through the dispatcher. *)
Lemma preserves_inv_sync {A} (m : M W A) :
  preserves inv m → triple (λ s, inv s ∧ sync s) m (λ _, sync) sync →
  preserves (λ s, inv s ∧ sync s) m.
Proof.
  intros Hi Hs L s [Hinv Hsync]. specialize (Hi L s Hinv). specialize (Hs L s (conj Hinv Hsync)).
  destruct (m L s) as [[] ?]; done.
Qed.

Lemma preserves_sync_inv {A} (m : M W A) :
  preserves inv m → preserves sync m → preserves (λ s, inv s ∧ sync s) m.
Proof.
  intros Hi Hs. apply preserves_inv_sync; [done|]. eapply triple_pre; [exact Hs|]. by intros s [].
Qed.

#[local] Instance inv_sync_stable : SendStable (λ s, inv s ∧ sync s).
Proof. intros s hdl m r [Hi Hs]. split; by apply send_stable. Qed.

Lemma handle_message_graph_sync parse now hdl op payload :
  preserves (λ s, inv s ∧ sync s) (handle_message H parse now hdl op payload).
Proof.
  assert (∀ o j, preserves (λ s, inv s ∧ sync s) (run_op H o j hdl)) as Hop.
  { intros o j. destruct (tells o) eqn:Ho.
    - apply preserves_inv_sync; [by apply run_op_preserves|].
      destruct o; try done; cbn [run_op];
        [| |apply subscribe_graph_sync|apply unsubscribe_graph_sync];
        (eapply triple_pre; [apply param_requests_graph_sync|by intros s []]).
    - apply preserves_sync_inv; [by apply run_op_preserves|by apply run_op_told]. }
  assert (preserves (λ s, inv s ∧ sync s) (handle_binary_message H now hdl payload)) as Hbin.
  { apply preserves_sync_inv; [|apply handle_binary_message_told; apply _].
    unfold handle_binary_message, handle_message_data, handle_service_call_request.
    solve_preserves. }
  pose proof (λ op', has_handler_preserves H (λ s, inv s ∧ sync s) op').
  unfold handle_message, handle_text_message, handle_text_payload, catch_std, report_op_failure.
  solve_preserves.
Qed.

End Graph.
