(* ===== verification/ServerSystem.v ===== *)
(** * The server as a state machine

    The entry points of [Server]: the callbacks websocketpp runs and the methods
    the bridge calls. A run of the server is a sequence of them, each executed to
    its end; between them connections appear and disappear and the state of the
    handlers changes. *)

From Stdlib Require Import ZArith Lia.
From S2P Require Import Prelude Wire Json Serialization ServerState ServerMethods ServerLogic.
From S2P Require Import ServerInv ServerSync.

Local Open Scope Z_scope.

Inductive input :=
| Opened (hdl : ConnHandle)
| Closed (hdl : ConnHandle)
| Message (now : Z) (hdl : ConnHandle) (op : OpCode) (payload : list byte)
| AddChannels (channels : list ChannelWithoutId)
| RemoveChannels (channel_ids : list Z)
| PublishParameterValues (hdl : ConnHandle) (ps : list ParameterT) (request_id : option string)
| UpdateParameterValues (ps : list ParameterT)
| AddServices (services : list ServiceWithoutId)
| RemoveServices (service_ids : list Z)
| SendMessage (hdl : ConnHandle) (chan_id timestamp : Z) (payload : list byte)
| BroadcastTime (timestamp : Z)
| SendServiceResponse (hdl : ConnHandle) (response : ServiceResponse)
| UpdateConnectionGraph (published subscribed services : MapOfSets)
| SendFetchAssetResponse (hdl : ConnHandle) (response : FetchAssetResponse).

Section System.
Context {plat : Platform} {W : Type} (H : ServerHandlers W) (parse : list byte → outcome json).

Definition entry (i : input) : M W unit :=
  match i with
  | Opened hdl =>
      b ← validate_connection hdl;
      if b : bool then handle_connection_opened hdl else mret tt
  | Closed hdl => handle_connection_closed H hdl
  | Message now hdl op payload => handle_message H parse now hdl op payload
  | AddChannels channels => add_channels channels;; mret tt
  | RemoveChannels ids => remove_channels ids
  | PublishParameterValues hdl ps i => publish_parameter_values hdl ps i
  | UpdateParameterValues ps => update_parameter_values ps
  | AddServices services => add_services services;; mret tt
  | RemoveServices ids => remove_services ids
  | SendMessage hdl ch t payload => send_message hdl ch t payload
  | BroadcastTime t => broadcast_time t
  | SendServiceResponse hdl r => send_service_response hdl r
  | UpdateConnectionGraph p q r => update_connection_graph p q r
  | SendFetchAssetResponse hdl r => send_fetch_asset_response hdl r
  end.

Inductive step : St W → St W → Prop :=
| step_entry i s : (entry i [] s).1 ≠ Undefined → step s (entry i [] s).2
| step_net n s : step s (mkSt (srv s) n (trace s) (world s))
| step_world w s : step s (mkSt (srv s) (net s) (trace s) w).

Inductive reachable : St W → Prop :=
| reachable_init name options n w : reachable (mkSt (new_Server name options) n [] w)
| reachable_step s s' : reachable s → step s s' → reachable s'.

(** Rule induction, for invariants of the members and the calls. *)
Lemma reachable_invariant (P : St W → Prop) :
  (∀ name options n w, P (mkSt (new_Server name options) n [] w)) →
  (∀ s n w, P s → P (mkSt (srv s) n (trace s) w)) →
  (∀ i, preserves P (entry i)) →
  ∀ s, reachable s → P s.
Proof.
  intros Hinit Henv Hentry s Hr. induction Hr as [|s s' _ IH Hstep]; [apply Hinit|].
  destruct Hstep; [|by apply Henv..]. by apply (proj1 (preserves_state _ _) (Hentry i) [] s IH).
Qed.

Context `{!HandlersFrame H}.

Lemma entry_preserves_inv i : preserves inv (entry i).
Proof.
  pose proof (add_channels_preserves (W:=W)). pose proof (add_services_preserves (W:=W)).
  pose proof (validate_connection_preserves (W:=W)).
  pose proof (handle_connection_opened_preserves (W:=W)).
  destruct i; cbn [entry]; auto using handle_connection_closed_preserves,
    handle_message_preserves, remove_channels_preserves, remove_services_preserves,
    update_connection_graph_preserves; solve_preserves.
Qed.

Lemma entry_told ψ i :
  preserves (told ψ) (entry i) ∨ (∃ hdl, i = Closed hdl) ∨ (∃ now hdl op p, i = Message now hdl op p).
Proof.
  destruct i; eauto 8; left; cbn [entry]; solve_preserves;
    auto using validate_connection_told, handle_connection_opened_told, add_channels_told,
      add_services_told, remove_channels_told, remove_services_told, update_connection_graph_told.
Qed.

Lemma reachable_server_inv s : reachable s → inv s.
Proof.
  apply reachable_invariant; [intros; apply new_Server_inv|done|apply entry_preserves_inv].
Qed.

(** *** Properties *)

(** C7. In every state the server reaches by entry points that run one after the other,
    each to its end before the next begins, whatever clients and the bridge do in them:
    one client at most is logged in, subscriptions point to existing channels, the two
    records of client advertisements agree, and no subscriber to the connection graph is
    uncounted.  (With the critical sections of a subscription and of a removal of channels
    interleaved, a subscription to a removed channel can be left, see [Races].) *)
Theorem reachable_invariants (s : St W) : reachable s → server_inv (srv s).
Proof. apply reachable_server_inv. Qed.

(** C8. The parameter handler is subscribed to exactly the parameters some client is
    subscribed to: its calls amount to the union of the clients' sets. *)
Theorem parameter_subscriptions_refine (s : St W) :
  is_Some (parameter_subscription_handler H) → reachable s → params_in_sync s.
Proof.
  intros Hh. apply reachable_invariant; [|done|].
  - intros name options n w p. simpl. unfold subscribed_param, told_params. simpl.
    split; [set_solver|]. by intros (h & x & Hx & _).
  - intros i. destruct (entry_told (λ X _ subs _, params_ok X subs) i)
      as [Hi|[[hdl ->]|(now & hdl & op & p & ->)]]; [exact Hi|by apply closed_params_sync|].
    by apply handle_message_params_sync.
Qed.

(** The connection-graph handler was told to be active exactly while somebody is
    counted as a subscriber. *)
Theorem graph_subscription_refines (s : St W) :
  is_Some (subscribe_connection_graph_handler H) → reachable s → graph_in_sync s.
Proof.
  intros Hh Hr. apply (reachable_invariant (λ s, inv s ∧ graph_in_sync s)); [..|done].
  - intros. split; [apply new_Server_inv|done].
  - done.
  - intros i. destruct (entry_told (λ _ b _ c, graph_ok b c) i)
      as [Hi|[[hdl ->]|(now & hdl & op & p & ->)]].
    + apply preserves_sync_inv; [apply entry_preserves_inv|exact Hi].
    + apply preserves_inv_sync; [by apply handle_connection_closed_preserves|].
      by apply closed_graph_sync.
    + by apply handle_message_graph_sync.
Qed.

End System.

(** ** A concrete instance

    Handlers that answer: parameter requests are answered with a value, and
    subscribing to the connection graph reports it. *)

Section Runs.
Context {plat : Platform} {W : Type} (H : ServerHandlers W) (parse : list byte → outcome json).

(** Run a list of inputs; [None] when one of them has undefined behaviour. *)
Fixpoint run_inputs (l : list input) (s : St W) : option (St W) :=
  match l with
  | [] => Some s
  | i :: l =>
      match entry H parse i [] s with
      | (Undefined, _) => None
      | (_, s') => run_inputs l s'
      end
  end.

Lemma run_inputs_reachable l s s' :
  reachable H parse s → run_inputs l s = Some s' → reachable H parse s'.
Proof.
  revert s. induction l as [|i l IH]; simpl; intros s Hr Hrun; [by simplify_eq|].
  destruct (entry H parse i [] s) as [[u|e|] s1] eqn:E; [| |done];
    apply (IH s1); try done;
    (eapply reachable_step; [exact Hr|]);
    (replace s1 with (entry H parse i [] s).2 by (by rewrite E));
    apply step_entry; by rewrite E.
Qed.

End Runs.

(** A handler made of public methods that only send keeps the contract. *)
Lemma frame_of_preserves {W} (m : M W unit) :
  (∀ P : St W → Prop, SendStable P → preserves P m) →
  ∀ L s, (m L s).1 ≠ Undefined → handler_frame s (m L s).2.
Proof.
  intros Hm L s Hu.
  assert (SendStable (handler_frame s)).
  { intros s1 hdl msg r (Hn & (p & q & g & Hs) & sends & Ht & Hsd). split_and!; [done|eauto|].
    simpl. rewrite Ht, <-app_assoc. exists (sends ++ [Send hdl msg r]). split; [done|].
    by apply Forall_app_2; [|repeat constructor]. }
  apply (proj1 (preserves_state _ _) (Hm (handler_frame s) _)); [apply handler_frame_refl|done].
Qed.

Definition demo_options : ServerOptions :=
  {| capabilities := [CAPABILITY_CLIENT_PUBLISH; CAPABILITY_PARAMETERS;
                      CAPABILITY_PARAMETERS_SUBSCRIBE; CAPABILITY_CONNECTION_GRAPH;
                      CAPABILITY_SERVICES];
     supported_encodings := ["ros1"]; metadata := ∅; send_buffer_limit_bytes := 10000000;
     use_tls := false; cert_file := EmptyString; key_file := EmptyString; session_id := "1";
     use_compression := false; client_topic_whitelist_patterns := [λ _, true];
     mac_addr := "00:11"; ip_addrs := ["10.0.0.1"] |}.

(** The world counts the messages that clients published. *)
Definition demo_handlers : ServerHandlers nat := {|
  subscribe_handler := Some (λ _ _, mret tt);
  unsubscribe_handler := Some (λ _ _, mret tt);
  client_advertise_handler := Some (λ adv _,
    if decide (adv_topic adv = "/forbidden")
    then throw (ClientChannelError (adv_channel_id adv) "not allowed") else mret tt);
  client_unadvertise_handler := Some (λ _ _, mret tt);
  client_message_handler := Some (λ _ _ _ s,
    (Ret tt, mkSt (srv s) (net s) (trace s) (S (world s))));
  parameter_request_handler := Some (λ names id hdl L s,
    (* answers unless the server holds a lock it needs *)
    match publish_parameter_values hdl
            ((λ n, {| param_name := n; param_value := PInt 1 |}) <$> names) id L s with
    | (Undefined, _) => (Ret tt, s)
    | r => r
    end);
  parameter_change_handler := Some (λ _ _ _, mret tt);
  parameter_subscription_handler := Some (λ _ _ _, mret tt);
  service_request_handler := Some (λ r _, throw (ServiceError (service_id r) "no provider"));
  subscribe_connection_graph_handler := Some (λ b L s,
    if b : bool
    then (Ret tt, mkSt (set_connection_graph (srv s)
            (set_graph_maps {["/chatter" := {["/talker"]}]} {["/chatter" := ∅]} ∅
               (_connection_graph (srv s)))) (net s) (trace s) (world s))
    else (Ret tt, s));
  fetch_asset_handler := None
|}.

#[export] Instance demo_handlers_frame : HandlersFrame demo_handlers.
Proof.
  intros c body L s Hb. destruct c; simpl in Hb; try discriminate; injection Hb as <-;
    try apply handler_frame_refl.
  - case_decide; apply handler_frame_refl.
  - pose proof (handler_frame_refl s) as (_ & Hs & _).
    split_and!; [done|exact Hs|by exists []; rewrite app_nil_r].
  - set (m := publish_parameter_values _ _ _).
    pose proof (frame_of_preserves m) as Hf.
    specialize (Hf (λ P HP, preserves_publish_parameter_values P hdl _ request_id) L s).
    destruct (m L s) as [[] ?]; [by apply Hf..|apply handler_frame_refl].
  - destruct subscribe; [|apply handler_frame_refl].
    split_and!; [done|simpl; eauto|by exists []; rewrite app_nil_r].
Qed.

(** A session of two clients. *)
Definition login_request (name : string) : json :=
  json_object [("op", JStr "login"); ("username", JStr name); ("userId", JStr name)].

Definition demo_requests : list json :=
  [login_request "alice";
   json_object [("op", JStr "subscribe");
                ("subscriptions", JArr [json_object [("id", JUnsigned 7); ("channelId", JUnsigned 1)];
                                        json_object [("id", JUnsigned 8); ("channelId", JUnsigned 5)]])];
   json_object [("op", JStr "advertise");
                ("channels", JArr [json_object [("id", JUnsigned 3); ("topic", JStr "/cmd");
                                                ("encoding", JStr "json");
                                                ("schemaName", JStr "std_msgs/String")]])];
   json_object [("op", JStr "subscribeParameterUpdates");
                ("parameterNames", json_strings ["/a"; "/b"])];
   json_object [("op", JStr "subscribeConnectionGraph")];
   json_object [("op", JStr "getParameters"); ("parameterNames", json_strings ["/a"])];
   login_request "bob";
   json_object [("op", JStr "unsubscribeParameterUpdates");
                ("parameterNames", json_strings ["/a"])]].

(** A payload is the number of a request. *)
Definition demo_parse (bs : list byte) : outcome json :=
  match bs with
  | [b] => match demo_requests !! Z.to_nat (byte_to_Z b) with
           | Some j => Ret j
           | None => Throw (StdException "parse error")
           end
  | _ => Throw (StdException "parse error")
  end.

Definition demo_request (hdl : ConnHandle) (n : Z) : input := Message 0 hdl TEXT [byte_of_Z n].

Definition demo_channel : ChannelWithoutId :=
  {| topic := "/chatter"; encoding := "ros1"; schema_name := "std_msgs/String";
     schema := "string data"; schema_encoding := None |}.

Definition demo_inputs : list input :=
  [Opened 1; demo_request 1 0; AddChannels [demo_channel]; demo_request 1 1; demo_request 1 2;
   demo_request 1 3; demo_request 1 4; demo_request 1 5; Opened 2; demo_request 2 6;
   demo_request 1 7; Closed 2].

Definition demo_connection (endpoint : string) : Connection :=
  {| remote_endpoint := endpoint; requested_subprotocols := [SUPPORTED_SUB_PROTOCOL];
     selected_subprotocol := None |}.

Definition demo_init : St nat :=
  mkSt (new_Server "demo" demo_options)
    (<[1%nat := demo_connection "10.0.0.5:4000"]>
       (<[2%nat := demo_connection "10.0.0.6:4001"]> ∅)) [] 0%nat.

Definition demo_state : St nat :=
  default demo_init (run_inputs (plat:=x86_64) demo_handlers demo_parse demo_inputs demo_init).

Lemma demo_reachable : reachable (plat:=x86_64) demo_handlers demo_parse demo_state.
Proof.
  apply (run_inputs_reachable demo_handlers demo_parse demo_inputs demo_init).
  - apply reachable_init.
  - vm_compute. reflexivity.
Qed.

Lemma reachable_invariants_witness :
  reachable (plat:=x86_64) demo_handlers demo_parse demo_state ∧ server_inv (srv demo_state).
Proof.
  split; [apply demo_reachable|].
  apply (reachable_invariants (plat:=x86_64) demo_handlers demo_parse), demo_reachable.
Defined.

Lemma parameter_subscriptions_refine_witness :
  params_in_sync demo_state ∧ told_params (trace demo_state) = {["/b"]}.
Proof.
  split; [|vm_compute; reflexivity].
  apply (parameter_subscriptions_refine (plat:=x86_64) demo_handlers demo_parse);
    [by eexists|apply demo_reachable].
Defined.

Lemma graph_subscription_refines_witness :
  graph_in_sync demo_state ∧ told_graph (trace demo_state) = true.
Proof.
  split; [|vm_compute; reflexivity].
  apply (graph_subscription_refines (plat:=x86_64) demo_handlers demo_parse);
    [by eexists|apply demo_reachable].
Defined.
