(* ===== verification/ServerSpecs.v ===== *)
(** * What the server's methods do

    Functional specifications of the methods of [ServerMethods]: the value they
    return, the members they change, the messages they send and the handlers they
    call, on every branch. *)

From Stdlib Require Import ZArith Lia.
From S2P Require Import Prelude Wire Json Serialization ServerState ServerMethods ServerLogic.
From S2P Require Import ServerInv ServerSync ServerSystem.

Local Open Scope Z_scope.

(** ** Running the senders *)

(** What becomes of a message: nothing if the connection is gone. *)
Definition delivered (n : gmap ConnHandle Connection) (hdl : ConnHandle) (m : message)
    (reliable : bool) : list event :=
  match n !! hdl with Some _ => [Send hdl m reliable] | None => [] end.

(** JSON whose text is not UTF-8 is not sent; the exception is only logged. *)
Definition delivered_json (n : gmap ConnHandle Connection) (hdl : ConnHandle) (j : json)
    (reliable : bool) : list event :=
  if dumps j then delivered n hdl (Text j) reliable else [].

Lemma delivered_json_ok n hdl j r :
  dumps j = true → delivered_json n hdl j r = delivered n hdl (Text j) r.
Proof. unfold delivered_json. by intros ->. Qed.

Definition add_trace {W} (es : list event) (s : St W) : St W :=
  mkSt (srv s) (net s) (trace s ++ es) (world s).

Definition set_srv {W} (sv : Server) (s : St W) : St W :=
  mkSt sv (net s) (trace s) (world s).

Lemma add_trace_nil {W} (s : St W) : add_trace [] s = s.
Proof. destruct s. unfold add_trace. simpl. by rewrite app_nil_r. Qed.

Lemma add_trace_app {W} es1 es2 (s : St W) :
  add_trace es2 (add_trace es1 s) = add_trace (es1 ++ es2) s.
Proof. unfold add_trace. simpl. by rewrite app_assoc. Qed.

Section Running.
Context {W : Type}.
Implicit Types (L : list mutex) (s : St W).

Lemma send_json_run hdl j r L s :
  send_json hdl j r L s = (Ret tt, add_trace (delivered_json (net s) hdl j r) s).
Proof.
  unfold send_json, try_catch, get_con_from_hdl, delivered_json, delivered, dump. run.
  destruct (net s !! hdl), (dumps j); run; try done; by rewrite add_trace_nil.
Qed.

Lemma send_raw_json_run hdl j r L s :
  send_raw_json hdl j r L s = (Ret tt, add_trace (delivered (net s) hdl (Text j) r) s).
Proof.
  unfold send_raw_json, try_catch, get_con_from_hdl, delivered. run.
  destruct (net s !! hdl); [done|]. by rewrite add_trace_nil.
Qed.

Lemma send_binary_run hdl bs r L s :
  send_binary hdl bs r L s = (Ret tt, add_trace (delivered (net s) hdl (Binary bs) r) s).
Proof.
  unfold send_binary, try_catch, get_con_from_hdl, delivered. run.
  destruct (net s !! hdl); [done|]. by rewrite add_trace_nil.
Qed.

Lemma send_status_run hdl l m L s :
  send_status_and_log_msg hdl l m L s =
  (Ret tt, add_trace (delivered_json (net s) hdl (status_json l m) true) s).
Proof. apply send_json_run. Qed.

Lemma status_dumps l m : dumps (status_json l m) = valid_utf8 m.
Proof.
  change (status_json l m) with (JObj [("level", JUnsigned (StatusLevel_value l));
                                       ("message", JStr m); ("op", JStr "status")]).
  cbn [dumps forallb fst snd]. change (valid_utf8 "level") with true.
  change (valid_utf8 "message") with true. change (valid_utf8 "op") with true.
  change (valid_utf8 "status") with true. cbn. by rewrite andb_true_r.
Qed.

(** A loop that only sends. *)
Lemma for_each_send_run {A} (l : list A) (body : A → M W unit) (f : A → list event) L s :
  (∀ x s', net s' = net s → body x L s' = (Ret tt, add_trace (f x) s')) →
  for_each l body L s = (Ret tt, add_trace (l ≫= f) s).
Proof.
  revert s. induction l as [|x l IH]; intros s Hb; cbn [for_each].
  - by rewrite add_trace_nil.
  - run. rewrite Hb by done. run. rewrite IH; [by rewrite add_trace_app|].
    intros y s' Hn. by apply Hb.
Qed.

Lemma broadcast_run j L s :
  broadcast j L s =
  (Ret tt, add_trace (map_to_list (_clients (srv s)) ≫=
                        λ c, delivered (net s) c.1 (Text j) true) s).
Proof.
  unfold broadcast. run. apply for_each_send_run. intros c s' <-. apply send_raw_json_run.
Qed.

(** ** Publishing a message *)

Lemma send_message_run `{Platform} (hdl : ConnHandle) (chan_id timestamp : Z)
    (payload : list byte) (s : St W) :
  send_message hdl chan_id timestamp payload [] s =
  (Ret tt,
   add_trace
     (match net s !! hdl, _clients (srv s) !! hdl ≫= λ c, subscriptions_by_channel c !! chan_id with
      | Some _, Some sub_id =>
          [Send hdl (Binary (x01 :: le_bytes 4 sub_id ++ le_bytes 8 timestamp ++ payload)) false]
      | _, _ => []
      end) s).
Proof.
  unfold send_message. run. destruct (net s !! hdl) as [con|]; [|by rewrite add_trace_nil].
  unfold with_lock. rewrite decide_False by set_solver. run.
  destruct (_clients (srv s) !! hdl) as [c|]; simpl; [|by rewrite add_trace_nil].
  destruct (subscriptions_by_channel c !! chan_id); [|by rewrite add_trace_nil].
  by rewrite message_data_frame_layout.
Qed.

(** A message goes to a client that is connected, logged in and subscribed to the
    channel: one frame, with the client's own subscription id; nothing is sent and
    nothing changes otherwise. *)
Theorem send_message_spec `{Platform} (hdl : ConnHandle) (chan_id timestamp : Z)
    (payload : list byte) (s : St W) :
  send_message hdl chan_id timestamp payload [] s =
  (Ret tt,
   add_trace
     (match net s !! hdl, _clients (srv s) !! hdl ≫= λ c, subscriptions_by_channel c !! chan_id with
      | Some _, Some sub_id =>
          [Send hdl (Binary (x01 :: le_bytes 4 sub_id ++ le_bytes 8 timestamp ++ payload)) false]
      | _, _ => []
      end) s).
Proof. apply send_message_run. Qed.

(** ** Adding channels *)

Fixpoint number_channels (n : Z) (cs : list ChannelWithoutId) : list Channel :=
  match cs with
  | [] => []
  | c :: cs => {| channel_id := n + 1; channel_base := c |} :: number_channels (n + 1) cs
  end.

Definition by_id (cs : list Channel) : gmap Z Channel :=
  list_to_map ((λ c, (channel_id c, c)) <$> cs).

Lemma number_channels_ids n cs id :
  id ∈ channel_id <$> number_channels n cs → n < id ≤ n + Z.of_nat (length cs).
Proof.
  revert n. induction cs as [|c cs IH]; intros n; simpl; [set_solver|].
  rewrite elem_of_cons. intros [->|?%IH]; lia.
Qed.

Lemma by_id_ids n cs id : is_Some (by_id (number_channels n cs) !! id) →
  n < id ≤ n + Z.of_nat (length cs).
Proof.
  intros [c Hc%elem_of_list_to_map_2]. apply number_channels_ids.
  apply list_elem_of_fmap in Hc as (c' & Hc & Hin). simplify_eq. by apply list_elem_of_fmap_2.
Qed.

(** The ids in use are at most the last one given out. *)
Definition ids_below_next (sv : Server) : Prop :=
  0 ≤ _next_channel_id sv ∧
  ∀ id, is_Some (_channels sv !! id) → id ≤ _next_channel_id sv.

Definition with_channels (sv : Server) (cs : list ChannelWithoutId) : Server :=
  set_channels (set_next_channel_id sv (_next_channel_id sv + Z.of_nat (length cs)))
    (by_id (number_channels (_next_channel_id sv) cs) ∪ _channels sv).

Lemma add_channels_loop_run cs L s :
  ids_below_next (srv s) → _next_channel_id (srv s) + Z.of_nat (length cs) < 2 ^ 32 →
  add_channels_loop cs L s =
  (Ret (number_channels (_next_channel_id (srv s)) cs), set_srv (with_channels (srv s) cs) s).
Proof.
  revert s. induction cs as [|c cs IH]; intros s [Hn Hids] Hb.
  - unfold with_channels. simpl. rewrite Z.add_0_r. unfold by_id. simpl. rewrite (left_id_L ∅ _).
    by destruct s as [[] ? ? ?].
  - cbn [add_channels_loop]. cbn [length] in Hb. run. set (n := _next_channel_id (srv s)) in *.
    cbn [_next_channel_id set_next_channel_id _channels].
    rewrite u32_small by (unfold is_u32; lia).
    destruct (_channels (srv s) !! (n + 1)) eqn:E; [exfalso; assert (n + 1 ≤ n); [eauto|lia]|].
    rewrite IH.
    + run. unfold with_channels, set_srv, set_channels, set_next_channel_id. simpl.
      do 3 f_equal; [lia|].
      change (by_id (?c :: ?l)) with (<[channel_id c := c]> (by_id l)). simpl.
      rewrite <-insert_union_l. symmetry. apply insert_union_r, eq_None_not_Some.
      intros ?%by_id_ids. lia.
    + split; simpl; [lia|]. intros id. destruct (decide (id = n + 1)) as [->|]; [lia|].
      rewrite lookup_insert_ne by done. intros ?%Hids. lia.
    + simpl. lia.
Qed.

Lemma with_channels_ids sv cs : ids_below_next sv → ids_below_next (with_channels sv cs).
Proof.
  intros [Hn Hids]. split; simpl; [lia|]. intros id Hid.
  destruct (by_id (number_channels (_next_channel_id sv) cs) !! id) as [c|] eqn:E.
  - assert (is_Some (by_id (number_channels (_next_channel_id sv) cs) !! id)) as ?%by_id_ids by done.
    lia.
  - rewrite lookup_union_r in Hid by done. specialize (Hids id Hid). lia.
Qed.

Lemma number_channels_base n cs : channel_base <$> number_channels n cs = cs.
Proof. revert n. induction cs as [|c cs IH]; intros n; [done|]. csimpl. by rewrite IH. Qed.

Lemma dump_numbered n cs :
  Forall (λ c, channel_text c = true) cs →
  dump (advertise_json (number_channels n cs)) = Ret (advertise_json (number_channels n cs)).
Proof.
  intros Hcs. apply dump_advertise. rewrite <-(number_channels_base n cs) in Hcs.
  by apply Forall_fmap in Hcs.
Qed.

(** Adding channels whose texts are UTF-8 gives them the next ids, none of which is in
    use, keeps every channel there was, and advertises the new ones to every connected
    client. *)
Theorem add_channels_spec (cs : list ChannelWithoutId) (s : St W) :
  cs ≠ [] → ids_below_next (srv s) → Forall (λ c, channel_text c = true) cs →
  _next_channel_id (srv s) + Z.of_nat (length cs) < 2 ^ 32 →
  let new := number_channels (_next_channel_id (srv s)) cs in
  add_channels cs [] s =
    (Ret (channel_id <$> new),
     add_trace (map_to_list (_clients (srv s)) ≫=
                  λ c, delivered (net s) c.1 (Text (advertise_json new)) true)
       (set_srv (with_channels (srv s) cs) s)) ∧
  ids_below_next (with_channels (srv s) cs) ∧
  (∀ id, id ∈ channel_id <$> new → _channels (srv s) !! id = None) ∧
  _channels (srv s) ⊆ _channels (with_channels (srv s) cs).
Proof.
  intros Hne Hids Htext Hb new. split_and!.
  - unfold add_channels. destruct cs as [|c cs]; [done|]. unfold mbind, M_mbind, M_bind.
    unfold with_lock at 1. rewrite decide_False by set_solver.
    rewrite add_channels_loop_run by done. unfold lift. rewrite dump_numbered by done.
    unfold with_lock. rewrite decide_False by set_solver. by rewrite broadcast_run.
  - by apply with_channels_ids.
  - intros id Hid%number_channels_ids. apply eq_None_not_Some.
    intros ?%(proj2 Hids). lia.
  - simpl. apply map_union_subseteq_r. apply map_disjoint_spec. intros id c1 c2 H1 H2.
    assert (is_Some (by_id new !! id)) as ?%by_id_ids by done.
    assert (id ≤ _next_channel_id (srv s)) by (apply (proj2 Hids); done). lia.
Qed.

(** Channels one of which has a text that is not UTF-8 are added, and the exception
    leaves [add_channels] before the bridge learns their ids. *)
Theorem add_channels_not_utf8 (cs : list ChannelWithoutId) (s : St W) :
  ids_below_next (srv s) → _next_channel_id (srv s) + Z.of_nat (length cs) < 2 ^ 32 →
  dumps (advertise_json (number_channels (_next_channel_id (srv s)) cs)) = false →
  add_channels cs [] s =
    (Throw (type_error "316" "invalid UTF-8 byte"), set_srv (with_channels (srv s) cs) s).
Proof.
  intros Hids Hb Hd. destruct cs as [|c cs]; [done|].
  unfold add_channels, mbind, M_mbind, M_bind, with_lock at 1. rewrite decide_False by set_solver.
  rewrite add_channels_loop_run by done. unfold lift, dump. by rewrite Hd.
Qed.

End Running.
