(* ===== verification/ServerDispatch.v ===== *)
(** * From a client's frame to the handler

    What the server does with an incoming message: the operation that runs, the
    capability that gates it, and the handler that gets the client's data. *)

From Stdlib Require Import ZArith Lia.
From S2P Require Import Prelude Wire Json Serialization ServerState ServerMethods ServerLogic.
From S2P Require Import ServerInv ServerSync ServerSystem ServerSpecs.

Local Open Scope Z_scope.

(** ** Dispatch *)

(** The twelve operation names hash to twelve different codes, so the [switch] runs
    the operation that was asked for. *)
Theorem dispatch_correct `{Platform} (o : client_op) :
  switch_op (string_hash (op_name o)) = Some o.
Proof. destruct H as [be []], o; vm_compute; reflexivity. Qed.

Section Text.
Context {plat : Platform} {W : Type} (H : ServerHandlers W).
Implicit Types (L : list mutex) (s : St W).

Definition not_supported (op cap : string) : string :=
  "Operation '" +:+ op +:+ "' not supported as server capability '" +:+ cap +:+ "' is missing".

(** What the client is told when an operation throws. *)
Definition op_failure (o : client_op) (e : exn) : string :=
  match exn_id e, what e with
  | Some id, Some w => w +:+ (" (op: " +:+ op_name o +:+ ", id: " +:+ to_string id +:+ ")")
  | None, Some w => w +:+ (" (op: " +:+ op_name o +:+ ")")
  | _, None => "Failed to execute handler" +:+ (" (op: " +:+ op_name o +:+ ")")
  end.

Lemma dispatch_op (o : client_op) (payload : json) (hdl : ConnHandle) (s : St W) :
  json_at payload "op" = Ret (JStr (op_name o)) →
  (∀ cap, obj_find (op_name o) CAPABILITY_BY_CLIENT_OPERATION = Some cap →
          cap ∈ capabilities (_options (srv s))) →
  has_handler H (string_hash (op_name o)) [] s = (Ret true, s) →
  handle_text_payload H hdl payload [] s =
  match run_op H o payload hdl [] s with
  | (Throw e, s') =>
      (Ret tt, add_trace (delivered_json (net s') hdl (status_json Error (op_failure o e)) true) s')
  | r => r
  end.
Proof.
  intros Hop Hcap Hhas. unfold handle_text_payload, missing_capability. rewrite Hop. run. cbn [get_string].
  assert (switch_op (string_hash (op_name o)) = Some o) as Hsw
    by (clear; destruct plat as [be []], o; vm_compute; reflexivity).
  destruct (obj_find (op_name o) CAPABILITY_BY_CLIENT_OPERATION) as [cap|] eqn:E;
    unfold has_capability; run; [rewrite bool_decide_eq_true_2 by auto; run|];
    rewrite Hhas; run; rewrite Hsw; unfold try_catch; run; cbn [negb];
    destruct (run_op H o payload hdl [] s) as [[u|e|] s']; try done;
    apply send_status_run.
Qed.

(** An operation that is allowed runs, under the [catch] blocks that report its
    exceptions to the client. *)
Theorem dispatch_runs (o : client_op) (payload : json) (hdl : ConnHandle) (s : St W) :
  json_at payload "op" = Ret (JStr (op_name o)) →
  (∀ cap, obj_find (op_name o) CAPABILITY_BY_CLIENT_OPERATION = Some cap →
          cap ∈ capabilities (_options (srv s))) →
  has_handler H (string_hash (op_name o)) [] s = (Ret true, s) →
  handle_text_payload H hdl payload [] s =
  match run_op H o payload hdl [] s with
  | (Throw e, s') =>
      (Ret tt, add_trace (delivered_json (net s') hdl (status_json Error (op_failure o e)) true) s')
  | r => r
  end.
Proof. apply dispatch_op. Qed.

End Text.

(** ** Client frames *)

Section Binary.
Context {plat : Platform} {W : Type} (H : ServerHandlers W).

Definition published_message (now : Z) (adv : ClientAdvertisement) (frame : list byte) :
    ClientMessage :=
  {| log_time := u64 now; publish_time := u64 now; sequence := 0; advertisement := adv;
     data_length := length frame; msg_data := frame |}.

Definition message_failure (e : exn) : string :=
  match e with ServiceError _ w => w | _ => "callService: Failed to execute handler" end.

Lemma new_ClientMessage_all t1 t2 sq adv (frame : list byte) :
  new_ClientMessage t1 t2 sq adv (length frame) frame =
  Ret {| log_time := t1; publish_time := t2; sequence := sq; advertisement := adv;
         data_length := length frame; msg_data := frame |}.
Proof.
  unfold new_ClientMessage. rewrite load_ret by lia. simpl_bind. by rewrite drop_0, take_ge.
Qed.

Lemma getData_published now adv cid (buffer : list byte) :
  Z.of_nat (length buffer) < 2 ^ 63 →
  getData (published_message now adv (x01 :: le_bytes 4 cid ++ buffer)) = Ret buffer.
Proof.
  intros Hlen. unfold getData, getLength. unfold published_message, MSG_PAYLOAD_OFFSET.
  cbn [msg_data].
  assert (length (x01 :: le_bytes 4 cid ++ buffer) = (5 + length buffer)%nat) as Hl
    by (by autorewrite with lens).
  rewrite Hl, u64_small by (unfold is_u64; lia).
  replace (Z.of_nat (5 + length buffer) - Z.of_nat 5) with (Z.of_nat (length buffer)) by lia.
  rewrite Nat2Z.id, load_ret by (rewrite Hl; lia).
  change (x01 :: le_bytes 4 cid ++ buffer) with ([x01] ++ le_bytes 4 cid ++ buffer).
  rewrite app_assoc, drop_app_length' by solve_length. by rewrite take_ge.
Qed.

Lemma native_channel_id cid (buffer : list byte) :
  big_endian = false → is_u32 cid →
  (bs ← load (x01 :: le_bytes 4 cid ++ buffer) 1 4; Ret (native_value bs)) = Ret cid.
Proof.
  intros Hbe Hcid.
  rewrite (load_middle [x01] (le_bytes 4 cid) buffer 1 4 eq_refl (eq_sym (length_le_bytes 4 cid))
             : load (x01 :: le_bytes 4 cid ++ buffer) 1 4 = _). simpl_bind.
  unfold native_value. rewrite Hbe, le_value_le_bytes. f_equal. by apply u32_small.
Qed.

Lemma binary_message_allowed op_byte rest now cap hdl L (s : St W) :
  CAPABILITY_BY_CLIENT_BINARY_OPERATION (byte_to_Z op_byte) = Some cap →
  cap ∈ capabilities (_options (srv s)) →
  handle_binary_message H now hdl (op_byte :: rest) L s =
  (if byte_to_Z op_byte =? 1 then handle_message_data H now hdl (op_byte :: rest)
   else if byte_to_Z op_byte =? 2 then handle_service_call_request H hdl (op_byte :: rest)
   else send_status_and_log_msg hdl Error
          ("Unrecognized client opcode " +:+ to_string (byte_to_Z op_byte))) L s.
Proof.
  intros Hop Hcap. unfold handle_binary_message. rewrite Hop. unfold has_capability. run.
  by rewrite bool_decide_eq_true_2 by done.
Qed.

Lemma client_publish_run (now : Z) (hdl : ConnHandle) (cid : Z) (buffer : list byte)
    (pubs : gmap Z ClientAdvertisement) (adv : ClientAdvertisement)
    (f : ClientMessage → ConnHandle → M W unit) (s : St W) :
  big_endian = false → is_u32 cid → Z.of_nat (length buffer) < 2 ^ 63 →
  CAPABILITY_CLIENT_PUBLISH ∈ capabilities (_options (srv s)) →
  client_message_handler H = Some f →
  _client_channels (srv s) !! hdl = Some pubs → pubs !! cid = Some adv →
  ∃ frame, client_publish_frame cid buffer = Ret frame ∧
    let msg := published_message now adv frame in
    getData msg = Ret buffer ∧
    handle_binary_message H now hdl frame [] s =
      match f msg hdl [client_channels_mutex] (add_trace [Call (CallClientMessage msg hdl)] s) with
      | (Throw e, s') =>
          (Ret tt, add_trace (delivered_json (net s') hdl
                     (status_json Error (message_failure e)) true) s')
      | r => r
      end.
Proof.
  intros Hbe Hcid Hlen Hcap Hf Hpubs Hadv.
  exists (x01 :: le_bytes 4 cid ++ buffer). split; [apply client_publish_layout|].
  split; [by apply getData_published|]. set (frame := x01 :: le_bytes 4 cid ++ buffer).
  assert (length frame = (5 + length buffer)%nat) as Hl
    by (unfold frame; by autorewrite with lens).
  etransitivity; [by apply (binary_message_allowed x01 (le_bytes 4 cid ++ buffer) _ CAPABILITY_CLIENT_PUBLISH)|].
  change (byte_to_Z x01 =? 1) with true. cbv iota. fold frame.
  unfold handle_message_data.
  rewrite bool_decide_eq_false_2 by (by rewrite Hf).
  rewrite (proj2 (Z.ltb_ge _ 5)) by (rewrite Hl; lia).
  pose proof (native_channel_id cid buffer Hbe Hcid) as Hid. fold frame in Hid. run.
  destruct (load frame 1 4) as [id_bytes| |]; [|done..]. simpl in Hid. injection Hid as ->.
  unfold with_lock. rewrite decide_False by set_solver. unfold get_publications. run.
  rewrite Hpubs, Hadv. unfold try_catch. run.
  rewrite Nat2Z.id, new_ClientMessage_all. run. unfold call. cbn [handler_body]. rewrite Hf.
  cbn [fmap option_fmap option_map]. run. unfold add_trace, published_message.
  destruct (f _ hdl [client_channels_mutex] _) as [[u|e|] s']; [done| |done].
  destruct e; apply send_status_run.
Qed.

(** On a little-endian machine, what a client publishes on a channel it advertised
    reaches the message handler: the handler runs on a message with exactly the
    client's bytes, and an exception it throws becomes an error status. *)
Theorem client_publish_delivered (now : Z) (hdl : ConnHandle) (cid : Z) (buffer : list byte)
    (pubs : gmap Z ClientAdvertisement) (adv : ClientAdvertisement)
    (f : ClientMessage → ConnHandle → M W unit) (s : St W) :
  big_endian = false → is_u32 cid → Z.of_nat (length buffer) < 2 ^ 63 →
  CAPABILITY_CLIENT_PUBLISH ∈ capabilities (_options (srv s)) →
  client_message_handler H = Some f →
  _client_channels (srv s) !! hdl = Some pubs → pubs !! cid = Some adv →
  ∃ frame, client_publish_frame cid buffer = Ret frame ∧
    let msg := published_message now adv frame in
    getData msg = Ret buffer ∧
    handle_binary_message H now hdl frame [] s =
      match f msg hdl [client_channels_mutex] (add_trace [Call (CallClientMessage msg hdl)] s) with
      | (Throw e, s') =>
          (Ret tt, add_trace (delivered_json (net s') hdl
                     (status_json Error (message_failure e)) true) s')
      | r => r
      end.
Proof. by apply client_publish_run. Qed.

Lemma service_request_run (now : Z) (hdl : ConnHandle) (request : ServiceRequest)
    (f : ServiceRequest → ConnHandle → M W unit) (s : St W) :
  ServiceResponse_wf request →
  CAPABILITY_SERVICES ∈ capabilities (_options (srv s)) →
  service_request_handler H = Some f →
  ∃ frame, client_service_request_frame request = Ret frame ∧
    handle_binary_message H now hdl frame [] s =
      match _services (srv s) !! service_id request with
      | Some _ => f request hdl [] (add_trace [Call (CallServiceRequest request hdl)] s)
      | None =>
          (Ret tt, add_trace (delivered_json (net s) hdl (status_json Error
             ("Service " +:+ to_string (service_id request) +:+ " is not advertised")) true) s)
      end.
Proof.
  intros Hwf Hcap Hf. exists (x02 :: ServiceResponse_bytes request).
  split; [apply client_service_request_layout|]. set (frame := x02 :: _).
  assert (length frame = S (ServiceResponse_size request)) as Hl
    by (unfold frame; cbn [length]; by rewrite length_ServiceResponse_bytes).
  etransitivity; [by apply (binary_message_allowed x02 (ServiceResponse_bytes request) _ CAPABILITY_SERVICES)|].
  change (byte_to_Z x02 =? 1) with false. change (byte_to_Z x02 =? 2) with true. cbv iota.
  fold frame. unfold handle_service_call_request. run.
  rewrite (proj2 (Z.ltb_ge _ _)) by (rewrite Hl; unfold ServiceResponse_size; simpl; lia).
  change (drop 1 frame) with (ServiceResponse_bytes request).
  rewrite ServiceResponse_read_bytes by done.
  unfold with_lock. rewrite decide_False by set_solver. run.
  destruct (_services (srv s) !! service_id request).
  - rewrite bool_decide_eq_true_2 by (by rewrite Hf). cbn [andb]. unfold call.
    cbn [handler_body]. by rewrite Hf.
  - rewrite send_status_run. run. cbn [andb]. done.
Qed.

(** A service call of a client reaches the service handler with the request the
    client encoded, if the service exists; otherwise the client gets an error. *)
Theorem service_request_delivered (now : Z) (hdl : ConnHandle) (request : ServiceRequest)
    (f : ServiceRequest → ConnHandle → M W unit) (s : St W) :
  ServiceResponse_wf request →
  CAPABILITY_SERVICES ∈ capabilities (_options (srv s)) →
  service_request_handler H = Some f →
  ∃ frame, client_service_request_frame request = Ret frame ∧
    handle_binary_message H now hdl frame [] s =
      match _services (srv s) !! service_id request with
      | Some _ => f request hdl [] (add_trace [Call (CallServiceRequest request hdl)] s)
      | None =>
          (Ret tt, add_trace (delivered_json (net s) hdl (status_json Error
             ("Service " +:+ to_string (service_id request) +:+ " is not advertised")) true) s)
      end.
Proof. by apply service_request_run. Qed.

End Binary.

(** ** The gate *)

Section Gate.
Context {plat : Platform} {W : Type} (H : ServerHandlers W).

Definition binary_not_supported (op : Z) (cap : string) : string :=
  "Binary operation '" +:+ to_string op +:+ "' not supported as server capability '" +:+ cap
    +:+ "' is missing".

Lemma text_gate (o : client_op) (cap : string) (payload : json) (hdl : ConnHandle) (s : St W) :
  json_at payload "op" = Ret (JStr (op_name o)) →
  obj_find (op_name o) CAPABILITY_BY_CLIENT_OPERATION = Some cap →
  cap ∉ capabilities (_options (srv s)) →
  handle_text_payload H hdl payload [] s =
  (Ret tt, add_trace (delivered (net s) hdl
             (Text (status_json Error (not_supported (op_name o) cap))) true) s).
Proof.
  intros Hop Hcap Hno. rewrite <-delivered_json_ok.
  - unfold handle_text_payload, missing_capability. rewrite Hop. run. cbn [get_string].
    rewrite Hcap. unfold has_capability. run. rewrite bool_decide_eq_false_2 by done. run.
    apply send_status_run.
  - rewrite status_dumps. destruct o; vm_compute in Hcap; try done; injection Hcap as <-;
      vm_compute; reflexivity.
Qed.

Lemma binary_gate (op : byte) (cap : string) (now : Z) (rest : list byte) (hdl : ConnHandle)
    (s : St W) :
  CAPABILITY_BY_CLIENT_BINARY_OPERATION (byte_to_Z op) = Some cap →
  cap ∉ capabilities (_options (srv s)) →
  handle_binary_message H now hdl (op :: rest) [] s =
  (Ret tt, add_trace (delivered (net s) hdl
             (Text (status_json Error (binary_not_supported (byte_to_Z op) cap))) true) s).
Proof.
  intros Hcap Hno. rewrite <-delivered_json_ok.
  - unfold handle_binary_message. rewrite Hcap. unfold has_capability. run.
    rewrite bool_decide_eq_false_2 by done. run. apply send_status_run.
  - rewrite status_dumps. revert Hcap. generalize (byte_to_Z op). intros z.
    unfold CAPABILITY_BY_CLIENT_BINARY_OPERATION.
    destruct (Z.eqb_spec z 1) as [->|]; [by intros [= <-]; vm_compute|].
    destruct (Z.eqb_spec z 2) as [->|]; [by intros [= <-]; vm_compute|]. done.
Qed.

(** C37. An operation whose capability the server does not have is refused, whether it
    is a text operation called by its name or a binary one: the client gets an error
    status, no handler is called and no member changes.  (A text operation called by
    another string with the hash of its name passes the gate, see
    [capability_gate_bypassed].) *)
Theorem capability_gate (cap : string) (hdl : ConnHandle) (s : St W) :
  cap ∉ capabilities (_options (srv s)) →
  (∀ (o : client_op) (payload : json),
     json_at payload "op" = Ret (JStr (op_name o)) →
     obj_find (op_name o) CAPABILITY_BY_CLIENT_OPERATION = Some cap →
     handle_text_payload H hdl payload [] s =
     (Ret tt, add_trace (delivered (net s) hdl
                (Text (status_json Error (not_supported (op_name o) cap))) true) s)) ∧
  (∀ (op : byte) (now : Z) (rest : list byte),
     CAPABILITY_BY_CLIENT_BINARY_OPERATION (byte_to_Z op) = Some cap →
     handle_binary_message H now hdl (op :: rest) [] s =
     (Ret tt, add_trace (delivered (net s) hdl
                (Text (status_json Error (binary_not_supported (byte_to_Z op) cap))) true) s)).
Proof.
  intros Hno. split; [intros o payload Hop Hcap; by apply text_gate|].
  intros op now rest Hcap. by apply binary_gate.
Qed.

End Gate.

(** ** Instances *)

Definition asset_request : json :=
  json_object [("op", JStr "fetchAsset"); ("uri", JStr "package://x"); ("requestId", JUnsigned 1)].

Lemma capability_gate_witness :
  handle_text_payload (plat:=x86_64) demo_handlers 1%nat asset_request [] demo_state =
  (Ret tt, add_trace (delivered (net demo_state) 1
     (Text (status_json Error (not_supported "fetchAsset" CAPABILITY_ASSETS))) true) demo_state).
Proof.
  refine (proj1 (capability_gate (plat:=x86_64) demo_handlers CAPABILITY_ASSETS 1%nat demo_state _)
    FETCH_ASSET asset_request _ _); [|reflexivity..].
  apply (bool_decide_unpack _). vm_compute. exact I.
Defined.

Definition get_request : json :=
  json_object [("op", JStr "getParameters"); ("parameterNames", json_strings ["/a"])].

Lemma dispatch_runs_witness :
  handle_text_payload (plat:=x86_64) demo_handlers 1%nat get_request [] demo_state =
  run_op (plat:=x86_64) demo_handlers GET_PARAMETERS get_request 1%nat [] demo_state.
Proof.
  etransitivity; [apply (dispatch_runs (plat:=x86_64) demo_handlers GET_PARAMETERS)|].
  - reflexivity.
  - intros cap [= <-]. apply (bool_decide_unpack _). vm_compute. exact I.
  - vm_compute. reflexivity.
  - vm_compute. reflexivity.
Defined.

Definition demo_advertisement : ClientAdvertisement :=
  {| adv_channel_id := 3; adv_topic := "/cmd"; adv_encoding := "json";
     adv_schema_name := "std_msgs/String"; adv_schema := [] |}.

Lemma client_publish_delivered_witness :
  ∃ frame, client_publish_frame (H:=x86_64) 3 [x2a] = Ret frame ∧
    getData (published_message 5 demo_advertisement frame) = Ret [x2a] ∧
    (handle_binary_message (plat:=x86_64) demo_handlers 5 1%nat frame [] demo_state).1 = Ret tt.
Proof.
  destruct (client_publish_delivered (plat:=x86_64) demo_handlers 5 1%nat 3 [x2a]
    {[3 := demo_advertisement]} demo_advertisement (λ _ _ _ s,
    (Ret tt, mkSt (srv s) (net s) (trace s) (S (world s)))) demo_state)
    as (frame & Hf & Hd & Hrun); [done|by compute|by compute|..].
  - apply (bool_decide_unpack _). vm_compute. exact I.
  - reflexivity.
  - vm_compute. reflexivity.
  - reflexivity.
  - exists frame. by rewrite Hrun.
Defined.

Definition demo_call : ServiceRequest :=
  {| service_id := 9; call_id := 4; sr_encoding := "json"; serv_data := [x7b; x7d] |}.

Lemma service_request_delivered_witness :
  ∃ frame, client_service_request_frame (H:=x86_64) demo_call = Ret frame ∧
    (handle_binary_message (plat:=x86_64) demo_handlers 5 1%nat frame [] demo_state).1 = Ret tt.
Proof.
  destruct (service_request_delivered (plat:=x86_64) demo_handlers 5 1%nat demo_call
    (λ r _, throw (ServiceError (service_id r) "no provider")) demo_state) as (frame & Hf & Hrun).
  - split_and!; by compute.
  - apply (bool_decide_unpack _). vm_compute. exact I.
  - reflexivity.
  - exists frame. split; [done|]. rewrite Hrun. vm_compute. reflexivity.
Defined.

(** *** The gate compares names, the switch compares hashes *)

Definition no_capabilities : St nat :=
  mkSt (new_Server "demo"
          {| capabilities := []; supported_encodings := []; metadata := ∅;
             send_buffer_limit_bytes := 0; use_tls := false; cert_file := EmptyString;
             key_file := EmptyString; session_id := EmptyString; use_compression := false;
             client_topic_whitelist_patterns := [λ _, true]; mac_addr := EmptyString;
             ip_addrs := [] |})
    (<[1%nat := demo_connection "10.0.0.5:4000"]> ∅) [] 0%nat.

Definition advertise_request (op : string) : json :=
  json_object [("op", JStr op);
               ("channels", JArr [json_object [("id", JUnsigned 3); ("topic", JStr "/cmd");
                                               ("encoding", JStr "json");
                                               ("schemaName", JStr "std_msgs/String")]])].

(** A server without any capability refuses [advertise], and runs it when the
    operation is spelled with another string of the same hash. *)
Theorem capability_gate_bypassed :
  let run op := (handle_text_payload (plat:=x86_64) demo_handlers 1%nat
                   (advertise_request op) [] no_capabilities).2 in
  ((Call (CallClientAdvertise demo_advertisement 1%nat)) ∉ trace (run "advertise")) ∧
  ((Call (CallClientAdvertise demo_advertisement 1%nat)) ∈ trace (run "mjtiacez")).
Proof.
  split.
  - vm_compute. by intros [?|?%elem_of_nil]%elem_of_cons.
  - vm_compute. apply list_elem_of_here.
Qed.
