(* ===== verification/ServerDefined.v ===== *)
(** * Definedness of the server's methods

    No method locks a mutex it already holds, dereferences [end()], reads outside
    a buffer or overflows: for the requests that do not trip the unchecked JSON
    accesses, and given handlers that respect the locks held when they run. *)

From Stdlib Require Import ZArith Lia.
From S2P Require Import Prelude Wire Base64 Json Serialization ServerState ServerMethods.
From S2P Require Import ServerLogic ServerInv ServerSync ServerSystem ServerSpecs ServerDispatch.

Local Open Scope Z_scope.

(** ** Rules *)

(** What the handlers rely on: an ambient invariant of their own state and of the
    parameters each client is subscribed to.  The methods of the server that do not
    change these subscriptions keep it. *)
Class WorldInv (W : Type) := world_ok : gmap ConnHandle (gset string) → W → Prop.

#[export] Instance any_world W : WorldInv W | 100 := λ _ _, True.

Definition state_ok {W} {ψ : WorldInv W} (s : St W) : Prop :=
  world_ok (_client_param_subscriptions (srv s)) (world s).

Section Defined.
Context {W : Type} {ψ : WorldInv W}.
Implicit Types (P : St W → Prop) (L : list mutex).

(** Run with the mutexes in [L] held from a state in [P], [m] returns or throws, and
    keeps the ambient invariant. *)
Definition defined_if {A} P L (m : M W A) : Prop :=
  ∀ s, P s → state_ok s →
    match m L s with
    | (Undefined, _) => False
    | (_, s') => state_ok s'
    end.
Definition defined {A} L (m : M W A) : Prop := defined_if (λ _, True) L m.

Lemma defined_if_run {A} P L (m : M W A) s :
  defined_if P L m → P s → state_ok s → (m L s).1 ≠ Undefined.
Proof. intros Hm HP Hs. specialize (Hm s HP Hs). by destruct (m L s) as [[] ?]. Qed.

Lemma defined_run {A} L (m : M W A) s :
  defined L m → state_ok s → (m L s).1 ≠ Undefined.
Proof. intros Hm. by apply (defined_if_run _ _ _ _ Hm). Qed.

Lemma defined_weaken {A} P L (m : M W A) : defined L m → defined_if P L m.
Proof. intros Hm s _. by apply Hm. Qed.

Lemma defined_ret {A} L (a : A) : defined L (mret a).
Proof. by intros s. Qed.
Lemma defined_throw {A} L e : defined L (throw (A:=A) e).
Proof. by intros s. Qed.
Lemma defined_lift {A} L (o : outcome A) : o ≠ Undefined → defined L (lift o).
Proof. intros Ho s _. simpl. by destruct o. Qed.
Lemma defined_get {A} L (f : Server → A) : defined L (get f).
Proof. by intros s. Qed.
Lemma defined_update L f :
  (∀ sv, _client_param_subscriptions (f sv) = _client_param_subscriptions sv) →
  defined L (update f).
Proof. intros Hf s _. unfold state_ok. simpl. by rewrite Hf. Qed.
Lemma defined_emit L e : defined L (emit e).
Proof. by intros s. Qed.
Lemma defined_find_connection L hdl : defined L (find_connection hdl).
Proof. by intros s. Qed.
Lemma defined_select_subprotocol L hdl p : defined L (select_subprotocol hdl p).
Proof. by intros s. Qed.

Lemma defined_if_bind {A B} P L (m : M W A) (f : A → M W B) :
  defined_if P L m → preserves P m → (∀ a, defined_if P L (f a)) → defined_if P L (m ≫= f).
Proof.
  intros Hm HP Hf s Hs Hw. specialize (Hm s Hs Hw). specialize (HP L s Hs). run.
  destruct (m L s) as [[a|e|] s'] eqn:E; [by apply Hf|done|done].
Qed.

Lemma defined_if_bind_any {A B} P L (m : M W A) (f : A → M W B) :
  defined_if P L m → (∀ a, defined L (f a)) → defined_if P L (m ≫= f).
Proof.
  intros Hm Hf s Hs Hw. specialize (Hm s Hs Hw). run.
  destruct (m L s) as [[a|e|] s'] eqn:E; [by apply Hf|done|done].
Qed.

Lemma defined_bind {A B} L (m : M W A) (f : A → M W B) :
  defined L m → (∀ a, defined L (f a)) → defined L (m ≫= f).
Proof. apply defined_if_bind_any. Qed.

(** A part of the program that is a statement of its own. *)
Lemma defined_assoc {A B C} L (m : M W A) (f : A → M W B) (g : B → M W C) :
  defined L (m ≫= f) → (∀ b, defined L (g b)) → defined L (m ≫= λ a, f a ≫= g).
Proof.
  intros Hm Hg s _ Hw. specialize (Hm s I Hw). revert Hm. run.
  destruct (m L s) as [[a|e|] s']; [|done..]. intros Hf.
  destruct (f a L s') as [[b|e|] s'']; [by apply Hg|done..].
Qed.

(** The state has a property that what follows relies on. *)
Lemma defined_bind_state {A B} (Q : St W → Prop) L (m : M W A) (f : A → M W B) :
  defined L m → (∀ s a s', m L s = (Ret a, s') → Q s') → (∀ a, defined_if Q L (f a)) →
  defined L (m ≫= f).
Proof.
  intros Hm HQ Hf s _ Hw. specialize (Hm s I Hw). specialize (HQ s). run.
  destruct (m L s) as [[a|e|] s'] eqn:E; [|done..]. apply (Hf a); [by eapply HQ|done].
Qed.

(** What comes last need not keep the ambient invariant. *)
Lemma defined_then {A B} L (m : M W A) (f : A → M W B) s :
  defined L m → state_ok s →
  (∀ a s', state_ok s' → (f a L s').1 ≠ Undefined) → ((m ≫= f) L s).1 ≠ Undefined.
Proof.
  intros Hm Hw Hf. specialize (Hm s I Hw). run.
  destruct (m L s) as [[a|e|] s'] eqn:E; [by apply Hf|done|done].
Qed.

(** The result has a property that what follows relies on. *)
Lemma defined_bind_post {A B} (φ : A → Prop) L (m : M W A) (f : A → M W B) :
  defined L m → (∀ s a s', m L s = (Ret a, s') → φ a) → (∀ a, φ a → defined L (f a)) →
  defined L (m ≫= f).
Proof.
  intros Hm Hφ Hf s _ Hw. specialize (Hm s I Hw). specialize (Hφ s). run.
  destruct (m L s) as [[a|e|] s'] eqn:E; [|done..]. apply (Hf a); [by eapply Hφ|done..].
Qed.

(** A conversion followed by code that may rely on its result. *)
Lemma defined_if_bind_lift {A B} P L (o : outcome A) (f : A → M W B) :
  o ≠ Undefined → (∀ a, o = Ret a → defined_if P L (f a)) → defined_if P L (lift o ≫= f).
Proof. intros Ho Hf s HP Hw. run. destruct o as [a|e|]; [by apply Hf|done|done]. Qed.

Lemma defined_bind_lift {A B} L (o : outcome A) (f : A → M W B) :
  o ≠ Undefined → (∀ a, o = Ret a → defined L (f a)) → defined L (lift o ≫= f).
Proof. apply defined_if_bind_lift. Qed.

Lemma defined_if_with_lock {A} P mu L (body : M W A) :
  mu ∉ L → defined_if P (mu :: L) body → defined_if P L (with_lock mu body).
Proof. intros Hmu Hb s Hs. unfold with_lock. rewrite decide_False by done. by apply Hb. Qed.

Lemma defined_with_lock {A} mu L (body : M W A) :
  mu ∉ L → defined (mu :: L) body → defined L (with_lock mu body).
Proof. apply defined_if_with_lock. Qed.

Lemma defined_if_try_catch {A} P L (body : M W A) h :
  defined_if P L body → (∀ e, defined L (h e)) → defined_if P L (try_catch body h).
Proof.
  intros Hb Hh s Hs Hw. specialize (Hb s Hs Hw). unfold try_catch.
  destruct (body L s) as [[a|e|] s'] eqn:E; [done|by apply Hh|done].
Qed.

Lemma defined_try_catch {A} L (body : M W A) h :
  defined L body → (∀ e, defined L (h e)) → defined L (try_catch body h).
Proof. apply defined_if_try_catch. Qed.

Lemma defined_for_each {A} L (l : list A) body :
  (∀ x, x ∈ l → defined L (body x)) → defined L (for_each l body).
Proof.
  induction l as [|x l IH]; intros Hb; cbn [for_each]; [by intros s|].
  apply defined_bind; [apply Hb; set_solver|]. intros []. apply IH. set_solver.
Qed.

End Defined.

#[export] Hint Resolve defined_ret defined_throw defined_get defined_emit
  defined_find_connection defined_select_subprotocol : server.
#[export] Hint Extern 1 (defined _ (update _)) =>
  apply defined_update; intros ?; reflexivity : server.

Ltac solve_mutex := set_solver.

Ltac defined_step :=
  match goal with
  | |- defined _ (mbind _ (lift _)) => apply defined_bind_lift; [|intros ? ?]
  | |- defined _ (mbind _ _) => apply defined_bind; [|intros ?]
  | |- defined _ (let '(_, _) := ?x in _) => destruct x
  | |- defined _ (if ?b then _ else _) => destruct b eqn:?
  | |- defined _ (match ?x with _ => _ end) => destruct x eqn:?
  | |- defined _ _ => progress eauto with server
  | |- defined _ (with_lock _ _) => apply defined_with_lock; [solve_mutex|]
  | |- defined _ (try_catch _ _) => apply defined_try_catch; [|intros ?]
  | |- defined _ (for_each _ _) => apply defined_for_each; intros ? ?
  | |- defined _ (lift _) => apply defined_lift
  | |- _ ≠ Undefined => solve [eauto with server]
  end.
Ltac solve_defined := repeat defined_step.

(** ** Methods that do not call handlers *)

Section Methods.
Context {plat : Platform} {W : Type} {ψ : WorldInv W}.
Implicit Types L : list mutex.

Lemma get_con_defined L hdl : defined (W:=W) L (get_con_from_hdl hdl).
Proof. unfold get_con_from_hdl. solve_defined. Qed.
#[local] Hint Resolve get_con_defined : server.
Lemma catch_log_defined L e : defined (W:=W) L (catch_log e).
Proof. unfold catch_log. solve_defined. Qed.
#[local] Hint Resolve catch_log_defined : server.
#[local] Hint Resolve dump_defined : server.
Lemma send_json_defined L hdl j r : defined (W:=W) L (send_json hdl j r).
Proof. unfold send_json. solve_defined. Qed.
Lemma send_raw_json_defined L hdl j r : defined (W:=W) L (send_raw_json hdl j r).
Proof. unfold send_raw_json. solve_defined. Qed.
Lemma send_binary_defined L hdl j r : defined (W:=W) L (send_binary hdl j r).
Proof. unfold send_binary. solve_defined. Qed.
#[local] Hint Resolve send_json_defined send_raw_json_defined send_binary_defined : server.
Lemma send_status_defined L hdl l m : defined (W:=W) L (send_status_and_log_msg hdl l m).
Proof. apply send_json_defined. Qed.
Lemma broadcast_defined L j : defined (W:=W) L (broadcast j).
Proof. unfold broadcast. solve_defined. Qed.
Lemma clients_at_defined L hdl : defined (W:=W) L (clients_at hdl).
Proof. unfold clients_at. solve_defined. Qed.
Lemma update_client_defined L hdl f : defined (W:=W) L (update_client hdl f).
Proof. by intros s. Qed.
Lemma get_publications_defined L hdl : defined (W:=W) L (get_publications hdl).
Proof. unfold get_publications. solve_defined. Qed.
Lemma update_publications_defined L hdl f : defined (W:=W) L (update_publications hdl f).
Proof. by intros s. Qed.
Lemma not_subscribed_defined L names : defined (W:=W) L (not_subscribed names).
Proof. intros s _ Hs. by rewrite not_subscribed_run. Qed.
Lemma remote_endpoint_defined L hdl : defined (W:=W) L (remote_endpoint_string hdl).
Proof. unfold remote_endpoint_string. solve_defined. Qed.
#[local] Hint Resolve send_status_defined broadcast_defined clients_at_defined
  update_client_defined get_publications_defined update_publications_defined
  not_subscribed_defined remote_endpoint_defined : server.

Lemma Parameter_to_json_defined p : Parameter_to_json p ≠ Undefined.
Proof.
  destruct (ParameterValue_to_json_total (param_value p)) as [j Hj].
  by rewrite (Parameter_to_json_eq p j).
Qed.

Lemma mapM_defined {A B} (f : A → outcome B) l :
  (∀ x, x ∈ l → f x ≠ Undefined) → outcome_mapM f l ≠ Undefined.
Proof.
  induction l as [|x l IH]; intros Hf; [done|]. simpl.
  pose proof (Hf x ltac:(set_solver)). destruct (f x); [|done..]. simpl.
  specialize (IH ltac:(set_solver)). by destruct (outcome_mapM f l).
Qed.

Lemma publish_parameter_values_defined L hdl ps i :
  defined (W:=W) L (publish_parameter_values hdl ps i).
Proof.
  unfold publish_parameter_values. solve_defined. apply mapM_defined.
  intros p _. apply Parameter_to_json_defined.
Qed.
#[local] Hint Resolve publish_parameter_values_defined : server.

Lemma add_channels_defined cs L :
  channels_mutex ∉ L → clients_mutex ∉ L → defined (W:=W) L (add_channels cs).
Proof.
  intros HL1 HL2. assert (∀ L, defined (W:=W) L (add_channels_loop cs)) as Hloop.
  { induction cs; intros L0; cbn [add_channels_loop]; solve_defined. }
  unfold add_channels. destruct cs; solve_defined.
Qed.
Lemma remove_channels_defined ids L :
  channels_mutex ∉ L → clients_mutex ∉ L → defined (W:=W) L (remove_channels ids).
Proof. intros HL1 HL2. unfold remove_channels. solve_defined. Qed.
Lemma update_parameter_values_defined ps : defined (W:=W) [] (update_parameter_values ps).
Proof. unfold update_parameter_values. solve_defined. Qed.
Lemma add_services_defined ss L :
  services_mutex ∉ L → clients_mutex ∉ L → defined (W:=W) L (add_services ss).
Proof.
  intros HL1 HL2. assert (∀ L, defined (W:=W) L (add_services_loop ss)) as Hloop.
  { induction ss; intros L0; cbn [add_services_loop]; solve_defined. }
  unfold add_services. destruct ss; solve_defined.
Qed.
Lemma remove_services_defined ids L :
  services_mutex ∉ L → clients_mutex ∉ L → defined (W:=W) L (remove_services ids).
Proof.
  intros HL1 HL2. assert (∀ L, defined (W:=W) L (remove_services_loop ids)) as Hloop.
  { induction ids; intros L0; cbn [remove_services_loop]; solve_defined. }
  unfold remove_services. solve_defined.
Qed.
Lemma send_message_defined hdl ch t bs : defined (W:=W) [] (send_message hdl ch t bs).
Proof. unfold send_message. solve_defined. by rewrite message_data_frame_layout. Qed.
Lemma broadcast_time_defined t : defined (W:=W) [] (broadcast_time t).
Proof. unfold broadcast_time. solve_defined. by rewrite time_data_frame_layout. Qed.
Lemma send_service_response_defined L hdl r : defined (W:=W) L (send_service_response hdl r).
Proof. unfold send_service_response. solve_defined. by rewrite service_response_frame_layout. Qed.
Lemma send_fetch_asset_response_defined L hdl r :
  defined (W:=W) L (send_fetch_asset_response hdl r).
Proof. unfold send_fetch_asset_response. solve_defined. by rewrite fetch_asset_frame_layout. Qed.
Lemma update_connection_graph_defined p q r : defined (W:=W) [] (update_connection_graph p q r).
Proof. unfold update_connection_graph. solve_defined. Qed.
Lemma opened_defined hdl :
  defined (W:=W) [] (b ← validate_connection hdl;
                     if b : bool then handle_connection_opened hdl else mret tt).
Proof. unfold validate_connection, handle_connection_opened. solve_defined. Qed.

End Methods.

#[export] Hint Resolve dump_defined get_con_defined send_json_defined send_raw_json_defined
  send_binary_defined send_status_defined broadcast_defined clients_at_defined
  update_client_defined get_publications_defined update_publications_defined
  not_subscribed_defined remote_endpoint_defined publish_parameter_values_defined : server.

(** ** The locks a handler runs under *)

(** What the server may hold when it makes a call; a handler that locks one of
    these (by calling back into the server) deadlocks.  A message it passes on has
    its header. *)
Definition call_ok (c : handler_call) (L : list mutex) : Prop :=
  match c with
  | CallClientAdvertise _ _ | CallClientUnadvertise _ _ => L ⊆ [client_channels_mutex]
  | CallClientMessage m _ => L ⊆ [client_channels_mutex] ∧ getData m ≠ Undefined
  | CallSubscribeConnectionGraph false => L ⊆ [connection_graph_mutex]
  | _ => L = []
  end.

(** What the handlers ask of the requests on parameters: the names a client
    subscribes to, the names it unsubscribes from (given who is subscribed to what),
    the values it sets. *)
Class ParamRequests := {
  subscribe_safe : gset string → Prop;
  unsubscribe_ready : gset string → gmap ConnHandle (gset string) → Prop;
  set_safe : list ParameterT → Prop
}.

#[export] Instance any_request : ParamRequests | 100 :=
  {| subscribe_safe := λ _, True; unsubscribe_ready := λ _ _, True; set_safe := λ _, True |}.

(** The calls that are made whatever the subscriptions to parameters are. *)
Definition call_safe `{!ParamRequests} (c : handler_call) : Prop :=
  match c with
  | CallParameterSubscription _ _ _ => False
  | CallParameterChange ps _ _ => set_safe ps
  | _ => True
  end.

(** The three places where subscriptions to parameters change: in two requests,
    after the names were read, and when a connection is closed. *)
Definition subscribe_names {W} (H : ServerHandlers W) (param_names : gset string)
    (hdl : ConnHandle) : M W unit :=
  params_to_subscribe ← with_lock client_param_subscriptions_mutex
    (names ← not_subscribed (elements param_names);
     update (λ s, let subs := _client_param_subscriptions s in
                  set_param_subscriptions s
                    (<[hdl := default ∅ (subs !! hdl) ∪ param_names]> subs));;
     mret names);
  if is_nil params_to_subscribe then mret tt
  else call H (CallParameterSubscription params_to_subscribe SUBSCRIBE hdl).

Definition unsubscribe_names {W} (H : ServerHandlers W) (param_names : gset string)
    (hdl : ConnHandle) : M W unit :=
  with_lock client_param_subscriptions_mutex
    (update (λ s, let subs := _client_param_subscriptions s in
                  set_param_subscriptions s
                    (<[hdl := default ∅ (subs !! hdl) ∖ param_names]> subs)));;
  unsubscribe_params_without_subscriptions H hdl param_names.

Definition forget_names {W} (H : ServerHandlers W) (hdl : ConnHandle) : M W unit :=
  client_subscribed_parameters ← with_lock client_param_subscriptions_mutex
    (subs ← get _client_param_subscriptions;
     update (λ s, set_param_subscriptions s (delete hdl (_client_param_subscriptions s)));;
     mret (default ∅ (subs !! hdl)));
  unsubscribe_params_without_subscriptions H hdl client_subscribed_parameters.

Class HandlersDefined {W} {ψ : WorldInv W} {ρ : ParamRequests} (H : ServerHandlers W) := {
  handlers_defined c body L :
    handler_body H c = Some body → call_ok c L → call_safe c → defined L body;
  subscribe_names_defined names hdl :
    subscribe_safe names → defined [] (subscribe_names H names hdl);
  unsubscribe_names_defined names hdl :
    defined_if (λ s, unsubscribe_ready names (_client_param_subscriptions (srv s))) []
      (unsubscribe_names H names hdl);
  forget_names_defined hdl : defined [] (forget_names H hdl)
}.

(** Handlers that are defined for every call, given an invariant of their own state
    alone. *)
Lemma handlers_always_defined {W} {ψ : WorldInv W} (H : ServerHandlers W) :
  (∀ σ σ' w, world_ok σ w → world_ok σ' w) →
  (∀ c body L, handler_body H c = Some body → call_ok c L → defined L body) →
  HandlersDefined (ρ := any_request) H.
Proof.
  intros Hσ Hb.
  assert (∀ L f, defined (W:=W) L (update f)) as Hupd by (intros L f s _; apply Hσ).
  assert (∀ L c, call_ok c L → defined L (call H c)) as Hcall.
  { intros L c HL. unfold call. destruct (handler_body H c) as [body|] eqn:E; [|apply defined_throw].
    apply defined_bind; [apply defined_emit|]. intros []. by eapply Hb. }
  assert (∀ hdl names, defined [] (unsubscribe_params_without_subscriptions H hdl names)) as Hu.
  { intros hdl names. unfold unsubscribe_params_without_subscriptions, catch_std. solve_defined.
    by apply Hcall. }
  split.
  - intros c body L Hc HL _. by eapply Hb.
  - intros names hdl _. unfold subscribe_names. solve_defined. by apply Hcall.
  - intros names hdl. apply defined_weaken. unfold unsubscribe_names. solve_defined.
  - intros hdl. unfold forget_names. solve_defined.
Qed.

(** ** Requests whose conversions are defined *)

Definition safe_field (j : json) (k : string) : Prop :=
  (v ← json_at j k; get_uint32 v) ≠ Undefined.

(** The unchecked accesses a request can reach: an integer given as a
    floating-point number out of range, a parameter without a name. *)
Record safe_payload (j : json) : Prop := {
  safe_subscriptions v e : json_at j "subscriptions" = Ret v → e ∈ json_elements v →
    safe_field e "id" ∧ safe_field e "channelId";
  safe_subscription_ids v e : json_at j "subscriptionIds" = Ret v → e ∈ json_elements v →
    get_uint32 e ≠ Undefined;
  safe_channels v e : json_at j "channels" = Ret v → e ∈ json_elements v → safe_field e "id";
  safe_channel_ids v e : json_at j "channelIds" = Ret v → e ∈ json_elements v →
    get_uint32 e ≠ Undefined;
  safe_request_id : safe_field j "requestId";
  safe_parameters l e o : json_at j "parameters" = Ret (JArr l) → e ∈ l → e = JObj o →
    is_Some (obj_find "name" o)
}.

Ltac solve_locks := simpl; try done; set_solver.

Section Requests.
Context {plat : Platform} {W : Type} {ψ : WorldInv W} (H : ServerHandlers W).
Context {ρ : ParamRequests} `{!HandlersDefined H}.

Lemma call_defined c L : call_ok c L → call_safe c → defined L (call H c).
Proof.
  intros HL Hs. unfold call. destruct (handler_body H c) as [body|] eqn:E; [|apply defined_throw].
  apply defined_bind; [apply defined_emit|]. intros []. by eapply handlers_defined.
Qed.

Lemma json_at_defined j k : json_at j k ≠ Undefined.
Proof. destruct j; simpl; try done. by destruct (obj_find k o). Qed.

Lemma get_string_defined j : get_string j ≠ Undefined.
Proof. by destruct j. Qed.

Lemma bind_defined {A B} (m : outcome A) (f : A → outcome B) :
  m ≠ Undefined → (∀ a, m = Ret a → f a ≠ Undefined) → (x ← m; f x) ≠ Undefined.
Proof. intros Hm Hf. destruct m; [by apply Hf|done|done]. Qed.

Lemma string_field_defined j k : (v ← json_at j k; get_string v) ≠ Undefined.
Proof. apply bind_defined; [apply json_at_defined|]. intros v _. apply get_string_defined. Qed.

Lemma get_request_id_defined j : get_request_id j ≠ Undefined.
Proof.
  unfold get_request_id, json_index, json_find. destruct j; try done.
  destruct (obj_find "id" o) as [[]|]; done.
Qed.

Lemma string_names_defined j k : (v ← json_at j k; get_vector get_string v) ≠ Undefined.
Proof.
  apply bind_defined; [apply json_at_defined|]. intros v _. destruct v; try done. simpl.
  apply mapM_defined. intros. apply get_string_defined.
Qed.

Lemma string_set_defined j k : (v ← json_at j k; get_string_set v) ≠ Undefined.
Proof.
  apply bind_defined; [apply json_at_defined|]. intros v _. unfold get_string_set.
  apply bind_defined; [|done]. destruct v; try done. simpl.
  apply mapM_defined. intros. apply get_string_defined.
Qed.

#[local] Hint Resolve json_at_defined string_field_defined get_request_id_defined
  string_names_defined string_set_defined : server.

Lemma handle_login_defined payload hdl : defined (W:=W) [] (handle_login payload hdl).
Proof. unfold handle_login, kick_client. solve_defined. Qed.

Lemma handle_subscribe_defined payload hdl :
  safe_payload payload → defined [] (handle_subscribe H payload hdl).
Proof.
  intros Hp. unfold handle_subscribe. apply defined_bind; [solve_defined|]. intros c.
  apply defined_bind_lift; [apply json_at_defined|]. intros v Hv.
  apply defined_for_each. intros e He. destruct (safe_subscriptions _ Hp v e Hv He).
  solve_defined; try done. apply call_defined; solve_locks.
Qed.

Lemma handle_unsubscribe_defined payload hdl :
  safe_payload payload → defined [] (handle_unsubscribe H payload hdl).
Proof.
  intros Hp. unfold handle_unsubscribe. apply defined_bind; [solve_defined|]. intros c.
  apply defined_bind_lift; [apply json_at_defined|]. intros v Hv.
  apply defined_for_each. intros e He. pose proof (safe_subscription_ids _ Hp v e Hv He).
  solve_defined; try done. apply call_defined; solve_locks.
Qed.

Lemma handle_advertise_defined payload hdl :
  safe_payload payload → defined [] (handle_advertise H payload hdl).
Proof.
  intros Hp. unfold handle_advertise. apply defined_with_lock; [solve_mutex|].
  apply defined_bind; [solve_defined|]. intros pubs.
  apply defined_bind; [solve_defined|]. intros [].
  apply defined_bind_lift; [apply json_at_defined|]. intros v Hv.
  apply defined_for_each. intros e He. pose proof (safe_channels _ Hp v e Hv He).
  solve_defined; try done. apply call_defined; solve_locks.
Qed.

Lemma handle_unadvertise_defined payload hdl :
  safe_payload payload → defined [] (handle_unadvertise H payload hdl).
Proof.
  intros Hp. unfold handle_unadvertise. apply defined_with_lock; [solve_mutex|].
  apply defined_bind; [solve_defined|]. intros [pubs|]; [|solve_defined].
  apply defined_bind_lift; [apply json_at_defined|]. intros v Hv.
  apply defined_for_each. intros e He. pose proof (safe_channel_ids _ Hp v e Hv He).
  solve_defined; try done. apply call_defined; solve_locks.
Qed.

Lemma handle_set_parameters_defined payload hdl :
  safe_payload payload →
  (∀ ps, (v ← json_at payload "parameters"; get_vector Parameter_from_json v) = Ret ps →
         set_safe ps) →
  defined [] (handle_set_parameters H payload hdl).
Proof.
  intros Hp Hset. unfold handle_set_parameters. solve_defined;
    [|apply call_defined; [solve_locks|by apply Hset]].
  destruct (json_at payload "parameters") as [v| |] eqn:E; [|done|by destruct (json_at_defined payload "parameters")].
  destruct v as [| | | | | |l|]; try done. simpl. apply mapM_defined. intros e He.
  apply Parameter_from_json_defined. intros o ->. by eapply safe_parameters.
Qed.

Lemma handle_connection_closed_defined hdl : defined [] (handle_connection_closed H hdl).
Proof.
  unfold handle_connection_closed, ignore_exception. apply defined_bind; [solve_defined|].
  intros [client|]; [|solve_defined].
  apply defined_bind; [solve_defined; apply call_defined; solve_locks|]. intros [].
  apply defined_bind; [solve_defined|]. intros [].
  apply defined_bind; [solve_defined; apply call_defined; solve_locks|]. intros [].
  apply defined_assoc; [apply (forget_names_defined hdl)|]. intros [].
  solve_defined. apply call_defined; solve_locks.
Qed.

(** The counter has room. *)
Definition graph_room (s : St W) : Prop :=
  subscription_count (_connection_graph (srv s)) < INT_MAX.

#[local] Instance graph_room_send : SendStable graph_room.
Proof. by intros s. Qed.

Lemma handle_subscribe_connection_graph_defined hdl :
  defined_if graph_room [] (handle_subscribe_connection_graph H hdl).
Proof.
  unfold handle_subscribe_connection_graph. apply defined_if_bind_any.
  - apply defined_if_with_lock; [solve_mutex|]. intros s Hs. run. unfold graph_room in Hs.
    rewrite decide_False by lia. done.
  - intros b. solve_defined. apply call_defined; solve_locks.
Qed.

(** What an operation asks of the subscriptions to parameters. *)
Definition op_ready (o : client_op) (j : json) (subs : gmap ConnHandle (gset string)) : Prop :=
  match o with
  | SUBSCRIBE_PARAMETER_UPDATES => ∀ names,
      (v ← json_at j "parameterNames"; get_string_set v) = Ret names → subscribe_safe names
  | UNSUBSCRIBE_PARAMETER_UPDATES => ∀ names,
      (v ← json_at j "parameterNames"; get_string_set v) = Ret names →
      unsubscribe_ready names subs
  | SET_PARAMETERS => ∀ ps,
      (v ← json_at j "parameters"; get_vector Parameter_from_json v) = Ret ps → set_safe ps
  | _ => True
  end.

Definition request_ready (j : json) (s : St W) : Prop :=
  graph_room s ∧ ∀ op o, (v ← json_at j "op"; get_string v) = Ret op →
    switch_op (string_hash op) = Some o → op_ready o j (_client_param_subscriptions (srv s)).

#[local] Instance request_ready_send j : SendStable (request_ready j).
Proof. by intros s. Qed.

Lemma run_op_defined o payload hdl :
  safe_payload payload →
  defined_if (λ s, graph_room s ∧ op_ready o payload (_client_param_subscriptions (srv s))) []
    (run_op H o payload hdl).
Proof.
  intros Hp s [Hg Hr]. destruct o; cbn [run_op op_ready] in *;
    try (by apply handle_subscribe_connection_graph_defined);
    try (by apply handle_login_defined || by apply handle_subscribe_defined ||
         by apply handle_unsubscribe_defined || by apply handle_advertise_defined ||
         by apply handle_unadvertise_defined || by apply handle_set_parameters_defined).
  - revert s Hg Hr. intros s _ _. apply (defined_weaken (λ _, True)); [|done].
    unfold handle_get_parameters. solve_defined. apply call_defined; solve_locks.
  - unfold handle_subscribe_parameter_updates.
    apply (defined_bind_lift [] _ (λ names, subscribe_names H names hdl)); [auto with server| |done].
    intros names Hn. by apply subscribe_names_defined, Hr.
  - unfold handle_unsubscribe_parameter_updates.
    apply (defined_if_bind_lift
      (λ s, ∀ names, (v ← json_at payload "parameterNames"; get_string_set v) = Ret names →
                     unsubscribe_ready names (_client_param_subscriptions (srv s)))
      [] _ (λ names, unsubscribe_names H names hdl)); [auto with server| |done].
    intros names Hn s' Hr'. by apply unsubscribe_names_defined, Hr'.
  - apply (defined_weaken (λ _, True)); [|done].
    unfold handle_unsubscribe_connection_graph. solve_defined. apply call_defined; solve_locks.
  - apply (defined_weaken (λ _, True)); [|done].
    unfold handle_fetch_asset. solve_defined; [by apply safe_request_id|apply call_defined; solve_locks].
Qed.

Lemma handle_text_payload_defined payload hdl :
  safe_payload payload → defined_if (request_ready payload) [] (handle_text_payload H hdl payload).
Proof.
  intros Hp. unfold handle_text_payload. apply defined_if_bind_lift; [auto with server|].
  intros op Hop. apply defined_if_bind; [|solve_preserves|].
  { apply defined_weaken. unfold missing_capability, has_capability. solve_defined. }
  intros [cap|]; [apply defined_weaken; solve_defined|].
  apply defined_if_bind; [|apply has_handler_preserves|].
  { apply defined_weaken. unfold has_handler. solve_defined. }
  intros b. destruct (negb b); [apply defined_weaken; solve_defined|].
  apply defined_if_try_catch; [|intros; unfold report_op_failure; solve_defined].
  destruct (switch_op _) as [o|] eqn:Ho; [|apply defined_weaken; solve_defined].
  intros s [Hg Hr]. apply run_op_defined; [done|]. split; [done|by eapply Hr].
Qed.

Lemma new_ClientMessage_data t1 t2 n adv data m :
  (Z.of_nat (length data) <? 5) = false →
  new_ClientMessage t1 t2 n adv (Z.to_nat (Z.of_nat (length data))) data = Ret m →
  getData m ≠ Undefined.
Proof.
  intros Hlen%Z.ltb_ge. unfold new_ClientMessage. rewrite Nat2Z.id, load_ret by lia. intros [= <-].
  unfold getData, getLength, MSG_PAYLOAD_OFFSET. cbn [msg_data]. rewrite drop_0, firstn_all.
  assert (0 ≤ u64 (Z.of_nat (length data) - Z.of_nat 5) ≤ Z.of_nat (length data) - 5).
  { unfold u64. split; [apply Z.mod_pos_bound; lia|]. etrans; [apply Z.mod_le; lia|lia]. }
  rewrite load_ret; [done|lia].
Qed.

Lemma handle_binary_message_defined now hdl data : defined [] (handle_binary_message H now hdl data).
Proof.
  unfold handle_binary_message, handle_message_data, handle_service_call_request, has_capability.
  solve_defined.
  - by rewrite load_ret by (repeat match goal with E : (_ <? _) = false |- _ => apply Z.ltb_ge in E end; lia).
  - unfold new_ClientMessage. rewrite Nat2Z.id, load_ret by lia. done.
  - apply call_defined; [|done]. split; [solve_locks|]. by eapply new_ClientMessage_data.
  - apply ServiceResponse_read_defined.
  - apply call_defined; solve_locks.
Qed.

End Requests.

(** ** Every entry point *)

Definition input_safe (parse : list byte → outcome json) (i : input) : Prop :=
  match i with
  | Message _ _ TEXT payload =>
      parse payload ≠ Undefined ∧ ∀ j, parse payload = Ret j → safe_payload j
  | _ => True
  end.

Definition input_ready {ρ : ParamRequests} {plat : Platform} {W}
    (parse : list byte → outcome json) (i : input) (s : St W) : Prop :=
  graph_room s ∧
  match i with
  | Message _ _ TEXT payload => ∀ j, parse payload = Ret j → request_ready j s
  | _ => True
  end.

(** Handlers that ask nothing of the requests. *)
Lemma input_ready_any {plat : Platform} {W} parse i (s : St W) :
  graph_room s → input_ready (ρ := any_request) parse i s.
Proof.
  intros Hs. split; [done|]. destruct i as [| |? ? [] ?| | | | | | | | | | |]; try done.
  intros j _. split; [done|]. by intros ? [] _ _.
Qed.

(** The text of the status for an exception that leaves the handling of a message. *)
Definition message_error (e : exn) : string :=
  default "Exception occurred when executing message handler" (what e).

Section System.
Context {plat : Platform} {W : Type} {ψ : WorldInv W} (H : ServerHandlers W).
Context {ρ : ParamRequests} `{!HandlersDefined H}.
Context (parse : list byte → outcome json).

Lemma handle_message_defined now hdl op payload :
  input_safe parse (Message now hdl op payload) →
  defined_if (input_ready parse (Message now hdl op payload)) []
    (handle_message H parse now hdl op payload).
Proof.
  intros Hp. unfold handle_message. apply defined_if_try_catch.
  - destruct op; [|exact (defined_weaken _ _ _ (handle_binary_message_defined H now hdl payload))|
      by intros s].
    destruct Hp as [Hd Hsafe]. unfold handle_text_message. intros s [_ Hs]. run.
    destruct (parse payload) as [j|e|]; [|done|done].
    exact (handle_text_payload_defined H j hdl (Hsafe j eq_refl) s (Hs j eq_refl)).
  - intros e. unfold catch_std. solve_defined.
Qed.

Lemma entry_defined i :
  input_safe parse i → defined_if (input_ready parse i) [] (entry H parse i).
Proof.
  intros Hi. destruct i; cbn [entry]; try (by apply handle_message_defined); apply defined_weaken;
    auto using opened_defined, publish_parameter_values_defined,
      update_parameter_values_defined, send_message_defined, broadcast_time_defined, send_service_response_defined,
      update_connection_graph_defined, send_fetch_asset_response_defined.
  - exact (handle_connection_closed_defined H hdl).
  - apply defined_bind; [apply add_channels_defined; set_solver|intros; apply defined_ret].
  - apply remove_channels_defined; set_solver.
  - apply defined_bind; [apply add_services_defined; set_solver|intros; apply defined_ret].
  - apply remove_services_defined; set_solver.
Qed.

(** C13. No entry point has undefined behaviour on an input without the unchecked
    accesses ([input_safe]: no floating-point id out of range, no parameter without a
    name; [input_ready]: the count of graph subscribers does not overflow, and the
    handlers can serve the request), with handlers that are defined on such calls
    ([HandlersDefined]): it never locks a mutex it holds, never dereferences a missing
    element and never reads outside a frame; and what the handlers rely on of their
    own state holds afterwards. *)
Theorem entry_points_defined (i : input) (s : St W) :
  input_safe parse i → input_ready parse i s → state_ok s →
  (entry H parse i [] s).1 ≠ Undefined ∧ state_ok (entry H parse i [] s).2.
Proof.
  intros Hi Hs Hw. pose proof (entry_defined i Hi s Hs Hw) as Hd.
  by destruct (entry H parse i [] s) as [[] ?].
Qed.

Lemma message_returns now hdl op payload (s : St W) :
  input_safe parse (Message now hdl op payload) →
  input_ready parse (Message now hdl op payload) s → state_ok s →
  handle_message H parse now hdl op payload [] s =
  (Ret tt, match (match op with
                  | TEXT => handle_text_message H parse hdl payload
                  | BINARY => handle_binary_message H now hdl payload
                  | OTHER_OPCODE => mret tt
                  end) [] s with
           | (Throw e, s1) =>
               add_trace (delivered_json (net s1) hdl (status_json Error (message_error e)) true) s1
           | (_, s1) => s1
           end).
Proof.
  intros Hi Hs Hw.
  pose proof (defined_if_run _ _ _ s (handle_message_defined now hdl op payload Hi) Hs Hw) as Hd.
  revert Hd. unfold handle_message, try_catch.
  destruct (_ [] s) as [[[]|e|] s'] eqn:E; [done| |done]. intros _.
  unfold catch_std, message_error. destruct (what e); apply send_status_run.
Qed.


End System.
