(* ===== verification/ServerLifecycle.v ===== *)
(** * Logging in and disconnecting

    What becomes of a client's state when it logs in and when its connection is
    closed: every member that mentions it, and the exact sequence of handler
    calls. *)

From Stdlib Require Import ZArith Lia.
From S2P Require Import Prelude Wire Json Serialization ServerState ServerMethods ServerLogic.
From S2P Require Import ServerInv ServerSync ServerSystem ServerSpecs ServerDefined.

Local Open Scope Z_scope.

(** ** Symbolic states

    The members up to what handlers may change, and the handler calls so far. *)

Definition erase (sv : Server) : Server :=
  set_connection_graph sv (set_graph_maps ∅ ∅ ∅ (_connection_graph sv)).

Definition calls_of (tr : list event) : list handler_call :=
  omap (λ e, match e with Call c => Some c | Send _ _ _ => None end) tr.

Definition at_state {W} (sv : Server) (cs : list handler_call) (s : St W) : Prop :=
  erase (srv s) = erase sv ∧ calls_of (trace s) = cs.

Lemma calls_of_app tr1 tr2 : calls_of (tr1 ++ tr2) = calls_of tr1 ++ calls_of tr2.
Proof. apply omap_app. Qed.

Lemma calls_of_sends sends : Forall is_send sends → calls_of sends = [].
Proof. induction 1 as [|e l He _ IH]; [done|]. by destruct e. Qed.

Lemma erase_fields sv1 sv2 :
  erase sv1 = erase sv2 →
  _name sv1 = _name sv2 ∧ _options sv1 = _options sv2 ∧ _clients sv1 = _clients sv2 ∧
  _channels sv1 = _channels sv2 ∧ _client_channels sv1 = _client_channels sv2 ∧
  _client_param_subscriptions sv1 = _client_param_subscriptions sv2 ∧
  _services sv1 = _services sv2 ∧
  subscription_count (_connection_graph sv1) = subscription_count (_connection_graph sv2).
Proof. destruct sv1, sv2. unfold erase. simpl. intros [=]. subst. done. Qed.

(** Updates respect the equivalence. *)
Ltac solve_erase :=
  intros sv1 sv2; destruct sv1, sv2; unfold erase; simpl; intros [=]; subst;
  unfold set_connection_graph, set_clients, set_client_channels, set_param_subscriptions,
    set_graph_maps, set_subscription_count; simpl; congruence.

Lemma erase_set_clients m :
  ∀ sv1 sv2, erase sv1 = erase sv2 → erase (set_clients sv1 m) = erase (set_clients sv2 m).
Proof. solve_erase. Qed.
Lemma erase_set_client_channels m :
  ∀ sv1 sv2, erase sv1 = erase sv2 →
  erase (set_client_channels sv1 m) = erase (set_client_channels sv2 m).
Proof. solve_erase. Qed.
Lemma erase_set_param_subscriptions m :
  ∀ sv1 sv2, erase sv1 = erase sv2 →
  erase (set_param_subscriptions sv1 m) = erase (set_param_subscriptions sv2 m).
Proof. solve_erase. Qed.
Lemma erase_set_count n :
  ∀ sv1 sv2, erase sv1 = erase sv2 →
  erase (set_connection_graph sv1 (set_subscription_count n (_connection_graph sv1))) =
  erase (set_connection_graph sv2 (set_subscription_count n (_connection_graph sv2))).
Proof. solve_erase. Qed.

#[export] Instance at_state_frame_stable {W} sv cs : FrameStable (at_state (W:=W) sv cs).
Proof.
  intros s s' (_ & (p & q & r & E) & (sends & Et & Hs)) [Hsv Hcs]. split.
  - rewrite <-Hsv, E. by destruct (srv s).
  - by rewrite Et, calls_of_app, Hcs, calls_of_sends, app_nil_r.
Qed.

Section Symbolic.
Context {W : Type} (H : ServerHandlers W) `{!HandlersFrame H}.

Lemma triple_update_at f sv cs E :
  (∀ sv', erase sv' = erase sv → erase (f sv') = erase (f sv)) →
  triple (W:=W) (at_state sv cs) (update f) (λ _, at_state (f sv) cs) E.
Proof. intros Hf. apply triple_update. intros s [Hsv Hcs]. split; [by apply Hf|done]. Qed.

Lemma triple_call_at sv cs c :
  is_Some (handler_body H c) →
  triple (at_state sv cs) (call H c) (λ _, at_state sv (cs ++ [c])) (at_state sv (cs ++ [c])).
Proof.
  intros Hc. apply (triple_call H _ (at_state sv (cs ++ [c]))); [done|]. intros s [Hsv Hcs].
  split; [done|]. simpl. by rewrite calls_of_app, Hcs.
Qed.

Lemma triple_ignore_call_at sv cs c E :
  is_Some (handler_body H c) →
  triple (at_state sv cs) (ignore_exception (call H c)) (λ _, at_state sv (cs ++ [c])) E.
Proof.
  intros Hc. eapply triple_try_catch; [by apply triple_call_at|]. intros e. by apply triple_ret.
Qed.

(** A loop of calls whose exceptions are logged. *)
Lemma triple_ignore_calls_at {A} sv cs (l : list A) (c : A → handler_call) E :
  (∀ x, is_Some (handler_body H (c x))) →
  triple (at_state sv cs) (for_each l (λ x, ignore_exception (call H (c x))))
    (λ _, at_state sv (cs ++ (c <$> l))) E.
Proof.
  intros Hc. eapply triple_conseq;
    [apply (triple_for_each_done l _ (λ prev, at_state sv (cs ++ (c <$> prev))) E)| |done..].
  - intros prev x rest _. rewrite fmap_app, app_assoc. by apply triple_ignore_call_at.
  - intros s. by rewrite app_nil_r.
Qed.

Lemma triple_send_status_at sv cs hdl l m E :
  triple (W:=W) (at_state sv cs) (send_status_and_log_msg hdl l m) (λ _, at_state sv cs) E.
Proof. apply triple_send_json, _. Qed.

(** ** Disconnecting *)

(** The members after the connection of client [c] was closed. *)
Definition after_close (hdl : ConnHandle) (c : ClientInfo) (sv : Server) : Server :=
  let sv := set_clients sv (delete hdl (_clients sv)) in
  let sv := set_client_channels sv (delete hdl (_client_channels sv)) in
  let sv := set_param_subscriptions sv (delete hdl (_client_param_subscriptions sv)) in
  if subscribed_to_connection_graph c
  then set_connection_graph sv
         (set_subscription_count (subscription_count (_connection_graph sv) - 1)
            (_connection_graph sv))
  else sv.

(** The parameters nobody is subscribed to once the client is gone. *)
Definition orphaned_params (hdl : ConnHandle) (sv : Server) : list string :=
  unsubscribed (delete hdl (_client_param_subscriptions sv))
    (elements (default ∅ (_client_param_subscriptions sv !! hdl))).

Definition close_calls (hdl : ConnHandle) (c : ClientInfo) (sv : Server) : list handler_call :=
  ((λ id, CallClientUnadvertise id hdl) <$> elements (advertised_channels c)) ++
  ((λ e, CallUnsubscribe e.1 hdl) <$> map_to_list (subscriptions_by_channel c)) ++
  (if is_nil (orphaned_params hdl sv) then []
   else [CallParameterSubscription (orphaned_params hdl sv) UNSUBSCRIBE hdl]) ++
  (if subscribed_to_connection_graph c &&
      bool_decide (subscription_count (_connection_graph sv) - 1 = 0)
   then [CallSubscribeConnectionGraph false] else []).

Lemma unsubscribe_params_at sv cs hdl names E :
  is_Some (parameter_subscription_handler H) →
  triple (at_state sv cs) (unsubscribe_params_without_subscriptions H hdl names)
    (λ _, at_state sv (cs ++ let gone := unsubscribed (_client_param_subscriptions sv)
                                          (elements names) in
                             if is_nil gone then []
                             else [CallParameterSubscription gone UNSUBSCRIBE hdl])) E.
Proof.
  intros Hh. unfold unsubscribe_params_without_subscriptions.
  eapply triple_bind with (R := λ l s, at_state sv cs s ∧
    l = unsubscribed (_client_param_subscriptions sv) (elements names)).
  { apply triple_with_lock. intros L s Hs. rewrite not_subscribed_run. split; [done|].
    by destruct Hs as [(_ & _ & _ & _ & _ & -> & _)%erase_fields _]. }
  intros l. apply triple_pure. intros ->. rewrite bool_decide_eq_true_2 by done.
  cbv zeta. destruct (is_nil _) eqn:En; cbn [negb andb].
  - apply triple_ret. intros s. by rewrite app_nil_r.
  - eapply triple_try_catch; [apply triple_call_at|].
    + destruct Hh as [f Hf]. simpl. by rewrite Hf.
    + intros e. unfold catch_std. destruct (what e); apply triple_send_status_at.
Qed.

(** The handlers a disconnect may call. *)
Definition close_handlers : Prop :=
  is_Some (client_unadvertise_handler H) ∧ is_Some (unsubscribe_handler H) ∧
  is_Some (parameter_subscription_handler H) ∧ is_Some (subscribe_connection_graph_handler H).

(** The count of the connection graph is taken back, and its handler told. *)
Lemma close_graph_at sv cs c E :
  is_Some (subscribe_connection_graph_handler H) →
  triple (at_state sv cs)
    (if subscribed_to_connection_graph c
     then
       with_lock connection_graph_mutex
         (update (λ s, let g := _connection_graph s in
                       set_connection_graph s
                         (set_subscription_count (subscription_count g - 1) g));;
          g ← get _connection_graph;
          if bool_decide (subscription_count g = 0) && true
          then ignore_exception (call H (CallSubscribeConnectionGraph false))
          else mret tt)
     else mret tt)
    (λ _, at_state
            (if subscribed_to_connection_graph c
             then set_connection_graph sv
                    (set_subscription_count (subscription_count (_connection_graph sv) - 1)
                       (_connection_graph sv))
             else sv)
            (cs ++ (if subscribed_to_connection_graph c &&
                       bool_decide (subscription_count (_connection_graph sv) - 1 = 0)
                    then [CallSubscribeConnectionGraph false] else []))) E.
Proof.
  intros Hgr.
  destruct (subscribed_to_connection_graph c); cbn [andb].
  2:{ apply triple_ret. intros s. by rewrite app_nil_r. }
  apply triple_with_lock. eapply triple_bind.
  { apply (triple_update_at (λ s, let g := _connection_graph s in
      set_connection_graph s (set_subscription_count (subscription_count g - 1) g))).
    intros sv' Hsv'. pose proof (erase_fields _ _ Hsv') as (_ & _ & _ & _ & _ & _ & _ & Hn).
    cbv zeta. rewrite Hn. by apply erase_set_count. }
  intros []. eapply triple_bind; [apply triple_get|]. intros g.
  eapply triple_pre with (P' := λ s, at_state _ cs s ∧
    subscription_count g = subscription_count (_connection_graph sv) - 1).
  2:{ intros s [Hs ->]. split; [exact Hs|].
      destruct Hs as [(_ & _ & _ & _ & _ & _ & _ & Hn)%erase_fields _]. by rewrite Hn. }
  apply triple_pure. intros Hg. rewrite Hg.
  case_bool_decide; cbn [andb].
  - apply triple_ignore_call_at. destruct Hgr as [f Hf]. simpl. by rewrite Hf.
  - apply triple_ret. intros s. by rewrite app_nil_r.
Qed.

Lemma handle_connection_closed_at sv cs hdl c E :
  close_handlers → _clients sv !! hdl = Some c →
  triple (at_state sv cs) (handle_connection_closed H hdl)
    (λ _, at_state (after_close hdl c sv) (cs ++ close_calls hdl c sv)) E.
Proof.
  intros (Hua & Hus & Hps & Hgr) Hc. unfold handle_connection_closed.
  rewrite !(bool_decide_eq_true_2 (is_Some _)) by done.
  set (sv1 := set_clients sv (delete hdl (_clients sv))).
  eapply triple_bind with (R := λ oc s, at_state sv1 cs s ∧ oc = Some c).
  { apply triple_with_lock. intros L s [Hsv Hcs]. run.
    pose proof (erase_fields _ _ Hsv) as (_ & _ & Hcl & _). rewrite Hcl, Hc. run.
    rewrite Hcl. split; [|done]. split; [by apply erase_set_clients|done]. }
  intros oc. apply triple_pure. intros ->.
  eapply triple_bind.
  { apply (triple_ignore_calls_at sv1 cs _ (λ id, CallClientUnadvertise id hdl)).
    destruct Hua as [f Hf]. intros x. simpl. by rewrite Hf. }
  intros [].
  set (sv2 := set_client_channels sv1 (delete hdl (_client_channels sv1))).
  eapply triple_bind.
  { apply triple_with_lock.
    apply (triple_update_at (λ s, set_client_channels s (delete hdl (_client_channels s)))).
    intros sv' Hsv'. pose proof (erase_fields _ _ Hsv') as (_ & _ & _ & _ & -> & _).
    by apply erase_set_client_channels. }
  intros []. eapply triple_bind.
  { apply (triple_ignore_calls_at sv2 _ _ (λ e, CallUnsubscribe e.1 hdl)).
    destruct Hus as [f Hf]. intros x. simpl. by rewrite Hf. }
  intros [].
  set (sv3 := set_param_subscriptions sv2 (delete hdl (_client_param_subscriptions sv2))).
  set (cs3 := (cs ++ _) ++ _).
  eapply triple_bind with (R := λ names s, at_state sv3 cs3 s ∧
    names = default ∅ (_client_param_subscriptions sv !! hdl)).
  { apply triple_with_lock. intros L s [Hsv Hcs]. run.
    pose proof (erase_fields _ _ Hsv) as (_ & _ & _ & _ & _ & Hp & _). rewrite Hp.
    split; [|done]. split; [by apply erase_set_param_subscriptions|done]. }
  intros names. apply triple_pure. intros ->.
  eapply triple_bind; [by apply unsubscribe_params_at|]. intros [].
  set (cs4 := cs3 ++ _).
  replace (cs ++ close_calls hdl c sv) with
    (cs4 ++ (if subscribed_to_connection_graph c &&
      bool_decide (subscription_count (_connection_graph sv) - 1 = 0)
      then [CallSubscribeConnectionGraph false] else []))
    by (unfold cs4, cs3, close_calls; by rewrite <-!app_assoc).
  unfold after_close. fold sv1 sv2 sv3.
  by apply (close_graph_at sv3 cs4 c).
Qed.


End Symbolic.

(** ** Logging in *)

Section Login.
Context {W : Type}.
Implicit Types (L : list mutex) (s : St W).

Definition kick_event (user_id user_name : string) (e : ConnHandle * ClientInfo) : event :=
  Send e.1 (Text (kicked_json user_id user_name)) true.

Lemma dump_kicked user_id user_name :
  valid_utf8 user_id = true → valid_utf8 user_name = true →
  dump (kicked_json user_id user_name) = Ret (kicked_json user_id user_name).
Proof.
  intros Hi Hn. apply dump_ret, json_object_dumps. cbn [forallb fst snd dumps].
  rewrite Hi, Hn. vm_compute. reflexivity.
Qed.

Lemma kick_loop_run user_id user_name (l : list (ConnHandle * ClientInfo)) L s :
  valid_utf8 user_id = true → valid_utf8 user_name = true →
  (∀ e, e ∈ l → is_Some (net s !! e.1)) →
  for_each l (kick_client user_id user_name) L s =
  (Ret tt,
   add_trace (kick_event user_id user_name <$> l)
     (set_srv (set_clients (srv s)
                 (foldl (λ m e, alter (set_login false) e.1 m) (_clients (srv s)) l)) s)).
Proof.
  intros Hi Hn. revert s. induction l as [|e l IH]; intros s Hnet; cbn [for_each].
  - unfold add_trace, set_srv. simpl. rewrite app_nil_r, set_clients_same. by destruct s.
  - destruct (Hnet e ltac:(set_solver)) as [con Hcon]. run. unfold kick_client at 1, get_con_from_hdl. run.
    rewrite Hcon, dump_kicked by done. unfold update_client. run. rewrite IH.
    + unfold add_trace, set_srv. simpl. by rewrite <-app_assoc.
    + simpl. intros e' He'. apply Hnet. set_solver.
Qed.

(** A client whose connection is gone cannot be kicked. *)
Lemma kick_loop_throws user_id user_name (l : list (ConnHandle * ClientInfo)) L s :
  (∃ e, e ∈ l ∧ net s !! e.1 = None) →
  ∃ x s', for_each l (kick_client user_id user_name) L s = (Throw x, s') ∧
    dom (_clients (srv s')) = dom (_clients (srv s)).
Proof.
  revert s. induction l as [|e l IH]; intros s (d & Hd & Hnet); [by apply elem_of_nil in Hd|].
  cbn [for_each]. run. unfold kick_client at 1, get_con_from_hdl. run.
  destruct (net s !! e.1) as [con|] eqn:Hcon; [|by eexists _, _].
  destruct (dump _) as [text|x|] eqn:Ht; [|by eexists _, _|by destruct (dump_defined _ Ht)].
  unfold update_client. run.
  edestruct IH as (x & s' & -> & Hdom);
    [|exists x, s'; split; [done|]; by rewrite Hdom; simpl; rewrite dom_alter_L].
  apply elem_of_cons in Hd as [->|Hd]; [congruence|]. by exists d.
Qed.

(** Altering every entry is mapping over the map. *)
Lemma foldl_alter_fmap {A} (f : A → A) (l : list (ConnHandle * A)) (m : gmap ConnHandle A) :
  NoDup l.*1 →
  ∀ h, foldl (λ m e, alter f e.1 m) m l !! h =
       (if decide (h ∈ l.*1) then f <$> m !! h else m !! h).
Proof.
  revert m. induction l as [|e l IH]; intros m Hnd h; [done|]. simpl in *.
  apply NoDup_cons in Hnd as [He Hnd]. rewrite IH by done.
  destruct (decide (h = e.1)) as [->|Hne].
  - rewrite decide_False by done. rewrite decide_True by set_solver. apply lookup_alter_eq.
  - rewrite lookup_alter_ne by done.
    destruct (decide (h ∈ l.*1)); [rewrite decide_True by set_solver|rewrite decide_False by set_solver];
      done.
Qed.

Lemma foldl_alter_all {A} (f : A → A) (m : gmap ConnHandle A) :
  foldl (λ m e, alter f e.1 m) m (map_to_list m) = f <$> m.
Proof.
  apply map_eq. intros h. rewrite foldl_alter_fmap, lookup_fmap by apply NoDup_fst_map_to_list.
  case_decide as Hin; [done|]. destruct (m !! h) as [x|] eqn:E; [|done]. destruct Hin.
  apply list_elem_of_fmap. exists (h, x). split; [done|]. by apply elem_of_map_to_list.
Qed.

(** What a client is sent after its login; a list of channels or services one of which
    has a text that is not UTF-8 is not sent. *)
Definition login_answer (n : gmap ConnHandle Connection) (sv : Server) (hdl : ConnHandle) :
    list event :=
  Send hdl (Text (serverInfo_json sv)) true ::
  delivered_json n hdl (advertise_json (map_to_list (_channels sv)).*2) true ++
  delivered_json n hdl (advertise_services_json
     ((λ e, {| service_base := e.2; svc_id := e.1 |}) <$> map_to_list (_services sv))) true.


End Login.
