(* ===== verification/ServerGraph.v ===== *)
(** * The connection graph

    [update_connection_graph] sends differences; a subscriber that applies them
    to what it has stays equal to the server. *)

From Stdlib Require Import ZArith Lia.
From S2P Require Import Prelude Wire Json Serialization ServerState ServerMethods ServerLogic.
From S2P Require Import ServerInv ServerSync ServerSystem ServerSpecs.

Local Open Scope Z_scope.

(** ** The subscriber's side, as the protocol describes it *)

(** Entries that are sent replace or add, removed names are deleted. *)
Definition apply_entries (entries : list (string * gset string)) (removed : list string)
    (m : MapOfSets) : MapOfSets :=
  filter (λ e, e.1 ∉ removed) (list_to_map entries ∪ m).

Lemma changed_entries_lookup (old new : MapOfSets) t :
  (list_to_map (changed_entries old new) : MapOfSets) !! t =
  match new !! t with
  | Some ids => if decide (old !! t = Some ids) then None else Some ids
  | None => None
  end.
Proof.
  apply option_eq. intros ids. unfold changed_entries.
  rewrite <-elem_of_list_to_map.
  2:{ apply (sublist_NoDup _ (map_to_list new).*1); [apply NoDup_fst_map_to_list|apply fmap_sublist, sublist_filter]. }
  rewrite list_elem_of_filter, elem_of_map_to_list. simpl.
  destruct (new !! t) as [ids'|]; [|naive_solver].
  split; [intros [Hne [= ->]]; by rewrite decide_False|].
  case_decide; [done|]. by intros [= ->].
Qed.

Lemma elem_of_removed_names known names n : n ∈ removed_names known names ↔ n ∈ known ∧ n ∉ names.
Proof. unfold removed_names. rewrite list_elem_of_filter, elem_of_elements. tauto. Qed.

(** What a subscriber has of one kind of entries after an update: the new entries, and
    the old entries of the names that are still there, [others], as entries of the
    other kind. *)
Definition subscriber_view (old new : MapOfSets) (others : gset string) : MapOfSets :=
  new ∪ filter (λ e, e.1 ∈ others) old.

Lemma subscriber_view_lookup old new others t :
  subscriber_view old new others !! t =
  match new !! t with
  | Some ids => Some ids
  | None => if decide (t ∈ others) then old !! t else None
  end.
Proof.
  unfold subscriber_view. rewrite lookup_union. destruct (new !! t) as [ids|]; simpl.
  - by destruct (filter _ _ !! t).
  - rewrite (left_id_L None _). case_decide.
    + apply option_eq. intros ids. rewrite map_lookup_filter_Some. naive_solver.
    + apply map_lookup_filter_None_2. right. by intros.
Qed.

(** Nothing stale is left when both kinds have the same names. *)
Lemma subscriber_view_same old new others : others ⊆ dom new → subscriber_view old new others = new.
Proof.
  intros Ho. apply map_eq. intros t. rewrite subscriber_view_lookup.
  destruct (new !! t) as [ids|] eqn:E; [done|]. rewrite decide_False; [done|].
  intros Ht%Ho. by apply elem_of_dom in Ht as [? ?]; congruence.
Qed.

Lemma apply_difference (old new : MapOfSets) (known others : gset string) :
  dom old ⊆ known →
  apply_entries (changed_entries old new) (removed_names known (dom new ∪ others)) old =
  subscriber_view old new others.
Proof.
  intros Hk. apply map_eq. intros t. apply option_eq. intros ids. unfold apply_entries.
  rewrite map_lookup_filter_Some, lookup_union, changed_entries_lookup, elem_of_removed_names,
    subscriber_view_lookup, elem_of_union, elem_of_dom. simpl.
  destruct (new !! t) as [ids'|] eqn:Hnew.
  - case_decide as Hold; [rewrite Hold|]; simpl; [|destruct (old !! t); simpl]; naive_solver.
  - rewrite (left_id_L None _). assert (¬ is_Some (None : option (gset string))) by by intros [].
    split.
    + intros [Hold Hrm]. assert (t ∈ known) by (apply Hk; by eapply elem_of_dom_2).
      case_decide; [done|]. tauto.
    + case_decide; [|done]. tauto.
Qed.

(** Nothing is sent exactly when a subscriber would see no difference. *)
Lemma changed_entries_nil (old new : MapOfSets) : changed_entries old new = [] ↔ new ⊆ old.
Proof.
  split.
  - intros Hc. apply map_subseteq_spec. intros t ids Hnew.
    pose proof (changed_entries_lookup old new t) as Hl. rewrite Hc, Hnew in Hl.
    by destruct (decide (old !! t = Some ids)).
  - intros Hs. destruct (changed_entries old new) as [|[t ids] l] eqn:E; [done|].
    assert ((t, ids) ∈ changed_entries old new) as He by (rewrite E; left).
    unfold changed_entries in He. apply list_elem_of_filter in He as [Hne Hin].
    apply elem_of_map_to_list in Hin. destruct Hne. by eapply lookup_weaken.
Qed.

Lemma removed_names_nil known names : removed_names known names = [] ↔ known ⊆ names.
Proof.
  split.
  - intros Hr t Ht. destruct (decide (t ∈ names)); [done|].
    assert (t ∈ removed_names known names) as Hin by (by apply elem_of_removed_names).
    rewrite Hr in Hin. by apply elem_of_nil in Hin.
  - intros Hs. destruct (removed_names known names) as [|n l] eqn:E; [done|].
    assert (n ∈ removed_names known names) as [H1 H2]%elem_of_removed_names by (rewrite E; left).
    set_solver.
Qed.

Lemma subscriber_view_old old new others :
  subscriber_view old new others = old ↔ new ⊆ old ∧ dom old ⊆ dom new ∪ others.
Proof.
  split.
  - intros Hv. split.
    + apply map_subseteq_spec. intros t ids Hn. rewrite <-Hv, subscriber_view_lookup. by rewrite Hn.
    + intros t [ids Ht]%elem_of_dom. rewrite <-Hv, subscriber_view_lookup in Ht.
      destruct (new !! t) eqn:En; [apply elem_of_union_l; by eapply elem_of_dom_2|].
      case_decide; [set_solver|done].
  - intros [Hs Hd]. apply map_eq. intros t. rewrite subscriber_view_lookup.
    destruct (new !! t) as [ids|] eqn:En; [symmetry; by eapply lookup_weaken|].
    case_decide as Ho; [done|]. destruct (old !! t) as [ids|] eqn:Eo; [|done].
    apply elem_of_dom_2, Hd in Eo. apply elem_of_union in Eo as [[? ?]%elem_of_dom|?]; [congruence|done].
Qed.

(** ** The update *)

Section Update.
Context {W : Type}.

Record graph_diff := {
  diff_published : list (string * gset string);
  diff_subscribed : list (string * gset string);
  diff_services : list (string * gset string);
  diff_removed_topics : list string;
  diff_removed_services : list string
}.

Definition graph_difference (g : ConnectionGraph) (p q r : MapOfSets) : graph_diff := {|
  diff_published := changed_entries (published_topics g) p;
  diff_subscribed := changed_entries (subscribed_topics g) q;
  diff_services := changed_entries (advertised_services g) r;
  diff_removed_topics := removed_names (dom (published_topics g) ∪ dom (subscribed_topics g))
                                       (dom p ∪ dom q);
  diff_removed_services := removed_names (dom (advertised_services g)) (dom r)
|}.

Definition diff_json (d : graph_diff) : json :=
  graph_update_json (diff_published d) (diff_subscribed d) (diff_services d)
    (diff_removed_topics d) (diff_removed_services d).

(** What a subscriber knows after an update, if it knew [g]. *)
Definition view_after (g : ConnectionGraph) (p q r : MapOfSets) :
    MapOfSets * MapOfSets * MapOfSets :=
  (subscriber_view (published_topics g) p (dom q),
   subscriber_view (subscribed_topics g) q (dom p), r).

(** The messages of an update: one per client that is recorded as a subscriber, none if
    it would see no difference. *)
Definition graph_messages (s : St W) (p q r : MapOfSets) : list event :=
  let g := _connection_graph (srv s) in
  if decide (view_after g p q r =
             (published_topics g, subscribed_topics g, advertised_services g))
  then []
  else map_to_list (_clients (srv s)) ≫= λ c,
         if subscribed_to_connection_graph c.2
         then [Send c.1 (Text (diff_json (graph_difference g p q r))) true] else [].

Lemma nothing_changed g p q r :
  let d := graph_difference g p q r in
  is_nil (diff_published d) && is_nil (diff_subscribed d) && is_nil (diff_services d) &&
  is_nil (diff_removed_topics d) && is_nil (diff_removed_services d) = true ↔
  view_after g p q r = (published_topics g, subscribed_topics g, advertised_services g).
Proof.
  intros d. assert (∀ {A} (l : list A), is_nil l = true ↔ l = []) as Hnil by (by intros A []).
  rewrite !andb_true_iff, !Hnil. unfold d, graph_difference, view_after. cbn.
  rewrite !changed_entries_nil, !removed_names_nil.
  assert (∀ a b c a' b' c' : MapOfSets, (a, b, c) = (a', b', c') ↔ a = a' ∧ b = b' ∧ c = c') as ->
    by naive_solver.
  rewrite !subscriber_view_old. split.
  - intros [[[[Hp Hq] Hr] Ht] Hs]. split_and!; [done|set_solver|done|set_solver|].
    apply (anti_symm (⊆)); [done|]. apply map_subseteq_spec. intros t ids Ho.
    assert (t ∈ dom r) as [ids' Hr']%elem_of_dom by (apply Hs; by eapply elem_of_dom_2).
    pose proof (lookup_weaken _ _ _ _ Hr' Hr). congruence.
  - intros ([Hp Hdp] & [Hq Hdq] & ->). split_and!; [done..|set_solver|done].
Qed.

(** A loop over connected clients, some of which are sent to. *)
Lemma for_each_connected msg clients L (s : St W) :
  (∀ e, e ∈ clients → subscribed_to_connection_graph e.2 = true → is_Some (net s !! e.1)) →
  for_each clients (λ client : ConnHandle * ClientInfo,
    if subscribed_to_connection_graph client.2
    then get_con_from_hdl client.1;; emit (Send client.1 (Text msg) true) else mret tt) L s =
  (Ret tt, add_trace (clients ≫= λ c, if subscribed_to_connection_graph c.2
                                      then [Send c.1 (Text msg) true] else []) s).
Proof.
  revert s. induction clients as [|e l IH]; intros s Hnet; [by rewrite add_trace_nil|].
  cbn [for_each].
  assert (∀ es, (∀ e', e' ∈ l → subscribed_to_connection_graph e'.2 = true →
    is_Some (net (add_trace es s) !! e'.1))) as Hnet'.
  { intros es e' He'. apply Hnet. set_solver. }
  cbn [mbind list_bind]. unfold mbind at 1, M_mbind, M_bind.
  destruct (subscribed_to_connection_graph e.2) eqn:Ef.
  - destruct (Hnet e ltac:(set_solver) Ef) as [con Hcon].
    unfold get_con_from_hdl at 1. run. rewrite Hcon. run.
    etransitivity; [apply (IH (add_trace [Send e.1 (Text msg) true] s)), Hnet'|].
    by rewrite add_trace_app.
  - run. etransitivity; [apply IH; intros e' He'; apply Hnet; set_solver|done].
Qed.

(** C17. A graph update replaces the server's graph, and sends the same difference to
    every client that is recorded as a subscriber (their connections being alive and
    the names UTF-8), or nothing exactly when a subscriber would see no difference.
    Applying the difference to the old graph gives the new services, and the new
    published (subscribed) topics together with the old entries of those topics that
    are only subscribed (published) now; so it gives the new topics when both kinds are
    reported over the same names, as on ROS 2. *)
Theorem graph_update_refines (p q r : MapOfSets) (s : St W) :
  let g := _connection_graph (srv s) in
  let d := graph_difference g p q r in
  (∀ h c, _clients (srv s) !! h = Some c → subscribed_to_connection_graph c = true →
          is_Some (net s !! h)) →
  dumps (diff_json d) = true →
  update_connection_graph p q r [] s =
    (Ret tt, add_trace (graph_messages s p q r)
               (set_srv (set_connection_graph (srv s) (set_graph_maps p q r g)) s)) ∧
  (apply_entries (diff_published d) (diff_removed_topics d) (published_topics g),
   apply_entries (diff_subscribed d) (diff_removed_topics d) (subscribed_topics g),
   apply_entries (diff_services d) (diff_removed_services d) (advertised_services g)) =
  view_after g p q r ∧
  (dom p = dom q → view_after g p q r = (p, q, r)).
Proof.
  intros g d Hnet Hdump. split_and!.
  - unfold update_connection_graph, with_lock. run. rewrite decide_False by set_solver. run.
    fold g. pose proof (nothing_changed g p q r) as Hn. cbn in Hn. unfold graph_messages. fold g.
    case_decide as Heq.
    + rewrite (proj2 Hn) by done. run. unfold add_trace, set_srv. simpl. by rewrite app_nil_r.
    + destruct (_ && _) eqn:Hnil; [by destruct Heq; apply Hn|].
      match goal with |- context [dump ?j] => change j with (diff_json d) end.
      rewrite (dump_ret _ Hdump). run. rewrite decide_False by set_solver.
      cbn [_clients set_connection_graph].
      etransitivity; [apply (for_each_connected _ _ _ (set_srv _ s))|done].
      intros [h c] Hc%elem_of_map_to_list. by eapply Hnet.
  - unfold d, graph_difference, view_after. cbn. rewrite apply_difference by set_solver.
    rewrite (union_comm_L (dom p)), apply_difference by set_solver.
    replace (dom r) with (dom r ∪ ∅) by set_solver. rewrite apply_difference by done.
    by rewrite (subscriber_view_same _ r) by set_solver.
  - intros Hdom. unfold view_after. rewrite !subscriber_view_same; [done|by rewrite Hdom..].
Qed.

End Update.
