(* ===== verification/ServerScenarios.v ===== *)
(** * Sessions

    Instances of the server's specifications on concrete sessions, and sessions
    in which the code does not do what it means to do. *)

From Stdlib Require Import ZArith Lia.
From S2P Require Import Prelude Wire Json Serialization ServerState ServerMethods ServerLogic.
From S2P Require Import ServerInv ServerSync ServerSystem ServerSpecs ServerDefined.
From S2P Require Import ServerLifecycle ServerGraph.

Local Open Scope Z_scope.

(** ** Instances *)

#[export] Instance demo_handlers_defined : HandlersDefined demo_handlers.
Proof.
  apply handlers_always_defined; [done|].
  intros c body L Hb HL s _ _. destruct c; simpl in Hb; try discriminate; injection Hb as <-; try done.
  - by case_decide.
  - by destruct (publish_parameter_values _ _ _ L s) as [[] ?].
  - by destruct subscribe.
Qed.

Lemma add_channels_spec_witness :
  let s := demo_init in
  (add_channels [demo_channel; demo_channel] [] s).1 = Ret [1; 2] ∧
  _channels (srv s) ⊆ _channels (with_channels (srv s) [demo_channel; demo_channel]).
Proof.
  intros s. destruct (add_channels_spec [demo_channel; demo_channel] s) as (Hrun & _ & _ & Hsub).
  - done.
  - split; [by compute|]. intros id [c Hc]. simpl in Hc. by rewrite lookup_empty in Hc.
  - by repeat constructor.
  - by compute.
  - split; [by rewrite Hrun|done].
Defined.

(** A parameterless request is safe. *)
Definition graph_request : json := json_object [("op", JStr "subscribeConnectionGraph")].

Lemma graph_request_safe : safe_payload graph_request.
Proof. split; try done; intros; simplify_eq/=. Qed.

Lemma entry_points_defined_witness :
  (entry (plat:=x86_64) demo_handlers (λ _, Ret graph_request)
     (Message 0 1%nat TEXT []) [] demo_state).1 ≠ Undefined.
Proof.
  apply (entry_points_defined (plat:=x86_64) demo_handlers (λ _, Ret graph_request)).
  - split; [done|]. intros j [= <-]. apply graph_request_safe.
  - apply input_ready_any. vm_compute. reflexivity.
  - exact I.
Defined.


Definition demo_client : ClientInfo :=
  default (new_ClientInfo EmptyString EmptyString EmptyString 0%nat)
    (_clients (srv demo_state) !! 1%nat).


(** Bob logs in while Alice is connected. *)
Definition alice_state : St nat :=
  default demo_init (run_inputs (plat:=x86_64) demo_handlers demo_parse
                       [Opened 1; demo_request 1 0] demo_init).


Lemma graph_update_refines_witness :
  let p := {["/chatter" := ∅; "/scan" := {["/lidar"]}]} : MapOfSets in
  let g := _connection_graph (srv demo_state) in
  let d := graph_difference g p p ∅ in
  apply_entries (diff_published d) (diff_removed_topics d) (published_topics g) = p.
Proof.
  intros p g d.
  destruct (graph_update_refines p p ∅ demo_state) as (_ & Hv & Hp).
  - intros h c Hc _.
    assert (h ∈ dom (_clients (srv demo_state))) as Hh by (by eapply elem_of_dom_2).
    replace (dom (_clients (srv demo_state))) with ({[1%nat]} : gset ConnHandle) in Hh
      by (vm_compute; reflexivity).
    apply elem_of_singleton in Hh as ->. by vm_compute; eexists.
  - vm_compute. reflexivity.
  - apply (f_equal (fst ∘ fst) (eq_trans Hv (Hp eq_refl))).
Defined.

(** ** Sessions that go wrong *)

Definition run_demo (l : list input) : option (St nat) :=
  run_inputs (plat:=x86_64) demo_handlers demo_parse l demo_init.

(** A client that subscribes to parameters without logging in and disconnects
    leaves its subscription behind: the handler stays subscribed for nobody. *)
Theorem disconnect_without_login_leaks :
  ∃ s, run_demo [Opened 1; demo_request 1 3; Closed 1] = Some s ∧
       reachable (plat:=x86_64) demo_handlers demo_parse s ∧
       _clients (srv s) = ∅ ∧
       _client_param_subscriptions (srv s) !! 1%nat = Some {["/a"; "/b"]} ∧
       told_params (trace s) = {["/a"; "/b"]}.
Proof.
  eexists. split; [vm_compute; reflexivity|]. split; [|by vm_compute].
  eapply (run_inputs_reachable demo_handlers demo_parse
            [Opened 1; demo_request 1 3; Closed 1] demo_init); [apply reachable_init|].
  vm_compute. reflexivity.
Qed.

(** The messages that were sent to a client. *)
Definition sent_to (hdl : ConnHandle) (tr : list event) : list message :=
  omap (λ e, match e with
             | Send h m _ => if decide (h = hdl) then Some m else None
             | Call _ => None
             end) tr.

(** Only the first subscriber to the connection graph is marked as one: a second
    client subscribes successfully, and an update of the graph is sent to the
    first client only. *)
Theorem second_graph_subscriber_gets_no_updates :
  ∃ s1 s2,
    run_demo [Opened 1; demo_request 1 0; Opened 2; demo_request 2 6;
              demo_request 1 4; demo_request 2 4] = Some s1 ∧
    run_inputs (plat:=x86_64) demo_handlers demo_parse
      [UpdateConnectionGraph {["/scan" := {["/lidar"]}]} {["/scan" := ∅]} ∅] s1 = Some s2 ∧
    length (sent_to 1 (trace s2)) = S (length (sent_to 1 (trace s1))) ∧
    sent_to 2 (trace s2) = sent_to 2 (trace s1).
Proof.
  eexists _, _. split; [vm_compute; reflexivity|]. split; [vm_compute; reflexivity|].
  split; vm_compute; reflexivity.
Qed.

(** A client that logs in a second time on the same connection logs itself out:
    afterwards nobody is logged in. *)
Theorem second_login_logs_out :
  ∃ s, run_demo [Opened 1; demo_request 1 0; demo_request 1 0] = Some s ∧
       (login <$> _clients (srv s)) = {[1%nat := false]}.
Proof. eexists. split; vm_compute; reflexivity. Qed.

(** A [setParameters] request whose parameter has no name. *)
Definition unnamed_parameter : json :=
  json_object [("op", JStr "setParameters"); ("parameters", JArr [JObj [("value", JInt 1)]])].

(** A request that sets a parameter without a name has undefined behaviour, for
    every state of the server with the capability and the handler. *)
Theorem unnamed_parameter_undefined {plat : Platform} {W} (H : ServerHandlers W)
    (parse : list byte → outcome json) (now : Z) (hdl : ConnHandle) (payload : list byte)
    (s : St W) :
  parse payload = Ret unnamed_parameter →
  CAPABILITY_PARAMETERS ∈ capabilities (_options (srv s)) →
  is_Some (parameter_change_handler H) →
  (handle_message H parse now hdl TEXT payload [] s).1 = Undefined.
Proof.
  intros Hp Hcap Hh.
  assert (switch_op (string_hash "setParameters") = Some SET_PARAMETERS) as Hsw
    by (destruct plat as [be []]; vm_compute; reflexivity).
  unfold handle_message, handle_text_message, handle_text_payload, try_catch. run. rewrite Hp.
  change (json_at unnamed_parameter "op") with (Ret (JStr "setParameters")). run.
  cbn [get_string]. unfold missing_capability, has_capability.
  change (obj_find "setParameters" CAPABILITY_BY_CLIENT_OPERATION)
    with (Some CAPABILITY_PARAMETERS). run.
  rewrite bool_decide_eq_true_2 by done. unfold has_handler. rewrite Hsw. run.
  rewrite bool_decide_eq_true_2 by done. run. done.
Qed.

Lemma unnamed_parameter_undefined_witness :
  (handle_message (plat:=x86_64) demo_handlers (λ _, Ret unnamed_parameter)
     0 1%nat TEXT [] [] demo_init).1 = Undefined.
Proof.
  apply (unnamed_parameter_undefined (plat:=x86_64) demo_handlers); [done| |by eexists].
  apply (bool_decide_unpack _). vm_compute. exact I.
Defined.
