(* ===== verification/CallbackQueue.v ===== *)
(** * The callback queue

    [CallbackQueue] ([callback_queue.hpp]): worker threads that run callbacks in
    the order they were added. The threads are interleaved at every access to the
    mutex, the condition variable and the atomic [_quit]; a wait on the condition
    variable releases the mutex and blocks in one step, after the predicate was
    evaluated.  [stop] is also a function of the schedule of one worker and the thread
    that stops it, for the destructors that join it. *)

From Stdlib Require Import ZArith Lia.
From stdpp Require Import relations.
From S2P Require Import Prelude.

Section Queue.
(** A callback; what it does is up to the client. *)
Context {cb : Type}.

(** Where a worker is in [do_work]. *)
Inductive worker_pc :=
| WLoop                (* [while (!_quit)] *)
| WLock                (* at [unique_lock lock(_mutex)] *)
| WPred                (* holds the mutex, evaluates the predicate of [_cv.wait] *)
| WSleep               (* the predicate was false, about to block *)
| WBlocked             (* blocked in [_cv.wait], the mutex is released *)
| WWoken               (* notified, acquires the mutex again *)
| WTake                (* after the wait, holds the mutex *)
| WRun (c : cb)        (* runs the callback, without the mutex *)
| WDone.

(** Where the thread that stops the queue is. *)
Inductive stop_pc := SIdle | SNotify | SJoin | SStopped.

Record State := mkState {
  _callback_queue : list cb;
  _quit : bool;
  _mutex : option nat;          (* the worker that holds it *)
  _worker_threads : list worker_pc;
  adding : list cb;             (* callbacks that passed the check of [add_callback] *)
  stopping : stop_pc;
  added : list cb;              (* history: callbacks in the order they were queued *)
  taken : list cb               (* history: callbacks in the order they were taken *)
}.

Definition new_CallbackQueue (num_threads : nat) : State :=
  mkState [] false None (replicate num_threads WLoop) [] SIdle [] [].

Definition set_worker (i : nat) (pc : worker_pc) (owner : option nat) (s : State) : State :=
  mkState (_callback_queue s) (_quit s) owner (<[i := pc]> (_worker_threads s)) (adding s)
    (stopping s) (added s) (taken s).

(** [notify_one], [notify_all]. *)
Fixpoint notify_one (ws : list worker_pc) : list worker_pc :=
  match ws with
  | [] => []
  | WBlocked :: ws => WWoken :: ws
  | w :: ws => w :: notify_one ws
  end.

Definition wake (w : worker_pc) : worker_pc :=
  match w with WBlocked => WWoken | _ => w end.

Inductive label := Worker (i : nat) | Spurious (i : nat) | Producer | Stopper.

Inductive step : label → State → State → Prop :=
(* add_callback *)
| step_add_check c s :
    _quit s = false →
    step Producer s
      (mkState (_callback_queue s) (_quit s) (_mutex s) (_worker_threads s) (adding s ++ [c])
         (stopping s) (added s) (taken s))
| step_add_push c l1 l2 s :
    _mutex s = None → adding s = l1 ++ c :: l2 →
    step Producer s
      (mkState (_callback_queue s ++ [c]) (_quit s) None (notify_one (_worker_threads s))
         (l1 ++ l2) (stopping s) (added s ++ [c]) (taken s))
(* stop *)
| step_stop_quit s :
    stopping s = SIdle →
    step Stopper s
      (mkState (_callback_queue s) true (_mutex s) (_worker_threads s) (adding s) SNotify
         (added s) (taken s))
| step_stop_notify s :
    stopping s = SNotify →
    step Stopper s
      (mkState (_callback_queue s) (_quit s) (_mutex s) (wake <$> _worker_threads s) (adding s)
         SJoin (added s) (taken s))
| step_stop_join s :
    stopping s = SJoin → Forall (λ w, w = WDone) (_worker_threads s) →
    step Stopper s
      (mkState (_callback_queue s) (_quit s) (_mutex s) (_worker_threads s) (adding s) SStopped
         (added s) (taken s))
(* do_work *)
| step_loop i s :
    _worker_threads s !! i = Some WLoop →
    step (Worker i) s (set_worker i (if _quit s then WDone else WLock) (_mutex s) s)
| step_lock i s :
    _worker_threads s !! i = Some WLock → _mutex s = None →
    step (Worker i) s (set_worker i WPred (Some i) s)
| step_pred i s :
    _worker_threads s !! i = Some WPred →
    step (Worker i) s
      (set_worker i
         (if _quit s then WTake
          else match _callback_queue s with [] => WSleep | _ :: _ => WTake end) (_mutex s) s)
| step_sleep i s :
    _worker_threads s !! i = Some WSleep →
    step (Worker i) s (set_worker i WBlocked None s)
| step_spurious i s :
    _worker_threads s !! i = Some WBlocked →
    step (Spurious i) s (set_worker i WWoken (_mutex s) s)
| step_woken i s :
    _worker_threads s !! i = Some WWoken → _mutex s = None →
    step (Worker i) s (set_worker i WPred (Some i) s)
| step_take_quit i s :
    _worker_threads s !! i = Some WTake → _quit s = true →
    step (Worker i) s (set_worker i WDone None s)
| step_take i c q s :
    _worker_threads s !! i = Some WTake → _quit s = false → _callback_queue s = c :: q →
    step (Worker i) s
      (mkState q (_quit s) None (<[i := WRun c]> (_worker_threads s)) (adding s) (stopping s)
         (added s) (taken s ++ [c]))
| step_take_empty i s :
    _worker_threads s !! i = Some WTake → _quit s = false → _callback_queue s = [] →
    step (Worker i) s (set_worker i WLoop None s)
(* the exceptions of a callback are caught *)
| step_run i c s :
    _worker_threads s !! i = Some (WRun c) →
    step (Worker i) s (set_worker i WLoop (_mutex s) s).

(** *** Running a schedule *)

(** The step of a worker, when it can take one. *)
Definition exec_worker (i : nat) (s : State) : option State :=
  match _worker_threads s !! i with
  | Some WLoop => Some (set_worker i (if _quit s then WDone else WLock) (_mutex s) s)
  | Some (WLock | WWoken) =>
      match _mutex s with None => Some (set_worker i WPred (Some i) s) | Some _ => None end
  | Some WPred =>
      Some (set_worker i
        (if _quit s then WTake
         else match _callback_queue s with [] => WSleep | _ :: _ => WTake end) (_mutex s) s)
  | Some WSleep => Some (set_worker i WBlocked None s)
  | Some WTake =>
      if _quit s then Some (set_worker i WDone None s)
      else match _callback_queue s with
           | c :: q =>
               Some (mkState q (_quit s) None (<[i := WRun c]> (_worker_threads s)) (adding s)
                       (stopping s) (added s) (taken s ++ [c]))
           | [] => Some (set_worker i WLoop None s)
           end
  | Some (WRun _) => Some (set_worker i WLoop (_mutex s) s)
  | Some (WBlocked | WDone) | None => None
  end.

Definition is_done (w : worker_pc) : bool := match w with WDone => true | _ => false end.

(** The statements of [stop]: set the flag, notify, join. *)
Definition exec_stop (s : State) : option State :=
  match stopping s with
  | SIdle => Some (mkState (_callback_queue s) true (_mutex s) (_worker_threads s) (adding s)
                     SNotify (added s) (taken s))
  | SNotify => Some (mkState (_callback_queue s) (_quit s) (_mutex s)
                       (wake <$> _worker_threads s) (adding s) SJoin (added s) (taken s))
  | SJoin =>
      if forallb is_done (_worker_threads s)
      then Some (mkState (_callback_queue s) (_quit s) (_mutex s) (_worker_threads s) (adding s)
                   SStopped (added s) (taken s))
      else None
  | SStopped => None
  end.

(** Nobody adds callbacks any more. *)
Definition exec (l : label) (s : State) : option State :=
  match l with
  | Worker i => exec_worker i s
  | Spurious i => match _worker_threads s !! i with
                  | Some WBlocked => Some (set_worker i WWoken (_mutex s) s)
                  | _ => None
                  end
  | Stopper => exec_stop s
  | Producer => None
  end.

(** A thread that cannot move when it is its turn waits. *)
Definition run_schedule (sched : list label) (s : State) : State :=
  foldl (λ s l, default s (exec l s)) s sched.

Definition is_stopped (p : stop_pc) : bool := match p with SStopped => true | _ => false end.

(** [stop], with the threads scheduled so; [None] when it has not returned. *)
Definition stop (sched : list label) (s : State) : option State :=
  let s := run_schedule sched s in
  if is_stopped (stopping s) then Some s else None.

Lemma forallb_done ws : forallb is_done ws = true ↔ Forall (λ w, w = WDone) ws.
Proof.
  rewrite forallb_forall, Forall_forall. setoid_rewrite list_elem_of_In.
  split; intros H w Hw; specialize (H w Hw); [by destruct w|by subst].
Qed.

Lemma exec_step l s s' : l ≠ Producer → exec l s = Some s' ↔ step l s s'.
Proof.
  intros Hl. split.
  - destruct l as [i|i| |]; simpl; [unfold exec_worker| |done|unfold exec_stop].
    + destruct (_worker_threads s !! i) as [[]|] eqn:Hi; try done;
        try (intros [= <-]; first [by apply step_loop|by apply step_pred|by apply step_sleep
                                  |by eapply step_run]);
        repeat (case_match; try done); intros [= <-];
        first [by apply step_lock|by apply step_woken|by apply step_take_quit
              |by apply step_take_empty|rewrite <-H; by eapply step_take].
    + destruct (_worker_threads s !! i) as [[]|] eqn:Hi; try done. intros [= <-]. by constructor.
    + destruct (stopping s) eqn:Hs; try done; [intros [= <-]; by constructor..|].
      destruct (forallb _ _) eqn:Hf; [|done]. intros [= <-]. constructor; [done|].
      by apply forallb_done.
  - destruct 1 as [| |s Hs|s Hs|s Hs Hf|i s Hi|i s Hi Hm|i s Hi|i s Hi|i s Hi|i s Hi Hm|i s Hi Hq
      |i c q s Hi Hq Hc|i s Hi Hq Hc|i c s Hi]; try done; simpl; unfold exec_worker, exec_stop.
    3: rewrite (proj2 (forallb_done _) Hf).
    all: by rewrite ?Hs, ?Hi, ?Hm, ?Hq, ?Hc.
Qed.

Inductive reachable (n : nat) : State → Prop :=
| reachable_new : reachable n (new_CallbackQueue n)
| reachable_step l s s' : reachable n s → step l s s' → reachable n s'.

(** ** Invariants *)

(** A worker that holds the mutex. *)
Definition holds (w : worker_pc) : bool :=
  match w with WPred | WSleep | WTake => true | _ => false end.

Record queue_inv (s : State) : Prop := {
  (** first in, first out, nothing lost or duplicated *)
  qi_fifo : added s = taken s ++ _callback_queue s;
  (** the mutex has the holder it says *)
  qi_mutex i w : _worker_threads s !! i = Some w → holds w = true → _mutex s = Some i;
  qi_held i : _mutex s = Some i → ∃ w, _worker_threads s !! i = Some w ∧ holds w = true;
  (** a worker that decided to sleep saw an empty queue, which nobody could fill since *)
  qi_sleep i : _worker_threads s !! i = Some WSleep → _callback_queue s = [];
  qi_quit : stopping s ≠ SIdle → _quit s = true
}.

Lemma notify_one_holds ws i w :
  notify_one ws !! i = Some w → ws !! i = Some w ∨ w = WWoken.
Proof.
  revert i. induction ws as [|w' ws IH]; intros i; [done|].
  destruct w', i; simpl; try (by left; simplify_eq/=); try apply IH; naive_solver.
Qed.

Lemma notify_one_holds_inv ws i w :
  holds w = true → ws !! i = Some w → notify_one ws !! i = Some w.
Proof.
  intros Hw. revert i. induction ws as [|w' ws IH]; intros i; [done|].
  destruct w', i; simpl; intros; simplify_eq/=; auto.
Qed.

Lemma new_queue_inv n : queue_inv (new_CallbackQueue n).
Proof.
  split; simpl; try done. intros i w [-> _]%lookup_replicate. done.
Qed.

(** A worker moves, the queue stays. *)
Lemma set_worker_inv i w pc owner s :
  queue_inv s → _worker_threads s !! i = Some w →
  (∀ j, j ≠ i → _mutex s = Some j → owner = Some j) →
  (holds pc = true → owner = Some i) →
  (∀ j, owner = Some j → (j = i ∧ holds pc = true) ∨ (j ≠ i ∧ _mutex s = Some j)) →
  (pc = WSleep → _callback_queue s = []) →
  queue_inv (set_worker i pc owner s).
Proof.
  intros [] Hw Hother Hpc Howner Hsleep.
  assert (i < length (_worker_threads s))%nat by (by eapply lookup_lt_Some).
  split; simpl; try done.
  - intros j w' Hj Hh. destruct (decide (j = i)) as [->|Hne].
    + rewrite list_lookup_insert_eq in Hj by done. simplify_eq. auto.
    + rewrite list_lookup_insert_ne in Hj by done. eauto.
  - intros j [[-> ?]|[Hne Hm]]%Howner.
    + exists pc. by rewrite list_lookup_insert_eq.
    + rewrite list_lookup_insert_ne by done. eauto.
  - intros j Hj. destruct (decide (j = i)) as [->|Hne].
    + rewrite list_lookup_insert_eq in Hj by done. simplify_eq. auto.
    + rewrite list_lookup_insert_ne in Hj by done. eauto.
Qed.

(** A worker that holds the mutex is the only one. *)
Lemma holder s i w :
  queue_inv s → _worker_threads s !! i = Some w → holds w = true → _mutex s = Some i.
Proof. intros [] Hw Hh. eauto. Qed.

Lemma not_holder s i w j :
  queue_inv s → _worker_threads s !! i = Some w → holds w = false → _mutex s = Some j → j ≠ i.
Proof. intros [] Hw Hh (w' & ? & ?)%qi_held0 ->. simplify_eq. congruence. Qed.

(** [notify_all] wakes every worker that waits. *)
Lemma notify_all_inv s :
  stopping s = SNotify → queue_inv s →
  queue_inv (mkState (_callback_queue s) (_quit s) (_mutex s) (wake <$> _worker_threads s)
               (adding s) SJoin (added s) (taken s)).
Proof.
  intros Hst Hinv. destruct Hinv as [Hf Hmu Hh Hs Hq]. split; simpl; try done.
  - intros i w Hi Hw. rewrite list_lookup_fmap in Hi. apply fmap_Some in Hi as (w' & Hi & ->).
    apply (Hmu i w' Hi). by destruct w'.
  - intros i (w & Hi & Hw)%Hh. exists w. rewrite list_lookup_fmap, Hi. split; [|done].
    by destruct w.
  - intros i Hi. rewrite list_lookup_fmap in Hi. apply fmap_Some in Hi as (w' & Hi & E).
    apply (Hs i). by destruct w'.
  - intros _. apply Hq. congruence.
Qed.

Lemma step_inv l s s' : queue_inv s → step l s s' → queue_inv s'.
Proof.
  intros Hinv Hstep. destruct Hstep as
    [c s|c l1 l2 s Hm Ha|s|s|s|i s Hw|i s Hw Hm|i s Hw|i s Hw|i s Hw|i s Hw Hm|i s Hw Hq
    |i c q s Hw Hq Hcq|i s Hw Hq Hcq|i c s Hw].
  - by destruct Hinv.
  - destruct Hinv as [Hf Hmu Hh Hs Hq]. split; simpl; try done.
    + by rewrite Hf, app_assoc.
    + intros i w [Hi| ->]%notify_one_holds Hw; [|done]. rewrite (Hmu i w Hi Hw) in Hm. done.
    + intros i [Hi|?]%notify_one_holds; [|done]. rewrite (Hmu i WSleep Hi) in Hm; done.
  - destruct Hinv. by split.
  - by apply notify_all_inv.
  - destruct Hinv as [Hf Hmu Hh Hs Hq]. split; simpl; try done. intros _. apply Hq. congruence.
  - apply (set_worker_inv i WLoop); try done; destruct (_quit s); try done;
      right; (split; [|done]); by eapply not_holder.
  - apply (set_worker_inv i WLock); try done; [congruence|]. intros j [= <-]. by left.
  - pose proof (holder s i _ Hinv Hw eq_refl) as Hm.
    apply (set_worker_inv i WPred); try done; rewrite ?Hm.
    + intros j [= <-]. left. by destruct (_quit s), (_callback_queue s).
    + by destruct (_quit s), (_callback_queue s).
  - pose proof (holder s i _ Hinv Hw eq_refl) as Hm.
    apply (set_worker_inv i WSleep); try done. intros j Hj Hmj. congruence.
  - apply (set_worker_inv i WBlocked); try done.
    right; (split; [|done]); by eapply not_holder.
  - apply (set_worker_inv i WWoken); try done; [congruence|]. intros j [= <-]. by left.
  - pose proof (holder s i _ Hinv Hw eq_refl) as Hm.
    apply (set_worker_inv i WTake); try done. intros j Hj Hmj. congruence.
  - pose proof (holder s i _ Hinv Hw eq_refl) as Hm.
    assert (queue_inv (set_worker i (WRun c) None s)) as Hi.
    { apply (set_worker_inv i WTake); try done. intros j Hj Hmj. congruence. }
    destruct Hi as [Hf Hmu Hh Hs Hqt]. split; try done; simpl in *.
    + by rewrite Hf, Hcq, <-app_assoc.
    + intros j Hj%Hs. by rewrite Hcq in Hj.
  - pose proof (holder s i _ Hinv Hw eq_refl) as Hm.
    apply (set_worker_inv i WTake); try done. intros j Hj Hmj. congruence.
  - apply (set_worker_inv i (WRun c)); try done.
    right; (split; [|done]); by eapply not_holder.
Qed.

Lemma reachable_inv n s : reachable n s → queue_inv s.
Proof. induction 1; [apply new_queue_inv|by eapply step_inv]. Qed.

(** *** Properties *)

(** Callbacks are taken in the order they were added, each once: what was added is
    what was taken followed by what is queued, under every interleaving of any
    number of workers, producers and a stop. The mutex protects the queue: at most
    one worker is inside. *)
Theorem callbacks_fifo (n : nat) (s : State) :
  reachable n s →
  added s = taken s ++ _callback_queue s ∧
  ∀ i j wi wj, _worker_threads s !! i = Some wi → _worker_threads s !! j = Some wj →
    holds wi = true → holds wj = true → i = j.
Proof.
  intros Hinv%reachable_inv. split; [apply qi_fifo, Hinv|].
  intros i j wi wj Hi Hj Hwi Hwj.
  pose proof (holder s i wi Hinv Hi Hwi). pose proof (holder s j wj Hinv Hj Hwj). congruence.
Qed.

(** ** One worker, as the server has it *)

(** With callbacks queued, the worker is not blocked; it ends only after a stop. *)
Definition awake (s : State) : Prop :=
  ∃ w, _worker_threads s = [w] ∧ (_callback_queue s ≠ [] → w ≠ WBlocked) ∧
       (w = WDone → _quit s = true).

Lemma set_worker_awake i w w' pc owner s :
  _worker_threads s = [w] → _worker_threads s !! i = Some w' →
  (_callback_queue s ≠ [] → pc ≠ WBlocked) → (pc = WDone → _quit s = true) →
  awake (set_worker i pc owner s).
Proof.
  intros Hws Hi Hq Hd. rewrite Hws in Hi. destruct i; [|done].
  exists pc. simpl. by rewrite Hws.
Qed.

Lemma step_awake l s s' : queue_inv s → awake s → step l s s' → awake s'.
Proof.
  intros Hinv (w & Hws & Hb & Hd) Hstep. destruct Hstep as
    [c s|c l1 l2 s Hm Ha|s|s|s|i s Hw|i s Hw Hm|i s Hw|i s Hw|i s Hw|i s Hw Hm|i s Hw Hq
    |i c q s Hw Hq Hcq|i s Hw Hq Hcq|i c s Hw].
  - by exists w.
  - exists (wake w). simpl. rewrite Hws. split; [by destruct w|]. split; [by destruct w|].
    intros E. apply Hd. by destruct w.
  - by exists w.
  - exists (wake w). simpl. rewrite Hws. split; [done|]. split; [by destruct w|].
    intros E. apply Hd. by destruct w.
  - by exists w.
  - eapply set_worker_awake; try done; by destruct (_quit s).
  - by eapply set_worker_awake.
  - eapply set_worker_awake; try done; by destruct (_quit s), (_callback_queue s).
  - eapply set_worker_awake; try done. by rewrite (qi_sleep _ Hinv _ Hw).
  - by eapply set_worker_awake.
  - by eapply set_worker_awake.
  - by eapply set_worker_awake.
  - exists (WRun c). rewrite Hws in Hw. destruct i; [|done]. simpl. by rewrite Hws.
  - by eapply set_worker_awake.
  - by eapply set_worker_awake.
Qed.

Lemma reachable_awake s : reachable 1 s → awake s.
Proof.
  intros Hr. induction Hr as [|l s s' Hr IH Hstep]; [by exists WLoop|].
  eapply step_awake; [by eapply reachable_inv|done|done].
Qed.

(** The worker runs on its own until it takes a callback. *)
Inductive takes (c : cb) : State → Prop :=
| takes_now s s' : step (Worker 0) s s' → taken s' = taken s ++ [c] → takes c s
| takes_later s s' :
    step (Worker 0) s s' → taken s' = taken s → takes c s' → takes c s.

Lemma takes_from_take c q s :
  _worker_threads s = [WTake] → _quit s = false → _callback_queue s = c :: q → takes c s.
Proof. intros Hw Hq Hc. eapply takes_now; [by eapply (step_take 0); rewrite ?Hw|done]. Qed.

Lemma takes_from_pred c q s :
  _worker_threads s = [WPred] → _quit s = false → _callback_queue s = c :: q → takes c s.
Proof.
  intros Hw Hq Hc. eapply takes_later; [by apply (step_pred 0); rewrite Hw|done|].
  rewrite Hq, Hc. eapply takes_from_take; simpl; [by rewrite Hw|done..].
Qed.

Lemma takes_from_lock c q s :
  _worker_threads s = [WLock] ∨ _worker_threads s = [WWoken] → _mutex s = None →
  _quit s = false → _callback_queue s = c :: q → takes c s.
Proof.
  intros [Hw|Hw] Hm Hq Hc.
  - eapply takes_later; [by apply (step_lock 0); rewrite ?Hw|done|].
    eapply takes_from_pred; simpl; [by rewrite Hw|done..].
  - eapply takes_later; [by apply (step_woken 0); rewrite ?Hw|done|].
    eapply takes_from_pred; simpl; [by rewrite Hw|done..].
Qed.

Lemma takes_from_loop c q s :
  _worker_threads s = [WLoop] → _mutex s = None →
  _quit s = false → _callback_queue s = c :: q → takes c s.
Proof.
  intros Hw Hm Hq Hc. eapply takes_later; [by apply (step_loop 0); rewrite Hw|done|].
  rewrite Hq. eapply takes_from_lock; simpl; [left; by rewrite Hw|done..].
Qed.

Lemma queued_callback_taken (s : State) (c : cb) (q : list cb) :
  reachable 1 s → _quit s = false → _callback_queue s = c :: q → takes c s.
Proof.
  intros Hr Hq Hc. pose proof (reachable_inv _ _ Hr) as Hinv.
  destruct (reachable_awake s Hr) as (w & Hws & Hb & Hd).
  assert (holds w = false → _mutex s = None) as Hm.
  { intros Hh. destruct (_mutex s) as [j|] eqn:E; [|done].
    destruct (qi_held _ Hinv j E) as (w' & Hj & Hw'). rewrite Hws in Hj.
    destruct j; simplify_eq/=. congruence. }
  destruct w as [| | | | | | |c'|].
  - by eapply takes_from_loop; eauto.
  - by eapply takes_from_lock; eauto.
  - by eapply takes_from_pred.
  - rewrite (qi_sleep _ Hinv 0) in Hc by (by rewrite Hws). done.
  - exfalso. apply Hb; [by rewrite Hc|done].
  - by eapply takes_from_lock; eauto.
  - by eapply takes_from_take.
  - eapply takes_later; [by apply (step_run 0 c'); rewrite Hws|done|].
    eapply takes_from_loop; simpl; [by rewrite Hws|auto..|done].
  - by rewrite (Hd eq_refl) in Hq.
Qed.

(** *** Properties *)

(** No callback waits forever in a running queue: whenever one is queued, the
    worker is on its way to take the first one, and gets there by its own steps. *)
Theorem queued_callback_is_taken (s : State) (c : cb) (q : list cb) :
  reachable 1 s → _quit s = false → _callback_queue s = c :: q → takes c s.
Proof. apply queued_callback_taken. Qed.

(** Stopping discards what is queued: once [_quit] is set no callback is taken
    any more. *)
Theorem stop_discards_queue (s s' : State) :
  _quit s = true → rtc (λ s1 s2, ∃ l, step l s1 s2) s s' →
  _quit s' = true ∧ taken s' = taken s.
Proof.
  intros Hq Hrtc. revert Hq. induction Hrtc as [s|s s1 s2 [l Hstep] _ IH]; intros Hq; [done|].
  assert (_quit s1 = true ∧ taken s1 = taken s) as [Hq1 Ht1]
    by (destruct Hstep; simpl; split; congruence).
  destruct (IH Hq1). split; congruence.
Qed.

(** ** Stopping a queue with one worker *)

Definition one_worker (s : State) : Prop := queue_inv s ∧ length (_worker_threads s) = 1%nat.

Lemma exec_one_worker l s : one_worker s → one_worker (default s (exec l s)).
Proof.
  intros [Hi Hl]. destruct (exec l s) as [s'|] eqn:E; [|done]. simpl.
  assert (l ≠ Producer) as Hp by (by intros ->). apply exec_step in E; [|done].
  split; [by eapply step_inv|]. destruct E; simpl; rewrite ?length_insert, ?length_fmap; done.
Qed.

Lemma run_schedule_one_worker sched s : one_worker s → one_worker (run_schedule sched s).
Proof.
  revert s. induction sched as [|l sched IH]; intros s Hs; [done|].
  apply IH. by apply exec_one_worker.
Qed.

Lemma run_schedule_app l1 l2 s : run_schedule (l1 ++ l2) s = run_schedule l2 (run_schedule l1 s).
Proof. apply foldl_app. Qed.

(** With nothing queued and nobody adding, no callback is taken. *)
Lemma idle_exec l s :
  _callback_queue s = [] →
  let s' := default s (exec l s) in _callback_queue s' = [] ∧ taken s' = taken s.
Proof.
  intros Hq. destruct (exec l s) as [s'|] eqn:E; [|done]. simpl.
  assert (l ≠ Producer) as Hl by (by intros ->). apply exec_step in E; [|done].
  destruct E; try done; congruence.
Qed.

Lemma idle_schedule sched s :
  _callback_queue s = [] → taken (run_schedule sched s) = taken s.
Proof.
  revert s. induction sched as [|l sched IH]; intros s Hq; [done|].
  destruct (idle_exec l s Hq) as [Hq' Ht]. cbn [run_schedule foldl] in *.
  rewrite <-Ht. by apply IH.
Qed.

Lemma schedule_taken sched s : (length (taken s) ≤ length (taken (run_schedule sched s)))%nat.
Proof.
  revert s. induction sched as [|l sched IH]; intros s; [done|]. etrans; [|apply (IH _)].
  destruct (exec l s) as [s'|] eqn:E; [|done]. simpl.
  apply exec_step in E; [|by destruct l]. destruct E; simpl; rewrite ?length_app; simpl; lia.
Qed.

Definition not_stopper (l : label) : bool := match l with Stopper => false | _ => true end.
Definition is_worker (l : label) : bool := match l with Worker 0 => true | _ => false end.

(** How many steps the worker is away from its end once [_quit] is set. *)
Definition to_end (w : worker_pc) : option nat :=
  match w with
  | WDone => Some 0 | WTake | WLoop => Some 1 | WPred | WRun _ => Some 2
  | WLock | WWoken => Some 3 | WSleep | WBlocked => None
  end.

(** On the way to its end, [n] steps away. *)
Definition ending (n : nat) (p : stop_pc) (s : State) : Prop :=
  queue_inv s ∧ _quit s = true ∧ stopping s = p ∧
  ∃ w k, _worker_threads s = [w] ∧ to_end w = Some k ∧ (k ≤ n)%nat.

Lemma one_worker_mutex s w :
  queue_inv s → _worker_threads s = [w] → holds w = false → _mutex s = None.
Proof.
  intros Hinv Hws Hh. destruct (_mutex s) as [j|] eqn:E; [|done].
  destruct (qi_held _ Hinv j E) as (w' & Hj & Hw'). rewrite Hws in Hj.
  destruct j; simplify_eq/=. congruence.
Qed.

Lemma ending_exec n p l s :
  not_stopper l = true → ending n p s →
  ending (if is_worker l then pred n else n) p (default s (exec l s)).
Proof.
  intros Hl (Hr & Hq & Hp & w & k & Hws & Hk & Hle).
  split; [by apply exec_one_worker; split; [|rewrite Hws]|].
  pose proof (one_worker_mutex s w Hr Hws) as Hm.
  destruct l as [i|i| |]; [| |by split_and!; eauto|done]; simpl.
  - unfold exec_worker. rewrite Hws. destruct i as [|i]; [|by split_and!; eauto]. cbn [lookup list_lookup].
    destruct w; simpl in Hk; simplify_eq; rewrite ?Hm, ?Hq by done; simpl; rewrite ?Hws;
      (split_and!; [done..|]); eexists _, _; (split; [done|]); (split; [done|]); simpl; lia.
  - rewrite Hws. destruct i as [|i]; [|by split_and!; eauto]. cbn [lookup list_lookup].
    destruct w; try done; by split_and!; eauto.
Qed.

Lemma ending_schedule sched n p s :
  forallb not_stopper sched = true → ending n p s →
  ending (n - length (filter (λ l, is_worker l = true) sched)) p (run_schedule sched s).
Proof.
  revert n s. induction sched as [|l sched IH]; intros n s; simpl; [by rewrite Nat.sub_0_r|].
  intros [Hl Hs]%andb_true_iff He. apply (ending_exec _ _ l) in He; [|done].
  specialize (IH _ _ Hs He). rewrite filter_cons. destruct (is_worker l) eqn:E.
  - rewrite decide_True by done. simpl. by replace (n - S _)%nat with (pred n - length
      (filter (λ l, is_worker l = true) sched))%nat by lia.
  - by rewrite decide_False.
Qed.

Lemma schedule_stopping sched s :
  forallb not_stopper sched = true →
  stopping (run_schedule sched s) = stopping s ∧
  (_quit s = true → _quit (run_schedule sched s) = true).
Proof.
  revert s. induction sched as [|l sched IH]; intros s; [done|]. cbn [forallb].
  intros [Hl Hs]%andb_true_iff. cbn [run_schedule foldl].
  assert (stopping (default s (exec l s)) = stopping s ∧
          (_quit s = true → _quit (default s (exec l s)) = true)) as [<- Hq].
  { destruct (exec l s) as [s'|] eqn:E; [|done]. simpl.
    apply exec_step in E; [|by destruct l]. by destruct E. }
  destruct (IH (default s (exec l s)) Hs) as [H1 H2]. split; [exact H1|]. auto.
Qed.

(** The wakeup of [stop] is not lost: when it notifies, the worker is not between its
    test of the predicate and the wait. Afterwards the worker gets its turns, and
    [stop] is scheduled when it is done. *)
Definition wakeup_kept (sched : list label) (s : State) : Prop :=
  ∃ before between after,
    sched = before ++ Stopper :: between ++ Stopper :: after ++ [Stopper] ∧
    forallb not_stopper before = true ∧ forallb not_stopper between = true ∧
    forallb not_stopper after = true ∧
    (3 ≤ length (filter (λ l, is_worker l = true) after))%nat ∧
    _worker_threads (run_schedule (before ++ Stopper :: between) s) ≠ [WSleep].

Lemma stop_returns_kept sched s :
  one_worker s → stopping s = SIdle → wakeup_kept sched s → ∃ s', stop sched s = Some s'.
Proof.
  intros Hr Hst (l1 & l2 & l3 & -> & H1 & H2 & H3 & Hn & Hw).
  set (s1 := run_schedule (l1 ++ Stopper :: l2) s) in *.
  assert (one_worker s1 ∧ stopping s1 = SNotify ∧ _quit s1 = true) as (Hr1 & Hst1 & Hq1).
  { split; [by apply run_schedule_one_worker|]. unfold s1. rewrite run_schedule_app.
    set (s0 := run_schedule l1 s). destruct (schedule_stopping l1 s H1) as [Hs0 _]. fold s0 in Hs0.
    change (run_schedule (Stopper :: l2) s0) with (run_schedule l2 (default s0 (exec_stop s0))).
    unfold exec_stop. rewrite Hs0, Hst. simpl.
    match goal with |- context [run_schedule l2 ?t] =>
      destruct (schedule_stopping l2 t H2) as [Ha Hb] end. split; [exact Ha|by apply Hb]. }
  assert (∃ w, _worker_threads s1 = [w]) as [w Hws].
  { destruct Hr1 as [_ Hl]. destruct (_worker_threads s1) as [|w []]; [done|by exists w|done]. }
  set (s2 := default s1 (exec_stop s1)).
  assert (ending 3 SJoin s2) as He.
  { split; [by apply (exec_one_worker Stopper)|]. unfold s2, exec_stop. rewrite Hst1. simpl.
    split_and!; [done..|]. rewrite Hws in *. exists (wake w).
    destruct w; try (by destruct Hw); simpl; eexists; (split; [done|]); (split; [done|lia]). }
  apply (ending_schedule l3) in He; [|done].
  replace (3 - _)%nat with 0%nat in He by lia.
  destruct He as (Hr3 & Hq3 & Hst3 & w' & k & Hw' & Hk & Hle).
  assert (w' = WDone) as -> by (destruct w'; simplify_eq/=; (done || lia)).
  exists (default (run_schedule l3 s2) (exec_stop (run_schedule l3 s2))).
  unfold stop. replace (run_schedule (l1 ++ Stopper :: l2 ++ Stopper :: l3 ++ [Stopper]) s)
    with (default (run_schedule l3 s2) (exec_stop (run_schedule l3 s2))).
  - unfold exec_stop at 1. rewrite Hst3, Hw'. reflexivity.
  - unfold s2, s1. rewrite (app_comm_cons _ _ Stopper), app_assoc, run_schedule_app.
    change (Stopper :: l3 ++ [Stopper]) with ([Stopper] ++ l3 ++ [Stopper]).
    by rewrite !run_schedule_app.
Qed.

(** *** A queue that is destroyed *)

(** A queue with its worker at [w] and [l] queued, before [stop]. *)
Definition queue_at (w : worker_pc) (l : list cb) : State :=
  let t := match w with WRun c => [c] | _ => [] end in
  mkState l false (if holds w then Some 0 else None) [w] [] SIdle (t ++ l) t.

Definition is_running (w : worker_pc) : bool := match w with WRun _ => true | _ => false end.

(** Whether a callback runs at any time of the schedule. *)
Definition runs_callback (sched : list label) (s : State) : bool :=
  existsb is_running (_worker_threads s) ||
  negb (length (taken (run_schedule sched s)) =? length (taken s))%nat.

Lemma queue_at_one_worker w l : (w = WSleep → l = []) → one_worker (queue_at w l).
Proof.
  intros Hw. split; [|done]. split; simpl; try done.
  - intros i w' Hi Hh. destruct i; simplify_eq/=. by rewrite Hh.
  - intros i. destruct (holds w) eqn:E; [|done]. intros [= <-]. by exists w.
  - intros i Hi. destruct i; simplify_eq/=. by apply Hw.
Qed.

Lemma idle_runs_nothing sched w :
  is_running w = false → runs_callback sched (queue_at w []) = false.
Proof.
  intros Hw. unfold runs_callback. rewrite idle_schedule by done. cbn [queue_at _worker_threads existsb].
  by rewrite Hw, Nat.eqb_refl.
Qed.

(** A wakeup that is lost: [stop] does not return, however often the threads get their
    turns, unless the worker wakes up on its own. *)
Theorem lost_wakeup_hangs sched :
  (∀ l, l ∈ sched → l ≠ Spurious 0) →
  stop ([Stopper; Stopper] ++ sched) (queue_at WSleep []) = None.
Proof.
  intros Hl. unfold stop. cbn [app run_schedule foldl].
  set (s := default (default _ _) _).
  enough (∀ sched s, (∀ l, l ∈ sched → l ≠ Spurious 0) → stopping s = SJoin →
            _worker_threads s = [WSleep] ∨ _worker_threads s = [WBlocked] →
            stopping (run_schedule sched s) = SJoin) as Hrun.
  { change (foldl _ s sched) with (run_schedule sched s). rewrite Hrun; [done..|by left]. }
  clear. induction sched as [|l sched IH]; intros s Hl Hst Hws; [done|].
  apply (IH (default s (exec l s))); [set_solver|..].
  all: destruct l as [[|i]|[|i]| |]; simpl; unfold exec_worker, exec_stop;
    destruct Hws as [Hws|Hws]; rewrite ?Hst, ?Hws; simpl; rewrite ?Hws; auto.
  all: exfalso; apply (Hl (Spurious 0)); [left|done].
Qed.

End Queue.

(** Extend a run by a step. *)
Ltac advance R tac :=
  let s := match type of R with reachable _ ?s => s end in
  let Hs := fresh in
  eassert (step _ s _) as Hs by tac;
  apply (reachable_step _ _ _ _ R) in Hs; clear R; rename Hs into R; simpl in R.

(** [stop] sets [_quit] and notifies without the mutex, so both can fall between a
    worker's test of the predicate and its blocking: the worker sleeps, [stop]
    waits for it in [join], and nothing but a spurious wakeup can happen. *)
Theorem stop_can_hang {cb : Type} :
  ∃ s : @State cb, reachable 1 s ∧ stopping s = SJoin ∧
       ∀ l s', step l s s' → l = Spurious 0.
Proof.
  pose proof (reachable_new (cb:=cb) 1) as R.
  advance R ltac:(by apply (step_loop 0)).
  advance R ltac:(by apply (step_lock 0)).
  advance R ltac:(by apply (step_pred 0)).
  advance R ltac:(by apply step_stop_quit).
  advance R ltac:(by apply step_stop_notify).
  advance R ltac:(by apply (step_sleep 0)).
  eexists. split; [exact R|split].
  - done.
  - intros l s' Hstep. inversion Hstep; subst; simpl in *; simplify_eq/=; try done;
      repeat match goal with
      | E : [] = ?l ++ _ |- _ => by destruct l
      | E : [_] !! ?i = Some _ |- _ => destruct i; simplify_eq/=
      | E : Forall _ _ |- _ => inversion E; clear E; subst
      end; done.
Qed.


(** ** Instances: callbacks are numbers *)

(** Two callbacks are queued while the worker is in its loop. *)
Definition two_queued : @State nat :=
  mkState [1; 2] false None [WLoop] [] SIdle [1; 2] [].

Lemma two_queued_reachable : reachable 1 two_queued.
Proof.
  pose proof (reachable_new (cb:=nat) 1) as R.
  advance R ltac:(by apply (step_add_check 1)).
  advance R ltac:(by apply (step_add_push 1 [] [])).
  advance R ltac:(by apply (step_add_check 2)).
  advance R ltac:(by apply (step_add_push 2 [] [])).
  exact R.
Qed.

Lemma callbacks_fifo_witness :
  added two_queued = taken two_queued ++ _callback_queue two_queued.
Proof. exact (proj1 (callbacks_fifo 1 two_queued two_queued_reachable)). Defined.

Lemma queued_callback_is_taken_witness : takes 1 two_queued.
Proof. exact (queued_callback_is_taken two_queued 1 [2] two_queued_reachable eq_refl eq_refl). Defined.

Lemma stop_discards_queue_witness :
  let s := @mkState nat [1; 2] true None [WLoop] [] SNotify [1; 2] [] in
  let s' := mkState [1; 2] true None [WDone] [] SNotify [1; 2] [] in
  _quit s' = true ∧ taken s' = taken s.
Proof.
  intros s s'. apply (stop_discards_queue s s'); [done|].
  apply rtc_once. exists (Worker 0). by apply (step_loop 0 s).
Defined.
