(* ===== verification/Client.v ===== *)
(** * The websocket client

    [Client] ([websocket_client.hpp]), the peer of the server: the requests its
    methods send, its dispatch of incoming messages, and the text decoders of
    [test_client.cpp]. A request is the JSON value it hands to [dump], which throws
    when a text in it is not UTF-8; the server reads [reparse] of it. *)

From Stdlib Require Import ZArith Lia.
From S2P Require Import Prelude Wire Base64 Json Serialization ServerState ServerMethods.
From S2P Require Import ServerLogic ServerInv ServerSync ServerSystem ServerSpecs.
From S2P Require Import ServerDispatch.

Local Open Scope Z_scope.

(** ** Requests *)

Definition ClientAdvertisement_to_json (p : ClientAdvertisement) : json :=
  json_object [("id", JUnsigned (adv_channel_id p)); ("topic", JStr (adv_topic p));
               ("encoding", JStr (adv_encoding p)); ("schemaName", JStr (adv_schema_name p))].

Definition client_login (user_name user_id : string) : json :=
  json_object [("op", JStr "login"); ("username", JStr user_name); ("userId", JStr user_id)].

(** [sub_json] starts as null, and becomes an array with its first element. *)
Definition client_subscribe (subscriptions : list (Z * Z)) : json :=
  let sub_json :=
    match subscriptions with
    | [] => JNull
    | _ => JArr ((λ sub, json_object [("id", JUnsigned sub.1); ("channelId", JUnsigned sub.2)])
                   <$> subscriptions)
    end in
  json_object [("op", JStr "subscribe"); ("subscriptions", sub_json)].

Definition client_unsubscribe (subscription_ids : list Z) : json :=
  json_object [("op", JStr "unsubscribe"); ("subscriptionIds", json_ids subscription_ids)].

Definition client_advertise (channels : list ClientAdvertisement) : json :=
  json_object [("op", JStr "advertise");
               ("channels", JArr (ClientAdvertisement_to_json <$> channels))].

Definition client_unadvertise (channel_ids : list Z) : json :=
  json_object [("op", JStr "unadvertise"); ("channelIds", json_ids channel_ids)].

(** [if (request_id.has_value()) jsonPayload\["id"\] = request_id.value()]. *)
Definition with_request_id (request_id : option string) (payload : json) : json :=
  match request_id, payload with
  | Some id, JObj o => JObj (obj_set "id" (JStr id) o)
  | _, _ => payload
  end.

Definition client_get_parameters (parameter_names : list string) (request_id : option string) :
    json :=
  with_request_id request_id
    (json_object [("op", JStr "getParameters"); ("parameterNames", json_strings parameter_names)]).

Definition client_set_parameters (parameters : list ParameterT) (request_id : option string) :
    outcome json :=
  ps ← outcome_mapM Parameter_to_json parameters;
  Ret (with_request_id request_id
         (json_object [("op", JStr "setParameters"); ("parameters", JArr ps)])).

Definition client_subscribe_parameter_updates (parameter_names : list string) : json :=
  json_object [("op", JStr "subscribeParameterUpdates");
               ("parameterNames", json_strings parameter_names)].

Definition client_unsubscribe_parameter_updates (parameter_names : list string) : json :=
  json_object [("op", JStr "unsubscribeParameterUpdates");
               ("parameterNames", json_strings parameter_names)].

Definition client_fetch_asset (uri : string) (request_id : Z) : json :=
  json_object [("op", JStr "fetchAsset"); ("uri", JStr uri); ("requestId", JUnsigned request_id)].

(** ** Incoming messages *)

Section Handlers.
Context {A : Type}.

(** [message_handler]: what the handler that is set for the message's kind makes of
    it; [None] if it is ignored. *)
Definition message_handler (text_handler : option (list byte → A))
    (binary_handler : option (list byte → A)) (op : OpCode) (payload : list byte) : option A :=
  match op with
  | TEXT => (λ h, h payload) <$> text_handler
  | BINARY => (λ h, h payload) <$> binary_handler
  | OTHER_OPCODE => None
  end.

End Handlers.

(** The text handlers of [test_client.cpp], given the parsed message; [None] when
    the promise is not fulfilled. [msg\["op"\]] on a constant is unchecked. *)

Definition msg_op (msg : json) : outcome string := v ← json_index msg "op"; get_string v.

(** [msg.value("id", "")]. *)
Definition msg_id (msg : json) : outcome string :=
  match msg with
  | JObj o => match obj_find "id" o with Some v => get_string v | None => Ret EmptyString end
  | _ => Throw (type_error "306" ("cannot use value() with " +:+ type_name msg))
  end.

Definition decode_parameters `{Platform} (request_id : string) (msg : json) :
    outcome (option (list ParameterT)) :=
  op ← msg_op msg;
  id ← msg_id msg;
  if String.eqb op "parameterValues" &&
     (String.eqb request_id EmptyString || String.eqb request_id id)
  then ps ← (v ← json_index msg "parameters"; get_vector Parameter_from_json v); Ret (Some ps)
  else Ret None.

Definition decode_service (name : string) (msg : json) : outcome (option Service) :=
  op ← msg_op msg;
  if String.eqb op "advertiseServices"
  then services ← (v ← json_index msg "services"; get_vector Service_from_json v);
       Ret (find (λ s, String.eqb (service_name (service_base s)) name) services)
  else Ret None.

Definition decode_channel (topic_name : string) (msg : json) : outcome (option Channel) :=
  op ← msg_op msg;
  if String.eqb op "advertise"
  then channels ← (v ← json_index msg "channels"; get_vector Channel_from_json v);
       Ret (find (λ c, String.eqb (topic (channel_base c)) topic_name) channels)
  else Ret None.

(** ** Facts *)

Lemma reparse_ids ids : Forall is_u32 ids →
  outcome_mapM get_uint32 (json_elements (reparse (json_ids ids))) = Ret ids.
Proof.
  intros Hids. change (outcome_mapM get_uint32 (map reparse (JUnsigned <$> ids)) = Ret ids).
  induction Hids as [|i ids Hi _ IH]; [done|]. cbn [fmap list_fmap map reparse outcome_mapM].
  cbn [get_uint32]. rewrite u32_small by done. simpl_bind. by rewrite IH.
Qed.

Lemma reparse_strings l : outcome_mapM get_string (map reparse (JStr <$> l)) = Ret l.
Proof.
  induction l as [|s l IH]; [done|]. cbn [fmap list_fmap map reparse outcome_mapM get_string].
  simpl_bind. by rewrite IH.
Qed.

Lemma reparse_string_array l : get_vector get_string (reparse (json_strings l)) = Ret l.
Proof. apply reparse_strings. Qed.

Lemma mapM_ret {A B} (f : A → outcome B) (g : A → B) l :
  (∀ x, x ∈ l → f x = Ret (g x)) → outcome_mapM f l = Ret (g <$> l).
Proof.
  induction l as [|x l IH]; intros Hf; [done|]. cbn [outcome_mapM fmap list_fmap].
  rewrite Hf by set_solver. simpl_bind. by rewrite IH by set_solver.
Qed.

Section Decoding.
Context {plat : Platform}.

(** The parameters the server reads from a [setParameters] request. *)
Lemma set_parameters_decode ps id :
  Forall param_wf ps →
  ∃ j, client_set_parameters ps id = Ret j ∧
    json_at (reparse j) "op" = Ret (JStr "setParameters") ∧
    (v ← json_at (reparse j) "parameters"; get_vector Parameter_from_json v) = Ret ps ∧
    get_request_id (reparse j) = Ret id.
Proof.
  intros Hps.
  assert (∃ js, outcome_mapM Parameter_to_json ps = Ret js ∧
                outcome_mapM Parameter_from_json (map reparse js) = Ret ps) as (js & Hjs & Hback).
  { apply (mapM_roundtrip _ _ _ param_wf).
    - apply Forall_forall. intros p Hp Hwf. by apply Parameter_roundtrip_aux.
    - clear -Hps. induction Hps; [done|]. simpl. by apply andb_prop_intro. }
  unfold client_set_parameters. rewrite Hjs. simpl_bind. eexists. split; [done|].
  destruct id as [id|]; (split_and!; [reflexivity| |reflexivity]); simpl; exact Hback.
Qed.

End Decoding.

(** ** From the client's call to the server's handler *)

Section EndToEnd.
Context {plat : Platform} {W : Type} (H : ServerHandlers W).

Lemma has_handler_true o L (s : St W) :
  match o with
  | LOGIN => True
  | OP_SUBSCRIBE => is_Some (subscribe_handler H)
  | OP_UNSUBSCRIBE => is_Some (unsubscribe_handler H)
  | ADVERTISE => is_Some (client_advertise_handler H)
  | UNADVERTISE => is_Some (client_unadvertise_handler H)
  | GET_PARAMETERS => is_Some (parameter_request_handler H)
  | SET_PARAMETERS => is_Some (parameter_change_handler H)
  | SUBSCRIBE_PARAMETER_UPDATES | UNSUBSCRIBE_PARAMETER_UPDATES =>
      is_Some (parameter_subscription_handler H)
  | SUBSCRIBE_CONNECTION_GRAPH | UNSUBSCRIBE_CONNECTION_GRAPH =>
      is_Some (subscribe_connection_graph_handler H)
  | FETCH_ASSET => is_Some (fetch_asset_handler H)
  end → has_handler H (string_hash (op_name o)) L s = (Ret true, s).
Proof.
  intros Ho. unfold has_handler.
  assert (switch_op (string_hash (op_name o)) = Some o) as ->
    by (clear; destruct plat as [be []], o; vm_compute; reflexivity).
  destruct o; run; by rewrite ?bool_decide_eq_true_2.
Qed.

(** Setting parameters through the client: the change handler of the server is
    called with exactly the parameters and the request id the client was given. *)
Theorem set_parameters_delivered (ps : list ParameterT) (id : option string)
    (hdl : ConnHandle) (f : list ParameterT → option string → ConnHandle → M W unit)
    (s s' : St W) :
  Forall param_wf ps → CAPABILITY_PARAMETERS ∈ capabilities (_options (srv s)) →
  parameter_change_handler H = Some f →
  f ps id hdl [] (add_trace [Call (CallParameterChange ps id hdl)] s) = (Ret tt, s') →
  ∃ j, client_set_parameters ps id = Ret j ∧
       handle_text_payload H hdl (reparse j) [] s = (Ret tt, s').
Proof.
  intros Hps Hcap Hf Hrun. destruct (set_parameters_decode ps id Hps) as (j & Hj & Hop & Hd & Hid).
  exists j. split; [done|]. rewrite (dispatch_op H SET_PARAMETERS); [|done|by intros cap [= <-]|].
  - cbn [run_op]. unfold handle_set_parameters. rewrite Hd, Hid. run. unfold call.
    cbn [handler_body]. rewrite Hf. cbn [fmap option_fmap option_map]. run.
    unfold add_trace in Hrun. by rewrite Hrun.
  - by apply has_handler_true; rewrite Hf.
Qed.

Lemma unused_sub_id subs sub_id :
  (∀ ch, subs !! ch ≠ Some sub_id) → find_subscription_by_sub_id subs sub_id = None.
Proof.
  intros Hun. unfold find_subscription_by_sub_id.
  destruct (find _ _) as [[ch id]|] eqn:E; [|done]. apply find_some in E as [Hin Hid].
  apply list_elem_of_In, elem_of_map_to_list in Hin. simpl in Hid. apply Z.eqb_eq in Hid. subst.
  by apply Hun in Hin.
Qed.


End EndToEnd.

(** ** What the client learns *)

Lemma decode_vector {A} (to : A → json) (from : json → outcome A) l :
  Forall (λ x, from (reparse (to x)) = Ret x) l →
  get_vector from (reparse (JArr (to <$> l))) = Ret l.
Proof.
  intros Hl. change (outcome_mapM from (map reparse (to <$> l)) = Ret l).
  induction Hl as [|x l Hx _ IH]; [done|]. cbn [fmap list_fmap map outcome_mapM].
  rewrite Hx. simpl_bind. by rewrite IH.
Qed.

Definition any_service : Service :=
  {| svc_id := 0; service_base := {| service_name := EmptyString; service_type := EmptyString;
                                     request_schema := EmptyString;
                                     response_schema := EmptyString |} |}.
Definition any_channel : Channel :=
  {| channel_id := 0; channel_base := {| topic := EmptyString; encoding := EmptyString;
                                         schema_name := EmptyString; schema := EmptyString;
                                         schema_encoding := None |} |}.

(** The server's advertisements tell a client everything: waiting for a topic (a
    service) yields the first channel (service) of that name the server
    announced. *)
Theorem advertisements_decoded (channels : list Channel) (services : list Service)
    (name : string) :
  Forall (λ c, is_u32 (channel_id c)) channels → Forall (λ s, is_u32 (svc_id s)) services →
  decode_channel name (reparse (advertise_json channels)) =
    Ret (find (λ c, String.eqb (topic (channel_base c)) name) channels) ∧
  decode_service name (reparse (advertise_services_json services)) =
    Ret (find (λ s, String.eqb (service_name (service_base s)) name) services).
Proof.
  intros Hc Hs.
  assert (get_vector Channel_from_json (reparse (JArr (Channel_to_json <$> channels))) = Ret channels)
    as Hdc.
  { apply decode_vector. eapply Forall_impl; [exact Hc|]. intros c Hid.
    by apply (channel_service_decode c any_service). }
  assert (get_vector Service_from_json (reparse (JArr (Service_to_json <$> services))) = Ret services)
    as Hds.
  { apply decode_vector. eapply Forall_impl; [exact Hs|]. intros s Hid.
    by apply (channel_service_decode any_channel s). }
  unfold decode_channel, decode_service. split.
  - change (msg_op (reparse (advertise_json channels))) with (Ret "advertise"). simpl_bind.
    change (json_index (reparse (advertise_json channels)) "channels")
      with (Ret (reparse (JArr (Channel_to_json <$> channels)))). simpl_bind.
    cbn [String.eqb Ascii.eqb Bool.eqb]. by rewrite Hdc.
  - change (msg_op (reparse (advertise_services_json services))) with (Ret "advertiseServices").
    simpl_bind. change (json_index (reparse (advertise_services_json services)) "services")
      with (Ret (reparse (JArr (Service_to_json <$> services)))). simpl_bind.
    cbn [String.eqb Ascii.eqb Bool.eqb]. by rewrite Hds.
Qed.

(** ** Instances *)

Lemma advertisements_decoded_witness :
  decode_channel "/chatter"
    (reparse (advertise_json [{| channel_id := 4; channel_base := demo_channel |}])) =
    Ret (Some {| channel_id := 4; channel_base := demo_channel |}).
Proof.
  refine (proj1 (advertisements_decoded [{| channel_id := 4; channel_base := demo_channel |}] []
    "/chatter" _ _)); repeat constructor; done.
Defined.

Lemma set_parameters_delivered_witness :
  let ps := [{| param_name := "/gain"; param_value := PDouble (double_of_Z 2) |}] in
  ∃ j, client_set_parameters ps (Some "r1") = Ret j ∧
       (handle_text_payload (plat:=x86_64) demo_handlers 1%nat (reparse j) [] demo_state).1 = Ret tt.
Proof.
  intros ps.
  destruct (set_parameters_delivered (plat:=x86_64) demo_handlers ps (Some "r1") 1%nat
    (λ _ _ _, mret tt) demo_state
    (add_trace [Call (CallParameterChange ps (Some "r1") 1%nat)] demo_state)) as (j & Hj & Hrun).
  - repeat constructor.
  - apply (bool_decide_unpack _). vm_compute. exact I.
  - reflexivity.
  - reflexivity.
  - exists j. by rewrite Hrun.
Defined.

(** A connected client and a channel. *)
Definition subscriber_state : St nat :=
  default demo_init (run_inputs (plat:=x86_64) demo_handlers demo_parse
                       [Opened 1; demo_request 1 0; AddChannels [demo_channel]] demo_init).

