(* ===== verification/Text.v ===== *)
(** * Text processing

    The [std::string] operations and the regular expressions of
    [ros2_bridge/src/message_definition_cache.cpp]: splitting a text at a
    delimiter, normalising line ends, the scanners of the three [std::regex]
    constants, and [std::set<std::string>] as a sorted list.

    The regular expressions are deterministic: in each of them the character
    classes of two adjacent items are disjoint, so the ECMAScript backtracking
    matcher finds a match exactly when the greedy scanner below does.  [^]
    matches only at the start of the text (no [multiline] flag). *)

From Stdlib Require Import ZArith Lia.
From Stdlib Require Import Strings.Ascii Sorting.Sorted.
From S2P Require Import Prelude.

(** ** Strings *)

Definition NL : string := String "010"%char EmptyString.
Definition CR : string := String "013"%char EmptyString.
Definition DQUOTE : ascii := "034"%char.

Fixpoint str_forall (p : ascii → bool) (s : string) : bool :=
  match s with
  | EmptyString => true
  | String c s => p c && str_forall p s
  end.

Definition str_empty (s : string) : bool :=
  match s with EmptyString => true | _ => false end.

(** [s.substr(n)] for [n <= s.size()]. *)
Fixpoint str_drop (n : nat) (s : string) : string :=
  match n, s with
  | S n, String _ s => str_drop n s
  | _, _ => s
  end.

(** The first occurrence of [d] in [s]: the text before it and the text after. *)
Fixpoint str_find (d s : string) : option (string * string) :=
  if String.prefix d s then Some (EmptyString, str_drop (String.length d) s)
  else match s with
       | EmptyString => None
       | String c s => '(a, b) ← str_find d s; Some (String c a, b)
       end.

(** The loop of [split_string], on the part of the text not yet split. *)
Fixpoint split_loop (fuel : nat) (rest delimiter : string) : list string :=
  match fuel with
  | O => []
  | S fuel =>
      match str_find delimiter rest with
      | Some (piece, rest) => piece :: split_loop fuel rest delimiter
      | None => [rest]
      end
  end.

Definition split_string (str delimiter : string) : list string :=
  split_loop (S (String.length str)) str delimiter.

(** The inverse: the pieces with the delimiter between them. *)
Fixpoint str_join (d : string) (l : list string) : string :=
  match l with
  | [] => EmptyString
  | [s] => s
  | s :: l => s +:+ d +:+ str_join d l
  end.

(** Each string followed by a newline. *)
Fixpoint unlines (l : list string) : string :=
  match l with
  | [] => EmptyString
  | s :: l => s +:+ NL +:+ unlines l
  end.

(** The loop that replaces every "\r\n" by "\n".  The search resumes at the
    inserted '\n', where no "\r\n" starts. *)
Fixpoint replace_crlf (s : string) : string :=
  match s with
  | String c s =>
      match s with
      | String c' s' =>
          if (bool_decide (c = "013"%char) && bool_decide (c' = "010"%char))
          then String "010"%char (replace_crlf s')
          else String c (replace_crlf s)
      | EmptyString => String c EmptyString
      end
  | EmptyString => EmptyString
  end.

(** The loop that replaces every remaining '\r' by '\n'. *)
Fixpoint replace_cr (s : string) : string :=
  match s with
  | String c s => String (if bool_decide (c = "013"%char) then "010"%char else c) (replace_cr s)
  | EmptyString => EmptyString
  end.

Definition ends_with (str suffix : string) : bool :=
  bool_decide (String.length suffix ≤ String.length str) &&
  bool_decide (str_drop (String.length str - String.length suffix) str = suffix).

(** [std::filesystem::path(line).filename()]: what follows the last '/'. *)
Fixpoint path_filename (s : string) : string :=
  match s with
  | EmptyString => EmptyString
  | String c s' =>
      if str_forall (λ c, negb (bool_decide (c = "/"%char))) s
      then s
      else path_filename s'
  end.

(** ** Character classes *)

Definition ascii_between (lo hi c : ascii) : bool :=
  (N_of_ascii lo <=? N_of_ascii c)%N && (N_of_ascii c <=? N_of_ascii hi)%N.

(** [\[a-zA-Z0-9_\]] *)
Definition is_word (c : ascii) : bool :=
  ascii_between "a"%char "z"%char c || ascii_between "A"%char "Z"%char c || ascii_between "0"%char "9"%char c
  || bool_decide (c = "_"%char).

(** [\[a-zA-Z0-9_/\]] *)
Definition is_type_char (c : ascii) : bool := is_word c || bool_decide (c = "/"%char).

(** [\s] in the "C" locale: space, \t, \n, \v, \f, \r. *)
Definition is_space (c : ascii) : bool :=
  bool_decide (c = " "%char) || ascii_between "009"%char "013"%char c.

(** [\[...\]+] for a class [p], over the whole string. *)
Definition is_class_plus (p : ascii → bool) (s : string) : bool :=
  negb (str_empty s) && str_forall p s.

(** The longest prefix in [p] and the rest. *)
Fixpoint span (p : ascii → bool) (s : string) : string * string :=
  match s with
  | String c s' =>
      if p c then let '(a, b) := span p s' in (String c a, b) else (EmptyString, s)
  | EmptyString => (EmptyString, EmptyString)
  end.

(** [p+], greedy: the matched text and the rest. *)
Definition scan_plus (p : ascii → bool) (s : string) : option (string * string) :=
  let '(a, b) := span p s in if str_empty a then None else Some (a, b).

(** A literal. *)
Definition scan_lit (l s : string) : option string :=
  if String.prefix l s then Some (str_drop (String.length l) s) else None.

(** One character of a class. *)
Definition scan_char (p : ascii → bool) (s : string) : option string :=
  match s with
  | String c s => if p c then Some s else None
  | EmptyString => None
  end.

(** ** The regular expressions *)

(** [PACKAGE_TYPENAME_REGEX]: the three groups; an unmatched group is empty. *)
Definition package_typename_match (s : string) : option (string * string * string) :=
  match split_string s "/" with
  | [package; type_name] =>
      if is_class_plus is_word package && is_class_plus is_word type_name
      then Some (package, EmptyString, type_name) else None
  | [package; subfolder; type_name] =>
      if is_class_plus is_word package && is_class_plus is_word type_name
         && bool_decide (subfolder ∈ ["msg"; "srv"; "action"])
      then Some (package, subfolder, type_name) else None
  | _ => None
  end.

(** [(?:\[[^\]]*\])?]: the bracketed part is skipped when it is closed. *)
Definition scan_array (s : string) : string :=
  match scan_lit "[" s with
  | Some s1 =>
      match scan_lit "]" (span (λ c, negb (bool_decide (c = "]"%char))) s1).2 with
      | Some s2 => s2
      | None => s
      end
  | None => s
  end.

(** [\s*(\[a-zA-Z0-9_/\]+)(?:\[...\])?\s+] at the start of [s]. *)
Definition msg_field_body (s : string) : option (string * string) :=
  '(type, s) ← scan_plus is_type_char (span is_space s).2;
  '(_, s) ← scan_plus is_space (scan_array s);
  Some (type, s).

(** [MSG_FIELD_TYPE_REGEX] at a position; [bol] says it is the start of the text. *)
Definition msg_field_at (bol : bool) (s : string) : option (string * string) :=
  match (if bol then msg_field_body s else None) with
  | Some r => Some r
  | None => s ← scan_lit NL s; msg_field_body s
  end.

(** [#include\s+(?:DQUOTE|<)(\[a-zA-Z0-9_/\]+)\.idl(?:DQUOTE|>)] at the start of [s]. *)
Definition idl_include_body (s : string) : option (string * string) :=
  s ← scan_lit "#include" s;
  '(_, s) ← scan_plus is_space s;
  s ← scan_char (λ c, bool_decide (c = DQUOTE) || bool_decide (c = "<"%char)) s;
  '(type, s) ← scan_plus is_type_char s;
  s ← scan_lit ".idl" s;
  s ← scan_char (λ c, bool_decide (c = DQUOTE) || bool_decide (c = ">"%char)) s;
  Some (type, s).

Definition idl_include_at (bol : bool) (s : string) : option (string * string) :=
  match (if bol then idl_include_body s else None) with
  | Some r => Some r
  | None => s ← scan_lit NL s; idl_include_body s
  end.

(** [std::sregex_iterator]: the first group of each successive match. *)
Fixpoint sregex_loop (at_pos : bool → string → option (string * string))
    (fuel : nat) (bol : bool) (s : string) : list string :=
  match fuel with
  | O => []
  | S fuel =>
      match at_pos bol s with
      | Some (group, rest) => group :: sregex_loop at_pos fuel false rest
      | None =>
          match s with
          | EmptyString => []
          | String _ s => sregex_loop at_pos fuel false s
          end
      end
  end.

Definition sregex_groups (at_pos : bool → string → option (string * string))
    (text : string) : list string :=
  sregex_loop at_pos (S (String.length text)) true text.

(** ** [std::set<std::string>] as its sorted list of elements *)

Fixpoint sset_insert (x : string) (l : list string) : list string :=
  match l with
  | [] => [x]
  | y :: l' =>
      match String.compare x y with
      | Eq => l
      | Lt => x :: l
      | Gt => y :: sset_insert x l'
      end
  end.

Definition sset_of_list (l : list string) : list string :=
  foldl (λ s x, sset_insert x s) [] l.

(** ** Facts about strings *)

#[local] Arguments String.append !s1 s2 /.

Lemma str_app_assoc (a b c : string) : (a +:+ b) +:+ c = a +:+ b +:+ c.
Proof. induction a as [|x a IH]; cbn [String.append]; [done|by f_equal]. Qed.

Lemma str_app_nil_r (a : string) : a +:+ EmptyString = a.
Proof. induction a as [|x a IH]; cbn [String.append]; [done|by f_equal]. Qed.

Lemma str_length_app (a b : string) :
  String.length (a +:+ b) = String.length a + String.length b.
Proof. induction a as [|x a IH]; cbn [String.append String.length Nat.add]; [done|by f_equal]. Qed.

Lemma str_drop_app (a b : string) : str_drop (String.length a) (a +:+ b) = b.
Proof. induction a as [|x a IH]; [by destruct b|exact IH]. Qed.

Lemma str_prefix_app (d b : string) : String.prefix d (d +:+ b) = true.
Proof. induction d as [|c d IH]; cbn [String.append String.prefix]; [by destruct b|]. by destruct (ascii_dec c c). Qed.

Lemma str_prefix_true (d s : string) :
  String.prefix d s = true → s = d +:+ str_drop (String.length d) s.
Proof.
  revert s. induction d as [|c d IH]; intros [|x s]; cbn [String.append String.prefix str_drop String.length]; try done.
  destruct (ascii_dec c x) as [->|]; [|done]. intros ?. f_equal. by apply IH.
Qed.

Lemma str_forall_app p (a b : string) : str_forall p (a +:+ b) = str_forall p a && str_forall p b.
Proof. induction a as [|x a IH]; cbn [String.append str_forall]; [done|]. by rewrite IH, andb_assoc. Qed.

Lemma str_forall_impl (p q : ascii → bool) s :
  (∀ c, p c = true → q c = true) → str_forall p s = true → str_forall q s = true.
Proof.
  intros Hpq. induction s as [|c s IH]; simpl; [done|].
  intros [??]%andb_prop. rewrite Hpq, IH by done. done.
Qed.

Lemma str_drop_length n s : String.length (str_drop n s) = String.length s - n.
Proof. revert s. induction n as [|n IH]; intros [|c s]; simpl; auto. Qed.

(** The string has no character [c]. *)
Definition lacks (c : ascii) (s : string) : bool := str_forall (λ x, negb (bool_decide (x = c))) s.

(** ** Splitting *)

Lemma str_find_Some d s a b : str_find d s = Some (a, b) → s = a +:+ d +:+ b.
Proof.
  revert a. induction s as [|c s IH]; intros a; cbn [str_find];
    destruct (String.prefix d _) eqn:P; intros E; simplify_eq; simpl.
  - by apply str_prefix_true in P.
  - by apply str_prefix_true in P.
  - destruct (str_find d s) as [[a' b']|] eqn:F; simplify_eq/=. f_equal. by apply IH.
Qed.

Lemma str_find_before d s a b :
  d ≠ EmptyString → str_find d s = Some (a, b) → str_find d a = None.
Proof.
  intros Hd. revert a. induction s as [|c s IH]; intros a; cbn [str_find];
    destruct (String.prefix d _) eqn:P; intros E; simplify_eq; [by destruct d..|].
  destruct (str_find d s) as [[a' b']|] eqn:F; [|done].
  injection E as <- ->. cbn [str_find]. rewrite (IH a') by done. apply str_find_Some in F.
  destruct (String.prefix d (String c a')) eqn:P'; [|done].
  apply str_prefix_true in P'.
  assert (String c s = d +:+ (str_drop (String.length d) (String c a') +:+ d +:+ b)) as Hs.
  { rewrite F. change (String c (a' +:+ d +:+ b)) with (String c a' +:+ d +:+ b).
    rewrite P' at 1. by rewrite str_app_assoc. }
  rewrite Hs, str_prefix_app in P. done.
Qed.

Lemma str_find_char c s : lacks c s = true → str_find (String c EmptyString) s = None.
Proof.
  induction s as [|x s IH]; cbn [str_find lacks str_forall String.prefix]; [done|].
  intros [?%negb_true_iff%bool_decide_eq_false ?]%andb_prop.
  destruct (ascii_dec c x); [congruence|]. by rewrite IH.
Qed.

Lemma str_find_char_app c a b :
  lacks c a = true → str_find (String c EmptyString) (a +:+ String c b) = Some (a, b).
Proof.
  induction a as [|x a IH]; cbn [str_find lacks str_forall String.prefix String.append].
  - intros _. by destruct (ascii_dec c c), b.
  - intros [?%negb_true_iff%bool_decide_eq_false ?]%andb_prop.
    destruct (ascii_dec c x); [congruence|]. by rewrite IH.
Qed.

Lemma split_loop_not_nil fuel s d : 0 < fuel → split_loop fuel s d ≠ [].
Proof. destruct fuel; simpl; [lia|]. by repeat case_match. Qed.

Lemma split_loop_join fuel s d :
  d ≠ EmptyString → String.length s < fuel → str_join d (split_loop fuel s d) = s.
Proof.
  intros Hd. revert s. induction fuel as [|fuel IH]; intros s Hf; [lia|]. cbn [split_loop].
  destruct (str_find d s) as [[a b]|] eqn:F; [|done].
  apply str_find_Some in F.
  assert (String.length b < fuel).
  { subst s. rewrite !str_length_app in Hf. destruct d; simpl in *; [done|lia]. }
  specialize (IH b ltac:(done)).
  destruct (split_loop fuel b d) as [|p ps] eqn:E;
    [exfalso; revert E; apply split_loop_not_nil; lia|].
  change (str_join d (a :: p :: ps)) with (a +:+ d +:+ str_join d (p :: ps)). by rewrite IH.
Qed.

Lemma split_loop_pieces fuel s d :
  d ≠ EmptyString → Forall (λ p, str_find d p = None) (split_loop fuel s d).
Proof.
  intros Hd. revert s. induction fuel as [|fuel IH]; intros s; cbn [split_loop]; [by constructor|].
  destruct (str_find d s) as [[a b]|] eqn:F; repeat constructor; eauto using str_find_before.
Qed.

(** Splitting loses nothing, and no piece contains the delimiter. *)
Lemma split_string_join s d :
  d ≠ EmptyString → str_join d (split_string s d) = s.
Proof. intros. apply split_loop_join; [done|lia]. Qed.

Lemma split_string_pieces s d :
  d ≠ EmptyString → Forall (λ p, str_find d p = None) (split_string s d).
Proof. apply split_loop_pieces. Qed.

(** Lines joined by one character come back from [split_string]. *)
Lemma split_string_char c ls :
  ls ≠ [] → Forall (λ l, lacks c l = true) ls →
  split_string (str_join (String c EmptyString) ls) (String c EmptyString) = ls.
Proof.
  intros Hls Hc. unfold split_string.
  assert (∀ fuel, String.length (str_join (String c EmptyString) ls) < fuel →
    split_loop fuel (str_join (String c EmptyString) ls) (String c EmptyString) = ls)
    as H; [|by apply H; lia].
  induction Hc as [|l [|l' ls] Hl Hc IH]; [done|..]; intros [|fuel] Hf; try lia.
  - cbn [str_join split_loop]. by rewrite str_find_char.
  - cbn [split_loop]. change (str_join (String c EmptyString) (l :: l' :: ls))
      with (l +:+ String c (str_join (String c EmptyString) (l' :: ls))) in *.
    rewrite str_find_char_app by done. f_equal. apply IH; [done|].
    rewrite str_length_app in Hf. cbn [String.length] in Hf. lia.
Qed.

Lemma str_join_app d ls ls' :
  ls ≠ [] → ls' ≠ [] → str_join d (ls ++ ls') = str_join d ls +:+ d +:+ str_join d ls'.
Proof.
  intros Hls Hls'. induction ls as [|l [|l2 ls] IH]; [done|by destruct ls'|].
  change (str_join d ((l :: l2 :: ls) ++ ls')) with (l +:+ d +:+ str_join d ((l2 :: ls) ++ ls')).
  change (str_join d (l :: l2 :: ls)) with (l +:+ d +:+ str_join d (l2 :: ls)).
  rewrite IH by done. by rewrite !str_app_assoc.
Qed.

(** ** Line ends *)

Lemma replace_crlf_app a b :
  lacks "013" a = true → replace_crlf (a +:+ b) = a +:+ replace_crlf b.
Proof.
  induction a as [|x a IH]; cbn [lacks str_forall String.append]; [done|].
  intros [Hx%negb_true_iff ?]%andb_prop. specialize (IH ltac:(done)). rewrite <-IH.
  cbn [replace_crlf]. rewrite Hx. by destruct (a +:+ b).
Qed.

Lemma replace_cr_app a b : replace_cr (a +:+ b) = replace_cr a +:+ replace_cr b.
Proof. induction a as [|x a IH]; cbn [String.append replace_cr]; by f_equal. Qed.

Lemma replace_cr_lacks a : lacks "013" a = true → replace_cr a = a.
Proof.
  induction a as [|x a IH]; cbn [lacks str_forall replace_cr]; [done|].
  intros [->%negb_true_iff ?]%andb_prop. by rewrite IH.
Qed.

(** ** Suffixes *)

Lemma str_drop_0 s : str_drop 0 s = s.
Proof. by destruct s. Qed.

Lemma str_drop_app_ge n (a b : string) :
  String.length a ≤ n → str_drop n (a +:+ b) = str_drop (n - String.length a) b.
Proof.
  revert n. induction a as [|x a IH]; intros n Hn; cbn [String.length String.append] in *.
  - by rewrite Nat.sub_0_r.
  - destruct n as [|n]; [lia|]. cbn [str_drop]. rewrite IH by lia. f_equal; lia.
Qed.

Lemma str_take_drop n s : n ≤ String.length s →
  ∃ a, s = a +:+ str_drop n s ∧ String.length a = n.
Proof.
  revert s. induction n as [|n IH]; intros s Hn; [by exists EmptyString; rewrite str_drop_0|].
  destruct s as [|c s]; cbn [String.length] in Hn; [lia|].
  destruct (IH s) as (a & Ha & ?); [lia|].
  exists (String c a). cbn [String.append String.length str_drop]. split; congruence.
Qed.

Lemma ends_with_spec x t : ends_with x t = true ↔ ∃ y, x = y +:+ t.
Proof.
  unfold ends_with. rewrite andb_true_iff, !bool_decide_eq_true. split.
  - intros [Hl Hd].
    destruct (str_take_drop (String.length x - String.length t) x) as (y & Hx & _); [lia|].
    exists y. by rewrite Hd in Hx.
  - intros [y ->]. rewrite str_length_app. split; [lia|].
    rewrite str_drop_app_ge by lia. by replace (_ - _ - _) with 0 by lia; rewrite str_drop_0.
Qed.

(** Two suffixes of one string agree on their common length. *)
Lemma suffixes_agree (a s y t : string) :
  a +:+ s = y +:+ t →
  str_drop (String.length s - String.length t) s = str_drop (String.length t - String.length s) t.
Proof.
  intros H. pose proof (f_equal String.length H) as Hl. rewrite !str_length_app in Hl.
  pose proof (f_equal (str_drop (String.length a + (String.length s - String.length t))) H) as Hd.
  rewrite !str_drop_app_ge in Hd by lia.
  replace (_ + _ - String.length a) with (String.length s - String.length t) in Hd by lia.
  rewrite Hd. f_equal. lia.
Qed.

Lemma substring_0_app (a b : string) : String.substring 0 (String.length a) (a +:+ b) = a.
Proof. induction a as [|x a IH]; [by destruct b|]. cbn [String.append String.length String.substring]. by f_equal. Qed.

Lemma str_forall_substring p n s :
  str_forall p s = true → str_forall p (String.substring 0 n s) = true.
Proof.
  revert s. induction n as [|n IH]; intros [|c s]; cbn [String.substring str_forall]; try done.
  intros [??]%andb_prop. rewrite IH by done. by apply andb_true_iff.
Qed.

(** ** Datatype names *)

Lemma is_word_not_slash c : is_word c = true → negb (bool_decide (c = "/"%char)) = true.
Proof. intros Hc. apply negb_true_iff, bool_decide_eq_false. intros ->. by vm_compute in Hc. Qed.

Lemma is_word_lacks_slash s : str_forall is_word s = true → lacks "/" s = true.
Proof. apply str_forall_impl, is_word_not_slash. Qed.

Lemma package_typename_match_Some s p k t :
  package_typename_match s = Some (p, k, t) →
  is_class_plus is_word p = true ∧ is_class_plus is_word t = true ∧
  ((k = EmptyString ∧ s = p +:+ "/" +:+ t) ∨
   (k ∈ ["msg"; "srv"; "action"] ∧ s = p +:+ "/" +:+ k +:+ "/" +:+ t)).
Proof.
  unfold package_typename_match.
  pose proof (split_string_join s "/" ltac:(done)) as Hj.
  destruct (split_string s "/") as [|p' [|k' [|t' [|? ?]]]]; try done;
    case_match eqn:E; intros; simplify_eq;
    rewrite ?andb_true_iff, ?bool_decide_eq_true in E; destruct_and?; auto.
Qed.

Lemma package_typename_match_sub p k t :
  is_class_plus is_word p = true → is_class_plus is_word t = true →
  k ∈ ["msg"; "srv"; "action"] →
  package_typename_match (p +:+ "/" +:+ k +:+ "/" +:+ t) = Some (p, k, t).
Proof.
  intros Hp Ht Hk. unfold package_typename_match.
  change (p +:+ "/" +:+ k +:+ "/" +:+ t) with (str_join "/" [p; k; t]).
  rewrite split_string_char.
  - by rewrite Hp, Ht, bool_decide_true.
  - done.
  - unfold is_class_plus in *. rewrite andb_true_iff in Hp, Ht. destruct Hp, Ht.
    repeat constructor; auto using is_word_lacks_slash.
    rewrite !elem_of_cons in Hk. destruct_or! Hk; subst; try done. by apply not_elem_of_nil in Hk.
Qed.

(** ** [std::set] *)

Lemma sset_insert_elem x y l : y ∈ sset_insert x l ↔ y = x ∨ y ∈ l.
Proof.
  induction l as [|z l IH]; cbn [sset_insert]; [set_solver|].
  destruct (String.compare x z) eqn:E; [|set_solver..].
  apply String.compare_eq_iff in E. set_solver.
Qed.

Lemma sset_of_list_elem l y : y ∈ sset_of_list l ↔ y ∈ l.
Proof.
  unfold sset_of_list.
  assert (∀ s, y ∈ foldl (λ s x, sset_insert x s) s l ↔ y ∈ s ∨ y ∈ l) as H.
  { induction l as [|x l IH]; intros s; cbn [foldl]; [set_solver|].
    rewrite IH, sset_insert_elem. set_solver. }
  rewrite H. set_solver.
Qed.
