(* ===== verification/MessageDefinitionCache.v ===== *)
(** * The message definition cache

    [ros2_bridge/src/message_definition_cache.cpp] and its header
    [cobridge_base/include/message_definition_cache.hpp]: loading a ROS 2
    message, service or action definition, finding the types it depends on, and
    concatenating a definition with all its dependencies into one schema.

    The ament index and the file system are the parameter [ament_index]. *)

From Stdlib Require Import ZArith Lia.
From Stdlib Require Import Strings.Ascii.
From S2P Require Import Prelude Text.

(** ** Data *)

Definition SERVICE_REQUEST_MESSAGE_SUFFIX : string := "_Request".
Definition SERVICE_RESPONSE_MESSAGE_SUFFIX : string := "_Response".
Definition ACTION_GOAL_SERVICE_SUFFIX : string := "_SendGoal".
Definition ACTION_RESULT_SERVICE_SUFFIX : string := "_GetResult".
Definition ACTION_FEEDBACK_MESSAGE_SUFFIX : string := "_FeedbackMessage".

Inductive MessageDefinitionFormat := IDL | MSG | SRV_REQ | SRV_RESP.

#[export] Instance MessageDefinitionFormat_eq_dec : EqDecision MessageDefinitionFormat.
Proof. solve_decision. Defined.

Definition format_code (f : MessageDefinitionFormat) : nat :=
  match f with IDL => 0 | MSG => 1 | SRV_REQ => 2 | SRV_RESP => 3 end.

Definition format_of_code (n : nat) : MessageDefinitionFormat :=
  match n with 0 => IDL | 1 => MSG | 2 => SRV_REQ | _ => SRV_RESP end.

#[export] Instance MessageDefinitionFormat_countable : Countable MessageDefinitionFormat.
Proof. apply (inj_countable' format_code format_of_code). by intros []. Defined.

Record DefinitionIdentifier := mk_id {
  id_format : MessageDefinitionFormat;
  package_resource_name : string
}.

#[export] Instance DefinitionIdentifier_eq_dec : EqDecision DefinitionIdentifier.
Proof. solve_decision. Defined.

#[export] Instance DefinitionIdentifier_countable : Countable DefinitionIdentifier.
Proof.
  apply (inj_countable' (λ i, (id_format i, package_resource_name i)) (λ '(f, n), mk_id f n)).
  by intros [].
Defined.

(** [dependencies] is a [std::set], in its iteration order. *)
Record MessageSpec := {
  dependencies : list string;
  spec_text : string;
  spec_format : MessageDefinitionFormat
}.

(** What the loaders throw.  [OutOfFuel] is not an exception: it marks a
    recursion cut off by the model's fuel. *)
Inductive load_error :=
| InvalidArgument (what : string)
| DefinitionNotFoundError (name : string)
| PackageNotFoundError (package : string)
| OutOfFuel.

(** [get_package_share_directory] ([None]: it throws [PackageNotFoundError]),
    [get_resource] on ["rosidl_interfaces"] ([None]: it returns false), and the
    contents of the files ([None]: [!file.good()]). *)
Record ament_index := {
  get_package_share_directory : string → option string;
  get_rosidl_interfaces : string → option string;
  file_contents : string → option string
}.

(** ** Dependencies *)

Definition PRIMITIVE_TYPES : list string :=
  ["bool"; "byte"; "char"; "float32"; "float64"; "int8"; "uint8";
   "int16"; "uint16"; "int32"; "uint32"; "int64"; "uint64"; "string"].

(** The name a field type is recorded under; [None] for a primitive type. *)
Definition qualify_type (package_context type : string) : option string :=
  if bool_decide (type ∈ PRIMITIVE_TYPES) then None
  else if lacks "/" type then Some (package_context +:+ "/" +:+ type)
  else Some type.

Definition parse_msg_dependencies (text package_context : string) : list string :=
  sset_of_list (omap (qualify_type package_context) (sregex_groups msg_field_at text)).

Definition parse_idl_dependencies (text : string) : list string :=
  sset_of_list (sregex_groups idl_include_at text).

Definition parse_dependencies (format : MessageDefinitionFormat)
    (text package_context : string) : list string :=
  match format with
  | MSG | SRV_RESP | SRV_REQ => parse_msg_dependencies text package_context
  | IDL => parse_idl_dependencies text
  end.

Definition extension_for_format (format : MessageDefinitionFormat) : string :=
  match format with
  | MSG | SRV_RESP | SRV_REQ => ".msg"
  | IDL => ".idl"
  end.

Definition delimiter (i : DefinitionIdentifier) : string :=
  "================================================================================" +:+ NL +:+
  (match id_format i with
   | MSG | SRV_RESP | SRV_REQ => "MSG: "
   | IDL => "IDL: "
   end) +:+
  package_resource_name i +:+ NL.

Definition new_MessageSpec (format : MessageDefinitionFormat)
    (text package_context : string) : MessageSpec :=
  {| dependencies := parse_dependencies format text package_context;
     spec_text := text;
     spec_format := format |}.

(** ** Splitting action and service definitions *)

Definition ACTION_SEP : string := NL +:+ "---" +:+ NL.

Definition split_action_msg_definition (action_definition : string)
  : load_error + (string * string * string) :=
  match split_string action_definition ACTION_SEP with
  | [goal; result; feedback] => inr (goal, result, feedback)
  | _ => inl (InvalidArgument ("Invalid action definition:" +:+ NL +:+ action_definition))
  end.

Definition SERVICE_REQUEST_RESPONSE_SEPARATOR : string := "---".

(** The loop over the lines: [is_request] until the first separator. *)
Fixpoint service_lines (is_request : bool) (request response : string)
    (definitions : list string) : string * string :=
  match definitions with
  | [] => (request, response)
  | definition :: definitions =>
      if bool_decide (definition = SERVICE_REQUEST_RESPONSE_SEPARATOR)
      then service_lines false request response definitions
      else if is_request
           then service_lines is_request (request +:+ definition +:+ NL) response definitions
           else service_lines is_request request (response +:+ definition +:+ NL) definitions
  end.

Definition split_service_definition (service_definition : string)
  : load_error + (string * string) :=
  let normalized_definition := replace_cr (replace_crlf service_definition) in
  let definitions := split_string normalized_definition NL in
  if bool_decide (length definitions = 1) &&
     bool_decide (head definitions ≠ Some SERVICE_REQUEST_RESPONSE_SEPARATOR)
  then inl (InvalidArgument ("Invalid service definition:" +:+ NL +:+ service_definition))
  else inr (service_lines true EmptyString EmptyString definitions).

Definition action_subtype_suffixes : list string :=
  [ACTION_FEEDBACK_MESSAGE_SUFFIX;
   ACTION_RESULT_SERVICE_SUFFIX +:+ SERVICE_REQUEST_MESSAGE_SUFFIX;
   ACTION_RESULT_SERVICE_SUFFIX +:+ SERVICE_RESPONSE_MESSAGE_SUFFIX;
   ACTION_GOAL_SERVICE_SUFFIX +:+ SERVICE_REQUEST_MESSAGE_SUFFIX;
   ACTION_GOAL_SERVICE_SUFFIX +:+ SERVICE_RESPONSE_MESSAGE_SUFFIX].

Definition remove_action_subtype (action_type : string) : string :=
  match list_find (λ suffix, ends_with action_type suffix = true) action_subtype_suffixes with
  | Some (_, suffix) =>
      String.substring 0 (String.length action_type - String.length suffix) action_type
  | None => action_type
  end.

(** ** The loaders *)

(** [msg_specs_by_definition_identifier_] *)
Notation spec_cache := (gmap DefinitionIdentifier MessageSpec).

(** [emplace] keeps an entry that is already there. *)
Definition emplace (i : DefinitionIdentifier) (s : MessageSpec) (c : spec_cache) : spec_cache :=
  match c !! i with Some _ => c | None => <[i := s]> c end.

(** A loader threads the cache, which keeps its changes when it throws. *)
Definition loader (A : Type) := spec_cache → spec_cache * (load_error + A).

Section Loaders.
Context (ament : ament_index).

(** The lookup both loaders share: the package's share directory, its
    [rosidl_interfaces] index, the first index line whose file name is
    [filename], and the contents of that file.  [no_resource], [no_line] and
    [no_file] are the texts of the three errors. *)
Definition find_definition_file (package filename no_resource : string)
    (no_line no_file : string → string) : load_error + string :=
  match get_package_share_directory ament package with
  | None => inl (PackageNotFoundError package)
  | Some share_dir =>
      match get_rosidl_interfaces ament package with
      | None => inl (DefinitionNotFoundError no_resource)
      | Some index_contents =>
          match list_find (λ line, path_filename line = filename)
                  (split_string index_contents NL) with
          | None => inl (DefinitionNotFoundError (no_line index_contents))
          | Some (_, line) =>
              let full_path := share_dir +:+ "/" +:+ line in
              match file_contents ament full_path with
              | None => inl (DefinitionNotFoundError (no_file full_path))
              | Some contents => inr contents
              end
          end
      end
  end.

Definition load_service_spec (i : DefinitionIdentifier) : loader MessageSpec := λ c,
  let name := package_resource_name i in
  match c !! i with
  | Some spec => (c, inr spec)
  | None =>
  match package_typename_match name with
  | None => (c, inl (InvalidArgument ("Invalid package resource name: " +:+ name)))
  | Some (package, subfolder, type_name) =>
  if bool_decide (subfolder ≠ "srv") && bool_decide (subfolder ≠ EmptyString)
  then (c, inl (InvalidArgument ("Invalid subfolder: " +:+ subfolder)))
  else
  let is_service := bool_decide (subfolder = "srv") in
  let filename := type_name +:+
    (if is_service then ".srv" else extension_for_format (id_format i)) in
  match find_definition_file package filename
          ("get resource of 'rosidl_interfaces' failed: " +:+ name)
          (λ index_contents, "find " +:+ filename +:+ " in index_contents failed: " +:+ index_contents)
          (λ full_path, "file " +:+ full_path +:+ " not found:" +:+ name) with
  | inl e => (c, inl e)
  | inr contents =>
  match (if is_service
         then match split_service_definition contents with
              | inl e => inl e
              | inr (request, response) =>
                  inr (if bool_decide (id_format i = SRV_REQ) then request else response)
              end
         else inr contents) with
  | inl e => (c, inl e)
  | inr return_val =>
      let spec := new_MessageSpec (id_format i) return_val package in
      (emplace i spec c, inr spec)
  end end end end.

(** The definition of each action subtype. *)
Definition action_type_definitions (goalDef resultDef feedbackDef : string)
  : list (string * string) :=
  [(ACTION_FEEDBACK_MESSAGE_SUFFIX,
    "unique_identifier_msgs/UUID goal_id" +:+ NL +:+ feedbackDef);
   (ACTION_RESULT_SERVICE_SUFFIX +:+ SERVICE_REQUEST_MESSAGE_SUFFIX,
    "unique_identifier_msgs/UUID goal_id" +:+ NL);
   (ACTION_RESULT_SERVICE_SUFFIX +:+ SERVICE_RESPONSE_MESSAGE_SUFFIX,
    "int8 status" +:+ NL +:+ resultDef);
   (ACTION_GOAL_SERVICE_SUFFIX +:+ SERVICE_REQUEST_MESSAGE_SUFFIX,
    "unique_identifier_msgs/UUID goal_id" +:+ NL +:+ goalDef);
   (ACTION_GOAL_SERVICE_SUFFIX +:+ SERVICE_RESPONSE_MESSAGE_SUFFIX,
    "bool accepted" +:+ NL +:+ "builtin_interfaces/msg/Time stamp")].

(** A [MessageSpec] for every action subtype is added to the cache. *)
Definition emplace_action_types (format : MessageDefinitionFormat) (package action_name : string)
    (defs : list (string * string)) (c : spec_cache) : spec_cache :=
  foldl (λ c '(action_suffix, definition),
           emplace (mk_id format (package +:+ "/action/" +:+ action_name +:+ action_suffix))
                   (new_MessageSpec format definition package) c) c defs.

Definition load_message_spec (i : DefinitionIdentifier) : loader MessageSpec := λ c,
  let name := package_resource_name i in
  match c !! i with
  | Some spec => (c, inr spec)
  | None =>
  match package_typename_match name with
  | None => (c, inl (InvalidArgument ("Invalid package resource name: " +:+ name)))
  | Some (package, subfolder, type_name) =>
  let is_action_type := bool_decide (subfolder = "action") in
  let action_name := if is_action_type then remove_action_subtype type_name else EmptyString in
  let filename := if is_action_type then action_name +:+ ".action"
                  else type_name +:+ extension_for_format (id_format i) in
  match find_definition_file package filename name (λ _, name) (λ _, name) with
  | inl e => (c, inl e)
  | inr contents =>
  if is_action_type then
    if bool_decide (id_format i = MSG) then
      match split_action_msg_definition contents with
      | inl e => (c, inl e)
      | inr (goalDef, resultDef, feedbackDef) =>
          let c := emplace_action_types (id_format i) package action_name
                     (action_type_definitions goalDef resultDef feedbackDef) c in
          match c !! i with
          | None => (c, inl (DefinitionNotFoundError name))
          | Some spec => (c, inr spec)
          end
      end
    else (c, inl (DefinitionNotFoundError name))
  else
    let spec := new_MessageSpec (id_format i) contents package in
    (emplace i spec c, inr spec)
  end end end.

End Loaders.

(** ** Concatenating a definition with its dependencies *)

(** The state of a [get_full_*_text] call: the cache and [seen_deps]. *)
Record text_state := { ts_cache : spec_cache; ts_seen : gset DefinitionIdentifier }.

Section AppendRecursive.
Context (load : DefinitionIdentifier → loader MessageSpec).

(** The [for] loop over the dependencies of one definition; [recur] is the
    recursive call of the lambda. *)
Fixpoint append_deps
    (recur : DefinitionIdentifier → text_state → text_state * (load_error + string))
    (format : MessageDefinitionFormat) (deps : list string) (result : string)
    (st : text_state) : text_state * (load_error + string) :=
  match deps with
  | [] => (st, inr result)
  | dep_name :: deps =>
      let dep := mk_id format dep_name in
      if bool_decide (dep ∈ ts_seen st) then append_deps recur format deps result st
      else
        let st := {| ts_cache := ts_cache st; ts_seen := {[dep]} ∪ ts_seen st |} in
        match recur dep st with
        | (st, inl e) => (st, inl e)
        | (st, inr text) =>
            append_deps recur format deps (result +:+ NL +:+ delimiter dep +:+ text) st
        end
  end.

(** The lambda [append_recursive]. *)
Fixpoint append_recursive (fuel : nat) (i : DefinitionIdentifier) (st : text_state)
  : text_state * (load_error + string) :=
  match fuel with
  | O => (st, inl OutOfFuel)
  | S fuel =>
      let '(c, r) := load i (ts_cache st) in
      let st := {| ts_cache := c; ts_seen := ts_seen st |} in
      match r with
      | inl e => (st, inl e)
      | inr spec =>
          append_deps (append_recursive fuel) (id_format i) (dependencies spec) (spec_text spec) st
      end
  end.

End AppendRecursive.

Definition is_DefinitionNotFoundError (e : load_error) : bool :=
  match e with DefinitionNotFoundError _ => true | _ => false end.

(** The map it returns, at its keys ["request"] and ["response"]. *)
Definition get_full_srv_text (ament : ament_index) (fuel : nat) (service_name : string)
    (c : spec_cache) : spec_cache * (load_error + (string * string)) :=
  let append := append_recursive (load_service_spec ament) fuel in
  let st := {| ts_cache := c; ts_seen := ∅ |} in
  match append (mk_id SRV_REQ service_name) st with
  | (st, inl e) =>
      (ts_cache st, if is_DefinitionNotFoundError e then inr (EmptyString, EmptyString) else inl e)
  | (st, inr request) =>
      match append (mk_id SRV_RESP service_name) st with
      | (st, inl e) =>
          (ts_cache st, if is_DefinitionNotFoundError e then inr (request, EmptyString) else inl e)
      | (st, inr response) => (ts_cache st, inr (request, response))
      end
  end.

Definition get_full_msg_text (ament : ament_index) (fuel : nat)
    (root_package_resource_name : string) (c : spec_cache)
  : spec_cache * (load_error + (MessageDefinitionFormat * string)) :=
  let append := append_recursive (load_message_spec ament) fuel in
  let st := {| ts_cache := c; ts_seen := ∅ |} in
  match append (mk_id MSG root_package_resource_name) st with
  | (st, inr result) => (ts_cache st, inr (MSG, result))
  | (st, inl e) =>
      if is_DefinitionNotFoundError e then
        let root := mk_id IDL root_package_resource_name in
        match append root st with
        | (st, inl e) => (ts_cache st, inl e)
        | (st, inr text) => (ts_cache st, inr (IDL, delimiter root +:+ text))
        end
      else (ts_cache st, inl e)
  end.
