(* ===== verification/SchemaText.v ===== *)
(** * Self-contained schemas

    The properties of [MessageDefinitionCache]: the cache never changes what is
    loaded, and the text that [get_full_msg_text] builds holds the definition
    and every type it depends on exactly once. *)

From Stdlib Require Import ZArith Lia.
From Stdlib Require Import Strings.Ascii.
From S2P Require Import Prelude Text MessageDefinitionCache.

#[local] Arguments String.append !s1 s2 /.

(** ** What a loader promises to [append_recursive]

    On the formats [ok] it is called with, a loader answers as it does on the
    empty cache, whatever coherent cache it is given, and leaves it coherent. *)
Class CoherentLoader (load : DefinitionIdentifier → loader MessageSpec)
    (ok : MessageDefinitionFormat → Prop) (coherent : spec_cache → Prop) := {
  coherent_load i c : ok (id_format i) → coherent c → coherent (load i c).1;
  coherent_answer i c : ok (id_format i) → coherent c → (load i c).2 = (load i ∅).2;
  coherent_no_fuel i c : (load i c).2 ≠ inl OutOfFuel
}.

(** ** The recursion over the dependencies *)

Section Append.
Context (load : DefinitionIdentifier → loader MessageSpec).
Context (ok : MessageDefinitionFormat → Prop) (coherent : spec_cache → Prop).
Context `{!CoherentLoader load ok coherent}.

Definition fetch (i : DefinitionIdentifier) : load_error + MessageSpec := (load i ∅).2.

Definition text_of (i : DefinitionIdentifier) : string :=
  match fetch i with inr s => spec_text s | inl _ => EmptyString end.

Definition deps_of (i : DefinitionIdentifier) : list DefinitionIdentifier :=
  match fetch i with inr s => mk_id (id_format i) <$> dependencies s | inl _ => [] end.

Definition dep_step (i d : DefinitionIdentifier) : Prop := d ∈ deps_of i.

(** The sections of a list of dependencies. *)
Fixpoint sections (l : list DefinitionIdentifier) : string :=
  match l with
  | [] => EmptyString
  | d :: l => NL +:+ delimiter d +:+ text_of d +:+ sections l
  end.

Lemma sections_app l l' : sections (l ++ l') = sections l +:+ sections l'.
Proof. induction l as [|d l IH]; [done|]. cbn [sections app]. by rewrite IH, !str_app_assoc. Qed.

Lemma dep_step_format i d : dep_step i d → id_format d = id_format i.
Proof.
  unfold dep_step, deps_of. case_match; [by intros ?%not_elem_of_nil|].
  by intros (? & -> & _)%list_elem_of_fmap.
Qed.

(** What a successful call adds: the list [l] of the dependencies first seen. *)
Record appended (roots : list DefinitionIdentifier) (st st' : text_state)
    (l : list DefinitionIdentifier) : Prop := {
  app_seen : ts_seen st' = list_to_set l ∪ ts_seen st;
  app_nodup : NoDup l;
  app_fresh d : d ∈ l → d ∉ ts_seen st;
  app_reached d : d ∈ l → ∃ r, r ∈ roots ∧ rtc dep_step r d;
  app_closed d : d ∈ l → ∀ d', dep_step d d' → d' ∈ ts_seen st';
  app_loaded d : d ∈ l → ∃ s, fetch d = inr s
}.

(** One successful call of [append_recursive]. *)
Definition appends (i : DefinitionIdentifier) (st st' : text_state) (t : string) : Prop :=
  (∃ s, fetch i = inr s) ∧
  (∀ d, dep_step i d → d ∈ ts_seen st') ∧
  ∃ l, appended (deps_of i) st st' l ∧ t = text_of i +:+ sections l.

(** [seen_deps] only grows, by identifiers of the root's format. *)
Definition seen_grows (f : MessageDefinitionFormat) (st st' : text_state) : Prop :=
  ts_seen st ⊆ ts_seen st' ∧
  ∀ d, d ∈ ts_seen st' → d ∈ ts_seen st ∨ id_format d = f.

Lemma seen_grows_refl f st : seen_grows f st st.
Proof. split; auto. Qed.

Lemma seen_grows_dep f n st st1 st2 :
  seen_grows f {| ts_cache := ts_cache st; ts_seen := {[mk_id f n]} ∪ ts_seen st |} st1 →
  seen_grows f st1 st2 → seen_grows f st st2.
Proof.
  intros [H1 H1'] [H2 H2']. cbn [ts_seen] in *. split; [set_solver|].
  intros d Hd. destruct (H2' d Hd) as [Hd1|]; [|by right].
  destruct (H1' d Hd1) as [[->%elem_of_singleton|]%elem_of_union|]; auto.
Qed.

Definition recur_ok
    (recur : DefinitionIdentifier → text_state → text_state * (load_error + string)) : Prop :=
  ∀ i st, ok (id_format i) → coherent (ts_cache st) →
    coherent (ts_cache (recur i st).1) ∧
    seen_grows (id_format i) st (recur i st).1 ∧
    match (recur i st).2 with
    | inr t => appends i st (recur i st).1 t
    | inl e => e = OutOfFuel ∨ ∃ d, rtc dep_step i d ∧ fetch d = inl e
    end.

Lemma appended_nil roots st : appended roots st st [].
Proof. split; [set_solver|constructor|set_solver..]. Qed.

Lemma appended_cons dep roots st st1 st2 t l :
  dep ∉ ts_seen st → dep ∈ roots →
  appends dep {| ts_cache := ts_cache st; ts_seen := {[dep]} ∪ ts_seen st |} st1 t →
  appended roots st1 st2 l →
  ∃ l', appended roots st st2 l' ∧
        NL +:+ delimiter dep +:+ t +:+ sections l = sections l'.
Proof.
  intros Hnew Hroot ([s Hs] & Hdeps & l1 & [Hseen1 Hnd1 Hfr1 Hre1 Hcl1 Hld1] & ->) A2.
  destruct A2 as [Hseen2 Hnd2 Hfr2 Hre2 Hcl2 Hld2]. cbn [ts_seen] in *.
  exists (dep :: l1 ++ l). split.
  - split.
    + rewrite Hseen2, Hseen1, list_to_set_cons, list_to_set_app_L. set_solver.
    + apply NoDup_cons; split; [|apply NoDup_app; split_and!; [done| |done]]; set_solver.
    + set_solver.
    + intros d [->|[Hd|Hd]%elem_of_app]%elem_of_cons; [by eauto using rtc_refl| |by auto].
      destruct (Hre1 d Hd) as (r & Hr & Hrd). exists dep. split; [done|by apply rtc_l with r].
    + intros d [->|[Hd|Hd]%elem_of_app]%elem_of_cons d' Hd'; [| |by eauto];
        rewrite Hseen2; apply elem_of_union_r; eauto.
    + intros d [->|[Hd|Hd]%elem_of_app]%elem_of_cons; eauto.
  - cbn [sections]. by rewrite sections_app, !str_app_assoc.
Qed.

Lemma append_deps_ok recur i (deps : list string) result st :
  recur_ok recur → ok (id_format i) → coherent (ts_cache st) →
  (∀ n, n ∈ deps → mk_id (id_format i) n ∈ deps_of i) →
  let r := append_deps recur (id_format i) deps result st in
  coherent (ts_cache r.1) ∧ seen_grows (id_format i) st r.1 ∧
  match r.2 with
  | inr t =>
      (∀ n, n ∈ deps → mk_id (id_format i) n ∈ ts_seen r.1) ∧
      ∃ l, appended (deps_of i) st r.1 l ∧ t = result +:+ sections l
  | inl e => e = OutOfFuel ∨ ∃ d, rtc dep_step i d ∧ fetch d = inl e
  end.
Proof.
  intros Hrec Hok. cbv zeta. revert result st.
  induction deps as [|n deps IH]; intros result st Hc Hdeps; cbn [append_deps fst snd].
  - split; [done|]. split; [apply seen_grows_refl|]. split; [set_solver|].
    exists []. rewrite str_app_nil_r. eauto using appended_nil.
  - case_bool_decide as Hseen.
    + destruct (IH result st Hc) as (? & Hg & Hr); [set_solver|]. split; [done|]. split; [done|].
      case_match; [done|]. destruct Hr as [Hall Hl]. split; [|done]. destruct Hg. set_solver.
    + set (dep := mk_id (id_format i) n) in *.
      set (st0 := {| ts_cache := ts_cache st; ts_seen := {[dep]} ∪ ts_seen st |}).
      destruct (Hrec dep st0 Hok Hc) as (Hc1 & Hs1 & H1).
      destruct (recur dep st0) as [st1 [e|t]]; cbn [fst snd] in *.
      * split; [done|]. split; [by eapply seen_grows_dep, seen_grows_refl|]. destruct H1 as [->|(d & Hd & He)]; [by left|right].
        exists d. split; [|done]. apply rtc_l with dep; [|done]. apply Hdeps. set_solver.
      * destruct (IH (result +:+ NL +:+ delimiter dep +:+ t) st1 Hc1) as (? & Hg & Hr);
          [set_solver|]. split; [done|]. split; [by eapply seen_grows_dep|].
        destruct Hg, Hs1. case_match; [done|]. destruct Hr as [Hall (l & Hl & ->)].
        split; [intros m [->|?]%elem_of_cons; [set_solver|by auto]|].
        assert (dep ∈ deps_of i) as Hroot by (apply Hdeps; set_solver).
        destruct (appended_cons _ _ _ _ _ _ _ Hseen Hroot H1 Hl) as (l' & ? & Hl').
        exists l'. by rewrite <-Hl', !str_app_assoc.
Qed.

Lemma append_recursive_ok fuel : recur_ok (append_recursive load fuel).
Proof.
  induction fuel as [|fuel IH]; intros i st Hok Hc; cbn [append_recursive];
    [split; [done|]; split; [apply seen_grows_refl|by left]|].
  pose proof (coherent_load i _ Hok Hc) as Hc'.
  pose proof (coherent_answer i _ Hok Hc) as Ha.
  destruct (load i (ts_cache st)) as [c' [e|s]]; cbn [fst snd ts_cache ts_seen] in *.
  - split; [done|]. split; [apply (seen_grows_refl _ st)|]. right. exists i. split; [apply rtc_refl|exact (eq_sym Ha)].
  - assert (fetch i = inr s) as Hf by exact (eq_sym Ha).
    destruct (append_deps_ok (append_recursive load fuel) i (dependencies s) (spec_text s)
      {| ts_cache := c'; ts_seen := ts_seen st |}) as (? & Hg & Hr); [done..| |].
    { intros n Hn. unfold deps_of. rewrite Hf. set_solver. }
    split; [done|]. split; [exact Hg|]. case_match; [done|]. destruct Hr as [Hall (l & Hl & ->)].
    split_and!; [by eauto| |].
    + intros d Hd. unfold dep_step, deps_of in Hd. rewrite Hf in Hd. set_solver.
    + exists l. split; [|by unfold text_of; rewrite Hf]. by destruct Hl; split.
Qed.

(** *** The fuel: one unit per identifier not yet seen is enough. *)

Definition closed_under_deps (U : gset DefinitionIdentifier) : Prop :=
  ∀ d d', d ∈ U → dep_step d d' → d' ∈ U.

Lemma append_deps_fuel recur (U : gset DefinitionIdentifier) fuel i deps result st :
  recur_ok recur → ok (id_format i) → coherent (ts_cache st) →
  (∀ n, n ∈ deps → mk_id (id_format i) n ∈ U) →
  (∀ d st, d ∈ U → d ∈ ts_seen st → id_format d = id_format i → coherent (ts_cache st) →
     size (U ∖ ts_seen st) < fuel → (recur d st).2 ≠ inl OutOfFuel) →
  size (U ∖ ts_seen st) ≤ fuel →
  (append_deps recur (id_format i) deps result st).2 ≠ inl OutOfFuel.
Proof.
  intros Hrec Hok Hc HU Hfuel. revert result st Hc.
  induction deps as [|n deps IH]; intros result st Hc Hsz; cbn [append_deps]; [done|].
  case_bool_decide as Hseen; [apply IH; [set_solver|done..]|].
  set (dep := mk_id (id_format i) n) in *.
  set (st0 := {| ts_cache := ts_cache st; ts_seen := {[dep]} ∪ ts_seen st |}).
  assert (dep ∈ U) by (apply HU; set_solver).
  assert (size (U ∖ ts_seen st0) < size (U ∖ ts_seen st)) as Hlt.
  { apply subset_size. cbn [st0 ts_seen]. split; [set_solver|]. intros Hs.
    assert (dep ∈ U ∖ ts_seen st) as Hd by set_solver. apply Hs in Hd. set_solver. }
  destruct (Hrec dep st0 Hok Hc) as (Hc1 & [Hs1 _] & _).
  pose proof (Hfuel dep st0 ltac:(done) ltac:(set_solver) eq_refl Hc ltac:(lia)) as Hnf.
  destruct (recur dep st0) as [st1 [e|t]]; cbn [fst snd] in *; [done|].
  apply IH; [set_solver|done|].
  etrans; [|exact Hsz]. apply subseteq_size. set_solver.
Qed.

Lemma append_recursive_fuel (U : gset DefinitionIdentifier) fuel i st :
  closed_under_deps U → ok (id_format i) → coherent (ts_cache st) →
  (∀ d, dep_step i d → d ∈ U) →
  size (U ∖ ts_seen st) < fuel →
  (append_recursive load fuel i st).2 ≠ inl OutOfFuel.
Proof.
  intros HU. revert i st.
  induction fuel as [|fuel IH]; intros i st Hok Hc Hi Hsz; [lia|]. cbn [append_recursive].
  pose proof (coherent_load i _ Hok Hc) as Hc'.
  pose proof (coherent_answer i _ Hok Hc) as Ha.
  pose proof (coherent_no_fuel i (ts_cache st)) as Hnf.
  destruct (load i (ts_cache st)) as [c' [e|s]]; cbn [fst snd ts_cache ts_seen] in *; [congruence|].
  apply (append_deps_fuel _ U fuel); [apply append_recursive_ok|done..| | |cbn; lia].
  - intros n Hn. apply Hi. unfold dep_step, deps_of, fetch. rewrite <-Ha. set_solver.
  - intros d st' Hd _ Hf Hcst Hs. apply IH; [by rewrite Hf|done|by eauto|done].
Qed.

(** *** Success, and what is in the text *)

Lemma closed_reached (seen : gset DefinitionIdentifier) i d :
  (∀ d, dep_step i d → d ∈ seen) → (∀ d d', d ∈ seen → dep_step d d' → d' ∈ seen) →
  tc dep_step i d → d ∈ seen.
Proof.
  intros Hi Hcl Hd. induction Hd as [x y Hxy|x y z Hxy Hyz IH]; [by auto|].
  apply IH. intros d. by apply Hcl, Hi.
Qed.

(** [t] is the definition [i] followed by one section for every definition that
    it depends on, directly or not: each once, and all of them loaded. *)
Definition schema_text (i : DefinitionIdentifier) (t : string) : Prop :=
  ∃ l, NoDup l ∧ (∀ d, d ∈ l ↔ tc dep_step i d) ∧
       (∀ d, d ∈ i :: l → ∃ s, fetch d = inr s) ∧
       t = text_of i +:+ sections l.

(** From a [seen_deps] with no identifier of the root's format: the identifiers
    of the definitions in the text are the ones reachable from the root, each once. *)
Lemma appends_reachable i st st' t :
  (∀ d, d ∈ ts_seen st → id_format d ≠ id_format i) → appends i st st' t →
  schema_text i t.
Proof.
  intros Hs (Hloaded & Hi & l & [Hseen Hnd Hfr Hre Hcl Hld] & ->).
  assert (∀ d, id_format d = id_format i → d ∈ ts_seen st' → d ∈ l) as Hin.
  { intros d Hd. rewrite Hseen. intros [?%elem_of_list_to_set|Hd']%elem_of_union; [done|].
    by apply Hs in Hd'. }
  assert (∀ d, d ∈ l → id_format d = id_format i) as Hl.
  { intros d Hd. destruct (Hre d Hd) as (r & Hr & Hrd).
    rewrite <-(dep_step_format i r Hr). clear Hd Hr.
    induction Hrd as [|x y z Hxy Hyz IH]; [done|]. by rewrite IH, (dep_step_format x y). }
  exists l. split_and!; [done| |intros d [->|Hd]%elem_of_cons; [done|by apply Hld]|done].
  intros d. split.
  - intros Hd. destruct (Hre d Hd) as (r & Hr & Hrd). by apply tc_rtc_r with r; [apply tc_once|].
  - intros Hd. apply (elem_of_list_to_set (C:=gset DefinitionIdentifier)).
    apply (closed_reached _ i); [..|exact Hd].
    + intros x Hx. apply elem_of_list_to_set, Hin; auto using dep_step_format.
    + intros x y Hx%elem_of_list_to_set Hxy. apply elem_of_list_to_set, Hin; [|by eapply Hcl].
      rewrite (dep_step_format x y Hxy). auto.
Qed.

(** A call of [append_recursive] by a [get_full_*_text] function. *)
Lemma append_pass (U : gset DefinitionIdentifier) fuel i st :
  ok (id_format i) → coherent (ts_cache st) → closed_under_deps U →
  (∀ d, dep_step i d → d ∈ U) → size U < fuel →
  (∀ d, d ∈ ts_seen st → id_format d ≠ id_format i) →
  let r := append_recursive load fuel i st in
  coherent (ts_cache r.1) ∧
  (∀ d, d ∈ ts_seen r.1 → d ∈ ts_seen st ∨ id_format d = id_format i) ∧
  match r.2 with
  | inr t => schema_text i t
  | inl e => e ≠ OutOfFuel ∧ ∃ d, rtc dep_step i d ∧ fetch d = inl e
  end.
Proof.
  intros Hok Hc HU Hi Hsz Hseen r.
  destruct (append_recursive_ok fuel i st Hok Hc) as (Hc' & [_ Hg] & Hr).
  assert (r.2 ≠ inl OutOfFuel) as Hnf.
  { apply (append_recursive_fuel U); [done..|]. eapply Nat.le_lt_trans; [|exact Hsz].
    apply subseteq_size. set_solver. }
  split; [done|]. split; [exact Hg|]. fold r in Hr. destruct (r.2) as [e|t].
  - split; [congruence|]. by destruct Hr as [->|].
  - by eapply appends_reachable.
Qed.

(** *** The cache does not matter *)

Definition same_result (r1 r2 : text_state * (load_error + string)) : Prop :=
  ts_seen r1.1 = ts_seen r2.1 ∧ r1.2 = r2.2 ∧
  coherent (ts_cache r1.1) ∧ coherent (ts_cache r2.1).

Lemma append_deps_cache recur f deps result st1 st2 :
  (∀ n st1 st2, ts_seen st1 = ts_seen st2 → coherent (ts_cache st1) → coherent (ts_cache st2) →
     same_result (recur (mk_id f n) st1) (recur (mk_id f n) st2)) →
  ts_seen st1 = ts_seen st2 → coherent (ts_cache st1) → coherent (ts_cache st2) →
  same_result (append_deps recur f deps result st1) (append_deps recur f deps result st2).
Proof.
  intros Hrec. revert result st1 st2.
  induction deps as [|n deps IH]; intros result st1 st2 Hs H1 H2; cbn [append_deps]; [done|].
  rewrite Hs. case_bool_decide; [by apply IH|].
  set (s1 := {| ts_cache := ts_cache st1; ts_seen := _ |}).
  set (s2 := {| ts_cache := ts_cache st2; ts_seen := _ |}).
  destruct (Hrec n s1 s2 eq_refl H1 H2) as (Hs' & Hr & H1' & H2').
  destruct (recur _ s1) as [? [|]], (recur _ s2) as [? [|]]; simplify_eq/=; [done|].
  by apply IH.
Qed.

Lemma append_recursive_cache fuel i st1 st2 :
  ok (id_format i) → ts_seen st1 = ts_seen st2 →
  coherent (ts_cache st1) → coherent (ts_cache st2) →
  same_result (append_recursive load fuel i st1) (append_recursive load fuel i st2).
Proof.
  revert i st1 st2. induction fuel as [|fuel IH]; intros i st1 st2 Hok Hs H1 H2; [done|].
  cbn [append_recursive].
  pose proof (coherent_load i _ Hok H1). pose proof (coherent_load i _ Hok H2).
  pose proof (coherent_answer i _ Hok H1) as Ha1. pose proof (coherent_answer i _ Hok H2) as Ha2.
  destruct (load i (ts_cache st1)) as [c1 r1], (load i (ts_cache st2)) as [c2 r2].
  cbn [fst snd] in *. subst r1 r2. destruct (load i ∅).2; [done|].
  apply append_deps_cache; [|done..]. intros. by apply IH.
Qed.

End Append.

(** ** The loaders of the cache are coherent *)

Section Coherence.
Context (ament : ament_index).

Definition message_format (f : MessageDefinitionFormat) : Prop := f = MSG ∨ f = IDL.
Definition service_format (f : MessageDefinitionFormat) : Prop := f = SRV_REQ ∨ f = SRV_RESP.

(** Every cached entry is what its loader gives on the empty cache. *)
Definition cache_coherent (c : spec_cache) : Prop :=
  ∀ i s, c !! i = Some s →
    (message_format (id_format i) → fetch (load_message_spec ament) i = inr s) ∧
    (service_format (id_format i) → fetch (load_service_spec ament) i = inr s).

Lemma cache_coherent_empty : cache_coherent ∅.
Proof. intros i s Hi. by rewrite lookup_empty in Hi. Qed.

Lemma formats_disjoint f : message_format f → service_format f → False.
Proof. intros [->| ->] [[=]|[=]]. Qed.

Lemma emplace_lookup i s c j :
  emplace i s c !! j =
  match c !! j with Some s' => Some s' | None => if decide (i = j) then Some s else None end.
Proof.
  unfold emplace. destruct (c !! i) eqn:E.
  - destruct (decide (i = j)) as [->|]; [by rewrite E|]. by destruct (c !! j).
  - destruct (decide (i = j)) as [->|]; [by rewrite E, lookup_insert_eq|].
    rewrite lookup_insert_ne by done. by destruct (c !! j).
Qed.

Lemma emplace_coherent i s c :
  cache_coherent c →
  (message_format (id_format i) → fetch (load_message_spec ament) i = inr s) →
  (service_format (id_format i) → fetch (load_service_spec ament) i = inr s) →
  cache_coherent (emplace i s c).
Proof.
  intros Hc Hm Hs j s'. rewrite emplace_lookup.
  destruct (c !! j) eqn:E; [intros [= <-]; by apply Hc|].
  by destruct (decide (i = j)) as [<-|]; intros; simplify_eq.
Qed.

(** *** Services *)

Lemma load_service_spec_coherent i c :
  service_format (id_format i) → cache_coherent c →
  cache_coherent (load_service_spec ament i c).1 ∧
  (load_service_spec ament i c).2 = fetch (load_service_spec ament) i.
Proof.
  intros Hf Hc. destruct (c !! i) as [s|] eqn:E.
  { unfold load_service_spec at 1 2. rewrite E. split; [done|]. cbn [snd]. symmetry. by apply (Hc i s). }
  assert ((load_service_spec ament i c).2 = fetch (load_service_spec ament) i) as Heq.
  { unfold fetch, load_service_spec. rewrite E, lookup_empty. by repeat case_match. }
  split; [|done]. revert Heq. unfold load_service_spec at 1 3. rewrite E.
  repeat case_match; cbn [fst snd]; intros Heq; try done.
  all: apply emplace_coherent; [done|by intros ?%formats_disjoint|done].
Qed.

Lemma load_no_fuel :
  (∀ i c, (load_service_spec ament i c).2 ≠ inl OutOfFuel) ∧
  (∀ i c, (load_message_spec ament i c).2 ≠ inl OutOfFuel).
Proof.
  assert (∀ p f a b d, find_definition_file ament p f a b d ≠ inl OutOfFuel) as Hf.
  { intros. unfold find_definition_file. by repeat case_match. }
  assert (∀ d, split_service_definition d ≠ inl OutOfFuel) as Hs.
  { intros. unfold split_service_definition. by case_match. }
  assert (∀ d, split_action_msg_definition d ≠ inl OutOfFuel) as Ha.
  { intros. unfold split_action_msg_definition. by repeat case_match. }
  split; intros i c; unfold load_service_spec, load_message_spec;
    repeat (case_match; simplify_eq/=; try done); intros [= ->]; naive_solver.
Qed.

(** *** Action subtypes *)

Lemma action_suffix_ends an s t :
  s ∈ action_subtype_suffixes → t ∈ action_subtype_suffixes →
  ends_with (an +:+ s) t = true → s = t.
Proof.
  intros Hs Ht [y Hy]%ends_with_spec. apply suffixes_agree in Hy.
  unfold action_subtype_suffixes in *. rewrite !elem_of_cons, elem_of_nil in Hs, Ht.
  destruct_or! Hs; destruct_or! Ht; subst; first [done|by vm_compute in Hy].
Qed.

(** [remove_action_subtype] gives back the action name. *)
Lemma remove_action_subtype_app an s :
  s ∈ action_subtype_suffixes → remove_action_subtype (an +:+ s) = an.
Proof.
  intros Hs. unfold remove_action_subtype.
  destruct (list_find _ _) as [[k t]|] eqn:E.
  - apply list_find_Some in E as (Hk & Ht & _). apply list_elem_of_lookup_2 in Hk.
    apply action_suffix_ends in Ht as <-; [|done..].
    rewrite str_length_app, Nat.add_sub. apply substring_0_app.
  - apply list_find_None in E. rewrite Forall_forall in E. destruct (E s Hs).
    apply ends_with_spec. by eexists.
Qed.

Lemma remove_action_subtype_word ty :
  str_forall is_word ty = true → str_forall is_word (remove_action_subtype ty) = true.
Proof. unfold remove_action_subtype. case_match; [case_match|]; auto using str_forall_substring. Qed.

Fixpoint first_def (i : DefinitionIdentifier) (f : MessageDefinitionFormat)
    (p an : string) (defs : list (string * string)) : option MessageSpec :=
  match defs with
  | [] => None
  | (sfx, def) :: defs =>
      if decide (mk_id f (p +:+ "/action/" +:+ an +:+ sfx) = i)
      then Some (new_MessageSpec f def p) else first_def i f p an defs
  end.

Lemma emplace_action_types_lookup f p an defs c i :
  emplace_action_types f p an defs c !! i =
  match c !! i with Some s => Some s | None => first_def i f p an defs end.
Proof.
  unfold emplace_action_types. revert c.
  induction defs as [|[sfx def] defs IH]; intros c; cbn [foldl first_def]; [by destruct (c !! i)|].
  rewrite IH, emplace_lookup. destruct (c !! i); [done|]. by destruct (decide _).
Qed.

Lemma first_def_Some i f p an g r fb s :
  first_def i f p an (action_type_definitions g r fb) = Some s →
  ∃ sfx, sfx ∈ action_subtype_suffixes ∧ i = mk_id f (p +:+ "/action/" +:+ an +:+ sfx).
Proof.
  unfold action_type_definitions, action_subtype_suffixes. cbn [first_def].
  repeat (case_decide; [intros _; eexists; split; [|by symmetry; eassumption];
    repeat (first [apply list_elem_of_here|apply list_elem_of_further])|]). done.
Qed.

Lemma find_definition_file_inr p f a b d a' b' d' contents :
  find_definition_file ament p f a b d = inr contents →
  find_definition_file ament p f a' b' d' = inr contents.
Proof. unfold find_definition_file. by repeat case_match. Qed.

(** Every subtype of an action is loaded from the same file, with the same
    definitions. *)
Lemma fetch_action_subtype p an sfx a b d contents g r fb s :
  is_class_plus is_word p = true → str_forall is_word an = true →
  sfx ∈ action_subtype_suffixes →
  find_definition_file ament p (an +:+ ".action") a b d = inr contents →
  split_action_msg_definition contents = inr (g, r, fb) →
  first_def (mk_id MSG (p +:+ "/action/" +:+ an +:+ sfx)) MSG p an
    (action_type_definitions g r fb) = Some s →
  fetch (load_message_spec ament) (mk_id MSG (p +:+ "/action/" +:+ an +:+ sfx)) = inr s.
Proof.
  intros Hp Han Hsfx Hfile Hsplit Hdef.
  assert (str_forall is_word sfx = true ∧ str_empty sfx = false) as [Hw He].
  { unfold action_subtype_suffixes in Hsfx. rewrite !elem_of_cons, elem_of_nil in Hsfx.
    destruct_or! Hsfx; by subst. }
  unfold fetch, load_message_spec. cbn [package_resource_name id_format]. rewrite lookup_empty.
  change (p +:+ "/action/" +:+ an +:+ sfx)
    with (p +:+ "/" +:+ "action" +:+ "/" +:+ (an +:+ sfx)) at 1.
  rewrite package_typename_match_sub; [|done| |set_solver].
  2:{ unfold is_class_plus. rewrite str_forall_app, Han, Hw. by destruct an, sfx. }
  rewrite (bool_decide_true ("action" = "action")), remove_action_subtype_app by done.
  erewrite find_definition_file_inr by exact Hfile.
  rewrite bool_decide_true, Hsplit by done.
  by rewrite emplace_action_types_lookup, lookup_empty, Hdef.
Qed.

Lemma load_message_spec_coherent i c :
  message_format (id_format i) → cache_coherent c →
  cache_coherent (load_message_spec ament i c).1 ∧
  (load_message_spec ament i c).2 = fetch (load_message_spec ament) i.
Proof.
  intros Hf Hc. destruct (c !! i) as [s|] eqn:E.
  { unfold load_message_spec at 1 2. rewrite E. split; [done|]. cbn [snd]. symmetry. by apply (Hc i s). }
  assert ((load_message_spec ament i c).2 = fetch (load_message_spec ament) i) as Heq.
  { unfold fetch, load_message_spec. rewrite E, lookup_empty.
    repeat (case_match; try done); rewrite ?emplace_action_types_lookup, ?E, ?lookup_empty in *;
      by simplify_eq. }
  split; [|done]. revert Heq. unfold load_message_spec at 1 3. rewrite E.
  destruct (package_typename_match _) as [[[p k] ty]|] eqn:Em; [|done].
  apply package_typename_match_Some in Em as (Hp & Hty & _).
  case_bool_decide; [|destruct (find_definition_file _ _ _ _ _ _); [done|]; cbn [fst snd]; intros;
    apply emplace_coherent; [done..|by intros ?%(formats_disjoint _ Hf)]].
  destruct (find_definition_file _ _ _ _ _ _) as [|contents] eqn:Efile; [done|].
  case_bool_decide as Hmsg; [|done]. rewrite Hmsg.
  destruct (split_action_msg_definition contents) as [|[[g r] fb]] eqn:Esplit; [done|].
  set (an := remove_action_subtype ty) in *. intros _.
  apply andb_true_iff in Hty as [_ Hty].
  assert (cache_coherent (emplace_action_types MSG p an (action_type_definitions g r fb) c)) as Hco;
    [|by case_match].
  intros j s. rewrite emplace_action_types_lookup.
  destruct (c !! j) eqn:Ej; [intros [= <-]; by apply Hc|]. intros Hdef.
  pose proof Hdef as (sfx & Hsfx & ->)%first_def_Some. split; [intros _|by intros [[=]|[=]]].
  eapply fetch_action_subtype; eauto using remove_action_subtype_word.
Qed.

End Coherence.

#[export] Instance message_loader_coherent ament :
  CoherentLoader (load_message_spec ament) message_format (cache_coherent ament).
Proof.
  split; intros; [by apply load_message_spec_coherent..|by apply load_no_fuel].
Qed.

#[export] Instance service_loader_coherent ament :
  CoherentLoader (load_service_spec ament) service_format (cache_coherent ament).
Proof.
  split; intros; [by apply load_service_spec_coherent..|by apply load_no_fuel].
Qed.

(** ** [get_full_msg_text] and [get_full_srv_text] *)

(** The message definitions that [i] depends on directly. *)
Notation msg_dep ament := (dep_step (load_message_spec ament)).
Notation fetch_msg ament := (fetch (load_message_spec ament)).
Notation fetch_srv ament := (fetch (load_service_spec ament)).

(** The result of a [get_full_msg_text] call that is given enough fuel. *)
Definition msg_text_result (ament : ament_index) (root : string)
    (r : load_error + (MessageDefinitionFormat * string)) : Prop :=
  match r with
  | inr (MSG, t) => schema_text (load_message_spec ament) (mk_id MSG root) t
  | inr (IDL, t) =>
      (∃ d n, rtc (msg_dep ament) (mk_id MSG root) d ∧
              fetch_msg ament d = inl (DefinitionNotFoundError n)) ∧
      ∃ t', t = delimiter (mk_id IDL root) +:+ t' ∧
            schema_text (load_message_spec ament) (mk_id IDL root) t'
  | inr _ => False
  | inl e =>
      e ≠ OutOfFuel ∧
      ∃ f d, rtc (msg_dep ament) (mk_id f root) d ∧ fetch_msg ament d = inl e
  end.

(** C16. [get_full_msg_text] returns: the schema of the message, in the MSG format,
    or in the IDL format when a definition was not found; or it throws the
    error of a definition the message depends on.  The number of identifiers
    reachable from the root is enough fuel. *)
Theorem full_msg_text_complete (ament : ament_index) (c : spec_cache) (root : string)
    (fuel : nat) (U : gset DefinitionIdentifier) :
  cache_coherent ament c →
  closed_under_deps (load_message_spec ament) U →
  (∀ f d, message_format f → msg_dep ament (mk_id f root) d → d ∈ U) →
  size U < fuel →
  cache_coherent ament (get_full_msg_text ament fuel root c).1 ∧
  msg_text_result ament root (get_full_msg_text ament fuel root c).2.
Proof.
  intros Hc HU Hroot Hfuel. unfold get_full_msg_text.
  pose proof (append_pass (load_message_spec ament) message_format (cache_coherent ament) U fuel
    (mk_id MSG root) {| ts_cache := c; ts_seen := ∅ |}) as H1. cbv zeta in H1.
  destruct (append_recursive _ fuel (mk_id MSG root) _) as [st1 r1].
  destruct H1 as (Hc1 & Hs1 & Hr1); [by left|done..|by intros ?; apply Hroot; left|done|set_solver|].
  cbn [fst snd] in *. destruct r1 as [e|t]; [|done].
  destruct Hr1 as [He (d & Hd & Hfd)].
  destruct (is_DefinitionNotFoundError e) eqn:Enf;
    [|split; [done|]; cbn [snd msg_text_result]; by eauto 10].
  pose proof (append_pass (load_message_spec ament) message_format (cache_coherent ament) U fuel
    (mk_id IDL root) st1) as H2. cbv zeta in H2.
  destruct (append_recursive _ fuel (mk_id IDL root) _) as [st2 r2].
  destruct H2 as (Hc2 & _ & Hr2); [by right|done..|by intros ?; apply Hroot; right|done| |].
  { intros d' Hd'. by destruct (Hs1 d' Hd') as [[]%not_elem_of_empty| ->]. }
  cbn [fst snd] in *. split; [by destruct r2|].
  destruct r2 as [e2|t2]; cbn [snd msg_text_result].
  - destruct Hr2 as [? (d2 & ? & ?)]. eauto 10.
  - destruct e; try done. split; [by eauto|]. by eexists.
Qed.


(** The result of a [get_full_srv_text] call that is given enough fuel. *)
Definition srv_not_found (ament : ament_index) (root : DefinitionIdentifier) : Prop :=
  ∃ d n, rtc (dep_step (load_service_spec ament)) root d ∧
         fetch_srv ament d = inl (DefinitionNotFoundError n).

Definition srv_text_result (ament : ament_index) (name : string)
    (r : load_error + (string * string)) : Prop :=
  let schema := schema_text (load_service_spec ament) in
  match r with
  | inr (request, response) =>
      (schema (mk_id SRV_REQ name) request ∧ schema (mk_id SRV_RESP name) response) ∨
      (schema (mk_id SRV_REQ name) request ∧ response = EmptyString ∧
       srv_not_found ament (mk_id SRV_RESP name)) ∨
      (request = EmptyString ∧ response = EmptyString ∧ srv_not_found ament (mk_id SRV_REQ name))
  | inl e =>
      e ≠ OutOfFuel ∧ is_DefinitionNotFoundError e = false ∧
      ∃ f d, rtc (dep_step (load_service_spec ament)) (mk_id f name) d ∧
             fetch_srv ament d = inl e
  end.

(** [get_full_srv_text] returns the schemas of the request and of the response;
    a definition that is not found leaves the text of its part, and of the part
    after it, empty; any other error of a definition is thrown. *)
Theorem full_srv_text_complete (ament : ament_index) (c : spec_cache) (name : string)
    (fuel : nat) (U : gset DefinitionIdentifier) :
  cache_coherent ament c →
  closed_under_deps (load_service_spec ament) U →
  (∀ f d, service_format f → dep_step (load_service_spec ament) (mk_id f name) d → d ∈ U) →
  size U < fuel →
  cache_coherent ament (get_full_srv_text ament fuel name c).1 ∧
  srv_text_result ament name (get_full_srv_text ament fuel name c).2.
Proof.
  intros Hc HU Hroot Hfuel. unfold get_full_srv_text.
  pose proof (append_pass (load_service_spec ament) service_format (cache_coherent ament) U fuel
    (mk_id SRV_REQ name) {| ts_cache := c; ts_seen := ∅ |}) as H1. cbv zeta in H1.
  destruct (append_recursive _ fuel (mk_id SRV_REQ name) _) as [st1 r1].
  destruct H1 as (Hc1 & Hs1 & Hr1); [by left|done..|by intros ?; apply Hroot; left|done|set_solver|].
  cbn [fst snd] in *. destruct r1 as [e|t].
  { destruct Hr1 as [He (d & Hd & Hfd)]. split; [done|]. destruct e; cbn; try by eauto 10.
    right; right. unfold srv_not_found. eauto 10. }
  pose proof (append_pass (load_service_spec ament) service_format (cache_coherent ament) U fuel
    (mk_id SRV_RESP name) st1) as H2. cbv zeta in H2.
  destruct (append_recursive _ fuel (mk_id SRV_RESP name) _) as [st2 r2].
  destruct H2 as (Hc2 & _ & Hr2); [by right|done..|by intros ?; apply Hroot; right|done| |].
  { intros d' Hd'. by destruct (Hs1 d' Hd') as [[]%not_elem_of_empty| ->]. }
  cbn [fst snd] in *. destruct r2 as [e|t2]; [|by cbn; eauto].
  destruct Hr2 as [He (d & Hd & Hfd)]. split; [done|]. destruct e; cbn; try by eauto 10.
  right; left. unfold srv_not_found. eauto 10.
Qed.

(** A sequence of requests on one cache. *)
Inductive definition_request := GetMsgText (name : string) | GetSrvText (name : string).

Definition definition_answer : Type :=
  (load_error + (MessageDefinitionFormat * string)) + (load_error + (string * string)).

Definition serve (ament : ament_index) (fuel : nat) (q : definition_request) (c : spec_cache)
  : spec_cache * definition_answer :=
  match q with
  | GetMsgText name => let '(c, r) := get_full_msg_text ament fuel name c in (c, inl r)
  | GetSrvText name => let '(c, r) := get_full_srv_text ament fuel name c in (c, inr r)
  end.

Fixpoint serve_all (ament : ament_index) (fuel : nat) (qs : list definition_request)
    (c : spec_cache) : list definition_answer :=
  match qs with
  | [] => []
  | q :: qs => let '(c, a) := serve ament fuel q c in a :: serve_all ament fuel qs c
  end.

Lemma get_full_msg_text_cache ament fuel name c :
  cache_coherent ament c →
  cache_coherent ament (get_full_msg_text ament fuel name c).1 ∧
  (get_full_msg_text ament fuel name c).2 = (get_full_msg_text ament fuel name ∅).2.
Proof.
  intros Hc. unfold get_full_msg_text.
  pose proof (append_recursive_cache (load_message_spec ament) message_format
    (cache_coherent ament) fuel) as HA.
  destruct (HA (mk_id MSG name) {| ts_cache := c; ts_seen := ∅ |} {| ts_cache := ∅; ts_seen := ∅ |})
    as (Hs & Hr & H1 & H2); [by left|done..|apply cache_coherent_empty|].
  destruct (append_recursive _ _ _ {| ts_cache := c; ts_seen := ∅ |}) as [st1 r1].
  destruct (append_recursive _ _ _ {| ts_cache := ∅; ts_seen := ∅ |}) as [st2 r2].
  cbn [fst snd] in *. subst r1. destruct r2 as [e|t]; [|done].
  destruct (is_DefinitionNotFoundError e); [|done].
  destruct (HA (mk_id IDL name) st1 st2) as (_ & Hr & H1' & H2'); [by right|done..|].
  destruct (append_recursive _ _ _ st1) as [? [|]], (append_recursive _ _ _ st2) as [? [|]];
    by simplify_eq/=.
Qed.

Lemma get_full_srv_text_cache ament fuel name c :
  cache_coherent ament c →
  cache_coherent ament (get_full_srv_text ament fuel name c).1 ∧
  (get_full_srv_text ament fuel name c).2 = (get_full_srv_text ament fuel name ∅).2.
Proof.
  intros Hc. unfold get_full_srv_text.
  pose proof (append_recursive_cache (load_service_spec ament) service_format
    (cache_coherent ament) fuel) as HA.
  destruct (HA (mk_id SRV_REQ name) {| ts_cache := c; ts_seen := ∅ |} {| ts_cache := ∅; ts_seen := ∅ |})
    as (Hs & Hr & H1 & H2); [by left|done..|apply cache_coherent_empty|].
  destruct (append_recursive _ _ _ {| ts_cache := c; ts_seen := ∅ |}) as [st1 r1].
  destruct (append_recursive _ _ _ {| ts_cache := ∅; ts_seen := ∅ |}) as [st2 r2].
  cbn [fst snd] in *. subst r1. destruct r2 as [e|t]; [done|].
  destruct (HA (mk_id SRV_RESP name) st1 st2) as (_ & Hr & H1' & H2'); [by right|done..|].
  destruct (append_recursive _ _ _ st1) as [? [|]], (append_recursive _ _ _ st2) as [? [|]];
    by simplify_eq/=.
Qed.

(** C33. Whatever was asked before, a request is answered as on a fresh cache. *)
Theorem definition_cache_transparent (ament : ament_index) (fuel : nat)
    (qs : list definition_request) :
  serve_all ament fuel qs ∅ = (λ q, (serve ament fuel q ∅).2) <$> qs.
Proof.
  assert (∀ c, cache_coherent ament c →
    serve_all ament fuel qs c = (λ q, (serve ament fuel q ∅).2) <$> qs) as H;
    [|by apply H, cache_coherent_empty].
  induction qs as [|q qs IH]; intros c Hc; [done|].
  cbn [serve_all]. rewrite fmap_cons. destruct q as [name|name]; cbn [serve].
  - destruct (get_full_msg_text_cache ament fuel name c Hc) as [Hc' Hr].
    destruct (get_full_msg_text ament fuel name c), (get_full_msg_text ament fuel name ∅).
    cbn [fst snd] in *. subst. f_equal. by apply IH.
  - destruct (get_full_srv_text_cache ament fuel name c Hc) as [Hc' Hr].
    destruct (get_full_srv_text ament fuel name c), (get_full_srv_text ament fuel name ∅).
    cbn [fst snd] in *. subst. f_equal. by apply IH.
Qed.

(** ** Action and service files *)

(** The three line-end conventions. *)
Definition line_ends : list string := [NL; CR +:+ NL; CR].

Definition plain_line (l : string) : Prop :=
  lacks "010" l = true ∧ lacks "013" l = true.

Lemma str_join_cons d l l2 ls :
  str_join d (l :: l2 :: ls) = l +:+ d +:+ str_join d (l2 :: ls).
Proof. done. Qed.

Lemma lacks_join c d ls :
  lacks c d = true → Forall (λ l, lacks c l = true) ls → lacks c (str_join d ls) = true.
Proof.
  intros Hd Hls. induction Hls as [|l [|l2 ls] Hl Hls IH]; [done..|].
  rewrite str_join_cons. unfold lacks in *. by rewrite !str_forall_app, Hl, Hd, IH.
Qed.

Lemma replace_crlf_no_nl s : lacks "010" s = true → replace_crlf s = s.
Proof.
  induction s as [|c s IH]; [done|]. cbn [lacks str_forall].
  intros [_ Hs]%andb_prop. specialize (IH Hs). cbn [replace_crlf].
  destruct s as [|c' s]; [done|].
  cbn [str_forall] in Hs. apply andb_prop in Hs as [Hc'%negb_true_iff _].
  rewrite Hc', andb_false_r. by f_equal.
Qed.

Lemma replace_cr_join_cr ls :
  Forall plain_line ls → replace_cr (str_join CR ls) = str_join NL ls.
Proof.
  induction 1 as [|l [|l2 ls] [_ Hr] Hls IH]; [done|by apply replace_cr_lacks|].
  rewrite !str_join_cons, !replace_cr_app, IH, replace_cr_lacks by done. done.
Qed.

Lemma replace_crlf_join ls :
  Forall plain_line ls → replace_crlf (str_join (CR +:+ NL) ls) = str_join NL ls.
Proof.
  induction 1 as [|l [|l2 ls] [Hn Hr] Hls IH]; [done|by apply replace_crlf_no_nl|].
  rewrite !str_join_cons, replace_crlf_app by done. f_equal. rewrite <-IH. by vm_compute.
Qed.

Lemma normalize_line_ends eol ls :
  eol ∈ line_ends → Forall plain_line ls →
  replace_cr (replace_crlf (str_join eol ls)) = str_join NL ls.
Proof.
  intros He Hls.
  assert (lacks "013" (str_join NL ls) = true) as Hlf.
  { apply lacks_join; [done|]. eapply Forall_impl; [exact Hls|]. by intros l [_ ?]. }
  unfold line_ends in He. rewrite !elem_of_cons, elem_of_nil in He.
  destruct_or! He; subst; [| |].
  - rewrite <-(str_app_nil_r (str_join NL ls)) at 1.
    by rewrite replace_crlf_app, replace_cr_app, replace_cr_lacks, str_app_nil_r.
  - by rewrite replace_crlf_join, replace_cr_lacks.
  - rewrite replace_crlf_no_nl; [by apply replace_cr_join_cr|].
    apply lacks_join; [done|]. eapply Forall_impl; [exact Hls|]. by intros l [? _].
Qed.

Lemma service_lines_request rq rs ls rest :
  Forall (λ l, l ≠ SERVICE_REQUEST_RESPONSE_SEPARATOR) ls →
  service_lines true rq rs (ls ++ rest) = service_lines true (rq +:+ unlines ls) rs rest.
Proof.
  intros H. revert rq. induction H as [|l ls Hl H IH]; intros rq; cbn [service_lines unlines app].
  - by rewrite str_app_nil_r.
  - rewrite bool_decide_false by done. by rewrite IH, !str_app_assoc.
Qed.

Lemma service_lines_response rq rs ls :
  service_lines false rq rs ls =
  (rq, rs +:+ unlines (filter (λ l, l ≠ SERVICE_REQUEST_RESPONSE_SEPARATOR) ls)).
Proof.
  revert rs. induction ls as [|l ls IH]; intros rs; cbn [service_lines].
  - by rewrite filter_nil, str_app_nil_r.
  - case_bool_decide as Hl.
    + by rewrite IH, filter_cons_False by (by intros []).
    + rewrite IH, filter_cons_True by done. cbn [unlines]. by rewrite !str_app_assoc.
Qed.

(** A service file is split at its first line that is [---]: the lines before it
    are the request and the lines after it the response (further [---] lines are
    dropped), whichever of the three line-end conventions the file uses. *)
Theorem service_definition_split (eol : string) (request response : list string) :
  eol ∈ line_ends →
  Forall plain_line (request ++ response) →
  Forall (λ l, l ≠ SERVICE_REQUEST_RESPONSE_SEPARATOR) request →
  split_service_definition
    (str_join eol (request ++ SERVICE_REQUEST_RESPONSE_SEPARATOR :: response)) =
  inr (unlines request,
       unlines (filter (λ l, l ≠ SERVICE_REQUEST_RESPONSE_SEPARATOR) response)).
Proof.
  intros He [Hrq Hrs]%Forall_app Hsep. unfold split_service_definition.
  assert (Forall plain_line (request ++ SERVICE_REQUEST_RESPONSE_SEPARATOR :: response)) as Hall.
  { apply Forall_app. split; [done|]. by constructor. }
  rewrite normalize_line_ends by done.
  change NL with (String "010" EmptyString). rewrite split_string_char.
  2: by intros []%app_eq_nil.
  2: { eapply Forall_impl; [exact Hall|]. by intros l [? _]. }
  rewrite service_lines_request by done. cbn [service_lines].
  rewrite (bool_decide_true (SERVICE_REQUEST_RESPONSE_SEPARATOR = _)) by done.
  rewrite service_lines_response.
  match goal with |- (if ?g then _ else _) = _ => assert (g = false) as -> end; [|done].
  destruct request as [|l request]; cbn [app head length].
  - by rewrite andb_comm, bool_decide_false by (by intros []).
  - rewrite bool_decide_false; [done|]. rewrite length_app. cbn [length]. lia.
Qed.

(** ** Field types of a [.msg] file *)

(** A line of a message definition: a comment, or a field with its type, the
    bound of an array type and the rest of the line. *)
Inductive msg_line :=
| CommentLine (text : string)
| FieldLine (type : string) (bound : option string) (rest : string).

Definition line_text (l : msg_line) : string :=
  match l with
  | CommentLine text => "#" +:+ text
  | FieldLine type bound rest =>
      type +:+ (match bound with Some b => "[" +:+ b +:+ "]" | None => EmptyString end) +:+
      " " +:+ rest
  end.

Definition msg_line_ok (l : msg_line) : bool :=
  match l with
  | CommentLine text => lacks "010" text
  | FieldLine type bound rest =>
      is_class_plus is_type_char type &&
      (match bound with Some b => lacks "]" b && lacks "010" b | None => true end) &&
      negb (str_empty rest) && negb (str_forall is_space (String.substring 0 1 rest)) &&
      lacks "010" rest
  end.

Definition line_type (l : msg_line) : option string :=
  match l with CommentLine _ => None | FieldLine type _ _ => Some type end.

Lemma span_stop p a c s :
  str_forall p a = true → p c = false → span p (a +:+ String c s) = (a, String c s).
Proof.
  intros Ha Hc. induction a as [|x a IH]; cbn [String.append span].
  - by rewrite Hc.
  - cbn [str_forall] in Ha. apply andb_prop in Ha as [-> Ha]. by rewrite IH.
Qed.

Lemma is_type_char_not_space c : is_type_char c = true → is_space c = false.
Proof. by destruct c as [[] [] [] [] [] [] [] []]; vm_compute. Qed.

Lemma is_class_plus_first p s : is_class_plus p s = true → ∃ c s', s = String c s' ∧ p c = true.
Proof. destruct s as [|c s]; [done|]. intros [_ [Hc _]%andb_prop]%andb_prop. eauto. Qed.

Lemma span_none p s : (∀ c s', s = String c s' → p c = false) → span p s = (EmptyString, s).
Proof. destruct s as [|c s]; [done|]. intros H. cbn [span]. by rewrite (H c s). Qed.

Lemma scan_plus_stop p a c s :
  is_class_plus p a = true → p c = false →
  scan_plus p (a +:+ String c s) = Some (a, String c s).
Proof.
  intros [He Ha]%andb_prop Hc. unfold scan_plus. rewrite span_stop by done.
  by apply negb_true_iff in He as ->.
Qed.

Lemma scan_array_bound bound s :
  (∀ b, bound = Some b → lacks "]" b = true) →
  scan_array ((match bound with Some b => "[" +:+ b +:+ "]" | None => EmptyString end) +:+
              String " " s) = String " " s.
Proof.
  intros Hb. destruct bound as [b|]; [|done]. specialize (Hb b eq_refl).
  unfold scan_array. rewrite !str_app_assoc.
  change ("[" +:+ b +:+ "]" +:+ String " " s) with (String "[" (b +:+ String "]" (String " " s))).
  unfold scan_lit at 1. cbn [String.prefix]. destruct (ascii_dec "[" "[") as [_|]; [|done].
  assert (∀ x : string, String.prefix EmptyString x = true) as Hp by (by intros []).
  rewrite Hp. cbn [str_drop String.length].
  rewrite span_stop by done. cbn [snd]. unfold scan_lit. cbn [String.prefix].
  by destruct (ascii_dec "]" "]") as [_|].
Qed.

(** One field line is matched, up to the rest of the line. *)
Lemma msg_field_body_line type bound rest tail :
  msg_line_ok (FieldLine type bound rest) = true →
  msg_field_body (line_text (FieldLine type bound rest) +:+ tail) = Some (type, rest +:+ tail).
Proof.
  cbn [msg_line_ok]. rewrite !andb_true_iff. intros [[[[Hty Hb] Hne] Hsp] Hnl].
  destruct (is_class_plus_first _ _ Hty) as (c & ty & -> & Hc).
  destruct rest as [|r rest]; [done|].
  assert (is_space r = false) as Hr.
  { cbn in Hsp. destruct (is_space r); [|done]. by destruct rest. }
  unfold msg_field_body. cbn [line_text]. rewrite !str_app_assoc.
  rewrite (span_none is_space); [|intros ? ? [= <- _]; by apply is_type_char_not_space].
  cbn [snd].
  set (arr := (match bound with Some b => "[" +:+ b +:+ "]" | None => EmptyString end)) in *.
  assert (∃ x xs, arr +:+ " " +:+ String r rest +:+ tail = String x xs ∧ is_type_char x = false)
    as (x & xs & Hx & Hxf).
  { unfold arr. destruct bound; cbn [String.append]; eauto. }
  rewrite Hx, scan_plus_stop, <-Hx by done. cbn [mbind option_bind].
  change (" " +:+ String r rest +:+ tail) with (String " " (String r (rest +:+ tail))).
  unfold arr. rewrite scan_array_bound.
  - change (String " " (String r (rest +:+ tail))) with (" " +:+ String r (rest +:+ tail)).
    by rewrite scan_plus_stop.
  - intros b ->. by apply andb_prop in Hb as [? _].
Qed.

Definition msg_text (ls : list msg_line) : string := unlines (line_text <$> ls).

Lemma sregex_skip fuel r t :
  lacks "010" r = true → String.length (r +:+ t) < fuel →
  sregex_loop msg_field_at fuel false (r +:+ t) =
  sregex_loop msg_field_at (fuel - String.length r) false t.
Proof.
  revert fuel. induction r as [|c r IH]; intros fuel Hr Hf; cbn [String.append String.length] in *.
  { by rewrite Nat.sub_0_r. }
  destruct fuel as [|fuel]; [lia|]. cbn [lacks str_forall] in Hr.
  apply andb_prop in Hr as [Hc%negb_true_iff%bool_decide_eq_false Hr].
  cbn [sregex_loop msg_field_at].
  assert (scan_lit NL (String c (r +:+ t)) = None) as ->.
  { unfold scan_lit, NL. cbn [String.prefix]. by destruct (ascii_dec "010" c); [congruence|]. }
  cbn [mbind option_bind]. rewrite IH by (done || lia). f_equal.
Qed.

Lemma msg_comment_body text tail :
  msg_field_body (line_text (CommentLine text) +:+ tail) = None.
Proof. done. Qed.

Lemma line_text_no_nl l : msg_line_ok l = true → ∀ rest, match l with
  | CommentLine text => lacks "010" (line_text l) = true
  | FieldLine _ _ r => rest = r → lacks "010" rest = true end.
Proof.
  destruct l; cbn [msg_line_ok]; [done|]. rewrite !andb_true_iff. by intros [_ ?] ? ->.
Qed.

(** What the scan of the lines finds, from the newline before them. *)
Lemma sregex_lines fuel ls :
  forallb msg_line_ok ls = true → String.length (NL +:+ msg_text ls) < fuel →
  sregex_loop msg_field_at fuel false (NL +:+ msg_text ls) = omap line_type ls.
Proof.
  revert fuel. induction ls as [|l ls IH]; intros fuel Hok Hf.
  { destruct fuel as [|[|fuel]]; [cbn in Hf; lia..|]. done. }
  cbn [forallb] in Hok. apply andb_prop in Hok as [Hl Hok].
  change (msg_text (l :: ls)) with (line_text l +:+ NL +:+ msg_text ls) in *.
  rewrite str_length_app in Hf. destruct fuel as [|fuel]; [lia|]. cbn [sregex_loop msg_field_at].
  assert (∀ s, scan_lit NL (NL +:+ s) = Some s) as HNL.
  { intros s. unfold scan_lit. by rewrite str_prefix_app, str_drop_app. }
  rewrite HNL. cbn [mbind option_bind]. destruct l as [text|type bound rest].
  - rewrite msg_comment_body. change (NL +:+ ?x) with (String "010" x) at 1.
    cbv beta iota. rewrite str_length_app in Hf. cbn in Hf.
    rewrite sregex_skip; [|done|rewrite str_length_app; cbn; lia].
    cbn [omap list_omap line_type]. apply IH; [done|cbn; lia].
  - rewrite msg_field_body_line by done. cbn [omap list_omap line_type]. f_equal.
    assert (lacks "010" rest = true) as Hr by (by eapply (line_text_no_nl _ Hl)).
    cbn [line_text] in Hf. rewrite !str_length_app in Hf. cbn [String.length NL] in Hf.
    rewrite sregex_skip; [|done|rewrite !str_length_app; cbn; lia].
    apply IH; [done|rewrite str_length_app; cbn; lia].
Qed.

Lemma sregex_groups_lines ls :
  forallb msg_line_ok ls = true →
  sregex_groups msg_field_at (msg_text ls) = omap line_type ls.
Proof.
  destruct ls as [|l ls]; [done|]. cbn [forallb]. intros [Hl Hok]%andb_prop.
  unfold sregex_groups.
  change (msg_text (l :: ls)) with (line_text l +:+ NL +:+ msg_text ls).
  assert (∀ fuel, String.length (line_text l +:+ NL +:+ msg_text ls) < fuel →
    sregex_loop msg_field_at fuel true (line_text l +:+ NL +:+ msg_text ls) =
    omap line_type (l :: ls)) as H; [|apply H; lia].
  intros [|fuel] Hf; [lia|]. cbn [sregex_loop].
  destruct l as [text|type bound rest]; unfold msg_field_at at 1.
  - rewrite msg_comment_body. rewrite str_length_app in Hf. cbn in Hf.
    change (line_text (CommentLine text) +:+ ?x) with (String "#" (text +:+ x)).
    change (scan_lit NL (String "#" ?x)) with (@None string). cbn [mbind option_bind].
    rewrite sregex_skip; [|done|rewrite str_length_app; cbn; lia].
    cbn [omap list_omap line_type]. apply sregex_lines; [done|cbn; lia].
  - rewrite msg_field_body_line by done. cbn [omap list_omap line_type]. f_equal.
    assert (lacks "010" rest = true) as Hr by (by eapply (line_text_no_nl _ Hl)).
    cbn [line_text] in Hf. rewrite !str_length_app in Hf. cbn [String.length NL] in Hf.
    rewrite sregex_skip; [|done|rewrite !str_length_app; cbn; lia].
    apply sregex_lines; [done|rewrite str_length_app; cbn; lia].
Qed.

(** The dependencies of a message definition are the types of its fields that
    are not primitive, qualified by the package where they name none; comments
    add nothing. *)
Theorem message_dependencies_found (format : MessageDefinitionFormat)
    (package : string) (ls : list msg_line) (d : string) :
  format ≠ IDL → forallb msg_line_ok ls = true →
  d ∈ parse_dependencies format (msg_text ls) package ↔
  ∃ type bound rest, FieldLine type bound rest ∈ ls ∧ type ∉ PRIMITIVE_TYPES ∧
    d = (if lacks "/" type then package +:+ "/" +:+ type else type).
Proof.
  intros Hf Hls.
  transitivity (d ∈ parse_msg_dependencies (msg_text ls) package); [by destruct format|].
  unfold parse_msg_dependencies. rewrite sset_of_list_elem, sregex_groups_lines by done.
  rewrite list_elem_of_omap. setoid_rewrite list_elem_of_omap. unfold qualify_type. split.
  - intros (type & ([|? bound rest] & Hin & [= ->]) & Hd). exists type, bound, rest.
    case_bool_decide; [done|]. split_and!; [done..|]. by destruct (lacks "/" type); simplify_eq.
  - intros (type & bound & rest & Hin & Hp & ->). exists type. split; [by eexists|].
    rewrite bool_decide_false by done. by destruct (lacks "/" type).
Qed.

(** ** Witnesses *)

Definition demo_pose : list msg_line :=
  [CommentLine " a pose"; FieldLine "Point" None "position"; FieldLine "float64" (Some "4") "q"].

Definition demo_point : list msg_line := [FieldLine "float64" None "x"].

Definition demo_ament : ament_index := {|
  get_package_share_directory p := if bool_decide (p = "geo") then Some "/opt/geo" else None;
  get_rosidl_interfaces p :=
    if bool_decide (p = "geo")
    then Some (str_join NL ["msg/Pose.msg"; "msg/Point.msg"; "srv/Where.srv"; "action/Go.action"])
    else None;
  file_contents f :=
    if bool_decide (f = "/opt/geo/msg/Pose.msg") then Some (msg_text demo_pose)
    else if bool_decide (f = "/opt/geo/msg/Point.msg") then Some (msg_text demo_point)
    else if bool_decide (f = "/opt/geo/srv/Where.srv")
    then Some ("string id" +:+ CR +:+ NL +:+ "---" +:+ CR +:+ NL +:+ "Point at")
    else if bool_decide (f = "/opt/geo/action/Go.action")
    then Some ("int32 goal" +:+ NL +:+ "---" +:+ NL +:+ "---" +:+ NL +:+ "int32 progress" +:+ NL)
    else None |}.

Definition demo_universe (f : MessageDefinitionFormat) : gset DefinitionIdentifier :=
  {[mk_id f "geo/Point"]}.

Lemma demo_point_closed load f :
  deps_of load (mk_id f "geo/Point") = [] → closed_under_deps load (demo_universe f).
Proof.
  unfold demo_universe. intros H d d' ->%elem_of_singleton Hd.
  unfold dep_step in Hd. rewrite H in Hd. by apply not_elem_of_nil in Hd.
Qed.

Lemma demo_deps load i l f :
  deps_of load i = l → (∀ d, d ∈ l → d = mk_id f "geo/Point") →
  ∀ d, dep_step load i d → d ∈ demo_universe f.
Proof. unfold demo_universe. intros Hl H d Hd. apply elem_of_singleton, H. by rewrite <-Hl. Qed.

Lemma full_msg_text_complete_witness :
  msg_text_result demo_ament "geo/Pose" (get_full_msg_text demo_ament 2 "geo/Pose" ∅).2 ∧
  (get_full_msg_text demo_ament 2 "geo/Pose" ∅).2 =
    inr (MSG, msg_text demo_pose +:+ NL +:+ delimiter (mk_id MSG "geo/Point") +:+ msg_text demo_point).
Proof.
  split; [|by vm_compute].
  apply (full_msg_text_complete demo_ament ∅ "geo/Pose" 2 (demo_universe MSG)).
  - apply cache_coherent_empty.
  - apply demo_point_closed. by vm_compute.
  - intros f d [-> | ->].
    + apply (demo_deps _ _ [mk_id MSG "geo/Point"]); [by vm_compute|set_solver].
    + apply (demo_deps _ _ []); [by vm_compute|set_solver].
  - unfold demo_universe. rewrite size_singleton. lia.
Defined.

Lemma full_srv_text_complete_witness :
  srv_text_result demo_ament "geo/srv/Where" (get_full_srv_text demo_ament 3 "geo/srv/Where" ∅).2 ∧
  (get_full_srv_text demo_ament 3 "geo/srv/Where" ∅).2 =
    inr ("string id" +:+ NL,
         "Point at" +:+ NL +:+ NL +:+ delimiter (mk_id SRV_RESP "geo/Point") +:+ msg_text demo_point).
Proof.
  split; [|by vm_compute].
  apply (full_srv_text_complete demo_ament ∅ "geo/srv/Where" 3 (demo_universe SRV_RESP)).
  - apply cache_coherent_empty.
  - apply demo_point_closed. by vm_compute.
  - intros f d [-> | ->].
    + apply (demo_deps _ _ []); [by vm_compute|set_solver].
    + apply (demo_deps _ _ [mk_id SRV_RESP "geo/Point"]); [by vm_compute|set_solver].
  - unfold demo_universe. rewrite size_singleton. lia.
Defined.

Lemma service_definition_split_witness :
  split_service_definition ("int32 a" +:+ CR +:+ NL +:+ "---" +:+ CR +:+ NL +:+ "int32 b") =
  inr ("int32 a" +:+ NL, "int32 b" +:+ NL).
Proof.
  apply (service_definition_split (CR +:+ NL) ["int32 a"] ["int32 b"]).
  - set_solver.
  - by repeat constructor.
  - by repeat constructor.
Defined.

Lemma message_dependencies_found_witness :
  "geo/Point" ∈ parse_dependencies MSG (msg_text demo_pose) "geo".
Proof.
  apply (message_dependencies_found MSG "geo" demo_pose "geo/Point"); [done|by vm_compute|].
  exists "Point", None, "position". split_and!; [set_solver| |done].
  unfold PRIMITIVE_TYPES. set_solver.
Defined.

(** An action whose result section is empty ([---] directly after [---]) is
    refused: the separators overlap in their newline, so the file falls into two
    pieces and every request for one of its types throws [std::invalid_argument]. *)
Theorem action_with_empty_result_refused :
  ∃ contents what,
    file_contents demo_ament "/opt/geo/action/Go.action" = Some contents ∧
    contents = str_join NL ["int32 goal"; "---"; "---"; "int32 progress"; EmptyString] ∧
    (get_full_msg_text demo_ament 5 "geo/action/Go_FeedbackMessage" ∅).2 = inl (InvalidArgument what).
Proof. by eexists _, _; split_and!; vm_compute. Qed.
