(* ===== verification/ParameterInterface.v ===== *)
(** * ROS 2 parameters

    [ros2_bridge/src/parameter_interface.cpp]: reading, setting and following the
    parameters of other nodes.  The ROS graph and the parameter services of the
    nodes are the parameter [ros_graph]; a call that does not complete within
    its timeout is [None].  [unordered_map]s are [gmap]s: their iteration order
    is unspecified, and no statement depends on it. *)

From Stdlib Require Import ZArith Lia.
From Stdlib Require Import Strings.Ascii.
From S2P Require Import Prelude Text Json Serialization ServerState.

Local Open Scope Z_scope.

(** ** ROS parameter values *)

(** [rclcpp::ParameterValue], by [rclcpp::ParameterType]. *)
Inductive RosValue :=
| RNotSet
| RBool (b : bool)
| RInteger (z : Z)
| RDouble (d : double)
| RString (s : string)
| RByteArray (l : list byte)
| RBoolArray (l : list bool)
| RIntegerArray (l : list Z)
| RDoubleArray (l : list double)
| RStringArray (l : list string).

Record RosParameter := { ros_name : string; ros_value : RosValue }.

(** [getValue<T>()]: [any_cast] throws on another type. *)
Definition bad_any_cast {A} : outcome A := Throw (StdException "bad any_cast").

Definition getValue_bool (v : ParameterValue) : outcome bool :=
  match v with PBool b => Ret b | _ => bad_any_cast end.
Definition getValue_int64 (v : ParameterValue) : outcome Z :=
  match v with PInt z => Ret z | _ => bad_any_cast end.
Definition getValue_double (v : ParameterValue) : outcome double :=
  match v with PDouble d => Ret d | _ => bad_any_cast end.
Definition getValue_string (v : ParameterValue) : outcome string :=
  match v with PString s => Ret s | _ => bad_any_cast end.

Definition Unsupported {A} : outcome A := Throw (RuntimeError "Unsupported parameter type").

(** [param_array.front()] is undefined on an empty vector. *)
Definition to_ros_param (p : ParameterT) : outcome RosParameter :=
  let ret v := Ret {| ros_name := param_name p; ros_value := v |} in
  match param_value p with
  | PBool b => ret (RBool b)
  | PInt z => ret (RInteger z)
  | PDouble d => ret (RDouble d)
  | PString s => ret (RString s)
  | PByteArray l => ret (RByteArray l)
  | PArray [] => Undefined
  | PArray ((front :: _) as param_array) =>
      match getType front with
      | PARAMETER_BOOL => vec ← outcome_mapM getValue_bool param_array; ret (RBoolArray vec)
      | PARAMETER_INTEGER => vec ← outcome_mapM getValue_int64 param_array; ret (RIntegerArray vec)
      | PARAMETER_DOUBLE => vec ← outcome_mapM getValue_double param_array; ret (RDoubleArray vec)
      | PARAMETER_STRING => vec ← outcome_mapM getValue_string param_array; ret (RStringArray vec)
      | _ => Unsupported
      end
  | PNotSet => ret RNotSet
  | PStruct _ => Unsupported
  end.

(** Its last branch, for a type that is none of these, is unreachable. *)
Definition from_ros_param (p : RosParameter) : ParameterT :=
  {| param_name := ros_name p;
     param_value :=
       match ros_value p with
       | RNotSet => PNotSet
       | RBool b => PBool b
       | RInteger z => PInt z
       | RDouble d => PDouble d
       | RString s => PString s
       | RByteArray l => PByteArray l
       | RBoolArray l => PArray (PBool <$> l)
       | RIntegerArray l => PArray (PInt <$> l)
       | RDoubleArray l => PArray (PDouble <$> l)
       | RStringArray l => PArray (PString <$> l)
       end |}.

(** ** Names *)

Definition PARAM_SEP : string := ".".

(** Split at the first '.'; without one, [find] gives [npos], so the node name
    is the whole string, and [npos + 1] wraps to 0, so the parameter name is too. *)
Definition get_node_and_param_name (s : string) : string * string :=
  match str_find PARAM_SEP s with
  | Some (node_name, param_name) => (node_name, param_name)
  | None => (s, s)
  end.

Definition prepend_node_name_to_param_name (param_name node_name : string) : string :=
  node_name +:+ PARAM_SEP +:+ param_name.

(** [utils.hpp]: the text before and after the last '/'. *)
Fixpoint split_last (s : string) : option (string * string) :=
  match s with
  | EmptyString => None
  | String c s =>
      match split_last s with
      | Some (a, b) => Some (String c a, b)
      | None => if bool_decide (c = "/"%char) then Some (EmptyString, s) else None
      end
  end.

Definition get_node_and_node_namespace (fqn_node_name : string) : outcome (string * string) :=
  match split_last fqn_node_name with
  | Some r => Ret r
  | None => Throw (RuntimeError ("Invalid fully qualified node name: " +:+ fqn_node_name))
  end.

(** ** The ROS side *)

Record ros_graph := {
  get_fully_qualified_name : string;
  get_node_names : list string;
  (** name, namespace: the services with their types *)
  get_service_names_and_types_by_node : string → string → list (string * list string);
  service_is_ready : string → bool;
  list_parameters : string → option (list string);
  get_parameters : string → list string → option (list RosParameter);
  (** whether each parameter was set *)
  set_parameters : string → list RosParameter → option (list bool)
}.

(** ** State *)

Record ParameterInterface := {
  _param_whitelist_patterns : list regex;
  (** the nodes with a client *)
  _param_clients_by_node : gset string;
  _subscribed_params_by_node : gmap string (gset string);
  (** the nodes whose parameter events are subscribed *)
  _param_subscriptions_by_node : gset string;
  (** whether [_param_update_func] is set *)
  _param_update_func : bool
}.

Definition new_ParameterInterface (patterns : list regex) : ParameterInterface :=
  {| _param_whitelist_patterns := patterns; _param_clients_by_node := ∅;
     _subscribed_params_by_node := ∅; _param_subscriptions_by_node := ∅;
     _param_update_func := false |}.

Definition set_param_clients (c : gset string) (s : ParameterInterface) : ParameterInterface :=
  {| _param_whitelist_patterns := _param_whitelist_patterns s; _param_clients_by_node := c;
     _subscribed_params_by_node := _subscribed_params_by_node s;
     _param_subscriptions_by_node := _param_subscriptions_by_node s;
     _param_update_func := _param_update_func s |}.

Definition set_followed (m : gmap string (gset string)) (s : ParameterInterface)
  : ParameterInterface :=
  {| _param_whitelist_patterns := _param_whitelist_patterns s;
     _param_clients_by_node := _param_clients_by_node s;
     _subscribed_params_by_node := m;
     _param_subscriptions_by_node := _param_subscriptions_by_node s;
     _param_update_func := _param_update_func s |}.

Definition set_event_subscriptions (c : gset string) (s : ParameterInterface) : ParameterInterface :=
  {| _param_whitelist_patterns := _param_whitelist_patterns s;
     _param_clients_by_node := _param_clients_by_node s;
     _subscribed_params_by_node := _subscribed_params_by_node s;
     _param_subscriptions_by_node := c;
     _param_update_func := _param_update_func s |}.

Definition set_param_update_callback (s : ParameterInterface) : ParameterInterface :=
  {| _param_whitelist_patterns := _param_whitelist_patterns s;
     _param_clients_by_node := _param_clients_by_node s;
     _subscribed_params_by_node := _subscribed_params_by_node s;
     _param_subscriptions_by_node := _param_subscriptions_by_node s;
     _param_update_func := true |}.

(** [map\[key\].push_back(v)] *)
Definition push_back {A} (k : string) (v : A) (m : gmap string (list A)) : gmap string (list A) :=
  <[k := default [] (m !! k) ++ [v]]> m.

Section Ros.
Context (ros : ros_graph).

(** ** Reading *)

Definition get_node_parameters (patterns : list regex) (node_name : string)
    (param_names : list string) : outcome (list ParameterT) :=
  if negb (service_is_ready ros node_name)
  then Throw (RuntimeError ("Parameter service for node '" +:+ node_name +:+ "' is not ready"))
  else
  match (match param_names with
         | [] => list_parameters ros node_name
         | _ => Some param_names
         end) with
  | None =>
      Throw (RuntimeError ("Failed to retrieve parameter names for node '" +:+ node_name +:+ "'"))
  | Some params_to_request =>
  match get_parameters ros node_name params_to_request with
  | None =>
      Throw (RuntimeError ("Timed out waiting for " +:+
        to_string (Z.of_nat (length params_to_request)) +:+
        " parameter(s) from node '" +:+ node_name +:+ "'"))
  | Some params =>
      Ret (omap (λ param,
        let full_param_name := prepend_node_name_to_param_name (ros_name param) node_name in
        if is_whitelisted full_param_name patterns
        then Some (from_ros_param {| ros_name := full_param_name; ros_value := ros_value param |})
        else None) params)
  end end.

Definition GET_PARAMS_SERVICE_TYPE : string := "rcl_interfaces/srv/GetParameters".
Definition LIST_PARAMS_SERVICE_TYPE : string := "rcl_interfaces/srv/ListParameters".

Definition offers_type (services : list (string * list string)) (type : string) : bool :=
  existsb (λ '(_, types), bool_decide (type ∈ types)) services.

(** The nodes to read when no names are given. *)
Fixpoint nodes_with_parameters (nodes : list string) (m : gmap string (list string))
  : outcome (gmap string (list string)) :=
  match nodes with
  | [] => Ret m
  | fqn_node_name :: nodes =>
      if bool_decide (fqn_node_name = get_fully_qualified_name ros)
         || bool_decide (fqn_node_name = "/cobridge_component_manager")
      then nodes_with_parameters nodes m
      else
        '(node_namespace, node_name) ← get_node_and_node_namespace fqn_node_name;
        let services := get_service_names_and_types_by_node ros node_name node_namespace in
        if offers_type services LIST_PARAMS_SERVICE_TYPE
           && offers_type services GET_PARAMS_SERVICE_TYPE
        then nodes_with_parameters nodes
               (match m !! fqn_node_name with Some _ => m | None => <[fqn_node_name := []]> m end)
        else nodes_with_parameters nodes m
  end.

Definition group_names (param_names : list string) : gmap string (list string) :=
  foldl (λ m full_param_name,
    let '(node_name, param_name) := get_node_and_param_name full_param_name in
    push_back node_name param_name m) ∅ param_names.

(** The requests of all nodes are waited for; one that throws is logged. *)
Definition collect (results : list (outcome (list ParameterT))) : list ParameterT :=
  foldl (λ result r, match r with Ret params => params ++ result | _ => result end) [] results.

Definition get_params (param_names : list string) (s : ParameterInterface)
  : ParameterInterface * outcome (list ParameterT) :=
  match (match param_names with
         | [] => nodes_with_parameters (get_node_names ros) ∅
         | _ => Ret (group_names param_names)
         end) with
  | Throw e => (s, Throw e)
  | Undefined => (s, Undefined)
  | Ret param_names_by_node_name =>
      let targets := filter (λ '(node_name, _), node_name ≠ get_fully_qualified_name ros)
                       (map_to_list param_names_by_node_name) in
      (set_param_clients (_param_clients_by_node s ∪ list_to_set (fst <$> targets)) s,
       Ret (collect ((λ '(node_name, names),
         get_node_parameters (_param_whitelist_patterns s) node_name names) <$> targets)))
  end.

(** ** Setting *)

(** The requests sent, and how the call ends. *)
Definition set_node_parameters (node_name : string) (params : list RosParameter)
  : list (string * list RosParameter) * outcome unit :=
  if negb (service_is_ready ros node_name)
  then ([], Throw (RuntimeError ("Parameter service for node '" +:+ node_name +:+ "' is not ready")))
  else
  ([(node_name, params)],
   match set_parameters ros node_name params with
   | None => Throw (RuntimeError ("Param client failed to set " +:+
               to_string (Z.of_nat (length params)) +:+ " parameter(s) for node '" +:+
               node_name +:+ "' within the given timeout"))
   | Some _ => Ret ()
   end).

(** The loop of [set_params]; [None] is its early return. *)
Fixpoint group_params (patterns : list regex) (parameters : list ParameterT)
    (m : gmap string (list RosParameter)) : outcome (option (gmap string (list RosParameter))) :=
  match parameters with
  | [] => Ret (Some m)
  | param :: parameters =>
      if negb (is_whitelisted (param_name param) patterns) then Ret None
      else
        ros_param ← to_ros_param param;
        let '(node_name, name) := get_node_and_param_name (ros_name ros_param) in
        group_params patterns parameters
          (push_back node_name {| ros_name := name; ros_value := ros_value ros_param |} m)
  end.

Definition set_params (parameters : list ParameterT) (s : ParameterInterface)
  : ParameterInterface * list (string * list RosParameter) * outcome unit :=
  match group_params (_param_whitelist_patterns s) parameters ∅ with
  | Throw e => (s, [], Throw e)
  | Undefined => (s, [], Undefined)
  | Ret None => (s, [], Ret ())
  | Ret (Some params_by_node) =>
      let targets := map_to_list params_by_node in
      (set_param_clients (_param_clients_by_node s ∪ list_to_set (fst <$> targets)) s,
       mjoin ((λ '(node_name, params), (set_node_parameters node_name params).1) <$> targets),
       Ret ())
  end.

End Ros.

(** ** Following *)

(** The first loop of [subscribe_params]: the state, the nodes to subscribe, and
    whether the loop ran to its end. *)
Fixpoint subscribe_loop (param_names : list string) (nodes_to_subscribe : gset string)
    (s : ParameterInterface) : ParameterInterface * gset string * bool :=
  match param_names with
  | [] => (s, nodes_to_subscribe, true)
  | name :: param_names =>
      if negb (is_whitelisted name (_param_whitelist_patterns s))
      then (s, nodes_to_subscribe, false)
      else
        let '(node_name, paramN) := get_node_and_param_name name in
        let m := _subscribed_params_by_node s in
        let newly_created := bool_decide (m !! node_name = None) in
        let s := set_followed (<[node_name := {[paramN]} ∪ default ∅ (m !! node_name)]> m) s in
        subscribe_loop param_names
          (if newly_created then {[node_name]} ∪ nodes_to_subscribe else nodes_to_subscribe) s
  end.

Definition subscribe_params (param_names : list string) (s : ParameterInterface)
  : ParameterInterface :=
  let '(s, nodes_to_subscribe, finished) := subscribe_loop param_names ∅ s in
  if finished then
    set_event_subscriptions (nodes_to_subscribe ∪ _param_subscriptions_by_node s)
      (set_param_clients (nodes_to_subscribe ∪ _param_clients_by_node s) s)
  else s.

(** [erase(find(x))] is undefined when [x] is not there. *)
Definition erase_found (x : string) (l : gset string) : outcome (gset string) :=
  if bool_decide (x ∈ l) then Ret (l ∖ {[x]}) else Undefined.

Fixpoint unsubscribe_params (param_names : list string) (s : ParameterInterface)
  : outcome ParameterInterface :=
  match param_names with
  | [] => Ret s
  | name :: param_names =>
      let '(node_name, paramN) := get_node_and_param_name name in
      match _subscribed_params_by_node s !! node_name with
      | None => unsubscribe_params param_names s
      | Some params =>
          params ← erase_found paramN params;
          if bool_decide (params = ∅) then
            let s := set_followed (delete node_name (_subscribed_params_by_node s)) s in
            subs ← erase_found node_name (_param_subscriptions_by_node s);
            unsubscribe_params param_names (set_event_subscriptions subs s)
          else
            unsubscribe_params param_names
              (set_followed (<[node_name := params]> (_subscribed_params_by_node s)) s)
      end
  end.

(** [rcl_interfaces::msg::ParameterEvent]; [event_node] is [msg->node], the node whose
    parameters changed. *)
Record ParameterEvent := {
  event_node : string;
  new_parameters : list RosParameter;
  changed_parameters : list RosParameter;
  deleted_parameters : list RosParameter
}.

(** The callback given to [on_parameter_event] for the node [node_name] (the captured
    name): the parameters it passes to [_param_update_func], if it calls it.
    [on_parameter_event] subscribes to the topic the events of all nodes are published
    on; [msg] may come from any of them, and [msg->node] is not looked at.
    [operator\[\]] adds a missing entry. *)
Definition parameter_event (node_name : string) (msg : ParameterEvent)
    (s : ParameterInterface) : ParameterInterface * option (list ParameterT) :=
  let m := _subscribed_params_by_node s in
  let subscribed_node_params := default ∅ (m !! node_name) in
  let s := set_followed (<[node_name := subscribed_node_params]> m) s in
  let result := omap (λ param,
    if bool_decide (ros_name param ∈ subscribed_node_params)
    then Some (from_ros_param
      {| ros_name := prepend_node_name_to_param_name (ros_name param) node_name;
         ros_value := ros_value param |})
    else None) (changed_parameters msg) in
  (s, match result with
      | [] => None
      | _ => if _param_update_func s then Some result else None
      end).

(** ** Conversions *)

Lemma outcome_mapM_fmap {A B C} (f : B → outcome C) (g : A → B) (h : A → C) l :
  (∀ x, f (g x) = Ret (h x)) → outcome_mapM f (g <$> l) = Ret (h <$> l).
Proof.
  intros H. induction l as [|x l IH]; [done|].
  rewrite !fmap_cons. cbn [outcome_mapM]. rewrite H, IH. done.
Qed.

(** An array value with no elements. *)
Definition empty_array (v : RosValue) : bool :=
  match v with
  | RBoolArray [] | RIntegerArray [] | RDoubleArray [] | RStringArray [] => true
  | _ => false
  end.

(** A parameter read from a node can be written back unchanged; an empty array
    cannot: the conversion reads the first element of an empty vector. *)
Theorem ros_parameter_roundtrip (p : RosParameter) :
  to_ros_param (from_ros_param p) = if empty_array (ros_value p) then Undefined else Ret p.
Proof.
  destruct p as [n v].
  destruct v as [|?|?|?|?|?|[|x l]|[|x l]|[|x l]|[|x l]]; try done;
    unfold to_ros_param, from_ros_param; cbn [param_value param_name ros_value ros_name];
    rewrite fmap_cons; cbn [getType]; rewrite <-fmap_cons;
    rewrite (outcome_mapM_fmap _ _ id) by done; by rewrite list_fmap_id.
Qed.

(** ** Names *)

Lemma get_node_and_param_name_prepend node param :
  lacks "." node = true →
  get_node_and_param_name (prepend_node_name_to_param_name param node) = (node, param).
Proof.
  intros Hn. unfold get_node_and_param_name, prepend_node_name_to_param_name.
  change (node +:+ PARAM_SEP +:+ param) with (node +:+ String "." param).
  unfold PARAM_SEP. by rewrite str_find_char_app.
Qed.

Lemma split_last_Some s a b : split_last s = Some (a, b) → s = a +:+ "/" +:+ b ∧ lacks "/" b = true.
Proof.
  revert a b. induction s as [|c s IH]; intros a b; cbn [split_last]; [done|].
  destruct (split_last s) as [[a' b']|] eqn:E.
  - intros [= <- <-]. destruct (IH a' b') as [-> ?]; done.
  - case_bool_decide; [|done]. intros [= <- <-]. subst c. split; [done|].
    clear IH. revert E. induction s as [|c s IH]; [done|]. cbn [split_last lacks str_forall].
    destruct (split_last s) as [[? ?]|]; [done|]. case_bool_decide; [done|]. intros _.
    apply andb_true_iff. split; [done|by apply IH].
Qed.

(** ** Grouping by node *)

Section Group.
Context {A : Type}.

Definition pushes (l : list (string * A)) (m : gmap string (list A)) : gmap string (list A) :=
  foldl (λ m '(k, v), push_back k v m) m l.

Definition values_of (k : string) (l : list (string * A)) : list A :=
  omap (λ '(k', v), if decide (k' = k) then Some v else None) l.

Lemma pushes_lookup l m k vs :
  pushes l m !! k = Some vs ↔
  vs = default [] (m !! k) ++ values_of k l ∧ (is_Some (m !! k) ∨ values_of k l ≠ []).
Proof.
  revert m. induction l as [|[k' v] l IH]; intros m; cbn [pushes foldl values_of].
  - change (values_of k []) with (@nil A). rewrite app_nil_r.
    destruct (m !! k) eqn:E; cbn [from_option id]; naive_solver.
  - fold (pushes l (push_back k' v m)). rewrite IH. unfold push_back, values_of.
    cbn [omap list_omap]. destruct (decide (k' = k)) as [->|Hne].
    + rewrite lookup_insert_eq. cbn [from_option id]. rewrite <-app_assoc. cbn [app]. naive_solver.
    + by rewrite lookup_insert_ne.
Qed.

Lemma pushes_empty_lookup l k vs :
  pushes l ∅ !! k = Some vs ↔ vs = values_of k l ∧ vs ≠ [].
Proof.
  rewrite pushes_lookup, lookup_empty. cbn [from_option id app].
  split; [intros [-> [[? [=]]|]]; done|intros [-> ?]; auto].
Qed.

End Group.

(** ** Setting parameters *)

(** What is sent to a node: its parameters, in the order of the request. *)
Definition split_ros (p : RosParameter) : string * RosParameter :=
  let '(node, name) := get_node_and_param_name (ros_name p) in
  (node, {| ros_name := name; ros_value := ros_value p |}).

Definition node_params (node : string) (l : list RosParameter) : list RosParameter :=
  values_of node (split_ros <$> l).

Definition all_whitelisted (patterns : list regex) (l : list ParameterT) : bool :=
  forallb (λ p, is_whitelisted (param_name p) patterns) l.

Lemma group_params_spec patterns l m :
  match group_params patterns l m with
  | Ret (Some m') =>
      all_whitelisted patterns l = true ∧
      ∃ rs, outcome_mapM to_ros_param l = Ret rs ∧ m' = pushes (split_ros <$> rs) m
  | Ret None => all_whitelisted patterns l = false
  | _ => ∀ rs, outcome_mapM to_ros_param l ≠ Ret rs
  end.
Proof.
  revert m. induction l as [|p l IH]; intros m; cbn [group_params all_whitelisted forallb].
  { split; [done|]. by exists []. }
  destruct (is_whitelisted (param_name p) patterns); cbn [negb andb]; [|done].
  cbn [outcome_mapM]. destruct (to_ros_param p) as [r|e|]; simpl_bind; [|done..].
  destruct (get_node_and_param_name (ros_name r)) as [node name] eqn:En.
  pose proof (IH (push_back node {| ros_name := name; ros_value := ros_value r |} m)) as IH'.
  assert (split_ros r = (node, {| ros_name := name; ros_value := ros_value r |})) as Hsplit
    by (unfold split_ros; by rewrite En).
  destruct (group_params patterns l _) as [[m'|]|e|]; [|done|..].
  - destruct IH' as [Hw (rs & Hrs & ->)]. split; [done|]. exists (r :: rs).
    rewrite Hrs. split; [done|]. by rewrite fmap_cons, Hsplit.
  - intros rs. destruct (outcome_mapM to_ros_param l) as [rs'| |]; [|done..].
    by destruct (IH' rs').
  - intros rs. destruct (outcome_mapM to_ros_param l) as [rs'| |]; [|done..].
    by destruct (IH' rs').
Qed.

Lemma elem_of_requests ros (m : gmap string (list RosParameter)) node l :
  (node, l) ∈ mjoin ((λ '(node_name, params), (set_node_parameters ros node_name params).1)
                     <$> map_to_list m) ↔
  service_is_ready ros node = true ∧ m !! node = Some l.
Proof.
  rewrite list_elem_of_join. setoid_rewrite list_elem_of_fmap. split.
  - intros (reqs & Hin & [n ps] & -> & Hm%elem_of_map_to_list).
    unfold set_node_parameters in Hin.
    destruct (service_is_ready ros n) eqn:E; cbn [negb fst] in Hin; [|by apply not_elem_of_nil in Hin].
    apply list_elem_of_singleton in Hin as [= -> ->]. done.
  - intros [Hr Hm]. eexists. split; [|exists (node, l); split; [done|by apply elem_of_map_to_list]].
    unfold set_node_parameters. rewrite Hr. cbn [negb fst]. by apply list_elem_of_singleton.
Qed.

(** A map has one entry for each node, so each node is sent one request. *)
Lemma requests_NoDup ros (m : gmap string (list RosParameter)) :
  NoDup (mjoin ((λ '(node_name, params), (set_node_parameters ros node_name params).1)
                 <$> map_to_list m)).*1.
Proof.
  pose proof (NoDup_fst_map_to_list m) as Hd. revert Hd.
  induction (map_to_list m) as [|[n ps] l IH]; [by intros _; apply NoDup_nil_2|].
  intros [Hn Hl]%NoDup_cons. rewrite fmap_cons. cbn [mjoin list_join fst] in Hn |- *. rewrite fmap_app.
  unfold set_node_parameters at 1. destruct (service_is_ready ros n); cbn [negb fst]; [|by apply IH].
  apply NoDup_cons. split; [|by apply IH]. contradict Hn.
  apply list_elem_of_fmap in Hn as ([n' qs] & Heq & Hin). cbn [fst] in Heq |- *. subst n'.
  rewrite list_elem_of_join in Hin.
  destruct Hin as (reqs & Hin & Hreqs).
  apply list_elem_of_fmap in Hreqs as ([n'' qs'] & -> & Hin'). unfold set_node_parameters in Hin.
  destruct (service_is_ready ros n''); cbn [negb fst] in Hin; [|by apply not_elem_of_nil in Hin].
  apply list_elem_of_singleton in Hin as [= -> ->]. by apply (list_elem_of_fmap_2 fst _ (n'', qs')).
Qed.

Lemma elem_of_targets {A} (m : gmap string A) node : node ∈ (map_to_list m).*1 ↔ is_Some (m !! node).
Proof.
  rewrite list_elem_of_fmap. split.
  - intros ([n v] & -> & H%elem_of_map_to_list). by eexists.
  - intros [v H%elem_of_map_to_list]. by exists (node, v).
Qed.


(** ** Reading parameters *)

Lemma collect_elem rs p : p ∈ collect rs ↔ ∃ ps, Ret ps ∈ rs ∧ p ∈ ps.
Proof.
  unfold collect.
  assert (∀ acc, p ∈ foldl (λ result r, match r with Ret params => params ++ result | _ => result end)
                       acc rs ↔ p ∈ acc ∨ ∃ ps, Ret ps ∈ rs ∧ p ∈ ps) as H.
  { induction rs as [|r rs IH]; intros acc; cbn [foldl]; [set_solver|].
    rewrite IH. setoid_rewrite elem_of_cons. destruct r as [ps|e|];
      [setoid_rewrite elem_of_app|..]; naive_solver. }
  rewrite H. set_solver.
Qed.

Section Reading.
Context (ros : ros_graph).

(** The node answers requests for its parameter names and values. *)
Definition node_offers_parameters (node : string) : bool :=
  match split_last node with
  | Some (ns, name) =>
      let services := get_service_names_and_types_by_node ros name ns in
      offers_type services LIST_PARAMS_SERVICE_TYPE && offers_type services GET_PARAMS_SERVICE_TYPE
  | None => false
  end.

(** The names that are asked of a node. *)
Definition asked (param_names : list string) (node : string) (names : list string) : Prop :=
  match param_names with
  | [] => names = [] ∧ node ∈ get_node_names ros ∧ node ≠ "/cobridge_component_manager" ∧
          node_offers_parameters node = true
  | _ => names = values_of node (get_node_and_param_name <$> param_names) ∧ names ≠ []
  end.

(** A node of the list that is read when no names are given. *)
Definition eligible (node : string) : Prop :=
  node ≠ get_fully_qualified_name ros ∧ node ≠ "/cobridge_component_manager" ∧
  node_offers_parameters node = true.

Lemma nodes_with_parameters_cons n nodes m :
  is_Some (split_last n) →
  ∃ m1, nodes_with_parameters ros (n :: nodes) m = nodes_with_parameters ros nodes m1 ∧
    ∀ node names, m1 !! node = Some names ↔
      m !! node = Some names ∨ (m !! node = None ∧ names = [] ∧ node = n ∧ eligible node).
Proof.
  intros [[ns name] Hs]. cbn [nodes_with_parameters].
  destruct (bool_decide (n = _) || bool_decide (n = _)) eqn:Eskip.
  { exists m. split; [done|]. intros node names. split; [by left|].
    intros [?|(_ & _ & -> & E1 & E2 & _)]; [done|].
    by rewrite !bool_decide_false in Eskip by done. }
  apply orb_false_iff in Eskip as [E1%bool_decide_eq_false E2%bool_decide_eq_false].
  unfold get_node_and_node_namespace. rewrite Hs. simpl_bind.
  destruct (offers_type _ _ && _) eqn:Eo; (eexists; split; [done|]); intros node names.
  - assert (eligible n) as Hel by (split_and!; [done..|]; unfold node_offers_parameters; by rewrite Hs).
    destruct (m !! n) as [l|] eqn:Em.
    + split; [by left|]. intros [?|(Hnone & _ & -> & _)]; [done|congruence].
    + rewrite lookup_insert_Some. split.
      * intros [[-> <-]|[? ?]]; [by right|by left].
      * intros [?|(_ & -> & -> & _)]; [|by left]. right. split; [congruence|done].
  - split; [by left|]. intros [?|(_ & _ & -> & _ & _ & Ho)]; [done|].
    unfold node_offers_parameters in Ho. rewrite Hs in Ho. congruence.
Qed.

Lemma nodes_with_parameters_spec nodes m :
  Forall (λ n, is_Some (split_last n)) nodes →
  ∃ m', nodes_with_parameters ros nodes m = Ret m' ∧
    ∀ node names, m' !! node = Some names ↔
      m !! node = Some names ∨ (m !! node = None ∧ names = [] ∧ node ∈ nodes ∧ eligible node).
Proof.
  intros Hn. revert m. induction Hn as [|n nodes Hs Hn IH]; intros m.
  { exists m. split; [done|]. intros. split; [by left|].
    by intros [?|(_ & _ & ?%not_elem_of_nil & _)]. }
  destruct (nodes_with_parameters_cons n nodes m Hs) as (m1 & -> & H1).
  destruct (IH m1) as (m' & -> & H2). exists m'. split; [done|]. intros node names.
  rewrite H2, H1. split.
  - intros [[?|(? & ? & -> & ?)]|(Hnone & -> & ? & ?)]; [by left|right; set_solver|].
    destruct (m !! node) as [l|] eqn:E; [|right; set_solver].
    assert (m1 !! node = Some l) by (apply H1; by left). congruence.
  - intros [?|(? & -> & [->|?]%elem_of_cons & ?)]; [by left; left|by left; right|].
    destruct (m1 !! node) as [l|] eqn:E; [left|by right].
    apply H1 in E as [?|(_ & -> & -> & _)]; [congruence|by right].
Qed.

(** The result of [get_params] holds what the nodes asked answer, and nothing
    else; the answer of a node that fails is left out. *)
Lemma get_params_result param_names s (m : gmap string (list string)) :
  (match param_names with
   | [] => nodes_with_parameters ros (get_node_names ros) ∅
   | _ => Ret (group_names param_names)
   end) = Ret m →
  (∀ node names, node ≠ get_fully_qualified_name ros →
     m !! node = Some names ↔ asked param_names node names) →
  ∃ s' result, get_params ros param_names s = (s', Ret result) ∧
    ∀ p, p ∈ result ↔
      ∃ node names ps, node ≠ get_fully_qualified_name ros ∧ asked param_names node names ∧
        get_node_parameters ros (_param_whitelist_patterns s) node names = Ret ps ∧ p ∈ ps.
Proof.
  intros Hm Hasked. unfold get_params. rewrite Hm. eexists _, _. split; [done|].
  intros p. rewrite collect_elem. setoid_rewrite list_elem_of_fmap.
  setoid_rewrite list_elem_of_filter. split.
  - intros (ps & ([node names] & Hps & Hne & Hin%elem_of_map_to_list) & Hp).
    exists node, names, ps. split_and!; [done|by apply Hasked|done..].
  - intros (node & names & ps & Hne & Hask & Hps & Hp). exists ps. split; [|done].
    exists (node, names). split_and!; [done..|]. by apply elem_of_map_to_list, Hasked.
Qed.

Lemma group_names_pushes l : group_names l = pushes (get_node_and_param_name <$> l) ∅.
Proof.
  unfold group_names. generalize (∅ : gmap string (list string)).
  induction l as [|n l IH]; intros m; [done|]. rewrite fmap_cons. cbn [foldl]. rewrite IH.
  unfold pushes. cbn [foldl]. by destruct (get_node_and_param_name n).
Qed.

Lemma get_node_parameters_whitelisted patterns node names ps p :
  get_node_parameters ros patterns node names = Ret ps → p ∈ ps →
  is_whitelisted (param_name p) patterns = true.
Proof.
  unfold get_node_parameters. repeat (case_match; [done|]). try done.
  all: repeat case_match; try done.
  all: intros [= <-] (r & _ & Hr)%list_elem_of_omap; by case_match; simplify_eq.
Qed.

End Reading.

(** [get_params] returns exactly what the parameter services answer: with names,
    each node named is asked for its own parameters; without, every node that
    offers the two parameter services is asked for all of them.  A node that
    fails is left out, and only whitelisted parameters are returned. *)
Theorem get_params_answers (ros : ros_graph) (param_names : list string) (s : ParameterInterface) :
  Forall (λ n, is_Some (split_last n)) (get_node_names ros) →
  ∃ s' result, get_params ros param_names s = (s', Ret result) ∧
    (∀ p, p ∈ result ↔
      ∃ node names ps, node ≠ get_fully_qualified_name ros ∧ asked ros param_names node names ∧
        get_node_parameters ros (_param_whitelist_patterns s) node names = Ret ps ∧ p ∈ ps) ∧
    (∀ p, p ∈ result → is_whitelisted (param_name p) (_param_whitelist_patterns s) = true).
Proof.
  intros Hn.
  assert (∃ s' result, get_params ros param_names s = (s', Ret result) ∧
    ∀ p, p ∈ result ↔
      ∃ node names ps, node ≠ get_fully_qualified_name ros ∧ asked ros param_names node names ∧
        get_node_parameters ros (_param_whitelist_patterns s) node names = Ret ps ∧ p ∈ ps)
    as (s' & result & Hr & Hp).
  { destruct param_names as [|n l].
    - destruct (nodes_with_parameters_spec ros _ ∅ Hn) as (m & Hm & Hlook).
      apply (get_params_result ros [] s m Hm). intros node names Hne.
      rewrite Hlook, lookup_empty. cbn [asked]. unfold eligible. split.
      + by intros [?|(_ & -> & ? & _ & ? & ?)].
      + intros (-> & ? & ? & ?). by right.
    - eapply get_params_result; [done|]. intros node names _.
      rewrite group_names_pushes, pushes_empty_lookup. cbn [asked]. naive_solver. }
  exists s', result. split_and!; [done..|].
  intros p (node & names & ps & _ & _ & Hps & Hin)%Hp. by eapply get_node_parameters_whitelisted.
Qed.

(** ** Following parameters *)

(** The specification: the set of (node, parameter) pairs that are followed. *)
Definition follows (s : ParameterInterface) (np : string * string) : Prop :=
  np.2 ∈ default ∅ (_subscribed_params_by_node s !! np.1).

#[export] Instance follows_dec s np : Decision (follows s np).
Proof. unfold follows. apply _. Defined.

(** A node has parameters followed exactly when its events are subscribed. *)
Record interface_ok (s : ParameterInterface) : Prop := {
  followed_nonempty n ps : _subscribed_params_by_node s !! n = Some ps → ps ≠ ∅;
  followed_subscribed n : is_Some (_subscribed_params_by_node s !! n) ↔
                          n ∈ _param_subscriptions_by_node s;
  subscribed_client n : n ∈ _param_subscriptions_by_node s → n ∈ _param_clients_by_node s
}.

Lemma new_interface_ok patterns : interface_ok (new_ParameterInterface patterns).
Proof.
  split; cbn; [by intros ? ?; rewrite lookup_empty| |set_solver].
  intros n. rewrite lookup_empty. split; [by intros [? [=]]|set_solver].
Qed.

Lemma follows_insert s n ps np :
  follows (set_followed (<[n := ps]> (_subscribed_params_by_node s)) s) np ↔
  (np.1 = n ∧ np.2 ∈ ps) ∨ (np.1 ≠ n ∧ follows s np).
Proof.
  unfold follows. cbn. destruct (decide (n = np.1)) as [->|].
  - rewrite lookup_insert_eq. cbn. naive_solver.
  - rewrite lookup_insert_ne by done. naive_solver.
Qed.

(** The first loop of [subscribe_params] on whitelisted names. *)
Record loop_ok (s s' : ParameterInterface) (nodes0 nodes : gset string) (names : list string) : Prop := {
  loop_subs : _param_subscriptions_by_node s' = _param_subscriptions_by_node s;
  loop_clients : _param_clients_by_node s' = _param_clients_by_node s;
  loop_nonempty : (∀ n ps, _subscribed_params_by_node s !! n = Some ps → ps ≠ ∅) →
                  (∀ n ps, _subscribed_params_by_node s' !! n = Some ps → ps ≠ ∅);
  loop_nodes n : n ∈ nodes ↔ n ∈ nodes0 ∨
    (_subscribed_params_by_node s !! n = None ∧ is_Some (_subscribed_params_by_node s' !! n));
  loop_keeps n : is_Some (_subscribed_params_by_node s !! n) →
                 is_Some (_subscribed_params_by_node s' !! n);
  loop_follows np : follows s' np ↔ follows s np ∨ np ∈ get_node_and_param_name <$> names
}.

Lemma subscribe_loop_ok names nodes0 s :
  forallb (λ n, is_whitelisted n (_param_whitelist_patterns s)) names = true →
  ∃ s' nodes, subscribe_loop names nodes0 s = (s', nodes, true) ∧ loop_ok s s' nodes0 nodes names.
Proof.
  revert nodes0 s. induction names as [|name names IH]; intros nodes0 s Hw; cbn [subscribe_loop].
  { eexists _, _. split; [done|]. split; [done..| |done|set_solver].
    intros n. split; [by left|]. intros [?|[E [? E']]]; [done|congruence]. }
  cbn [forallb] in Hw. apply andb_prop in Hw as [-> Hw]. cbn [negb].
  destruct (get_node_and_param_name name) as [n p] eqn:En.
  set (m := _subscribed_params_by_node s).
  set (s1 := set_followed (<[n := {[p]} ∪ default ∅ (m !! n)]> m) s).
  destruct (IH (if bool_decide (m !! n = None) then {[n]} ∪ nodes0 else nodes0) s1 Hw)
    as (s' & nodes & -> & [H1 H2 H3 H4 H5 H6]).
  eexists _, _. split; [done|]. split; [done..| | | |].
  - intros Hne. apply H3. intros n' ps. cbn.
    intros [[<- <-]|[_ ?]]%lookup_insert_Some; [set_solver|by eapply Hne].
  - intros n'. rewrite H4. cbn [s1 set_followed _subscribed_params_by_node]. fold m.
    destruct (decide (n = n')) as [->|Hne].
    + rewrite lookup_insert_eq. pose proof (H5 n') as Hk.
      cbn [s1 set_followed _subscribed_params_by_node] in Hk.
      rewrite lookup_insert_eq in Hk. specialize (Hk ltac:(by eexists)).
      case_bool_decide as E; [set_solver|]. split; [intros [?|[? _]]; [by left|done]|].
      intros [?|[? _]]; [by left|done].
    + rewrite lookup_insert_ne by done. case_bool_decide; set_solver.
  - intros n' Hn'. apply H5. cbn. destruct (decide (n = n')) as [->|];
      [rewrite lookup_insert_eq; by eexists|by rewrite lookup_insert_ne].
  - intros np. rewrite H6, fmap_cons, elem_of_cons, En. unfold s1, m. rewrite follows_insert.
    destruct np as [n' p']. cbn [fst snd]. unfold follows. cbn [fst snd].
    destruct (decide (n' = n)) as [->|]; set_solver.
Qed.

Lemma subscribe_params_ok names s :
  interface_ok s →
  forallb (λ n, is_whitelisted n (_param_whitelist_patterns s)) names = true →
  interface_ok (subscribe_params names s) ∧
  ∀ np, follows (subscribe_params names s) np ↔
        follows s np ∨ np ∈ get_node_and_param_name <$> names.
Proof.
  intros [Hne Hsub Hcl] Hw. unfold subscribe_params.
  destruct (subscribe_loop_ok names ∅ s Hw) as (s' & nodes & -> & [H1 H2 H3 H4 H5 H6]).
  split; [|exact H6]. split; cbn [set_event_subscriptions set_param_clients _subscribed_params_by_node
    _param_subscriptions_by_node _param_clients_by_node].
  - by apply H3.
  - intros n. rewrite elem_of_union, H1, <-Hsub, H4. split.
    + intros Hs. destruct (_subscribed_params_by_node s !! n) eqn:E; [right; by eexists|].
      by left; right.
    + intros [[?%not_elem_of_empty|[_ ?]]|?]; [done..|by apply H5].
  - intros n. rewrite H1, H2, !elem_of_union. intros [?|?]; [by left|right; by apply Hcl].
Qed.

Lemma erase_found_in x l : x ∈ l → erase_found x l = Ret (l ∖ {[x]}).
Proof. intros ?. unfold erase_found. by rewrite bool_decide_true. Qed.

(** One name of [unsubscribe_params], when it is followed. *)
Lemma unsubscribe_one name names s :
  interface_ok s → follows s (get_node_and_param_name name) →
  ∃ s1, unsubscribe_params (name :: names) s = unsubscribe_params names s1 ∧ interface_ok s1 ∧
    ∀ np, follows s1 np ↔ follows s np ∧ np ≠ get_node_and_param_name name.
Proof.
  intros [Hne Hsub Hcl] Hname. cbn [unsubscribe_params].
  destruct (get_node_and_param_name name) as [n p] eqn:En.
  unfold follows in Hname. cbn [fst snd] in Hname.
  destruct (_subscribed_params_by_node s !! n) as [ps|] eqn:Em;
    cbn [from_option id] in Hname; [|by apply not_elem_of_empty in Hname].
  rewrite (erase_found_in p) by done.
  simpl_bind. assert (n ∈ _param_subscriptions_by_node s) as Hn by (apply Hsub; by eexists).
  case_bool_decide as Hempty.
  - cbn [set_followed _param_subscriptions_by_node].
    rewrite erase_found_in by done. simpl_bind. eexists. split; [done|]. split.
    + split; cbn [set_followed set_event_subscriptions _subscribed_params_by_node
        _param_subscriptions_by_node _param_clients_by_node].
      * intros n' ps' [_ ?]%lookup_delete_Some. by eapply Hne.
      * intros n'. rewrite lookup_delete_is_Some, Hsub. set_solver.
      * set_solver.
    + intros [n' p']. unfold follows. cbn. destruct (decide (n = n')) as [->|].
      * rewrite lookup_delete_eq, Em. cbn. set_solver.
      * rewrite lookup_delete_ne by done. set_solver.
  - eexists. split; [done|]. split.
    + split; cbn [set_followed _subscribed_params_by_node _param_subscriptions_by_node
        _param_clients_by_node]; [|intros n'|done].
      * intros n' ps' [[_ <-]|[_ ?]]%lookup_insert_Some; [done|by eapply Hne].
      * rewrite <-Hsub, lookup_insert_is_Some. destruct (decide (n = n')) as [->|]; [|set_solver].
        rewrite Em. split; [by eexists|by left].
    + intros [n' p']. rewrite follows_insert. unfold follows. cbn [fst snd].
      destruct (decide (n' = n)) as [->|]; [rewrite Em; cbn|]; set_solver.
Qed.

Lemma unsubscribe_params_ok names s :
  interface_ok s → NoDup (get_node_and_param_name <$> names) →
  Forall (λ name, follows s (get_node_and_param_name name)) names →
  ∃ s', unsubscribe_params names s = Ret s' ∧ interface_ok s' ∧
    ∀ np, follows s' np ↔ follows s np ∧ np ∉ get_node_and_param_name <$> names.
Proof.
  intros Hok Hnd Hf. revert s Hok Hf. induction names as [|name names IH]; intros s Hok Hf.
  { exists s. split_and!; [done..|]. intros np. split; [|by intros []].
    intros ?. split; [done|]. by intros (? & _ & ?%not_elem_of_nil)%list_elem_of_fmap. }
  rewrite fmap_cons in Hnd. apply NoDup_cons in Hnd as [Hnew Hnd].
  apply Forall_cons in Hf as [Hname Hf].
  destruct (unsubscribe_one name names s Hok Hname) as (s1 & -> & Hok1 & Hf1).
  destruct (IH Hnd s1 Hok1) as (s' & -> & Hok' & Hf').
  { rewrite Forall_forall in Hf |- *. intros m Hm. apply Hf1. split; [by apply Hf|].
    intros E. apply Hnew. rewrite <-E. apply list_elem_of_fmap. by exists m. }
  exists s'. split_and!; [done..|]. intros np. rewrite Hf', Hf1, fmap_cons, elem_of_cons. naive_solver.
Qed.

(** An event received for a followed node changes nothing. *)
Lemma parameter_event_followed n msg s :
  is_Some (_subscribed_params_by_node s !! n) → (parameter_event n msg s).1 = s.
Proof.
  intros [ps Hps]. unfold parameter_event. cbn [fst]. rewrite Hps. cbn [from_option id].
  unfold set_followed. rewrite insert_id by done. by destruct s.
Qed.


(** ** Two ways the record of followed parameters goes wrong *)

(** Unfollowing a parameter that is not followed is undefined as soon as its
    node has another followed parameter: [erase] is given [end()]. *)
Theorem unsubscribe_undefined_iff (s : ParameterInterface) (name : string) :
  interface_ok s →
  unsubscribe_params [name] s = Undefined ↔
  (∃ p, follows s ((get_node_and_param_name name).1, p)) ∧
  ¬ follows s (get_node_and_param_name name).
Proof.
  intros Hok. destruct (decide (is_Some (_subscribed_params_by_node s !!
    (get_node_and_param_name name).1))) as [[ps Hps]|Hno].
  - destruct (decide (follows s (get_node_and_param_name name))) as [Hf|Hf].
    + destruct (unsubscribe_one name [] s Hok Hf) as (s1 & -> & _). naive_solver.
    + split; [intros _|intros _].
      * split; [|done]. destruct (set_choose_L ps) as [p Hp]; [by eapply followed_nonempty|].
        exists p. unfold follows. cbn [fst snd]. by rewrite Hps.
      * cbn [unsubscribe_params]. destruct (get_node_and_param_name name) as [n p].
        cbn [fst] in Hps. rewrite Hps.
        unfold follows in Hf. cbn [fst snd] in Hf. rewrite Hps in Hf. cbn [from_option id] in Hf.
        assert (erase_found p ps = Undefined) as -> by (unfold erase_found; by rewrite bool_decide_false).
        done.
  - apply eq_None_not_Some in Hno. cbn [unsubscribe_params].
    destruct (get_node_and_param_name name) as [n p]. cbn [fst] in Hno. rewrite Hno.
    split; [done|]. intros [[q Hq] _]. unfold follows in Hq. cbn [fst snd] in Hq.
    rewrite Hno in Hq. by apply not_elem_of_empty in Hq.
Qed.

Lemma subscribe_loop_nodes names nodes0 s n :
  is_Some (_subscribed_params_by_node s !! n) →
  let '(s', nodes, _) := subscribe_loop names nodes0 s in
  _param_subscriptions_by_node s' = _param_subscriptions_by_node s ∧ (n ∈ nodes → n ∈ nodes0).
Proof.
  revert nodes0 s. induction names as [|name names IH]; intros nodes0 s Hn; cbn [subscribe_loop];
    [done|].
  destruct (is_whitelisted name _); cbn [negb]; [|done].
  destruct (get_node_and_param_name name) as [n' p].
  set (m := _subscribed_params_by_node s).
  set (s1 := set_followed (<[n' := {[p]} ∪ default ∅ (m !! n')]> m) s).
  set (nodes1 := if bool_decide (m !! n' = None) then {[n']} ∪ nodes0 else nodes0).
  specialize (IH nodes1 s1). destruct (subscribe_loop names nodes1 s1) as [[s' nodes] b].
  destruct IH as [H1 H2].
  { cbn. rewrite lookup_insert_is_Some. destruct (decide (n' = n)); [by left|by right]. }
  split; [done|]. intros Hin%H2. unfold nodes1 in Hin.
  case_bool_decide as E; [|done].
  apply elem_of_union in Hin as [->%elem_of_singleton|]; [|done].
  fold m in Hn. rewrite E in Hn. by destruct Hn.
Qed.

(** A request with a name that is not whitelisted after one that is: the first
    name is recorded but its node's events are not subscribed, no later request
    subscribes them, and unfollowing the name is undefined. *)
Theorem rejected_request_blocks_node :
  ∃ (patterns : list regex) (s : ParameterInterface),
    s = subscribe_params ["/n.a"; "/n.secret"] (new_ParameterInterface patterns) ∧
    is_whitelisted "/n.a" patterns = true ∧ follows s ("/n", "a") ∧
    (∀ names, "/n" ∉ _param_subscriptions_by_node (subscribe_params names s)) ∧
    unsubscribe_params ["/n.a"] s = Undefined.
Proof.
  set (patterns := [λ name : string, bool_decide (name ≠ "/n.secret")]).
  set (s := subscribe_params ["/n.a"; "/n.secret"] (new_ParameterInterface patterns)).
  exists patterns, s. split; [done|].
  assert (_subscribed_params_by_node s !! "/n" = Some {["a"]}) as Hs by (by vm_compute).
  split_and!; [by vm_compute|unfold follows; cbn [fst snd]; rewrite Hs; cbn; set_solver| |by vm_compute].
  intros names. unfold subscribe_params at 1.
  pose proof (subscribe_loop_nodes names ∅ s "/n" ltac:(rewrite Hs; by eexists)) as H.
  destruct (subscribe_loop names ∅ s) as [[s' nodes] b]. destruct H as [H1 H2].
  assert (_param_subscriptions_by_node s = ∅) as He by (by vm_compute).
  destruct b; cbn [set_event_subscriptions _param_subscriptions_by_node]; rewrite H1, He; set_solver.
Qed.

(** Clients that follow the parameter [a] of [/n] are told of a change of it when [/m]
    changes a parameter of that name. *)
Theorem event_of_another_node (value : RosValue) :
  let s := set_param_update_callback
    (subscribe_params ["/n.a"] (new_ParameterInterface [λ _, true])) in
  let msg := {| event_node := "/m"; new_parameters := []; deleted_parameters := [];
                changed_parameters := [{| ros_name := "a"; ros_value := value |}] |} in
  "/n" ∈ _param_subscriptions_by_node s ∧ ¬ follows s ("/m", "a") ∧
  (parameter_event "/n" msg s).2 =
    Some [from_ros_param {| ros_name := "/n.a"; ros_value := value |}].
Proof.
  intros s msg. split_and!; [by apply (bool_decide_unpack _); vm_compute| |reflexivity].
  apply (bool_decide_unpack (¬ follows s ("/m", "a"))). vm_compute. exact I.
Qed.

(** ** Witnesses *)

Definition demo_ros : ros_graph := {|
  get_fully_qualified_name := "/cobridge";
  get_node_names := ["/cobridge"; "/n"];
  get_service_names_and_types_by_node name ns :=
    [("get", [GET_PARAMS_SERVICE_TYPE]); ("list", [LIST_PARAMS_SERVICE_TYPE])];
  service_is_ready n := bool_decide (n = "/n");
  list_parameters n := Some ["a"];
  get_parameters n names := Some ((λ name, {| ros_name := name; ros_value := RInteger 1 |}) <$> names);
  set_parameters n ps := Some (const true <$> ps) |}.

Definition demo_interface : ParameterInterface :=
  subscribe_params ["/n.a"] (new_ParameterInterface [λ _, true]).

Lemma get_params_answers_witness :
  ∃ s' result, get_params demo_ros [] demo_interface = (s', Ret result) ∧
    {| param_name := "/n.a"; param_value := PInt 1 |} ∈ result.
Proof.
  destruct (get_params_answers demo_ros [] demo_interface) as (s' & result & Hr & Hp & _).
  - repeat constructor; by eexists.
  - exists s', result. split; [done|]. apply Hp.
    exists "/n", [], [{| param_name := "/n.a"; param_value := PInt 1 |}].
    split; [done|]. split; [|split; [by vm_compute|apply list_elem_of_here]].
    split; [done|]. split; [right; left|]. split; [done|by vm_compute].
Defined.


Lemma unsubscribe_undefined_iff_witness : unsubscribe_params ["/n.b"] demo_interface = Undefined.
Proof.
  apply (unsubscribe_undefined_iff demo_interface "/n.b").
  - apply subscribe_params_ok; [apply new_interface_ok|done].
  - split; [exists "a"|].
    + by apply (bool_decide_unpack (follows demo_interface ("/n", "a"))); vm_compute.
    + by apply (bool_decide_unpack (¬ follows demo_interface ("/n", "b"))); vm_compute.
Defined.
