(* ===== verification/BridgeParams.v ===== *)
(** * Parameter helpers of the two bridges

    [ros1_bridge/src/param_utils.cpp] (conversion to and from [XmlRpcValue], the
    whitelists) and [ros2_bridge/src/param_utils.cpp] (the parameters the node
    declares, the whitelists).  Compiling a regular expression is a parameter:
    [compile] is [None] where the constructor of [std::regex] throws. *)

From Stdlib Require Import ZArith Lia.
From S2P Require Import Prelude Json Serialization ServerState ServerMethods.

Local Open Scope Z_scope.

(** ** ROS 1 *)

Module Ros1.

(** [XmlRpc::XmlRpcValue], by [getType()].  A struct is a [std::map]: its
    entries sorted by key. *)
#[warnings="-register-all"]
Inductive XmlRpcValue :=
| TypeInvalid
| TypeBoolean (b : bool)
| TypeInt (z : Z)
| TypeDouble (d : double)
| TypeString (s : string)
| TypeDateTime
| TypeBase64 (data : list byte)
| TypeArray (l : list XmlRpcValue)
| TypeStruct (fields : list (string * XmlRpcValue)).

(** [std::to_string(getType())], the enumerators of [XmlRpcValue::Type]. *)
Definition type_number (v : XmlRpcValue) : Z :=
  match v with
  | TypeInvalid => 0 | TypeBoolean _ => 1 | TypeInt _ => 2 | TypeDouble _ => 3
  | TypeString _ => 4 | TypeDateTime => 5 | TypeBase64 _ => 6 | TypeArray _ => 7
  | TypeStruct _ => 8
  end.

Fixpoint fromRosParam (value : XmlRpcValue) : outcome ParameterValue :=
  match value with
  | TypeBoolean b => Ret (PBool b)
  | TypeInt z => Ret (PInt z)
  | TypeDouble d => Ret (PDouble d)
  | TypeString s => Ret (PString s)
  | TypeStruct fields =>
      param_map ← outcome_mapM (λ element, v ← fromRosParam element.2; Ret (element.1, v)) fields;
      Ret (PStruct param_map)
  | TypeArray l => param_vec ← outcome_mapM fromRosParam l; Ret (PArray param_vec)
  | TypeInvalid => Throw (RuntimeError "Parameter not set")
  | TypeDateTime | TypeBase64 _ =>
      Throw (RuntimeError ("Unsupported parameter type: " +:+ to_string (type_number value)))
  end.

Definition from_ros_param (name : string) (value : XmlRpcValue) : outcome ParameterT :=
  v ← fromRosParam value; Ret {| param_name := name; param_value := v |}.

(** [static_cast<int>] of an [int64_t]. *)
Definition to_int (z : Z) : Z :=
  let u := z mod 2 ^ 32 in if u <? 2 ^ 31 then u else u - 2 ^ 32.

(** [value_struct] and [arr] start invalid, and become a struct or an array with
    their first element. *)
Fixpoint to_ros_param (param : ParameterValue) : outcome XmlRpcValue :=
  match param with
  | PBool b => Ret (TypeBoolean b)
  | PInt z => Ret (TypeInt (to_int z))
  | PDouble d => Ret (TypeDouble d)
  | PString s => Ret (TypeString s)
  | PStruct param_map =>
      fields ← outcome_mapM (λ element, v ← to_ros_param element.2; Ret (element.1, v)) param_map;
      Ret (match fields with [] => TypeInvalid | _ => TypeStruct fields end)
  | PArray vec =>
      l ← outcome_mapM to_ros_param vec;
      Ret (match l with [] => TypeInvalid | _ => TypeArray l end)
  | PNotSet | PByteArray _ => Throw (RuntimeError "Unsupported parameter type")
  end.

Definition parse_regex_patterns (compile : string → option regex) (patterns : list string)
  : list regex :=
  match omap compile patterns with
  | [] => match compile ".*" with Some r => [r] | None => [] end
  | result => result
  end.

(** *** Round trip *)

(** The values ROS 1 can hold: 32-bit integers, and no empty array or struct. *)
Fixpoint representable (v : ParameterValue) : bool :=
  match v with
  | PBool _ | PDouble _ | PString _ => true
  | PInt z => (- 2 ^ 31 <=? z) && (z <? 2 ^ 31)
  | PArray l => negb (is_nil l) && forallb representable l
  | PStruct o => negb (is_nil o) && forallb (λ kv, representable kv.2) o
  | PNotSet | PByteArray _ => false
  end.

Lemma to_int_id z : - 2 ^ 31 ≤ z < 2 ^ 31 → to_int z = z.
Proof.
  intros Hz. unfold to_int. destruct (decide (0 ≤ z)).
  - rewrite Z.mod_small by lia. destruct (Z.ltb_spec z (2 ^ 31)); lia.
  - assert (z mod 2 ^ 32 = z + 2 ^ 32) as ->
      by (symmetry; apply Z.mod_unique with (-1); lia).
    destruct (Z.ltb_spec (z + 2 ^ 32) (2 ^ 31)); lia.
Qed.

Lemma mapM_not_nil {A B} (f : A → outcome B) l ys :
  outcome_mapM f l = Ret ys → is_nil ys = is_nil l.
Proof.
  destruct l as [|x l]; cbn [outcome_mapM]; [by intros [= <-]|].
  intros (y & _ & (ys' & _ & [= <-])%outcome_bind_Ret)%outcome_bind_Ret. done.
Qed.

Lemma conversion_roundtrip v :
  representable v → ∃ x, to_ros_param v = Ret x ∧ fromRosParam x = Ret v.
Proof.
  induction v as [|b|z|f|s|bs|l IH|o IH] using ParameterValue_nested_ind;
    intros Hwf; cbn [representable] in Hwf; try done.
  - by eexists.
  - eexists. split; [done|]. cbn. apply Is_true_true in Hwf. rewrite to_int_id by lia. done.
  - by eexists.
  - by eexists.
  - apply andb_prop_elim in Hwf as [Hne Hwf].
    destruct (mapM_roundtrip to_ros_param id fromRosParam representable l IH Hwf)
      as (xs & Hxs & Hback). rewrite map_id in Hback.
    exists (TypeArray xs). cbn [to_ros_param]. rewrite Hxs.
    pose proof (mapM_not_nil _ _ _ Hxs) as Hn. split.
    + simpl_bind. destruct xs; [|done]. by rewrite <-Hn in Hne.
    + cbn [fromRosParam]. by rewrite Hback.
  - apply andb_prop_elim in Hwf as [Hne Hwf].
    destruct (mapM_roundtrip
      (λ element : string * ParameterValue, v ← to_ros_param element.2; Ret (element.1, v)) id
      (λ element : string * XmlRpcValue, v ← fromRosParam element.2; Ret (element.1, v))
      (λ kv, representable kv.2) o) as (xs & Hxs & Hback); [|done|].
    { eapply Forall_impl; [exact IH|]. intros [k v] Hv Hwv. cbn in *.
      destruct (Hv Hwv) as (j & Hj & Hb). exists (k, j). by rewrite Hj; cbn; rewrite Hb. }
    rewrite map_id in Hback. exists (TypeStruct xs). cbn [to_ros_param]. rewrite Hxs.
    pose proof (mapM_not_nil _ _ _ Hxs) as Hn. split.
    + simpl_bind. destruct xs; [|done]. by rewrite <-Hn in Hne.
    + cbn [fromRosParam]. by rewrite Hback.
Qed.

End Ros1.

(** A value set on the ROS 1 parameter server by a client is read back as the
    same value, for every value of a type ROS 1 has. *)
Theorem ros1_value_roundtrip (name : string) (v : ParameterValue) :
  Ros1.representable v →
  ∃ x, Ros1.to_ros_param v = Ret x ∧
       Ros1.from_ros_param name x = Ret {| param_name := name; param_value := v |}.
Proof.
  intros (x & Hx & Hb)%Ros1.conversion_roundtrip. exists x. split; [done|].
  unfold Ros1.from_ros_param. by rewrite Hb.
Qed.

Lemma ros1_value_roundtrip_witness :
  ∃ x, Ros1.to_ros_param (PStruct [("gains", PArray [PInt 1; PInt (-2)])]) = Ret x ∧
       Ros1.from_ros_param "/p" x =
         Ret {| param_name := "/p"; param_value := PStruct [("gains", PArray [PInt 1; PInt (-2)])] |}.
Proof. apply (ros1_value_roundtrip "/p" (PStruct [("gains", PArray [PInt 1; PInt (-2)])])). done. Defined.

(** ** ROS 2 *)

Module Ros2.

Definition parse_regex_strings (compile : string → option regex) (strings : list string)
  : list regex := omap compile strings.

(** The value types of the declared parameters. *)
Inductive parameter_default :=
| DefaultInteger (z : Z)
| DefaultString (s : string)
| DefaultBool (b : bool)
| DefaultStringArray (l : list string).

Inductive descriptor_type := PT_INTEGER | PT_STRING | PT_BOOL | PT_STRING_ARRAY.

(** The fields of [rcl_interfaces::msg::ParameterDescriptor] that are set; the
    texts are left out. *)
Record ParameterDescriptor := {
  desc_name : string;
  desc_type : descriptor_type;
  read_only : bool;
  integer_range : option (Z * Z)
}.

Record declaration := {
  decl_name : string;
  decl_default : parameter_default;
  decl_descriptor : ParameterDescriptor
}.

Definition PARAM_PORT : string := "port".
Definition PARAM_ADDRESS : string := "address".
Definition PARAM_SEND_BUFFER_LIMIT : string := "send_buffer_limit".
Definition PARAM_USETLS : string := "tls".
Definition PARAM_CERTFILE : string := "certfile".
Definition PARAM_KEYFILE : string := "keyfile".
Definition PARAM_MIN_QOS_DEPTH : string := "min_qos_depth".
Definition PARAM_MAX_QOS_DEPTH : string := "max_qos_depth".
Definition PARAM_TOPIC_WHITELIST : string := "topic_whitelist".
Definition PARAM_SERVICE_WHITELIST : string := "service_whitelist".
Definition PARAM_PARAMETER_WHITELIST : string := "param_whitelist".
Definition PARAM_USE_COMPRESSION : string := "use_compression".
Definition PARAM_CAPABILITIES : string := "capabilities".
Definition PARAM_CLIENT_TOPIC_WHITELIST : string := "client_topic_whitelist".
Definition PARAM_INCLUDE_HIDDEN : string := "include_hidden".
Definition PARAM_ASSET_URI_ALLOWLIST : string := "asset_uri_allowlist".

Definition DEFAULT_PORT : Z := 21274.
Definition DEFAULT_ADDRESS : string := "0.0.0.0".
Definition DEFAULT_SEND_BUFFER_LIMIT : Z := 10000000.
Definition DEFAULT_MIN_QOS_DEPTH : Z := 1.
Definition DEFAULT_MAX_QOS_DEPTH : Z := 25.

Definition DEFAULT_CAPABILITIES : list string :=
  [CAPABILITY_CLIENT_PUBLISH; CAPABILITY_CONNECTION_GRAPH; CAPABILITY_PARAMETERS_SUBSCRIBE;
   CAPABILITY_PARAMETERS; CAPABILITY_SERVICES; CAPABILITY_ASSETS].

Definition INT32_MAX : Z := 2 ^ 31 - 1.
Definition INT64_MAX : Z := 2 ^ 63 - 1.

Definition desc (name : string) (type : descriptor_type) : ParameterDescriptor :=
  {| desc_name := name; desc_type := type; read_only := true; integer_range := None |}.

Definition with_range (from_value to_value : Z) (d : ParameterDescriptor) : ParameterDescriptor :=
  {| desc_name := desc_name d; desc_type := desc_type d; read_only := read_only d;
     integer_range := Some (from_value, to_value) |}.

Definition decl (name : string) (v : parameter_default) (d : ParameterDescriptor) : declaration :=
  {| decl_name := name; decl_default := v; decl_descriptor := d |}.

Definition asset_uri_pattern : string :=
  "^package://(?:\w+/)*\w+\.(?:dae|fbx|glb|gltf|jpeg|jpg|mtl|obj|png|stl|tif|tiff|urdf|webp|xacro)$".

(** The calls of [node->declare_parameter], in order.  The last two whitelists
    are declared with the descriptor of [param_whitelist]. *)
Definition declare_parameters : list declaration :=
  let param_whitelist_description := desc PARAM_PARAMETER_WHITELIST PT_STRING_ARRAY in
  let any := DefaultStringArray [".*"] in
  [decl PARAM_PORT (DefaultInteger DEFAULT_PORT) (with_range 0 65535 (desc PARAM_PORT PT_INTEGER));
   decl PARAM_ADDRESS (DefaultString DEFAULT_ADDRESS) (desc PARAM_ADDRESS PT_STRING);
   decl PARAM_SEND_BUFFER_LIMIT (DefaultInteger DEFAULT_SEND_BUFFER_LIMIT)
     (with_range 0 INT64_MAX (desc PARAM_SEND_BUFFER_LIMIT PT_INTEGER));
   decl PARAM_USETLS (DefaultBool false) (desc PARAM_USETLS PT_BOOL);
   decl PARAM_CERTFILE (DefaultString EmptyString) (desc PARAM_CERTFILE PT_STRING);
   decl PARAM_KEYFILE (DefaultString EmptyString) (desc PARAM_KEYFILE PT_STRING);
   decl PARAM_MIN_QOS_DEPTH (DefaultInteger DEFAULT_MIN_QOS_DEPTH)
     (with_range 0 INT32_MAX (desc PARAM_MIN_QOS_DEPTH PT_INTEGER));
   decl PARAM_MAX_QOS_DEPTH (DefaultInteger DEFAULT_MAX_QOS_DEPTH)
     (with_range 0 INT32_MAX (desc PARAM_MAX_QOS_DEPTH PT_INTEGER));
   decl PARAM_TOPIC_WHITELIST any (desc PARAM_TOPIC_WHITELIST PT_STRING_ARRAY);
   decl PARAM_SERVICE_WHITELIST any (desc PARAM_SERVICE_WHITELIST PT_STRING_ARRAY);
   decl PARAM_PARAMETER_WHITELIST any param_whitelist_description;
   decl PARAM_USE_COMPRESSION (DefaultBool false) (desc PARAM_USE_COMPRESSION PT_BOOL);
   decl PARAM_CAPABILITIES (DefaultStringArray DEFAULT_CAPABILITIES)
     (desc PARAM_CAPABILITIES PT_STRING_ARRAY);
   decl PARAM_CLIENT_TOPIC_WHITELIST any param_whitelist_description;
   decl PARAM_INCLUDE_HIDDEN (DefaultBool false) (desc PARAM_INCLUDE_HIDDEN PT_BOOL);
   decl PARAM_ASSET_URI_ALLOWLIST (DefaultStringArray [asset_uri_pattern])
     param_whitelist_description].

Definition default_ok (d : declaration) : bool :=
  match decl_default d, desc_type (decl_descriptor d), integer_range (decl_descriptor d) with
  | DefaultInteger z, PT_INTEGER, Some (lo, hi) => (lo <=? z) && (z <=? hi)
  | DefaultString _, PT_STRING, None | DefaultBool _, PT_BOOL, None
  | DefaultStringArray _, PT_STRING_ARRAY, None => true
  | _, _, _ => false
  end.

End Ros2.

(** The declared parameters are distinct and read-only, and every default has
    the declared type and lies in the declared range; the descriptor names the
    parameter it is declared with, except for [client_topic_whitelist] and
    [asset_uri_allowlist], which are given the one of [param_whitelist]. *)
Theorem declared_parameters_consistent :
  NoDup (Ros2.decl_name <$> Ros2.declare_parameters) ∧
  Forall (λ d, Ros2.default_ok d = true ∧ Ros2.read_only (Ros2.decl_descriptor d) = true)
    Ros2.declare_parameters ∧
  Ros2.decl_name <$> filter (λ d, Ros2.desc_name (Ros2.decl_descriptor d) ≠ Ros2.decl_name d)
    Ros2.declare_parameters
  = [Ros2.PARAM_CLIENT_TOPIC_WHITELIST; Ros2.PARAM_ASSET_URI_ALLOWLIST].
Proof.
  split_and!; [|by repeat constructor|by vm_compute].
  apply (bool_decide_unpack (NoDup _)). by vm_compute.
Qed.

(** ** Whitelists *)

(** A whitelist admits a name exactly when one of its valid patterns does; when
    no pattern is valid, ROS 2 admits nothing and ROS 1 what [.*] matches. *)
Theorem whitelist_of_patterns (compile : string → option regex) (patterns : list string)
    (name : string) :
  (is_whitelisted name (Ros2.parse_regex_strings compile patterns) = true ↔
   ∃ p r, p ∈ patterns ∧ compile p = Some r ∧ r name = true) ∧
  (is_whitelisted name (Ros1.parse_regex_patterns compile patterns) = true ↔
   (∃ p r, p ∈ patterns ∧ compile p = Some r ∧ r name = true) ∨
   (∀ p, p ∈ patterns → compile p = None) ∧ ∃ r, compile ".*" = Some r ∧ r name = true).
Proof.
  assert (is_whitelisted name (omap compile patterns) = true ↔
    ∃ p r, p ∈ patterns ∧ compile p = Some r ∧ r name = true) as Hvalid.
  { unfold is_whitelisted. rewrite existsb_exists. setoid_rewrite <-list_elem_of_In.
    setoid_rewrite list_elem_of_omap. naive_solver. }
  split; [exact Hvalid|]. unfold Ros1.parse_regex_patterns.
  destruct (omap compile patterns) as [|r rs] eqn:E.
  - assert (∀ p, p ∈ patterns → compile p = None) as Hnone.
    { intros p Hp. destruct (compile p) as [r|] eqn:Er; [|done].
      assert (r ∈ omap compile patterns) as Hr by (apply list_elem_of_omap; by exists p).
      rewrite E in Hr. by apply not_elem_of_nil in Hr. }
    destruct (compile ".*") as [r|]; cbn [is_whitelisted existsb]; [rewrite orb_false_r|].
    + split; [intros Hr; right; by eauto|]. intros [(p & r' & Hp & Hc & _)|[_ (r' & [= <-] & ?)]];
        [by rewrite Hnone in Hc|done].
    + split; [done|]. intros [(p & r' & Hp & Hc & _)|[_ (r' & [=] & _)]]. by rewrite Hnone in Hc.
  - rewrite Hvalid. split; [by left|]. intros [?|[Hnone _]]; [done|].
    assert (r ∈ omap compile patterns) as (p & Hp & Hc)%list_elem_of_omap by (rewrite E; left).
    by rewrite Hnone in Hc.
Qed.
