(* ===== verification/BridgeTables.v ===== *)
(** * State shared by the two bridge nodes

    [ros2_bridge.cpp] and [ros1_bridge_nodelet.cpp] keep the same tables: the
    channels and services they advertised on the server, the ROS subscription of
    each client per channel, and the ROS publisher of each channel a client
    advertised.  The handlers of a node are programs of the server's monad whose
    [world] is the node; this file gives access to it, and the tables a class of
    worlds has. *)

From Stdlib Require Import ZArith Lia.
From S2P Require Import Prelude Wire Json Serialization ServerState ServerMethods ServerLogic.
From S2P Require Import ServerDefined.

Local Open Scope Z_scope.

(** ** The node as the world of the server *)

Section World.
Context {W : Type}.

Definition get_world {A} (f : W → A) : M W A := λ L s, (Ret (f (world s)), s).
Definition update_world (f : W → W) : M W unit := λ L s,
  (Ret tt, mkSt (srv s) (net s) (trace s) (f (world s))).

Lemma triple_get_world {A} (f : W → A) P E :
  triple P (get_world f) (λ a s, P s ∧ a = f (world s)) E.
Proof. by intros L s HP. Qed.

Lemma preserves_get_world {A} (f : W → A) P : preserves P (get_world f).
Proof. by intros L s HP. Qed.

Lemma triple_update_world f P (Q : unit → St W → Prop) E :
  (∀ s, P s → Q tt (mkSt (srv s) (net s) (trace s) (f (world s)))) →
  triple P (update_world f) Q E.
Proof. intros HQ L s. apply HQ. Qed.

Lemma defined_get_world `{!WorldInv W} {A} L (f : W → A) : defined L (get_world f).
Proof. by intros s _. Qed.
Lemma defined_update_world `{!WorldInv W} L f :
  (∀ σ w, world_ok σ w → world_ok σ (f w)) → defined L (update_world f).
Proof. intros Hf s _. apply Hf. Qed.

(** What is read of the state has what the ambient invariant says of it. *)
Lemma defined_bind_get_world `{!WorldInv W} {A B} L (f : W → A) (k : A → M W B) :
  (∀ σ w, world_ok σ w → defined L (k (f w))) → defined L (get_world f ≫= k).
Proof. intros Hk s _ Hw. by eapply Hk. Qed.

(** A property of states that ignores the state of the node is kept when only
    that changes. *)
Lemma frame_update_world f (s : St W) :
  handler_frame s (mkSt (srv s) (net s) (trace s) (f (world s))).
Proof.
  split_and!; [done| |by exists []; rewrite app_nil_r]. apply set_same_graph.
Qed.

End World.

(** ** Programs that keep the contract of handlers *)

Lemma handler_frame_trans {W} (s1 s2 s3 : St W) :
  handler_frame s1 s2 → handler_frame s2 s3 → handler_frame s1 s3.
Proof.
  intros (Hn & (p & q & r & Hs) & l & Ht & Hl) (Hn' & (p' & q' & r' & Hs') & l' & Ht' & Hl').
  split_and!; [congruence| |].
  - exists p', q', r'. by rewrite Hs', Hs.
  - exists (l ++ l'). rewrite Ht', Ht, app_assoc. split; [done|]. by apply Forall_app.
Qed.

Definition framed {W A} (m : M W A) : Prop := ∀ L s, handler_frame s (m L s).2.

Section Framed.
Context {W : Type}.

Lemma framed_ret {A} (a : A) : framed (W:=W) (mret a).
Proof. intros L s. apply handler_frame_refl. Qed.
Lemma framed_throw {A} e : framed (W:=W) (throw (A:=A) e).
Proof. intros L s. apply handler_frame_refl. Qed.
Lemma framed_undefined {A} : framed (W:=W) (undefined (A:=A)).
Proof. intros L s. apply handler_frame_refl. Qed.
Lemma framed_lift {A} (o : outcome A) : framed (W:=W) (lift o).
Proof. intros L s. apply handler_frame_refl. Qed.
Lemma framed_get {A} (f : Server → A) : framed (W:=W) (get f).
Proof. intros L s. apply handler_frame_refl. Qed.
Lemma framed_get_world {A} (f : W → A) : framed (get_world f).
Proof. intros L s. apply handler_frame_refl. Qed.
Lemma framed_find_connection hdl : framed (W:=W) (find_connection hdl).
Proof. intros L s. apply handler_frame_refl. Qed.
Lemma framed_update_world (f : W → W) : framed (update_world f).
Proof. intros L s. apply frame_update_world. Qed.
Lemma framed_emit_send hdl m r : framed (W:=W) (emit (Send hdl m r)).
Proof. intros L s. apply handler_frame_send. Qed.
Lemma framed_bind {A B} (m : M W A) (k : A → M W B) :
  framed m → (∀ a, framed (k a)) → framed (m ≫= k).
Proof.
  intros Hm Hk L s. specialize (Hm L s). unfold mbind, M_mbind, M_bind.
  destruct (m L s) as [[a|e|] s']; try done. eapply handler_frame_trans; [done|apply Hk].
Qed.
Lemma framed_with_lock {A} mu (m : M W A) : framed m → framed (with_lock mu m).
Proof. intros Hm L s. unfold with_lock. case_decide; [apply handler_frame_refl|apply Hm]. Qed.
Lemma framed_try_catch {A} (m : M W A) h :
  framed m → (∀ e, framed (h e)) → framed (try_catch m h).
Proof.
  intros Hm Hh L s. specialize (Hm L s). unfold try_catch.
  destruct (m L s) as [[a|e|] s']; try done. eapply handler_frame_trans; [done|apply Hh].
Qed.
Lemma framed_for_each {A} (l : list A) body : (∀ x, framed (body x)) → framed (W:=W) (for_each l body).
Proof. intros Hb. induction l; simpl; [apply framed_ret|]. by apply framed_bind. Qed.
Lemma framed_set_graph p q r :
  framed (W:=W) (update (λ s, set_connection_graph s
                                (set_graph_maps p q r (_connection_graph s)))).
Proof. intros L s. split_and!; [done|simpl; eauto|by exists []; rewrite app_nil_r]. Qed.

End Framed.

#[export] Hint Resolve framed_ret framed_throw framed_undefined framed_lift framed_get
  framed_get_world framed_find_connection framed_update_world framed_emit_send
  framed_set_graph : server.

Ltac framed_step :=
  match goal with
  | |- framed (mbind _ _) => apply framed_bind; [|intros ?]
  | |- framed (let '(_, _) := ?x in _) => destruct x
  | |- framed (if ?b then _ else _) => destruct b
  | |- framed (match ?x with _ => _ end) => destruct x
  | |- framed _ => progress eauto with server
  | |- framed (with_lock _ _) => apply framed_with_lock
  | |- framed (try_catch _ _) => apply framed_try_catch; [|intros ?]
  | |- framed (for_each _ _) => apply framed_for_each; intros ?
  end.
Ltac solve_framed := repeat framed_step.

Section FramedMethods.
Context {W : Type}.

Lemma framed_send_raw_json hdl j r : framed (W:=W) (send_raw_json hdl j r).
Proof. unfold send_raw_json, get_con_from_hdl, catch_log. solve_framed. Qed.
Lemma framed_send_binary hdl j r : framed (W:=W) (send_binary hdl j r).
Proof. unfold send_binary, get_con_from_hdl, catch_log. solve_framed. Qed.
Lemma framed_remote_endpoint hdl : framed (W:=W) (remote_endpoint_string hdl).
Proof. unfold remote_endpoint_string. solve_framed. Qed.
#[local] Hint Resolve framed_send_raw_json framed_send_binary : server.
Lemma framed_publish_parameter_values hdl ps i :
  framed (W:=W) (publish_parameter_values hdl ps i).
Proof. unfold publish_parameter_values. solve_framed. Qed.
Lemma framed_send_service_response {plat : Platform} hdl r :
  framed (W:=W) (send_service_response hdl r).
Proof. unfold send_service_response. solve_framed. Qed.
Lemma framed_send_fetch_asset_response {plat : Platform} hdl r :
  framed (W:=W) (send_fetch_asset_response hdl r).
Proof. unfold send_fetch_asset_response. solve_framed. Qed.
Lemma framed_update_connection_graph p q r : framed (W:=W) (update_connection_graph p q r).
Proof. unfold update_connection_graph, get_con_from_hdl. solve_framed. Qed.

End FramedMethods.

#[export] Hint Resolve framed_send_raw_json framed_send_binary framed_remote_endpoint
  framed_publish_parameter_values framed_send_service_response
  framed_send_fetch_asset_response framed_update_connection_graph : server.
#[export] Hint Resolve preserves_get_world defined_get_world defined_update_world : server.

(** ** Tables *)

(** [Sub] and [Pub] are the node's subscription and publisher objects. *)
Record Tables (Sub Pub : Type) := mkTables {
  advertised_topics : gmap Z ChannelWithoutId;
  known_services : gmap Z ServiceWithoutId;
  subscriptions : gmap Z (gmap ConnHandle Sub);
  client_advertised_topics : gmap ConnHandle (gmap Z Pub)
}.
Arguments mkTables {Sub Pub}.
Arguments advertised_topics {Sub Pub}.
Arguments known_services {Sub Pub}.
Arguments subscriptions {Sub Pub}.
Arguments client_advertised_topics {Sub Pub}.

Section Setters.
Context {Sub Pub : Type} (t : Tables Sub Pub).

Definition set_topics (m : gmap Z ChannelWithoutId) : Tables Sub Pub :=
  mkTables m (known_services t) (subscriptions t) (client_advertised_topics t).
Definition set_known_services (m : gmap Z ServiceWithoutId) : Tables Sub Pub :=
  mkTables (advertised_topics t) m (subscriptions t) (client_advertised_topics t).
Definition set_subs (m : gmap Z (gmap ConnHandle Sub)) : Tables Sub Pub :=
  mkTables (advertised_topics t) (known_services t) m (client_advertised_topics t).
Definition set_pubs (m : gmap ConnHandle (gmap Z Pub)) : Tables Sub Pub :=
  mkTables (advertised_topics t) (known_services t) (subscriptions t) m.

End Setters.

Definition empty_tables {Sub Pub} : Tables Sub Pub := mkTables ∅ ∅ ∅ ∅.

(** A node with such tables. *)
Class HasTables (W Sub Pub : Type) := {
  tables : W → Tables Sub Pub;
  set_tables : Tables Sub Pub → W → W;
  tables_set t w : tables (set_tables t w) = t;
  set_tables_twice t t' w : set_tables t (set_tables t' w) = set_tables t w;
  set_tables_same w : set_tables (tables w) w = w
}.

Section Access.
Context {W Sub Pub : Type} `{!HasTables W Sub Pub}.

Definition get_table {A} (f : Tables Sub Pub → A) : M W A := get_world (λ w, f (tables w)).
Definition update_tables (f : Tables Sub Pub → Tables Sub Pub) : M W unit :=
  update_world (λ w, set_tables (f (tables w)) w).

(** [map.emplace(key, value)]: an entry that is there stays. *)
Definition emplace_at `{Countable K} {V} (k : K) (v : V) (m : gmap K V) : gmap K V :=
  match m !! k with Some _ => m | None => <[k := v]> m end.

(** The ROS subscription of a client on a channel, and its publisher of a client
    channel. *)
Definition subscription_of (t : Tables Sub Pub) (ch : Z) (hdl : ConnHandle) : option Sub :=
  subscriptions t !! ch ≫= lookup hdl.
Definition publisher_of (t : Tables Sub Pub) (hdl : ConnHandle) (ch : Z) : option Pub :=
  client_advertised_topics t !! hdl ≫= lookup ch.

End Access.

(** [std::find_if] over the values of a map. *)
Definition any_value `{Countable K} {V} (p : V → bool) (m : gmap K V) : bool :=
  existsb (λ e, p e.2) (map_to_list m).

Lemma any_value_spec `{Countable K} {V} (p : V → bool) (m : gmap K V) :
  any_value p m = true ↔ ∃ k v, m !! k = Some v ∧ p v = true.
Proof.
  unfold any_value. rewrite existsb_exists. split.
  - intros ([k v] & Hin & Hp). exists k, v. split; [|done].
    by apply elem_of_map_to_list, list_elem_of_In.
  - intros (k & v & Hkv & Hp). exists (k, v). split; [|done].
    by apply list_elem_of_In, elem_of_map_to_list.
Qed.

Lemma lookup_emplace_at `{Countable K} {V} (k : K) (v : V) (m : gmap K V) i :
  emplace_at k v m !! i = if decide (i = k) then Some (default v (m !! k)) else m !! i.
Proof.
  unfold emplace_at. case_decide as Hi; [subst i|]; destruct (m !! k) eqn:E; simpl; try done.
  - by rewrite lookup_insert_eq.
  - by rewrite lookup_insert_ne.
Qed.

(** Erase a subscription, and the channel's entry when it was the last one. *)
Definition erase_inner `{Countable K1} `{Countable K2} {V} (k1 : K1) (k2 : K2)
    (m : gmap K1 (gmap K2 V)) : gmap K1 (gmap K2 V) :=
  match m !! k1 with
  | None => m
  | Some inner =>
      let inner := delete k2 inner in
      if bool_decide (inner = ∅) then delete k1 m else <[k1 := inner]> m
  end.

Lemma erase_inner_spec `{Countable K1} `{Countable K2} {V} (k1 i : K1) (k2 j : K2)
    (m : gmap K1 (gmap K2 V)) :
  erase_inner k1 k2 m !! i ≫= lookup j =
  if decide (i = k1 ∧ j = k2) then None else m !! i ≫= lookup j.
Proof.
  unfold erase_inner. destruct (m !! k1) as [inner|] eqn:E.
  2:{ case_decide as Hd; [|done]. destruct Hd as [-> ->]. by rewrite E. }
  destruct (decide (i = k1)) as [->|Hi].
  - rewrite E. simpl. case_bool_decide as Hemp.
    + rewrite lookup_delete_eq. simpl. case_decide as Hd; [done|].
      destruct (decide (j = k2)) as [->|Hj]; [naive_solver|].
      rewrite <-(lookup_delete_ne inner k2 j) by done. rewrite Hemp. by rewrite lookup_empty.
    + rewrite lookup_insert_eq. simpl. case_decide as Hd.
      * destruct Hd as [_ ->]. apply lookup_delete_eq.
      * apply lookup_delete_ne. naive_solver.
  - rewrite decide_False by naive_solver.
    case_bool_decide; [by rewrite lookup_delete_ne|by rewrite lookup_insert_ne].
Qed.

(** ** Pieces the two nodes have in common *)

Abbreviation TopicAndDatatype := (string * string)%type.

Definition channel_key (channel : ChannelWithoutId) : TopicAndDatatype :=
  (topic channel, schema_name channel).

Section Pieces.
Context {W Sub Pub : Type} `{!HasTables W Sub Pub}.

(** The loop that erases the channels whose topic is gone, with their
    subscriptions; its result is [channel_ids_to_remove]. *)
Fixpoint remove_stale_channels (latest_topics : gset TopicAndDatatype)
    (entries : list (Z * ChannelWithoutId)) : M W (list Z) :=
  match entries with
  | [] => mret []
  | (channel_id, channel) :: entries =>
      if bool_decide (channel_key channel ∈ latest_topics)
      then remove_stale_channels latest_topics entries
      else
        update_tables (λ t, set_subs t (delete channel_id (subscriptions t)));;
        update_tables (λ t, set_topics t (delete channel_id (advertised_topics t)));;
        ids ← remove_stale_channels latest_topics entries;
        mret (channel_id :: ids)
  end.

(** Whether a topic is advertised with that type. *)
Definition is_advertised (key : TopicAndDatatype) (topics : gmap Z ChannelWithoutId) : bool :=
  any_value (λ channel, bool_decide (channel_key channel = key)) topics.

(** The loop that records the ids of new channels: [channel_ids\[i\]] is undefined
    past the end. *)
Fixpoint register_channels (channel_ids : list Z) (channels : list ChannelWithoutId) : M W unit :=
  match channels, channel_ids with
  | [], _ => mret tt
  | _ :: _, [] => undefined
  | channel :: channels, channel_id :: channel_ids =>
      update_tables (λ t, set_topics t (emplace_at channel_id channel (advertised_topics t)));;
      register_channels channel_ids channels
  end.

(** The ids of the services whose name is not in [names]. *)
Definition stale_services (names : list string) (services : gmap Z ServiceWithoutId) : list Z :=
  fst <$> filter (λ e, service_name e.2 ∉ names) (map_to_list services).

Definition erase_services (service_ids : list Z) : M W unit :=
  for_each service_ids (λ service_id,
    update_tables (λ t, set_known_services t (delete service_id (known_services t)))).

Definition is_known_service (name : string) (services : gmap Z ServiceWithoutId) : bool :=
  any_value (λ service, bool_decide (service_name service = name)) services.

(** The loop runs over [service_ids]: [new_services\[i\]] is undefined past the end. *)
Fixpoint register_services (service_ids : list Z) (services : list ServiceWithoutId) : M W unit :=
  match service_ids, services with
  | [], _ => mret tt
  | _ :: _, [] => undefined
  | service_id :: service_ids, service :: services =>
      update_tables (λ t, set_known_services t
                            (emplace_at service_id service (known_services t)));;
      register_services service_ids services
  end.

End Pieces.
