(* ===== verification/ServerRuns.v ===== *)
(** * Running the methods the bridges call

    What [add_channels], [remove_channels], [add_services] and [remove_services]
    make of the server's members, for any state and any ids (also when the 32-bit
    counters wrap around). *)

From Stdlib Require Import ZArith Lia.
From S2P Require Import Prelude Wire Json Serialization ServerState ServerMethods ServerLogic.
From S2P Require Import ServerInv ServerSpecs.

Local Open Scope Z_scope.

(** A map without some keys, and with entries added where there are none. *)
Definition without {V} (ids : list Z) (m : gmap Z V) : gmap Z V := filter (λ e, e.1 ∉ ids) m.

Definition emplace_all {V} (l : list (Z * V)) (m : gmap Z V) : gmap Z V :=
  foldl (λ m e, match m !! e.1 with Some _ => m | None => <[e.1 := e.2]> m end) m l.

Lemma without_lookup {V} ids (m : gmap Z V) i :
  without ids m !! i = if decide (i ∈ ids) then None else m !! i.
Proof.
  unfold without. apply option_eq. intros v. rewrite map_lookup_filter_Some. simpl.
  case_decide; naive_solver.
Qed.

Lemma without_nil {V} (m : gmap Z V) : without [] m = m.
Proof.
  apply map_eq. intros i. rewrite without_lookup. apply decide_False. apply not_elem_of_nil.
Qed.

Lemma without_cons {V} i ids (m : gmap Z V) : without (i :: ids) m = without ids (delete i m).
Proof.
  apply map_eq. intros j. rewrite !without_lookup.
  destruct (decide (j = i)) as [->|Hj].
  - rewrite decide_True by left. rewrite lookup_delete_eq. by case_decide.
  - rewrite lookup_delete_ne by done. do 2 case_decide; try done; exfalso; set_solver.
Qed.

Lemma without_snoc {V} i ids (m : gmap Z V) : without (ids ++ [i]) m = delete i (without ids m).
Proof.
  apply map_eq. intros j. rewrite without_lookup. destruct (decide (j = i)) as [->|Hj].
  - rewrite lookup_delete_eq. apply decide_True. set_solver.
  - rewrite lookup_delete_ne, without_lookup by done. do 2 case_decide; set_solver.
Qed.

Lemma without_all {V} (m : gmap Z V) : without (map_to_list m).*1 m = ∅.
Proof.
  apply map_eq. intros j. rewrite without_lookup, lookup_empty. case_decide as Hj; [done|].
  apply eq_None_not_Some. intros [v Hv]. apply Hj, list_elem_of_fmap. exists (j, v).
  split; [done|]. by apply elem_of_map_to_list.
Qed.

Section Runs.
Context {W : Type}.
Implicit Types (L : list mutex) (s : St W).

Lemma set_srv_same s : set_srv (srv s) s = s.
Proof. by destruct s. Qed.

Lemma with_lock_run {A} mu (body : M W A) L s :
  mu ∉ L → with_lock mu body L s = body (mu :: L) s.
Proof. intros Hm. unfold with_lock. by rewrite decide_False. Qed.

Lemma bind_run {A B} (m : M W A) (k : A → M W B) L s a s' :
  m L s = (Ret a, s') → (m ≫= k) L s = k a L s'.
Proof. intros E. unfold mbind, M_mbind, M_bind. by rewrite E. Qed.

Lemma bind_get_run {A B} (f : Server → A) (k : A → M W B) L s :
  (get f ≫= k) L s = k (f (srv s)) L s.
Proof. done. Qed.

(** A loop of updates. *)
Lemma for_each_update_run {A} (l : list A) (f : A → Server → Server) L s :
  for_each l (λ x, update (f x)) L s = (Ret tt, set_srv (foldl (λ sv x, f x sv) (srv s) l) s).
Proof.
  revert s. induction l as [|x l IH]; intros s; cbn [for_each foldl].
  - by rewrite set_srv_same.
  - run. by rewrite IH.
Qed.

Lemma delivered_sends n hdl m r : Forall is_send (delivered n hdl m r).
Proof. unfold delivered. destruct (n !! hdl); by repeat constructor. Qed.

Lemma broadcast_sends {A} (l : list A) (f : A → ConnHandle) n m r :
  Forall is_send (l ≫= λ c, delivered n (f c) m r).
Proof. apply Forall_bind, Forall_true. intros. apply delivered_sends. Qed.

(** ** Channels *)

Lemma add_channels_loop_any cs L s :
  ∃ chs n, channel_base <$> chs = cs ∧
    add_channels_loop cs L s =
    (Ret chs, set_srv (set_channels (set_next_channel_id (srv s) n)
       (emplace_all ((λ c, (channel_id c, c)) <$> chs) (_channels (srv s)))) s).
Proof.
  revert s. induction cs as [|c cs IH]; intros s; cbn [add_channels_loop].
  - exists [], (_next_channel_id (srv s)). split; [done|]. simpl. f_equal. by destruct s as [[]].
  - run. edestruct IH as (chs & n & <- & E). rewrite E. run.
    exists ({| channel_id := u32 (_next_channel_id (srv s) + 1); channel_base := c |} :: chs), n.
    split; [done|]. by destruct s as [[]].
Qed.

(** The channels are recorded; the ids are returned when the new channels can be
    dumped. *)
Lemma add_channels_run cs L s :
  channels_mutex ∉ L → clients_mutex ∉ L →
  ∃ chs n sends, channel_base <$> chs = cs ∧ Forall is_send sends ∧
    let s' := set_srv (set_channels (set_next_channel_id (srv s) n)
                (emplace_all ((λ c, (channel_id c, c)) <$> chs) (_channels (srv s)))) s in
    add_channels cs L s =
    match (if is_nil cs then Ret JNull else dump (advertise_json chs)) with
    | Ret _ => (Ret (channel_id <$> chs), add_trace sends s')
    | Throw e => (Throw e, s')
    | Undefined => (Undefined, s')
    end.
Proof.
  intros H1 H2. unfold add_channels. destruct cs as [|c cs].
  { exists [], (_next_channel_id (srv s)), []. split_and!; [done..|].
    rewrite add_trace_nil. simpl. unfold mret, M_mret, M_ret. f_equal. by destruct s as [[]]. }
  destruct (add_channels_loop_any (c :: cs) (channels_mutex :: L) s) as (chs & n & Hb & E).
  eexists chs, n, _. split_and!; [done| |].
  2:{ unfold mbind at 1, M_mbind, M_bind. rewrite with_lock_run, E by done. cbn [is_nil].
      unfold dump. destruct (dumps (advertise_json chs)); run; [|done].
      rewrite with_lock_run by done. rewrite broadcast_run. reflexivity. }
  apply broadcast_sends.
Qed.

Lemma add_channels_any cs L s :
  channels_mutex ∉ L → clients_mutex ∉ L → Forall (λ c, channel_text c = true) cs →
  ∃ chs n sends, channel_base <$> chs = cs ∧ Forall is_send sends ∧
    add_channels cs L s =
    (Ret (channel_id <$> chs), add_trace sends
       (set_srv (set_channels (set_next_channel_id (srv s) n)
          (emplace_all ((λ c, (channel_id c, c)) <$> chs) (_channels (srv s)))) s)).
Proof.
  intros H1 H2 Ht. destruct (add_channels_run cs L s H1 H2) as (chs & n & sends & Hb & Hs & ->).
  exists chs, n, sends. split_and!; [done..|].
  rewrite dump_advertise; [by destruct cs|]. rewrite <-Hb in Ht. by apply Forall_fmap in Ht.
Qed.

Lemma number_channels_NoDup m cs : NoDup (channel_id <$> number_channels m cs).
Proof.
  revert m. induction cs as [|c cs IH]; intros m; simpl; [constructor|]. apply NoDup_cons.
  split; [|apply IH]. intros ?%number_channels_ids. lia.
Qed.

(** While the counter does not wrap around, the ids are new. *)
Lemma add_channels_fresh cs L s ids s' :
  channels_mutex ∉ L → clients_mutex ∉ L →
  ids_below_next (srv s) → _next_channel_id (srv s) + Z.of_nat (length cs) < 2 ^ 32 →
  add_channels cs L s = (Ret ids, s') →
  ids = channel_id <$> number_channels (_next_channel_id (srv s)) cs ∧
  ids_below_next (srv s').
Proof.
  intros H1 H2 Hids Hb. unfold add_channels. destruct cs as [|c cs]; [by intros [= <- <-]|].
  erewrite bind_run by (rewrite with_lock_run by done; by apply add_channels_loop_run).
  unfold dump. destruct (dumps _); [|done]. erewrite bind_run by reflexivity.
  erewrite bind_run by (rewrite with_lock_run by done; apply broadcast_run).
  intros [= <- <-]. split; [done|]. by apply with_channels_ids.
Qed.

Definition unsubscribe_from (ids : list Z) (c : ClientInfo) : ClientInfo :=
  set_subscriptions (without ids (subscriptions_by_channel c)) c.

Lemma set_clients_twice sv m m' : set_clients (set_clients sv m) m' = set_clients sv m'.
Proof. done. Qed.

Lemma unsubscribe_client_run ids h L s :
  for_each ids (λ id, update_client h
    (λ c, set_subscriptions (delete id (subscriptions_by_channel c)) c)) L s =
  (Ret tt, set_srv (set_clients (srv s) (alter (unsubscribe_from ids) h (_clients (srv s)))) s).
Proof.
  unfold update_client. rewrite for_each_update_run. do 2 f_equal.
  generalize (srv s) as sv. induction ids as [|i ids IH]; intros sv; cbn [foldl].
  - rewrite <-(set_clients_same sv) at 1. f_equal. apply map_eq. intros h'.
    destruct (decide (h = h')) as [->|]; [|by rewrite lookup_alter_ne]. rewrite lookup_alter_eq.
    destruct (_clients sv !! h') as [c|]; [|done]. simpl. f_equal. unfold unsubscribe_from.
    rewrite without_nil. by destruct c.
  - rewrite IH. simpl. rewrite set_clients_twice. f_equal. apply map_eq. intros h'.
    destruct (decide (h = h')) as [->|]; [|by rewrite !lookup_alter_ne].
    rewrite !lookup_alter_eq. destruct (_clients sv !! h'); [|done]. simpl. f_equal. unfold unsubscribe_from. simpl. by rewrite without_cons.
Qed.

(** The loop over the clients. *)
Lemma unsubscribe_clients_run ids (l : list (ConnHandle * ClientInfo)) j L s :
  NoDup l.*1 →
  ∃ sends, Forall is_send sends ∧
    for_each l (λ client,
      for_each ids (λ id, update_client client.1
        (λ c, set_subscriptions (delete id (subscriptions_by_channel c)) c));;
      send_raw_json client.1 j true) L s =
    (Ret tt, add_trace sends (set_srv (set_clients (srv s)
       (map_imap (λ h c, Some (if decide (h ∈ l.*1) then unsubscribe_from ids c else c))
          (_clients (srv s)))) s)).
Proof.
  revert s. induction l as [|[h c0] l IH]; intros s Hnd; cbn [for_each].
  - exists []. split; [done|]. rewrite add_trace_nil. unfold mret, M_mret, M_ret. f_equal.
    destruct s as [sv n t w]. unfold set_srv. simpl. f_equal.
    rewrite <-(set_clients_same sv) at 1. f_equal. apply map_eq. intros h.
    rewrite map_lookup_imap. by destruct (_clients sv !! h).
  - rewrite fmap_cons in Hnd. apply NoDup_cons in Hnd as [Hh Hnd]. cbn [fst] in *.
    unfold mbind, M_mbind, M_bind. rewrite unsubscribe_client_run, send_raw_json_run.
    lazymatch goal with |- context [for_each l _ L ?s1] =>
      destruct (IH s1 Hnd) as (sends & Hs & E) end.
    unfold mbind, M_mbind, M_bind in E. rewrite E.
    eexists (delivered _ _ _ _ ++ sends). split.
    { apply Forall_app. split; [apply delivered_sends|done]. }
    f_equal. unfold add_trace, set_srv. simpl. rewrite app_assoc, set_clients_twice. do 2 f_equal.
    apply map_eq. intros h'. rewrite !map_lookup_imap.
    destruct (decide (h = h')) as [<-|]; [rewrite lookup_alter_eq|rewrite lookup_alter_ne by done].
    + destruct (_clients (srv s) !! h); simpl; [|done].
      rewrite decide_False by done. by rewrite decide_True by left.
    + destruct (_clients (srv s) !! h'); simpl; [|done]. f_equal.
      do 2 case_decide; try done; exfalso; set_solver.
Qed.

Lemma remove_channels_any ids L s :
  channels_mutex ∉ L → clients_mutex ∉ L →
  ∃ sends, Forall is_send sends ∧
    remove_channels ids L s =
    (Ret tt, add_trace sends (set_srv (set_clients (set_channels (srv s)
       (without ids (_channels (srv s)))) (unsubscribe_from ids <$> _clients (srv s))) s)).
Proof.
  intros H1 H2. unfold remove_channels. destruct ids as [|i ids].
  { exists []. split; [done|]. rewrite add_trace_nil. unfold mret, M_mret, M_ret. f_equal.
    destruct s as [[] ? ? ?]. unfold set_srv. simpl. f_equal. unfold set_clients, set_channels. simpl.
    rewrite without_nil. f_equal. rewrite <-(map_fmap_id _clients) at 1. apply map_fmap_ext.
    intros h c _. unfold unsubscribe_from. rewrite without_nil. by destruct c. }
  set (ids' := i :: ids). erewrite bind_run; [|rewrite with_lock_run by done; apply for_each_update_run].
  assert (∀ sv, foldl (λ sv x, set_channels sv (delete x (_channels sv))) sv ids' =
                set_channels sv (without ids' (_channels sv))) as E.
  { generalize ids'. clear. intros l. induction l as [|x l IH]; intros sv; simpl.
    - rewrite without_nil. by destruct sv.
    - rewrite IH. simpl. by rewrite without_cons. }
  rewrite E, dump_unadvertise. erewrite bind_run by reflexivity.
  rewrite with_lock_run by done. rewrite bind_get_run.
  edestruct (unsubscribe_clients_run ids' (map_to_list (_clients (srv s)))) as (sends & Hs & Er).
  { apply NoDup_fst_map_to_list. }
  exists sends. split; [done|]. rewrite Er. do 2 f_equal. unfold set_srv. simpl.
  do 2 f_equal. apply map_eq. intros h. rewrite map_lookup_imap, lookup_fmap.
  destruct (_clients (srv s) !! h) as [c|] eqn:Hc; simpl; [|done].
  rewrite decide_True; [done|]. apply list_elem_of_fmap. exists (h, c). split; [done|].
  by apply elem_of_map_to_list.
Qed.

(** ** Services *)

Lemma add_services_loop_any ss L s :
  ∃ svs n, service_base <$> svs = ss ∧
    add_services_loop ss L s =
    (Ret svs, set_srv (set_services (set_nextService_id (srv s) n)
       (emplace_all ((λ v, (svc_id v, service_base v)) <$> svs) (_services (srv s)))) s).
Proof.
  revert s. induction ss as [|v ss IH]; intros s; cbn [add_services_loop].
  - exists [], (_nextService_id (srv s)). split; [done|]. simpl. f_equal. by destruct s as [[]].
  - run. edestruct IH as (svs & n & <- & E). rewrite E. run.
    exists ({| service_base := v; svc_id := u32 (_nextService_id (srv s) + 1) |} :: svs), n.
    split; [done|]. by destruct s as [[]].
Qed.

Lemma add_services_run ss L s :
  services_mutex ∉ L → clients_mutex ∉ L →
  ∃ svs n sends, service_base <$> svs = ss ∧ Forall is_send sends ∧
    let s' := set_srv (set_services (set_nextService_id (srv s) n)
                (emplace_all ((λ v, (svc_id v, service_base v)) <$> svs) (_services (srv s)))) s in
    add_services ss L s =
    match (if is_nil ss then Ret JNull else dump (advertise_services_json svs)) with
    | Ret _ => (Ret (svc_id <$> svs), add_trace sends s')
    | Throw e => (Throw e, s')
    | Undefined => (Undefined, s')
    end.
Proof.
  intros H1 H2. unfold add_services. destruct ss as [|v ss].
  { exists [], (_nextService_id (srv s)), []. split_and!; [done..|].
    rewrite add_trace_nil. simpl. unfold mret, M_mret, M_ret. f_equal. by destruct s as [[]]. }
  destruct (add_services_loop_any (v :: ss) (services_mutex :: L) s) as (svs & n & Hb & E).
  eexists svs, n, _. split_and!; [done| |].
  2:{ rewrite with_lock_run by done. erewrite bind_run by exact E. cbn [is_nil].
      unfold dump. destruct (dumps (advertise_services_json svs)); [|done].
      erewrite bind_run by reflexivity.
      erewrite bind_run; [|rewrite with_lock_run by set_solver; apply broadcast_run].
      reflexivity. }
  apply broadcast_sends.
Qed.

Lemma add_services_any ss L s :
  services_mutex ∉ L → clients_mutex ∉ L → Forall (λ v, service_text v = true) ss →
  ∃ svs n sends, service_base <$> svs = ss ∧ Forall is_send sends ∧
    add_services ss L s =
    (Ret (svc_id <$> svs), add_trace sends
       (set_srv (set_services (set_nextService_id (srv s) n)
          (emplace_all ((λ v, (svc_id v, service_base v)) <$> svs) (_services (srv s)))) s)).
Proof.
  intros H1 H2 Ht. destruct (add_services_run ss L s H1 H2) as (svs & n & sends & Hb & Hs & ->).
  exists svs, n, sends. split_and!; [done..|].
  rewrite dump_advertise_services; [by destruct ss|]. rewrite <-Hb in Ht. by apply Forall_fmap in Ht.
Qed.

Lemma remove_services_loop_any ids L s :
  ∃ removed, remove_services_loop ids L s =
    (Ret removed, set_srv (set_services (srv s) (without ids (_services (srv s)))) s).
Proof.
  revert s. induction ids as [|i ids IH]; intros s; cbn [remove_services_loop].
  - exists []. rewrite without_nil. by destruct s as [[]].
  - rewrite bind_get_run. destruct (_services (srv s) !! i) eqn:Hi.
    + run. edestruct IH as (removed & E). rewrite E. run. eexists.
      unfold set_srv. simpl. by rewrite without_cons.
    + destruct (IH s) as (removed & ->). exists removed.
      by rewrite without_cons, delete_id by done.
Qed.

Lemma remove_services_any ids L s :
  services_mutex ∉ L → clients_mutex ∉ L →
  ∃ sends, Forall is_send sends ∧
    remove_services ids L s =
    (Ret tt, add_trace sends
       (set_srv (set_services (srv s) (without ids (_services (srv s)))) s)).
Proof.
  intros H1 H2. unfold remove_services. rewrite with_lock_run by done.
  destruct (remove_services_loop_any ids (services_mutex :: L) s) as (removed & E).
  erewrite bind_run by exact E. destruct removed as [|r removed].
  { exists []. by rewrite add_trace_nil. }
  rewrite dump_unadvertise_services. erewrite bind_run by reflexivity.
  eexists. split; [|rewrite with_lock_run by set_solver; apply broadcast_run].
  apply broadcast_sends.
Qed.

(** ** Properties kept by a run with no lock held *)

Definition keeps {A} (P : St W → Prop) (m : M W A) : Prop :=
  ∀ s, P s → (m [] s).1 ≠ Undefined → P (m [] s).2.

Context (P : St W → Prop).

Lemma keeps_preserves {A} (m : M W A) : preserves P m → keeps P m.
Proof. intros Hm s. by apply (proj1 (preserves_state _ _) Hm). Qed.

Lemma keeps_bind {A B} (m : M W A) (k : A → M W B) :
  keeps P m → (∀ a, keeps P (k a)) → keeps P (m ≫= k).
Proof.
  intros Hm Hk s Hs. specialize (Hm s Hs). unfold mbind, M_mbind, M_bind.
  destruct (m [] s) as [[a|e|] s']; simpl in *; intros; [by apply Hk; [apply Hm|]|by apply Hm|done].
Qed.

Lemma keeps_try_catch {A} (m : M W A) h :
  keeps P m → (∀ e, keeps P (h e)) → keeps P (try_catch m h).
Proof.
  intros Hm Hh s Hs. specialize (Hm s Hs). unfold try_catch.
  destruct (m [] s) as [[a|e|] s']; simpl in *; intros; [by apply Hm|by apply Hh; [apply Hm|]|done].
Qed.

End Runs.
