(* ===== verification/BridgeSync.v ===== *)
(** * A bridge and the server agree

    The server and a bridge node keep separate records of the same things: the
    channels and services that are advertised, who is subscribed to what, and what
    each client publishes.  [sync] says that the records agree; the class
    [BridgeHandlers] is the contract under which a node's handlers keep it; the
    lemmas show that every entry point of the server keeps it when its handlers
    honour the contract. *)

From Stdlib Require Import ZArith Lia.
From S2P Require Import Prelude Wire Json Serialization ServerState ServerMethods ServerLogic.
From S2P Require Import ServerInv ServerSync ServerSystem ServerSpecs ServerDefined.
From S2P Require Import BridgeTables ServerRuns.

Local Open Scope Z_scope.

(** Two tables with the same content: entries of clients and channels that hold
    nothing are not seen. *)
#[export] Instance tables_equiv {Sub Pub} : Equiv (Tables Sub Pub) := λ t t',
  advertised_topics t = advertised_topics t' ∧ known_services t = known_services t' ∧
  (∀ ch hdl, subscription_of t ch hdl = subscription_of t' ch hdl) ∧
  (∀ hdl ch, publisher_of t hdl ch = publisher_of t' hdl ch).

#[export] Instance tables_equivalence {Sub Pub} : Equivalence (≡@{Tables Sub Pub}).
Proof.
  split.
  - by intros t.
  - intros t t' (? & ? & ? & ?). by split_and!; intros.
  - intros t t' t'' (Ht & Hv & Hs & Hp) (Ht' & Hv' & Hs' & Hp').
    split_and!; [congruence..| |]; intros; by rewrite ?Hs, ?Hp.
Qed.

(** When a subscription object is on a channel, and a publisher object for an
    advertisement. *)
Class BridgeKind (Sub Pub : Type) := {
  sub_on : Sub → ChannelWithoutId → Prop;
  pub_on : Pub → ClientAdvertisement → Prop
}.

(** The id under which the server has a client's subscription to a channel. *)
Definition server_sub (sv : Server) (hdl : ConnHandle) (ch : Z) : option Z :=
  _clients sv !! hdl ≫= λ c, subscriptions_by_channel c !! ch.

Section Sync.
Context {Sub Pub : Type} `{!BridgeKind Sub Pub}.
Implicit Types t : Tables Sub Pub.

Record tables_ok t : Prop := {
  (** only advertised channels are subscribed *)
  ok_subs ch : is_Some (subscriptions t !! ch) → is_Some (advertised_topics t !! ch);
  (** a subscription is on the topic of its channel *)
  ok_sub_on ch hdl sub : subscription_of t ch hdl = Some sub →
    ∃ channel, advertised_topics t !! ch = Some channel ∧ sub_on sub channel;
  (** a topic is advertised once for each of its types, a service once *)
  ok_keys i j a b : advertised_topics t !! i = Some a → advertised_topics t !! j = Some b →
    channel_key a = channel_key b → i = j;
  ok_names i j a b : known_services t !! i = Some a → known_services t !! j = Some b →
    service_name a = service_name b → i = j
}.

Record synced (sv : Server) t : Prop := {
  sync_channels id : channel_base <$> _channels sv !! id = advertised_topics t !! id;
  sync_services : _services sv = known_services t;
  sync_subs hdl ch : is_Some (subscription_of t ch hdl) ↔ is_Some (server_sub sv hdl ch);
  sync_pubs hdl ch adv : publications sv hdl !! ch = Some adv →
    ∃ p, publisher_of t hdl ch = Some p ∧ pub_on p adv
}.

Lemma synced_server sv sv' t :
  _channels sv' = _channels sv → _services sv' = _services sv →
  (∀ hdl ch, server_sub sv' hdl ch = server_sub sv hdl ch) →
  (∀ hdl, publications sv' hdl = publications sv hdl) →
  synced sv t → synced sv' t.
Proof.
  intros Hc Hv Hs Hp [? ? ? ?]. split; [by rewrite Hc|by rewrite Hv| |].
  - intros. by rewrite Hs.
  - intros hdl ch adv. rewrite Hp. eauto.
Qed.

#[export] Instance synced_proper : Proper ((=) ==> (≡) ==> (↔)) synced.
Proof.
  assert (∀ sv t t', t ≡ t' → synced sv t → synced sv t') as Himp.
  { intros sv t t' (Ht & Hv & Hs & Hp) [? ? ? ?]. split.
    - by rewrite <-Ht.
    - by rewrite <-Hv.
    - intros. by rewrite <-Hs.
    - intros hdl ch adv. rewrite <-Hp. eauto. }
  intros sv ? <- t t' Ht. split; by apply Himp.
Qed.

Lemma empty_tables_ok : tables_ok (empty_tables (Sub:=Sub) (Pub:=Pub)).
Proof.
  split; simpl; unfold subscription_of; simpl; intros *; rewrite ?lookup_empty; done.
Qed.

Lemma new_server_synced name options :
  synced (new_Server name options) (empty_tables (Sub:=Sub) (Pub:=Pub)).
Proof.
  split; simpl; intros *.
  - by rewrite !lookup_empty.
  - done.
  - unfold subscription_of, server_sub. simpl. by rewrite !lookup_empty, !is_Some_alt.
  - unfold publications. simpl. by rewrite !lookup_empty.
Qed.

(** What a handler did to the tables. *)
Definition sub_written (ch : Z) (hdl : ConnHandle) (o : option Sub) t t' : Prop :=
  advertised_topics t' = advertised_topics t ∧ known_services t' = known_services t ∧
  (∀ ch' hdl', subscription_of t' ch' hdl' =
     if decide (ch' = ch ∧ hdl' = hdl) then o else subscription_of t ch' hdl') ∧
  (∀ hdl' ch', publisher_of t' hdl' ch' = publisher_of t hdl' ch').

Definition pub_written (hdl : ConnHandle) (ch : Z) (o : option Pub) t t' : Prop :=
  advertised_topics t' = advertised_topics t ∧ known_services t' = known_services t ∧
  (∀ ch' hdl', subscription_of t' ch' hdl' = subscription_of t ch' hdl') ∧
  (∀ hdl' ch', publisher_of t' hdl' ch' =
     if decide (hdl' = hdl ∧ ch' = ch) then o else publisher_of t hdl' ch').

(** The contract of a handler, by the call and whether it returned. *)
Definition handler_effect (c : handler_call) (returned : bool) t t' : Prop :=
  match c, returned with
  | CallSubscribe ch hdl, true =>
      subscription_of t ch hdl = None ∧ ∃ sub, sub_written ch hdl (Some sub) t t'
  | CallUnsubscribe ch hdl, true => sub_written ch hdl None t t'
  | CallUnsubscribe ch hdl, false => t' ≡ t ∧ subscription_of t ch hdl = None
  | CallClientAdvertise adv hdl, true =>
      publisher_of t hdl (adv_channel_id adv) = None ∧
      ∃ p, pub_on p adv ∧ pub_written hdl (adv_channel_id adv) (Some p) t t'
  | CallClientUnadvertise ch hdl, true => pub_written hdl ch None t t'
  | _, _ => t' ≡ t
  end.

(** ** Changes of the tables *)

(** Adding an empty entry is not seen. *)
Lemma emplace_empty_equiv t ch :
  set_subs t (emplace_at ch ∅ (subscriptions t)) ≡ t.
Proof.
  split_and!; [done..| |done]. intros i hdl. unfold subscription_of. simpl.
  rewrite lookup_emplace_at. case_decide; [subst|done].
  destruct (subscriptions t !! ch); simpl; [done|]. by rewrite lookup_empty.
Qed.

Lemma emplace_empty_ok t ch :
  tables_ok t → is_Some (advertised_topics t !! ch) →
  tables_ok (set_subs t (emplace_at ch ∅ (subscriptions t))).
Proof.
  intros [Hs Ho Hk Hn] Hch. pose proof (emplace_empty_equiv t ch) as (_ & _ & Heq & _).
  split; [|intros i hdl sub; rewrite Heq; apply Ho|done..].
  intros i. simpl. rewrite lookup_emplace_at. case_decide; [by subst|apply Hs].
Qed.

(** Adding a subscription to a channel that has an entry. *)
Lemma add_sub_written t ch hdl sub :
  is_Some (subscriptions t !! ch) → subscription_of t ch hdl = None →
  sub_written ch hdl (Some sub) t
    (set_subs t (alter (emplace_at hdl sub) ch (subscriptions t))).
Proof.
  intros [m Hm] Hn. unfold subscription_of in *. rewrite Hm in Hn. simpl in Hn.
  split_and!; [done..| |done]. intros i h. unfold subscription_of. simpl.
  destruct (decide (ch = i)) as [<-|Hi].
  - rewrite lookup_alter_eq, Hm. simpl. rewrite lookup_emplace_at. case_decide as Hd.
    + subst h. rewrite decide_True by done. by rewrite Hn.
    + by rewrite decide_False by naive_solver.
  - rewrite lookup_alter_ne by done. by rewrite decide_False by naive_solver.
Qed.

Lemma add_sub_ok t ch hdl sub channel :
  tables_ok t → advertised_topics t !! ch = Some channel → sub_on sub channel →
  is_Some (subscriptions t !! ch) → subscription_of t ch hdl = None →
  tables_ok (set_subs t (alter (emplace_at hdl sub) ch (subscriptions t))).
Proof.
  intros Hok Hch Hon Hin Hn. pose proof (add_sub_written t ch hdl sub Hin Hn) as (_ & _ & Hw & _).
  destruct Hok as [Hs Ho Hk Hn']. split; [| |done..].
  - intros i. simpl. rewrite lookup_alter_is_Some. apply Hs.
  - intros i h sub'. rewrite Hw. case_decide as Hd; [|apply Ho].
    destruct Hd as [-> ->]. intros [= <-]. by exists channel.
Qed.

Lemma sub_written_equiv ch hdl o t0 t t' :
  t ≡ t0 → sub_written ch hdl o t t' → sub_written ch hdl o t0 t'.
Proof.
  intros (Ht & Hk & Hs & Hp) (Ht' & Hk' & Hs' & Hp'). split_and!; [congruence..| |].
  - intros. rewrite Hs'. by rewrite Hs.
  - intros. by rewrite Hp', Hp.
Qed.

(** The guard of [subscribe], after the entry of the channel was made. *)
Lemma not_subscribed_yet t ch hdl :
  negb (bool_decide (subscriptions t !! ch = None)) &&
  bool_decide (is_Some (subscription_of (set_subs t (emplace_at ch ∅ (subscriptions t))) ch hdl)) =
    false →
  subscription_of t ch hdl = None.
Proof.
  intros [Hif|Hif]%andb_false_iff.
  - apply negb_false_iff, bool_decide_eq_true in Hif. unfold subscription_of. by rewrite Hif.
  - apply bool_decide_eq_false, eq_None_not_Some in Hif.
    by destruct (emplace_empty_equiv t ch) as (_ & _ & <- & _).
Qed.

(** A subscription object for a client that has none. *)
Lemma subscribed_effect t ch hdl sub channel :
  tables_ok t → advertised_topics t !! ch = Some channel → sub_on sub channel →
  subscription_of t ch hdl = None →
  let t' := set_subs t (alter (emplace_at hdl sub) ch (emplace_at ch ∅ (subscriptions t))) in
  tables_ok t' ∧ handler_effect (CallSubscribe ch hdl) true t t'.
Proof.
  intros Hok Hch Hon Hnone. set (t1 := set_subs t (emplace_at ch ∅ (subscriptions t))).
  pose proof (emplace_empty_equiv t ch) as Heq. fold t1 in Heq.
  assert (is_Some (subscriptions t1 !! ch)) as Hin
    by (simpl; rewrite lookup_emplace_at, decide_True by done; by eexists).
  assert (subscription_of t1 ch hdl = None) as Hnone1 by (destruct Heq as (_ & _ & -> & _); done).
  assert (tables_ok t1) as Hok1 by (by apply emplace_empty_ok).
  split; [by apply (add_sub_ok t1 ch hdl sub channel)|]. split; [done|]. exists sub.
  eapply sub_written_equiv; [exact Heq|by apply (add_sub_written t1)].
Qed.

Lemma not_advertised_unsubscribed t ch hdl :
  tables_ok t → advertised_topics t !! ch = None → subscription_of t ch hdl = None.
Proof.
  intros Hok Hch. unfold subscription_of. destruct (subscriptions t !! ch) eqn:Hs; simpl; [|done].
  destruct (ok_subs _ Hok ch); [by eexists|congruence].
Qed.

(** Erasing a subscription. *)
Lemma erase_sub_written t ch hdl :
  sub_written ch hdl None t (set_subs t (erase_inner ch hdl (subscriptions t))).
Proof.
  split_and!; [done..| |done]. intros i h. unfold subscription_of. simpl. apply erase_inner_spec.
Qed.

Lemma erase_sub_ok t ch hdl :
  tables_ok t → tables_ok (set_subs t (erase_inner ch hdl (subscriptions t))).
Proof.
  intros [Hs Ho Hk Hn]. pose proof (erase_sub_written t ch hdl) as (_ & _ & Hw & _).
  split; [| |done..].
  - intros i. simpl. unfold erase_inner. destruct (subscriptions t !! ch) as [m|] eqn:E; [|apply Hs].
    intros Hi. apply Hs. revert Hi.
    case_bool_decide; [intros [? [_ ?]%lookup_delete_Some]; by eexists|].
    destruct (decide (ch = i)) as [<-|]; [by rewrite E|by rewrite lookup_insert_ne].
  - intros i h sub. rewrite Hw. case_decide; [done|apply Ho].
Qed.

(** Publications are in no invariant of the tables. *)
Lemma set_pubs_ok t m : tables_ok t → tables_ok (set_pubs t m).
Proof. intros []. by split. Qed.

Lemma emplace_empty_pubs_equiv t hdl :
  set_pubs t (emplace_at hdl ∅ (client_advertised_topics t)) ≡ t.
Proof.
  split_and!; [done..|]. intros h i. unfold publisher_of. simpl. rewrite lookup_emplace_at.
  case_decide; [subst|done]. destruct (client_advertised_topics t !! hdl); simpl; [done|].
  by rewrite lookup_empty.
Qed.

(** The guard of [client_advertise], after the entry of the client was made. *)
Lemma not_advertised_yet t hdl ch :
  negb (bool_decide (client_advertised_topics t !! hdl = None)) &&
  bool_decide (is_Some (publisher_of
    (set_pubs t (emplace_at hdl ∅ (client_advertised_topics t))) hdl ch)) = false →
  publisher_of t hdl ch = None.
Proof.
  intros [Hif|Hif]%andb_false_iff.
  - apply negb_false_iff, bool_decide_eq_true in Hif. unfold publisher_of. by rewrite Hif.
  - apply bool_decide_eq_false, eq_None_not_Some in Hif.
    by destruct (emplace_empty_pubs_equiv t hdl) as (_ & _ & _ & <-).
Qed.

(** Adding a publisher, after the entry of the client. *)
Lemma add_pub_written t hdl ch p :
  publisher_of t hdl ch = None →
  pub_written hdl ch (Some p) t
    (set_pubs t (alter (emplace_at ch p) hdl (emplace_at hdl ∅ (client_advertised_topics t)))).
Proof.
  intros Hnone. split_and!; [done..|]. intros h i. unfold publisher_of in *. simpl.
  destruct (decide (hdl = h)) as [<-|Hh].
  - rewrite lookup_alter_eq, lookup_emplace_at, decide_True by done. simpl.
    rewrite lookup_emplace_at. destruct (decide (i = ch)) as [->|Hi].
    + rewrite decide_True by done.
      destruct (client_advertised_topics t !! hdl); simpl in *; [by rewrite Hnone|].
      by rewrite lookup_empty.
    + rewrite decide_False by naive_solver.
      destruct (client_advertised_topics t !! hdl); simpl; [done|]. by rewrite lookup_empty.
  - rewrite lookup_alter_ne, lookup_emplace_at by done. by rewrite !decide_False by naive_solver.
Qed.

Lemma erase_pub_written t hdl ch :
  pub_written hdl ch None t (set_pubs t (erase_inner hdl ch (client_advertised_topics t))).
Proof. split_and!; [done..|]. intros h i. unfold publisher_of. simpl. apply erase_inner_spec. Qed.

Context {W : Type} `{!HasTables W Sub Pub}.
Implicit Types s : St W.

Definition sync s : Prop := tables_ok (tables (world s)) ∧ synced (srv s) (tables (world s)).

(** The outcome of a handler and the tables it leaves. *)
Definition effect_ok (c : handler_call) t (r : outcome unit * St W) : Prop :=
  match r with
  | (Ret _, s') => tables_ok (tables (world s')) ∧ handler_effect c true t (tables (world s'))
  | (Throw _, s') => tables_ok (tables (world s')) ∧ handler_effect c false t (tables (world s'))
  | (Undefined, _) => True
  end.

Class BridgeHandlers (H : ServerHandlers W) := {
  bridge_frame :: HandlersFrame H;
  bridge_unsubscribe : is_Some (unsubscribe_handler H);
  bridge_effect c body L s : handler_body H c = Some body → tables_ok (tables (world s)) →
    effect_ok c (tables (world s)) (body L s)
}.

#[export] Instance sync_send_stable : SendStable sync.
Proof. by intros s hdl m r. Qed.

(** *** Updates of the server that are not seen *)

Lemma sync_update f :
  (∀ sv, _channels (f sv) = _channels sv) → (∀ sv, _services (f sv) = _services sv) →
  (∀ sv hdl ch, server_sub (f sv) hdl ch = server_sub sv hdl ch) →
  (∀ sv hdl, publications (f sv) hdl = publications sv hdl) →
  preserves sync (update f).
Proof.
  intros Hc Hv Hs Hp. apply preserves_update. intros s [Hok Hsy]. split; [done|].
  by apply (synced_server (srv s)); simpl.
Qed.

Lemma server_sub_alter sv hdl f h ch :
  (∀ c, subscriptions_by_channel (f c) = subscriptions_by_channel c) →
  server_sub (set_clients sv (alter f hdl (_clients sv))) h ch = server_sub sv h ch.
Proof.
  intros Hf. unfold server_sub. simpl. destruct (decide (hdl = h)) as [->|].
  - rewrite lookup_alter_eq. destruct (_clients sv !! h); simpl; [|done]. by rewrite Hf.
  - by rewrite lookup_alter_ne.
Qed.

Lemma sync_update_client hdl f :
  (∀ c, subscriptions_by_channel (f c) = subscriptions_by_channel c) →
  preserves sync (update_client hdl f).
Proof. intros Hf. apply sync_update; try done. intros. by apply server_sub_alter. Qed.

(** *** Calls *)

(** The call changes nothing the server's records are about. *)
Definition quiet (c : handler_call) : bool :=
  match c with
  | CallSubscribe _ _ | CallUnsubscribe _ _ | CallClientAdvertise _ _
  | CallClientUnadvertise _ _ => false
  | _ => true
  end.

(** The node's tables are [t]. *)
Definition has_tables t s : Prop := tables (world s) = t.

#[export] Instance has_tables_send_stable t : SendStable (has_tables t).
Proof. by intros s. Qed.

Lemma tables_update_world t f :
  (∀ w, tables (f w) = tables w) → preserves (has_tables t) (update_world f).
Proof. intros Hf. apply triple_update_world. intros s <-. apply Hf. Qed.

(** A quiet handler that leaves the tables alone honours the contract. *)
Lemma quiet_effect c (body : M W unit) L s :
  quiet c = true → tables_ok (tables (world s)) → (∀ t, preserves (has_tables t) body) →
  effect_ok c (tables (world s)) (body L s).
Proof.
  intros Hq Hok Hb. specialize (Hb (tables (world s)) L s eq_refl). unfold effect_ok.
  destruct (body L s) as [[u|e|] s']; [..|done]; unfold has_tables in Hb; rewrite Hb;
    (split; [done|]); by destruct c.
Qed.

Section Requests.
Context {plat : Platform} (H : ServerHandlers W) `{!BridgeHandlers H}.

Lemma synced_frame s s' t : handler_frame s s' → synced (srv s) t → synced (srv s') t.
Proof.
  intros (_ & (p & q & r & ->) & _). by apply synced_server.
Qed.

(** The members the server's records consist of are the same. *)
Definition same_records (s s' : St W) : Prop :=
  _channels (srv s') = _channels (srv s) ∧ _services (srv s') = _services (srv s) ∧
  _clients (srv s') = _clients (srv s) ∧ _client_channels (srv s') = _client_channels (srv s).

Lemma triple_bridge_call c (P Q E : St W → Prop) :
  (∀ s, P s → tables_ok (tables (world s))) →
  (∀ s s', P s → same_records s s' → tables_ok (tables (world s')) →
     handler_effect c true (tables (world s)) (tables (world s')) → Q s') →
  (∀ s s', P s → same_records s s' → tables_ok (tables (world s')) →
     handler_effect c false (tables (world s)) (tables (world s')) → E s') →
  (∀ s, P s → handler_body H c = None → E s) →
  triple P (call H c) (λ _, Q) E.
Proof.
  intros Hok HQ HE Hn L s HP. unfold call. destruct (handler_body H c) as [body|] eqn:Eb.
  2:{ simpl. auto. }
  run. set (s1 := mkSt (srv s) (net s) (trace s ++ [Call c]) (world s)).
  pose proof (bridge_effect c body L s1 Eb (Hok s HP)) as He. unfold effect_ok in He.
  pose proof (handlers_frame c body L s1 Eb) as (_ & (p & q & r & Hf) & _).
  destruct (body L s1) as [[[]|e|] s'] eqn:Er; [|..|done]; destruct He as [Hok' He];
    [apply (HQ s)|apply (HE s)]; try done; simpl in Hf; unfold same_records; by rewrite Hf.
Qed.

Lemma synced_records s s' t t' :
  same_records s s' → t' ≡ t → synced (srv s) t → synced (srv s') t'.
Proof.
  intros (Hc & Hv & Hcl & Hcc) Ht Hs. rewrite Ht. eapply synced_server; [done..| | |done].
  - intros. unfold server_sub. by rewrite Hcl.
  - intros. unfold publications. by rewrite Hcc.
Qed.

Lemma handler_effect_quiet c b t t' : quiet c = true → handler_effect c b t t' → t' ≡ t.
Proof. by destruct c, b. Qed.

Lemma sync_call c : quiet c = true → preserves sync (call H c).
Proof.
  intros Hq. apply triple_bridge_call; try (by intros s []); try done;
    intros s s' [_ Hs] Hr Hok He; (split; [done|]);
    apply (synced_records s s' (tables (world s))); try done; by eapply handler_effect_quiet.
Qed.

(** *** Subscribing *)

Definition with_client (hdl : ConnHandle) s : Prop := sync s ∧ is_Some (_clients (srv s) !! hdl).

Lemma with_client_sync hdl s : with_client hdl s → sync s.
Proof. by intros []. Qed.

#[local] Instance with_client_send_stable hdl : SendStable (with_client hdl).
Proof. by intros s ? ? ?. Qed.

Lemma triple_with_client {A} hdl (m : M W A) :
  preserves (with_client hdl) m → triple (with_client hdl) m (λ _, with_client hdl) sync.
Proof. intros Hm. eapply triple_conseq; [exact Hm|done..|apply with_client_sync]. Qed.

(** The server's record of subscriptions, written at one place. *)
Definition set_sub (hdl : ConnHandle) (ch : Z) (o : option Z) (sv : Server) : Server :=
  set_clients sv
    (alter (λ c, set_subscriptions (partial_alter (λ _, o) ch (subscriptions_by_channel c)) c) hdl
       (_clients sv)).

Lemma server_sub_set sv hdl ch o h i :
  is_Some (_clients sv !! hdl) →
  server_sub (set_sub hdl ch o sv) h i =
  if decide (i = ch ∧ h = hdl) then o else server_sub sv h i.
Proof.
  intros [c Hc]. unfold server_sub, set_sub. simpl. destruct (decide (hdl = h)) as [<-|Hh].
  - rewrite lookup_alter_eq, Hc. simpl. destruct (decide (ch = i)) as [<-|].
    + rewrite decide_True by done. by rewrite lookup_partial_alter_eq.
    + rewrite decide_False by naive_solver. by rewrite lookup_partial_alter_ne.
  - rewrite lookup_alter_ne by done. by rewrite decide_False by naive_solver.
Qed.

(** A write on both sides. *)
Lemma synced_write s s' hdl ch o o' t t' :
  same_records s s' → is_Some (_clients (srv s) !! hdl) → (is_Some o ↔ is_Some o') →
  sub_written ch hdl o' t t' → synced (srv s) t → synced (set_sub hdl ch o (srv s')) t'.
Proof.
  intros (Hc & Hv & Hcl & Hcc) Hin Ho (Ht & Hk & Hs & Hp) [? ? Hsub Hpub]. split.
  - intros id. simpl. by rewrite Hc, Ht.
  - simpl. by rewrite Hv, Hk.
  - intros h i. rewrite server_sub_set by (by rewrite Hcl). rewrite Hs.
    case_decide; [done|]. rewrite Hsub. unfold server_sub. by rewrite Hcl.
  - intros h i adv. rewrite Hp. unfold publications. simpl. rewrite Hcc. apply Hpub.
Qed.

Lemma triple_set_sub hdl ch f (o : option Z) :
  triple (λ s : St W, (tables_ok (tables (world s)) ∧
            synced (set_sub hdl ch o (srv s)) (tables (world s))) ∧
            ∃ c, _clients (srv s) !! hdl = Some c ∧
            f c = set_subscriptions (partial_alter (λ _, o) ch (subscriptions_by_channel c)) c)
    (with_lock clients_mutex (clients_at hdl;; update_client hdl f))
    (λ _, with_client hdl) sync.
Proof.
  apply triple_with_lock. intros L s ([Hok Hs] & c & Hc & Hf).
  unfold clients_at. run. rewrite Hc. simpl. split; [split; [done|]|].
  - simpl. unfold set_sub in Hs. rewrite (alter_alt_Some _ _ _ c) in Hs by done.
    by rewrite (alter_alt_Some f _ _ c), Hf by done.
  - simpl. rewrite lookup_alter_eq, Hc. by eexists.
Qed.

Lemma sync_subscribe payload hdl : preserves sync (handle_subscribe H payload hdl).
Proof.
  unfold handle_subscribe. eapply triple_bind with (R := λ c s, with_client hdl s).
  { apply triple_with_lock. eapply triple_post; [by apply triple_clients_at|].
    intros c s [? Hc]. split; [done|]. by exists c. }
  intros client. eapply triple_bind; [apply triple_with_client, preserves_lift|]. intros subs.
  eapply triple_post with (Q' := λ _, with_client hdl); [|intros _; apply with_client_sync].
  apply triple_for_each. intros sub _.
  eapply triple_bind; [apply triple_with_client, preserves_lift|]. intros sub_id.
  eapply triple_bind; [apply triple_with_client, preserves_lift|]. intros ch.
  destruct (find_subscription_by_sub_id _ _); [apply triple_with_client; solve_preserves|].
  eapply triple_bind; [apply triple_with_client, preserves_get|]. intros channels.
  destruct (channels !! ch) as [channel|]; [|apply triple_with_client; solve_preserves].
  eapply (triple_bind _ (λ _ : unit, _)); [|intros []; apply (triple_set_sub hdl ch _ (Some sub_id))].
  apply triple_bridge_call; [by intros s [[] _]| | |by intros s []].
  - intros s s' [[Hok Hs] [c Hc]] Hr Hok' (Hnone & sub' & Hw). split; [split; [done|]|].
    + eapply synced_write; [done|by exists c| |done..]. by split; eexists.
    + exists c. split; [destruct Hr as (_ & _ & -> & _); done|].
      assert (subscriptions_by_channel c !! ch = None) as ->; [|done].
      apply eq_None_not_Some. intros Hsome.
      assert (is_Some (server_sub (srv s) hdl ch)) as Hx by (unfold server_sub; by rewrite Hc).
      apply (sync_subs _ _ Hs) in Hx. rewrite Hnone in Hx. by destruct Hx.
  - intros s s' [[Hok Hs] _] Hr Hok' He. split; [done|].
    by apply (synced_records s s' (tables (world s))).
Qed.

Lemma sync_unsubscribe payload hdl : preserves sync (handle_unsubscribe H payload hdl).
Proof.
  unfold handle_unsubscribe. eapply triple_bind with (R := λ c s, with_client hdl s).
  { apply triple_with_lock. eapply triple_post; [by apply triple_clients_at|].
    intros c s [? Hc]. split; [done|]. by exists c. }
  intros client. eapply triple_bind; [apply triple_with_client, preserves_lift|]. intros ids.
  eapply triple_post with (Q' := λ _, with_client hdl); [|intros _; apply with_client_sync].
  apply triple_for_each. intros sub _.
  eapply triple_bind; [apply triple_with_client, preserves_lift|]. intros sub_id.
  destruct (find_subscription_by_sub_id _ _) as [[ch ?]|];
    [|apply triple_with_client; solve_preserves].
  eapply (triple_bind _ (λ _ : unit, _)); [|intros []; apply (triple_set_sub hdl ch _ None)].
  apply triple_bridge_call; [by intros s [[] _]| | |by intros s []].
  - intros s s' [[Hok Hs] [c Hc]] Hr Hok' Hw. split; [split; [done|]|].
    + eapply synced_write; [done|by exists c| |done..]. done.
    + exists c. split; [destruct Hr as (_ & _ & -> & _); done|done].
  - intros s s' [[Hok Hs] _] Hr Hok' [He _]. split; [done|].
    by apply (synced_records s s' (tables (world s))).
Qed.

(** *** Advertising *)

Lemma publications_alter sv m hdl f h i :
  publications (set_client_channels sv (alter f hdl m)) h !! i =
  if decide (h = hdl) then (f <$> m !! hdl) ≫= lookup i else default ∅ (m !! h) !! i.
Proof.
  unfold publications. simpl. case_decide as Hd; [subst h|by rewrite lookup_alter_ne].
  rewrite lookup_alter_eq. destruct (m !! hdl); simpl; [done|]. by rewrite lookup_empty.
Qed.

(** The server's records after both of a client's advertisement records changed. *)
Lemma synced_publications sv t hdl A f :
  synced sv t →
  (∀ i adv, (f <$> _client_channels sv !! hdl) ≫= lookup i = Some adv →
     ∃ p, publisher_of t hdl i = Some p ∧ pub_on p adv) →
  synced (set_client_channels
            (set_clients sv (alter (λ c, set_advertised (A (advertised_channels c)) c) hdl
                               (_clients sv)))
            (alter f hdl (_client_channels sv))) t.
Proof.
  intros [? ? Hs Hp] Hf. split; [done|done| |].
  - intros h i. rewrite Hs. assert (∀ x y : option Z, x = y → is_Some x ↔ is_Some y) as Heq by (by intros ?? ->).
    apply Heq. symmetry.
    by apply (server_sub_alter sv hdl (λ c, set_advertised (A (advertised_channels c)) c)).
  - intros h i adv. rewrite publications_alter. case_decide; [subst; apply Hf|apply Hp].
Qed.

Lemma pub_written_synced sv hdl ch o t t' :
  pub_written hdl ch o t t' → (∀ adv, publications sv hdl !! ch ≠ Some adv) →
  synced sv t → synced sv t'.
Proof.
  intros (Ht & Hk & Hs & Hp) Hno [? ? ? Hpub]. split; [by rewrite Ht|by rewrite Hk| |].
  - intros. by rewrite Hs.
  - intros h i adv Hadv. rewrite Hp. case_decide as Hd; [|by apply Hpub].
    destruct Hd as [-> ->]. by destruct (Hno adv).
Qed.

Lemma triple_get_publications hdl (P : St W → Prop) E :
  triple P (get_publications hdl) (λ o s, P s ∧ o = _client_channels (srv s) !! hdl) E.
Proof. by intros L s HP. Qed.

Lemma sync_advertise payload hdl : preserves sync (handle_advertise H payload hdl).
Proof.
  unfold handle_advertise. apply preserves_with_lock.
  eapply triple_bind; [apply triple_get_publications|]. intros pubs.
  eapply triple_bind with (R := λ _, sync).
  { case_bool_decide as Hp; [|apply triple_ret; by intros s []].
    apply triple_update. intros s [[Hok Hs] ->]. split; [done|].
    apply (synced_server (srv s)); try done. intros h. unfold publications. simpl.
    destruct (decide (hdl = h)) as [->|]; [|by rewrite lookup_insert_ne].
    by rewrite lookup_insert_eq, Hp. }
  intros []. apply preserves_bind; [solve_preserves|]. intros channels.
  apply preserves_for_each. intros chan.
  apply preserves_bind; [solve_preserves|]. intros ch.
  apply preserves_bind; [solve_preserves|]. intros cp.
  destruct (_ && _); [solve_preserves|].
  apply preserves_bind; [solve_preserves|]. intros topic.
  apply preserves_bind; [solve_preserves|]. intros o.
  destruct (negb _); [solve_preserves|].
  apply preserves_bind; [solve_preserves|]. intros enc.
  apply preserves_bind; [solve_preserves|]. intros sn. set (adv := Build_ClientAdvertisement _ _ _ _ _).
  eapply triple_bind with (R := λ _ s, sync s ∧
    ∃ p, publisher_of (tables (world s)) hdl ch = Some p ∧ pub_on p adv).
  { apply triple_bridge_call; [by intros s []| | |by intros s []].
    - intros s s' [Hok Hs] Hr Hok' (Hnone & p & Hon & Hw). split; [split; [done|]|].
      + apply (synced_records s s' (tables (world s'))); [done..|].
        eapply pub_written_synced; [done| |done]. intros a Ha.
        destruct (sync_pubs _ _ Hs _ _ _ Ha) as (p' & Hp' & _). by rewrite Hnone in Hp'.
      + exists p. split; [|done]. destruct Hw as (_ & _ & _ & ->). simpl.
        by rewrite decide_True by done.
    - intros s s' [Hok Hs] Hr Hok' He. split; [done|].
      by apply (synced_records s s' (tables (world s))). }
  intros []. apply triple_with_lock. eapply triple_bind; [apply triple_clients_at; by intros s []|].
  intros c. apply triple_update2. intros s [([Hok Hs] & p & Hp & Hon) Hc]. split; [done|]. simpl.
  apply synced_publications; [done|]. intros i a. pose proof (sync_pubs _ _ Hs hdl i) as Hpub.
  unfold publications in Hpub. destruct (_client_channels (srv s) !! hdl) as [m|]; simpl in *; [|done].
  destruct (m !! ch) eqn:Hm; [apply Hpub|].
  destruct (decide (i = ch)) as [->|]; [rewrite lookup_insert_eq; intros [= <-]; by exists p|].
  rewrite lookup_insert_ne by done. apply Hpub.
Qed.

(** A client that has publications is there. *)
Definition pub_client (hdl : ConnHandle) s : Prop :=
  ∀ ch, is_Some (publications (srv s) hdl !! ch) → is_Some (_clients (srv s) !! hdl).

Lemma inv_pub_client hdl s : inv s → pub_client hdl s.
Proof.
  intros Hinv ch Hch%elem_of_dom. rewrite <-(inv_advertised _ Hinv) in Hch.
  unfold client_advertised in Hch. by destruct (_clients (srv s) !! hdl).
Qed.

Lemma sync_unadvertise payload hdl :
  triple (λ s, inv s ∧ sync s) (handle_unadvertise H payload hdl) (λ _, sync) sync.
Proof.
  unfold handle_unadvertise. apply triple_with_lock.
  set (P := λ s : St W, sync s ∧ pub_client hdl s).
  assert (SendStable P) by (by intros s).
  assert (∀ {A} (m : M W A), preserves P m → triple P m (λ _, P) sync) as Hpres.
  { intros A m Hm. eapply triple_conseq; [exact Hm|done..|]. by intros s []. }
  eapply triple_pre with (P' := P); [|intros s [Hinv ?]; split; [done|by apply inv_pub_client]].
  eapply triple_bind; [apply Hpres; solve_preserves|]. intros [pubs|].
  2:{ eapply triple_post; [apply Hpres; solve_preserves|]. by intros _ s []. }
  eapply triple_bind; [apply Hpres; solve_preserves|]. intros ids.
  eapply triple_post with (Q' := λ _, P); [|by intros _ s []].
  apply triple_for_each. intros id _.
  eapply triple_bind; [apply Hpres; solve_preserves|]. intros ch.
  eapply triple_bind; [apply triple_get_publications|]. intros cp.
  case_bool_decide as Hcp; [|apply triple_ret; by intros s []].
  eapply triple_bind with (R := λ _ s, tables_ok (tables (world s)) ∧ pub_client hdl s ∧
    is_Some (_clients (srv s) !! hdl) ∧
    synced (set_client_channels (srv s) (alter (delete ch) hdl (_client_channels (srv s))))
           (tables (world s))).
  { apply triple_bridge_call; [by intros s [[[]]]| | |by intros s [[]]].
    - intros s s' [[[Hok Hs] Hpc] ->] Hr Hok' Hw. split; [done|].
      assert (is_Some (_clients (srv s) !! hdl)) as Hcl.
      { apply (Hpc ch). unfold publications. by destruct (_client_channels (srv s) !! hdl). }
      pose proof Hr as (Hc & Hv & Hcl' & Hcc). unfold pub_client, publications.
      rewrite Hcl', Hcc. split_and!; [done..|].
      eapply pub_written_synced; [done| |].
      { intros a. rewrite publications_alter, decide_True by done.
        destruct (_client_channels (srv s) !! hdl); simpl; [|done]. by rewrite lookup_delete_eq. }
      destruct Hs as [Hch Hsv Hsub Hpub]. split;
        [by intros i; simpl; rewrite Hc; apply Hch|by simpl; rewrite Hv| |].
      + intros h i. rewrite Hsub. unfold server_sub. simpl. by rewrite Hcl'.
      + intros h i a. rewrite publications_alter. specialize (Hpub h i a). unfold publications in Hpub.
        case_decide as Hd; [subst h|apply Hpub].
        destruct (_client_channels (srv s) !! hdl); simpl in *; [|done].
        intros [_ ?]%lookup_delete_Some. by apply Hpub.
    - intros s s' [[[Hok Hs] Hpc] ->] Hr Hok' He. split; [done|].
      by apply (synced_records s s' (tables (world s))). }
  intros []. apply triple_with_lock. intros L s (Hok & Hpc & [c Hc] & Hs).
  unfold clients_at, update_publications, update_client. run. rewrite Hc. simpl.
  split; [split; [done|]|].
  - simpl. eapply synced_server; [..|exact Hs]; try done.
    intros h i. unfold server_sub. simpl.
    apply (server_sub_alter (srv s) hdl (λ c, set_advertised (advertised_channels c ∖ {[ch]}) c)).
    done.
  - intros i _. simpl. by rewrite lookup_alter_eq, Hc.
Qed.

(** *** Disconnecting *)

(** The server while a client leaves: its records, if the client were still there
    with the subscriptions [rem] and without publications. *)
Definition departing (hdl : ConnHandle) (c : ClientInfo) (rem : gmap Z Z) (sv : Server) : Server :=
  set_client_channels
    (set_clients sv (<[hdl := set_subscriptions rem c]> (_clients sv)))
    (delete hdl (_client_channels sv)).

(** [K] is what is known of the publications by then. *)
Definition leaving hdl c (K : gmap ConnHandle (gmap Z ClientAdvertisement) → Prop) rem s : Prop :=
  tables_ok (tables (world s)) ∧ (_clients (srv s) !! hdl = None ∧ K (_client_channels (srv s))) ∧
  synced (departing hdl c rem (srv s)) (tables (world s)).

Lemma server_sub_departing hdl c rem sv h ch :
  server_sub (departing hdl c rem sv) h ch =
  if decide (h = hdl) then rem !! ch else server_sub sv h ch.
Proof.
  unfold server_sub, departing. simpl. case_decide as Hd; [subst|].
  - by rewrite lookup_insert_eq.
  - by rewrite lookup_insert_ne by done.
Qed.

Lemma publications_departing hdl c rem sv h :
  publications (departing hdl c rem sv) h = if decide (h = hdl) then ∅ else publications sv h.
Proof.
  unfold publications, departing. simpl. case_decide as Hd; [subst|].
  - by rewrite lookup_delete_eq.
  - by rewrite lookup_delete_ne.
Qed.

Lemma departing_records hdl c rem s s' t t' :
  same_records s s' → t' ≡ t → synced (departing hdl c rem (srv s)) t →
  synced (departing hdl c rem (srv s')) t'.
Proof.
  intros (Hc & Hv & Hcl & Hcc) Ht. rewrite Ht. apply synced_server; [done..| |].
  - intros. by rewrite !server_sub_departing; unfold server_sub; rewrite Hcl.
  - intros. by rewrite !publications_departing; unfold publications; rewrite Hcc.
Qed.

(** Leaving, phase one: a publisher of the client is erased, or there was none. *)
Lemma leaving_unadvertise hdl c K rem ch E :
  triple (leaving hdl c K rem) (ignore_exception (call H (CallClientUnadvertise ch hdl)))
    (λ _, leaving hdl c K rem) E.
Proof.
  apply triple_ignore. apply triple_bridge_call; [by intros s []| | |by intros s].
  - intros s s' (Hok & [Hn HK] & Hs) Hr Hok' Hw. split_and!; [done|by destruct Hr as (_ & _ & -> & _)|
      by destruct Hr as (_ & _ & _ & ->)|].
    eapply departing_records; [done|reflexivity|]. eapply pub_written_synced; [done| |done].
    intros a. by rewrite publications_departing, decide_True, lookup_empty by done.
  - intros s s' (Hok & [Hn HK] & Hs) Hr Hok' He. split_and!; [done|by destruct Hr as (_ & _ & -> & _)|
      by destruct Hr as (_ & _ & _ & ->)|].
    by eapply departing_records.
Qed.

(** Phase two: a subscription of the client is erased. *)
Lemma leaving_unsubscribe hdl c K rem ch E :
  triple (leaving hdl c K rem) (ignore_exception (call H (CallUnsubscribe ch hdl)))
    (λ _, leaving hdl c K (delete ch rem)) E.
Proof.
  apply (triple_try_catch _ _ _ _ (leaving hdl c K (delete ch rem))); [|intros e; by apply triple_ret].
  apply triple_bridge_call; [by intros s []| | |].
  - intros s s' (Hok & [Hn HK] & Hs) Hr Hok' (Ht & Hk & Hsub & Hpub).
    split_and!; [done|by destruct Hr as (_ & _ & -> & _)|
      by destruct Hr as (_ & _ & _ & ->)|].
    eapply (departing_records hdl c _ s s' (tables (world s'))); [done|reflexivity|].
    destruct Hs as [Hch Hsv Hs Hp]. split; [by rewrite Ht|by rewrite Hk| |].
    + intros h i. rewrite Hsub, server_sub_departing. specialize (Hs h i).
      rewrite server_sub_departing in Hs. destruct (decide (i = ch ∧ h = hdl)) as [[-> ->]|Hd].
      * by rewrite decide_True, lookup_delete_eq by done.
      * rewrite Hs. destruct (decide (h = hdl)); [|done]. rewrite lookup_delete_ne; naive_solver.
    + intros h i a. rewrite publications_departing, Hpub. specialize (Hp h i a).
      by rewrite publications_departing in Hp.
  - intros s s' (Hok & [Hn HK] & Hs) Hr Hok' [He Hnone].
    split_and!; [done|by destruct Hr as (_ & _ & -> & _)|
      by destruct Hr as (_ & _ & _ & ->)|].
    rewrite delete_id; [by eapply departing_records|].
    apply eq_None_not_Some. intros Hsome.
    pose proof (sync_subs _ _ Hs hdl ch) as Hiff. rewrite server_sub_departing in Hiff.
    rewrite decide_True, Hnone in Hiff by done. apply Hiff in Hsome. by destruct Hsome.
  - intros s Hs Hb. exfalso. pose proof bridge_unsubscribe as [f Hf]. simpl in Hb.
    by rewrite Hf in Hb.
Qed.

Lemma leaving_done hdl c s : leaving hdl c (λ m, m !! hdl = None) ∅ s → sync s.
Proof.
  intros (Hok & [Hn Hp] & Hs). split; [done|]. eapply synced_server; [..|exact Hs]; try done.
  - intros h i. rewrite server_sub_departing. case_decide; [subst|done].
    unfold server_sub. rewrite Hn. simpl. by rewrite lookup_empty.
  - intros h. rewrite publications_departing. case_decide; [subst|done].
    unfold publications. by rewrite Hp.
Qed.

(** *** Requests that touch no record *)

Ltac solve_sync :=
  solve_preserves;
  try first [by apply sync_update | by apply sync_update_client | by apply sync_call].

Lemma sync_unsubscribe_params hdl names :
  preserves sync (unsubscribe_params_without_subscriptions H hdl names).
Proof. unfold unsubscribe_params_without_subscriptions, catch_std. solve_sync. Qed.
#[local] Hint Resolve sync_unsubscribe_params : server.

Lemma sync_closed hdl : preserves sync (handle_connection_closed H hdl).
Proof.
  unfold handle_connection_closed.
  eapply triple_bind with (R := λ oc s,
    match oc with
    | None => sync s
    | Some c => leaving hdl c (λ _, True) (subscriptions_by_channel c) s
    end).
  { apply triple_with_lock. eapply triple_bind; [apply triple_get|]. intros clients.
    destruct (clients !! hdl) as [c|] eqn:Hc; [|apply triple_ret; by intros s []].
    eapply triple_bind with (R := λ _, leaving hdl c (λ _, True) (subscriptions_by_channel c));
      [|intros []; by apply triple_ret].
    apply triple_update. intros s [[Hok Hs] ->]. split_and!; [done|apply lookup_delete_eq|done|].
    simpl. destruct Hs as [? ? Hsub Hpub]. split; [done|done| |].
    - intros h i. rewrite Hsub, server_sub_departing. case_decide; [subst|].
      + unfold server_sub. by rewrite Hc.
      + unfold server_sub. simpl. by rewrite lookup_delete_ne by done.
    - intros h i a. rewrite publications_departing. case_decide; [by rewrite lookup_empty|apply Hpub]. }
  intros [c|]; [|apply preserves_ret]. set (rem := subscriptions_by_channel c).
  eapply triple_bind with (R := λ _, leaving hdl c (λ _, True) rem).
  { apply triple_for_each. intros i _. destruct (bool_decide _); [|by apply triple_ret].
    apply leaving_unadvertise. }
  intros []. eapply triple_bind with (R := λ _, leaving hdl c (λ m, m !! hdl = None) rem).
  { apply triple_with_lock, triple_update. intros s (Hok & [Hn _] & Hs).
    split_and!; [done..|apply lookup_delete_eq|].
    unfold departing in *. simpl. by rewrite delete_delete_eq. }
  intros []. eapply triple_bind with (R := λ _, sync);
    [|intros []; unfold ignore_exception; solve_sync].
  rewrite bool_decide_eq_true_2 by apply bridge_unsubscribe.
  eapply triple_conseq with
    (P' := leaving hdl c (λ m, m !! hdl = None) (without ([] : list (Z * Z)).*1 rem));
    [apply (triple_for_each_done _ _
       (λ prev, leaving hdl c (λ m, m !! hdl = None) (without prev.*1 rem)))| | |exact (λ s Hs, Hs)].
  - intros prev [ch id] rest _. eapply triple_post; [apply leaving_unsubscribe|].
    intros [] s. rewrite fmap_app. change ([(ch, id)].*1) with [ch]. by rewrite without_snoc.
  - intros s. by rewrite without_nil.
  - intros [] s Hs. apply (leaving_done hdl c). by rewrite without_all in Hs.
Qed.

(** *** Dispatch *)

Lemma sync_login payload hdl : preserves sync (handle_login payload hdl).
Proof.
  unfold handle_login, kick_client. solve_sync. apply sync_update; try done.
  intros sv h ch. unfold server_sub. simpl. destruct (_clients sv !! hdl) eqn:E; [done|].
  destruct (decide (hdl = h)) as [->|]; [|by rewrite lookup_insert_ne].
  rewrite lookup_insert_eq, E. simpl. by rewrite lookup_empty.
Qed.

#[local] Hint Resolve sync_login sync_subscribe sync_unsubscribe sync_advertise : server.

Lemma sync_op o payload hdl :
  triple (λ s, inv s ∧ sync s) (run_op H o payload hdl) (λ _, sync) sync.
Proof.
  assert (∀ m : M W unit, preserves sync m → triple (λ s, inv s ∧ sync s) m (λ _, sync) sync) as Hp.
  { intros m Hm. eapply triple_pre; [exact Hm|]. by intros s []. }
  destruct o; cbn [run_op]; [..|apply Hp]; try apply sync_unadvertise; try apply Hp;
    unfold handle_get_parameters, handle_set_parameters, handle_subscribe_parameter_updates,
      handle_unsubscribe_parameter_updates, handle_subscribe_connection_graph,
      handle_unsubscribe_connection_graph, handle_fetch_asset; solve_sync.
Qed.

(** What reads and sends keeps both invariants. *)
Definition both s : Prop := inv s ∧ sync s.

#[local] Instance both_send_stable : SendStable both.
Proof. by intros s hdl m r [Hi [Ho Hs]]. Qed.

Lemma both_sync s : both s → sync s.
Proof. by intros []. Qed.

Lemma triple_both {A} (m : M W A) : preserves both m → triple both m (λ _, both) sync.
Proof. intros Hm. eapply triple_conseq; [exact Hm|done..|apply both_sync]. Qed.

Lemma sync_text_payload hdl payload :
  triple both (handle_text_payload H hdl payload) (λ _, sync) sync.
Proof.
  pose proof (has_handler_preserves H both) as Hh.
  unfold handle_text_payload, report_op_failure.
  eapply triple_bind; [apply triple_both; solve_preserves|]. intros op.
  eapply triple_bind; [apply triple_both; solve_preserves|]. intros [cap|].
  { eapply triple_pre; [apply preserves_send_status, _|apply both_sync]. }
  eapply triple_bind; [apply triple_both, Hh|]. intros b. destruct (negb b).
  { eapply triple_pre; [apply preserves_send_status, _|apply both_sync]. }
  eapply triple_try_catch; [|intros e; apply preserves_send_status, _].
  destruct (switch_op _) as [o|]; [apply sync_op|].
  eapply triple_pre; [apply preserves_send_status, _|apply both_sync].
Qed.

Lemma sync_message parse now hdl op payload :
  triple both (handle_message H parse now hdl op payload) (λ _, sync) sync.
Proof.
  unfold handle_message, catch_std. eapply triple_try_catch.
  - destruct op; [|eapply triple_pre; [|apply both_sync]..].
    + unfold handle_text_message. eapply triple_bind; [apply triple_both, preserves_lift|].
      intros j. apply sync_text_payload.
    + change (preserves sync (handle_binary_message H now hdl payload)).
      unfold handle_binary_message, handle_message_data, handle_service_call_request. solve_sync.
    + by apply triple_ret.
  - intros e. change (preserves sync (match what e with
      | Some w => send_status_and_log_msg (W:=W) hdl Error w
      | None => send_status_and_log_msg hdl Error
                  "Exception occurred when executing message handler" end)). solve_preserves.
Qed.

(** The entry points other than the four that change what is advertised. *)
Definition client_side (i : input) : bool :=
  match i with
  | AddChannels _ | RemoveChannels _ | AddServices _ | RemoveServices _ => false
  | _ => true
  end.

Lemma entry_preserves_both parse i :
  client_side i = true → preserves both (entry H parse i).
Proof.
  intros Hi. pose proof (entry_preserves_inv H parse i) as Hinv.
  assert (triple both (entry H parse i) (λ _, sync) sync) as Hs.
  { destruct i; try done; cbn [entry]; try apply sync_message;
      (eapply triple_pre; [|apply both_sync]);
      match goal with |- triple _ ?m _ _ => change (preserves sync m) end;
      try apply sync_closed; unfold validate_connection, handle_connection_opened,
        update_connection_graph; solve_sync; by intros L s. }
  intros L s Hb. specialize (Hs L s Hb). specialize (Hinv L s (proj1 Hb)).
  destruct (entry H parse i L s) as [[]]; by split.
Qed.

End Requests.
End Sync.

(** ** Facts that do not depend on the server's members *)

(** A fact about the state of the handlers and about what has happened so far, which
    the handlers keep, is kept by every entry point. *)
Section WorldFacts.
Context {plat : Platform} {W : Type} (H : ServerHandlers W) (P : St W → Prop).
Context (Hblind : ∀ s s' : St W,
  world s' = world s → trace s `prefix_of` trace s' → P s → P s').

#[local] Instance blind_send_stable : SendStable P.
Proof. intros s hdl m r Hs. by apply (Hblind s); [|apply prefix_app_r|]. Qed.

Context (Hψ : ∀ c body, handler_body H c = Some body → preserves P body).

Lemma blind_update f : preserves P (update f).
Proof. apply preserves_update. intros s Hs. by apply (Hblind s). Qed.

Lemma blind_subprotocol hdl p : preserves P (select_subprotocol hdl p).
Proof. intros L s Hs. simpl. by apply (Hblind s). Qed.

Lemma blind_emit e : preserves P (emit e).
Proof. apply triple_emit. intros s Hs. by apply (Hblind s); [|apply prefix_app_r|]. Qed.

Lemma blind_call c : preserves P (call H c).
Proof.
  unfold call. destruct (handler_body H c) as [body|] eqn:Hb; [|apply preserves_throw].
  apply preserves_bind; [apply blind_emit|]. intros []. by apply (Hψ c).
Qed.
#[local] Hint Resolve blind_update blind_call blind_subprotocol blind_emit : server.

Ltac solve_world := unfold update_client, update_publications; solve_preserves.

Lemma blind_unsubscribe_params hdl names :
  preserves P (unsubscribe_params_without_subscriptions H hdl names).
Proof. unfold unsubscribe_params_without_subscriptions, catch_std. solve_world. Qed.
#[local] Hint Resolve blind_unsubscribe_params : server.

Lemma blind_op o payload hdl : preserves P (run_op H o payload hdl).
Proof.
  destruct o; cbn [run_op];
    unfold handle_login, kick_client, handle_subscribe, handle_unsubscribe, handle_advertise,
      handle_unadvertise, handle_get_parameters, handle_set_parameters,
      handle_subscribe_parameter_updates, handle_unsubscribe_parameter_updates,
      handle_subscribe_connection_graph, handle_unsubscribe_connection_graph,
      handle_fetch_asset; solve_world.
Qed.
#[local] Hint Resolve blind_op : server.

Lemma blind_add_channels cs : preserves P (add_channels cs).
Proof.
  assert (preserves P (add_channels_loop cs)) as Hl.
  { induction cs; cbn [add_channels_loop]; solve_world. }
  unfold add_channels. destruct cs; solve_world.
Qed.
Lemma blind_add_services ss : preserves P (add_services ss).
Proof.
  assert (preserves P (add_services_loop ss)) as Hl.
  { induction ss; cbn [add_services_loop]; solve_world. }
  unfold add_services. destruct ss; solve_world.
Qed.
Lemma blind_remove_services ids : preserves P (remove_services ids).
Proof.
  assert (preserves P (remove_services_loop ids)) as Hl.
  { induction ids; cbn [remove_services_loop]; solve_world. }
  unfold remove_services. solve_world.
Qed.
Lemma blind_remove_channels ids : preserves P (remove_channels ids).
Proof. unfold remove_channels. solve_world. Qed.
#[local] Hint Resolve blind_add_channels blind_add_services blind_remove_services
  blind_remove_channels : server.

Lemma entry_blind parse i : preserves P (entry H parse i).
Proof.
  pose proof (has_handler_preserves H P) as Hh.
  destruct i; cbn [entry];
    unfold validate_connection, handle_connection_opened, handle_connection_closed,
      ignore_exception, handle_message, catch_std, handle_text_message, handle_text_payload,
      report_op_failure, handle_binary_message, handle_message_data,
      handle_service_call_request, update_connection_graph; solve_world.
Qed.

End WorldFacts.

(** A fact about the state of the handlers alone. *)
Definition of_world {W} (ψ : W → Prop) (s : St W) : Prop := ψ (world s).

Lemma entry_of_world {plat : Platform} {W} (H : ServerHandlers W) (ψ : W → Prop) parse i :
  (∀ c body, handler_body H c = Some body → preserves (of_world ψ) body) →
  preserves (of_world ψ) (entry H parse i).
Proof.
  intros Hψ. apply entry_blind; [|done]. intros s s' Hw _. unfold of_world. by rewrite Hw.
Qed.

(** What has happened stays: the trace only grows. *)
Lemma entry_trace {plat : Platform} {W} (H : ServerHandlers W) `{!HandlersFrame H} parse i tr :
  preserves (λ s, tr `prefix_of` trace s) (entry H parse i).
Proof.
  apply entry_blind; [intros s s' _ Hp Hs; by etrans|].
  intros c body Hb L s Hs. destruct (handlers_frame c body L s Hb) as (_ & _ & sends & Ht & _).
  destruct (body L s) as [[] s']; simpl in *; rewrite ?Ht; by try (etrans; [|apply prefix_app_r]).
Qed.
