(* ===== verification/BridgeUpdate.v ===== *)
(** * Updating what a bridge advertises

    The two halves of [update_advertised_topics] and of
    [update_advertised_services] that both nodes share: erasing what is gone and
    recording what is new, on the node and on the server.  Each half runs to its
    end, and keeps the records of the two in agreement. *)

From Stdlib Require Import ZArith Lia.
From S2P Require Import Prelude Wire Json Serialization ServerState ServerMethods ServerLogic.
From S2P Require Import ServerInv ServerSpecs ServerSystem BridgeTables ServerRuns BridgeSync.

Local Open Scope Z_scope.

(** ** Maps *)

Lemma emplace_all_keep {V} (l : list (Z * V)) m i v :
  m !! i = Some v → emplace_all l m !! i = Some v.
Proof.
  revert m. induction l as [|[j w] l IH]; intros m Hi; simpl; [done|]. apply IH.
  destruct (m !! j) eqn:Hj; [done|]. rewrite lookup_insert_ne; [done|]. congruence.
Qed.

Lemma emplace_all_Some {V} (l : list (Z * V)) m i v :
  emplace_all l m !! i = Some v → m !! i = Some v ∨ (m !! i = None ∧ (i, v) ∈ l).
Proof.
  revert m. induction l as [|[j w] l IH]; intros m; simpl; [by left|].
  intros [Hi|[Hn Hi]]%IH; [|right].
  - destruct (m !! j) eqn:Hj; [by left|]. apply lookup_insert_Some in Hi as [[-> ->]|[_ Hi]];
      [|by left]. right. split; [done|by left].
  - destruct (m !! j) eqn:Hj; [by split; [|right]|].
    apply lookup_insert_None in Hn as [Hn _]. by split; [|right].
Qed.

Lemma emplace_all_fmap {V V'} (f : V → V') (l : list (Z * V)) m :
  f <$> emplace_all l m = emplace_all (prod_map id f <$> l) (f <$> m).
Proof.
  revert m. induction l as [|[j w] l IH]; intros m; simpl; [done|]. rewrite IH. f_equal.
  unfold prod_map, id. simpl. rewrite lookup_fmap. destruct (m !! j); simpl; [done|].
  apply fmap_insert.
Qed.

(** Every element of the list whose key is new is in the map. *)
Lemma emplace_all_new {V} (l : list (Z * V)) m i v :
  NoDup l.*1 → (i, v) ∈ l → m !! i = None → emplace_all l m !! i = Some v.
Proof.
  revert m. induction l as [|[j w] l IH]; intros m Hnd Hin Hi; [by apply not_elem_of_nil in Hin|].
  rewrite fmap_cons in Hnd. apply NoDup_cons in Hnd as [Hj Hnd]. simpl in *.
  apply elem_of_cons in Hin as [[= <- <-]|Hin].
  - rewrite Hi. apply emplace_all_keep, lookup_insert_eq.
  - apply IH; [done..|]. destruct (m !! j); [done|]. rewrite lookup_insert_ne; [done|].
    intros ->. apply Hj, list_elem_of_fmap. by exists (i, v).
Qed.

(** Elements of a list with different keys. *)
Lemma NoDup_key {A B} (f : A → B) (l : list A) x y :
  NoDup (f <$> l) → x ∈ l → y ∈ l → f x = f y → x = y.
Proof.
  induction l as [|z l IH]; intros Hnd Hx Hy E; [by apply not_elem_of_nil in Hx|].
  rewrite fmap_cons in Hnd. apply NoDup_cons in Hnd as [Hz Hnd].
  apply elem_of_cons in Hx as [->|Hx]; apply elem_of_cons in Hy as [->|Hy]; [done| | |by apply IH].
  - destruct Hz. rewrite E. by apply list_elem_of_fmap_2.
  - destruct Hz. rewrite <-E. by apply list_elem_of_fmap_2.
Qed.

(** ** Running the pieces *)

Section Pieces.
Context {W Sub Pub : Type} `{!HasTables W Sub Pub}.
Implicit Types (L : list mutex) (s : St W).

Definition with_tables (f : Tables Sub Pub → Tables Sub Pub) s : St W :=
  mkSt (srv s) (net s) (trace s) (set_tables (f (tables (world s))) (world s)).

Lemma with_tables_twice f g s : with_tables g (with_tables f s) = with_tables (λ t, g (f t)) s.
Proof. unfold with_tables. simpl. by rewrite tables_set, set_tables_twice. Qed.

Lemma with_tables_id s : with_tables (λ t, t) s = s.
Proof. unfold with_tables. rewrite set_tables_same. by destruct s. Qed.

Lemma with_tables_ext f g s :
  f (tables (world s)) = g (tables (world s)) → with_tables f s = with_tables g s.
Proof. unfold with_tables. by intros ->. Qed.

Lemma update_tables_run f L s : update_tables f L s = (Ret tt, with_tables f s).
Proof. done. Qed.

Lemma bind_get_table_run {A B} (f : Tables Sub Pub → A) (k : A → M W B) L s :
  (get_table f ≫= k) L s = k (f (tables (world s))) L s.
Proof. done. Qed.

Definition stale_ids (latest : gset TopicAndDatatype) (entries : list (Z * ChannelWithoutId)) :
    list Z :=
  fst <$> filter (λ e, channel_key e.2 ∉ latest) entries.

Definition erase_channels (ids : list Z) (t : Tables Sub Pub) : Tables Sub Pub :=
  set_subs (set_topics t (without ids (advertised_topics t))) (without ids (subscriptions t)).

Lemma remove_stale_channels_run latest entries L s :
  remove_stale_channels latest entries L s =
  (Ret (stale_ids latest entries), with_tables (erase_channels (stale_ids latest entries)) s).
Proof.
  revert s. induction entries as [|[i ch] entries IH]; intros s; cbn [remove_stale_channels].
  - unfold stale_ids. simpl. unfold mret, M_mret, M_ret. f_equal. rewrite <-(with_tables_id s) at 1.
    apply with_tables_ext. destruct (tables (world s)). unfold erase_channels. simpl.
    by rewrite !without_nil.
  - unfold stale_ids. rewrite filter_cons. simpl. case_bool_decide as Hk.
    { rewrite decide_False by (by intros []). apply IH. }
    rewrite decide_True by done. rewrite fmap_cons. simpl.
    erewrite bind_run by apply update_tables_run. erewrite bind_run by apply update_tables_run.
    erewrite bind_run by apply IH. unfold mret, M_mret, M_ret. f_equal.
    rewrite !with_tables_twice. apply with_tables_ext. unfold erase_channels. simpl.
    by rewrite !without_cons.
Qed.

Lemma register_channels_run ids channels L s :
  length ids = length channels →
  register_channels ids channels L s =
  (Ret tt, with_tables (λ t, set_topics t
     (emplace_all (zip ids channels) (advertised_topics t))) s).
Proof.
  revert ids s. induction channels as [|c channels IH]; intros [|i ids] s; try done.
  - intros _. simpl. unfold mret, M_mret, M_ret. f_equal. rewrite <-(with_tables_id s) at 1.
    apply with_tables_ext. by destruct (tables (world s)).
  - intros [= Hl]. cbn [register_channels]. erewrite bind_run by apply update_tables_run.
    rewrite IH by done. by rewrite with_tables_twice.
Qed.

Lemma erase_services_run ids L s :
  erase_services ids L s =
  (Ret tt, with_tables (λ t, set_known_services t (without ids (known_services t))) s).
Proof.
  unfold erase_services. revert s. induction ids as [|i ids IH]; intros s; cbn [for_each].
  - unfold mret, M_mret, M_ret. f_equal. rewrite <-(with_tables_id s) at 1.
    apply with_tables_ext. destruct (tables (world s)). unfold set_known_services. simpl.
    by rewrite without_nil.
  - erewrite bind_run by apply update_tables_run. rewrite IH, with_tables_twice.
    f_equal. apply with_tables_ext. unfold set_known_services. simpl. by rewrite without_cons.
Qed.

Lemma register_services_run ids services L s :
  length ids = length services →
  register_services ids services L s =
  (Ret tt, with_tables (λ t, set_known_services t
     (emplace_all (zip ids services) (known_services t))) s).
Proof.
  revert ids s. induction services as [|c services IH]; intros [|i ids] s; try done.
  - intros _. simpl. unfold mret, M_mret, M_ret. f_equal. rewrite <-(with_tables_id s) at 1.
    apply with_tables_ext. by destruct (tables (world s)).
  - intros [= Hl]. cbn [register_services]. erewrite bind_run by apply update_tables_run.
    rewrite IH by done. by rewrite with_tables_twice.
Qed.

End Pieces.

(** ** Both sides *)

Section BothSides.
Context {W Sub Pub : Type} `{!HasTables W Sub Pub} `{!BridgeKind Sub Pub}.
Implicit Types (L : list mutex) (s : St W) (t : Tables Sub Pub).

(** After [remove_stale_channels] and [remove_channels]. *)
Definition retired (ids : list Z) (sends : list event) s : St W :=
  add_trace sends (set_srv
    (set_clients (set_channels (srv s) (without ids (_channels (srv s))))
       (unsubscribe_from ids <$> _clients (srv s)))
    (with_tables (erase_channels ids) s)).

(** After [add_channels] and [register_channels]. *)
Definition announced (chs : list Channel) (n : Z) (sends : list event) s : St W :=
  with_tables (λ t, set_topics t
      (emplace_all (zip (channel_id <$> chs) (channel_base <$> chs)) (advertised_topics t)))
    (add_trace sends (set_srv
       (set_channels (set_next_channel_id (srv s) n)
          (emplace_all ((λ c, (channel_id c, c)) <$> chs) (_channels (srv s)))) s)).

Lemma subscription_of_erased ids t ch hdl :
  subscription_of (erase_channels ids t) ch hdl =
  if decide (ch ∈ ids) then None else subscription_of t ch hdl.
Proof.
  unfold subscription_of, erase_channels. simpl. rewrite without_lookup. by case_decide.
Qed.

Lemma server_sub_unsubscribed ids sv hdl ch :
  server_sub (set_clients sv (unsubscribe_from ids <$> _clients sv)) hdl ch =
  if decide (ch ∈ ids) then None else server_sub sv hdl ch.
Proof.
  unfold server_sub. simpl. rewrite lookup_fmap. destruct (_clients sv !! hdl); simpl.
  - apply without_lookup.
  - by case_decide.
Qed.

Lemma erase_channels_ok ids t : tables_ok t → tables_ok (erase_channels ids t).
Proof.
  intros [Hs Ho Hk Hn]. split; simpl.
  - intros ch. rewrite !without_lookup. case_decide; [done|]. apply Hs.
  - intros ch hdl sub. rewrite subscription_of_erased. rewrite without_lookup.
    case_decide; [done|]. apply Ho.
  - intros i j a b. rewrite !without_lookup. do 2 (case_decide; [done|]). apply Hk.
  - apply Hn.
Qed.

Lemma retired_sync ids sends s : sync s → sync (retired ids sends s).
Proof.
  intros [Hok [Hc Hv Hsub Hp]]. unfold sync, retired, with_tables. simpl. rewrite tables_set.
  split; [by apply erase_channels_ok|]. split; [|done| |].
  - intros id. simpl. rewrite !without_lookup. case_decide; [done|]. apply Hc.
  - intros hdl ch. rewrite subscription_of_erased.
    change (server_sub _ hdl ch) with
      (server_sub (set_clients (srv s) (unsubscribe_from ids <$> _clients (srv s))) hdl ch).
    rewrite server_sub_unsubscribed. case_decide; [done|]. apply Hsub.
  - intros hdl ch adv Ha. by apply Hp.
Qed.

Lemma retired_inv ids sends s : inv s → inv (retired ids sends s).
Proof.
  intros Hinv. pose proof (remove_channels_preserves (W:=W) ids [] s Hinv) as Hr.
  destruct (remove_channels_any ids [] s) as (? & _ & E); [apply not_elem_of_nil..|].
  by rewrite E in Hr.
Qed.

Lemma retired_both ids sends s : both s → both (retired ids sends s).
Proof. intros []. split; [by apply retired_inv|by apply retired_sync]. Qed.

Lemma zip_channel_ids (chs : list Channel) :
  zip (channel_id <$> chs) (channel_base <$> chs) =
  prod_map id channel_base <$> ((λ c, (channel_id c, c)) <$> chs).
Proof. induction chs as [|c chs IH]; [done|]. rewrite !fmap_cons. simpl. by f_equal. Qed.

(** New channels of topics that were not advertised. *)
Lemma announced_sync chs n sends s :
  sync s → NoDup (channel_key <$> (channel_base <$> chs)) →
  (∀ c i a, c ∈ chs → advertised_topics (tables (world s)) !! i = Some a →
     channel_key (channel_base c) ≠ channel_key a) →
  sync (announced chs n sends s).
Proof.
  intros [[Hs Ho Hk Hn] [Hc Hv Hsub Hp]] Hnd Hnew. unfold sync, announced, with_tables. simpl.
  rewrite tables_set. set (t := tables (world s)) in *.
  assert (∀ i v, emplace_all (zip (channel_id <$> chs) (channel_base <$> chs))
                   (advertised_topics t) !! i = Some v →
    advertised_topics t !! i = Some v ∨
    (advertised_topics t !! i = None ∧ ∃ c, c ∈ chs ∧ i = channel_id c ∧ v = channel_base c)) as Hin.
  { intros i v [?|[Hi Hin]]%emplace_all_Some; [by left|right]. split; [done|].
    rewrite zip_channel_ids in Hin. apply list_elem_of_fmap in Hin as ([i' c] & E & Hin).
    apply list_elem_of_fmap in Hin as (c' & E' & Hin). unfold prod_map, id in E. simplify_eq/=. eauto. }
  split.
  - split; simpl.
    + intros ch Hch. destruct (Hs ch Hch) as [v Hch']. exists v. by apply emplace_all_keep.
    + intros ch hdl sub Hsu. destruct (Ho ch hdl sub Hsu) as (c & Hch & ?). exists c.
      split; [by apply emplace_all_keep|done].
    + intros i j a b Hi Hj E.
      destruct (Hin _ _ Hi) as [Hi'|(_ & c & Hc' & -> & ->)];
        destruct (Hin _ _ Hj) as [Hj'|(_ & d & Hd' & -> & ->)].
      * by eapply Hk.
      * symmetry in E. by destruct (Hnew d i a).
      * by destruct (Hnew c j b).
      * rewrite <-list_fmap_compose in Hnd. f_equal. by eapply (NoDup_key _ chs).
    + done.
  - split; simpl.
    + intros i. rewrite <-lookup_fmap, emplace_all_fmap, zip_channel_ids. f_equal. f_equal.
      apply map_eq. intros j. rewrite lookup_fmap. apply Hc.
    + done.
    + done.
    + intros hdl ch adv Ha. by apply Hp.
Qed.

Lemma announced_inv cs L chs n sends s :
  inv s → add_channels cs L s = (Ret (channel_id <$> chs), add_trace sends (set_srv
       (set_channels (set_next_channel_id (srv s) n)
          (emplace_all ((λ c, (channel_id c, c)) <$> chs) (_channels (srv s)))) s)) →
  inv (announced chs n sends s).
Proof.
  intros Hinv E. pose proof (add_channels_preserves (W:=W) cs L s Hinv) as Hr.
  by rewrite E in Hr.
Qed.

(** After [erase_services] and [remove_services], [add_services] and
    [register_services]. *)
Definition services_retired (ids : list Z) (sends : list event) s : St W :=
  add_trace sends (set_srv (set_services (srv s) (without ids (_services (srv s))))
    (with_tables (λ t, set_known_services t (without ids (known_services t))) s)).

Definition services_announced (svs : list Service) (n : Z) (sends : list event) s : St W :=
  with_tables (λ t, set_known_services t
      (emplace_all (zip (svc_id <$> svs) (service_base <$> svs)) (known_services t)))
    (add_trace sends (set_srv
       (set_services (set_nextService_id (srv s) n)
          (emplace_all ((λ v, (svc_id v, service_base v)) <$> svs) (_services (srv s)))) s)).

Lemma services_retired_both ids sends s : both s → both (services_retired ids sends s).
Proof.
  intros [Hinv [[Hs Ho Hk Hn] [Hc Hv Hsub Hp]]].
  unfold both, sync, inv, services_retired, with_tables. simpl. rewrite tables_set.
  split; [by apply set_services_inv|]. split; split; simpl; try done.
  - intros i j a b. rewrite !without_lookup. do 2 (case_decide; [done|]). apply Hn.
  - by rewrite Hv.
Qed.

Lemma zip_service_ids (svs : list Service) :
  zip (svc_id <$> svs) (service_base <$> svs) = (λ v, (svc_id v, service_base v)) <$> svs.
Proof. induction svs as [|c svs IH]; [done|]. rewrite !fmap_cons. simpl. by f_equal. Qed.

Lemma services_announced_both svs n sends s :
  both s → NoDup (service_name <$> (service_base <$> svs)) →
  (∀ v i a, v ∈ svs → known_services (tables (world s)) !! i = Some a →
     service_name (service_base v) ≠ service_name a) →
  both (services_announced svs n sends s).
Proof.
  intros [Hinv [[Hs Ho Hk Hn] [Hc Hv Hsub Hp]]] Hnd Hnew.
  unfold both, sync, inv, services_announced, with_tables. simpl. rewrite tables_set.
  set (t := tables (world s)) in *.
  split; [by apply (set_services_inv (srv s))|]. split; split; simpl; try done.
  - assert (∀ i v, emplace_all (zip (svc_id <$> svs) (service_base <$> svs)) (known_services t) !! i =
                   Some v →
      known_services t !! i = Some v ∨
      (known_services t !! i = None ∧ ∃ c, c ∈ svs ∧ i = svc_id c ∧ v = service_base c)) as Hin.
    { intros i v [?|[Hi Hin]]%emplace_all_Some; [by left|right]. split; [done|].
      rewrite zip_service_ids in Hin. apply list_elem_of_fmap in Hin as (c & E & Hin).
      simplify_eq. eauto. }
    intros i j a b Hi Hj E.
    destruct (Hin _ _ Hi) as [Hi'|(_ & c & Hc' & -> & ->)];
      destruct (Hin _ _ Hj) as [Hj'|(_ & d & Hd' & -> & ->)].
    + by eapply Hn.
    + symmetry in E. by destruct (Hnew d i a).
    + by destruct (Hnew c j b).
    + rewrite <-list_fmap_compose in Hnd. f_equal. by eapply (NoDup_key _ svs).
  - by rewrite zip_service_ids, Hv.
Qed.

End BothSides.
