(* ===== verification/BridgeRefresh.v ===== *)
(** * Following the ROS graph

    Both bridges follow the ROS graph with the same loop: erase the channels whose
    topic is gone, tell the server, build the channels of the new topics, give them
    to the server and record the ids it returns; and the same for services.  This
    file states what that achieves as a relation between the tables before and
    after ([topics_refreshed], [services_refreshed]) and shows that the loop does
    it, whatever the node builds its channels from. *)

From Stdlib Require Import ZArith Lia.
From S2P Require Import Prelude Wire Json Serialization ServerState ServerMethods ServerLogic.
From S2P Require Import ServerInv ServerSpecs ServerSystem BridgeTables ServerRuns BridgeSync.
From S2P Require Import BridgeUpdate.

Local Open Scope Z_scope.

Lemma is_advertised_false key topics :
  is_advertised key topics = false ↔
  ∀ i c, topics !! i = Some c → channel_key c ≠ key.
Proof.
  unfold is_advertised. rewrite <-not_true_iff_false, any_value_spec. split.
  - intros Hn i c Hi E. apply Hn. exists i, c. by rewrite bool_decide_eq_true_2.
  - intros Hn (i & c & Hi & E%bool_decide_eq_true_1). by destruct (Hn i c).
Qed.

Lemma is_known_service_false name services :
  is_known_service name services = false ↔
  ∀ i c, services !! i = Some c → service_name c ≠ name.
Proof.
  unfold is_known_service. rewrite <-not_true_iff_false, any_value_spec. split.
  - intros Hn i c Hi E. apply Hn. exists i, c. by rewrite bool_decide_eq_true_2.
  - intros Hn (i & c & Hi & E%bool_decide_eq_true_1). by destruct (Hn i c).
Qed.

Lemma NoDup_omap_key {A B C} (f : A → option B) (g : B → C) (k : A → C) (l : list A) :
  (∀ a b, f a = Some b → g b = k a) → NoDup (k <$> l) → NoDup (g <$> omap f l).
Proof.
  intros Hf. induction l as [|a l IH]; [constructor|]. rewrite fmap_cons.
  intros [Hn Hnd]%NoDup_cons. simpl. destruct (f a) as [b|] eqn:E; [|by apply IH].
  rewrite fmap_cons. apply NoDup_cons. split; [|by apply IH].
  intros (b' & Hb & (a' & Ha' & E')%list_elem_of_omap)%list_elem_of_fmap. apply Hn.
  rewrite <-(Hf _ _ E), Hb, (Hf _ _ E'). by apply list_elem_of_fmap_2.
Qed.

Lemma omap_length {A B} (f : A → option B) (l : list A) : (length (omap f l) ≤ length l)%nat.
Proof.
  induction l as [|a l IH]; [done|]. change (omap f (a :: l)) with
    (match f a with Some b => b :: omap f l | None => omap f l end).
  destruct (f a); cbn [length]; lia.
Qed.

Section Refresh.
Context {W Sub Pub : Type} `{!HasTables W Sub Pub} `{!BridgeKind Sub Pub}.
Implicit Types (L : list mutex) (s : St W) (t : Tables Sub Pub) (latest : gset TopicAndDatatype).

(** ** Topics *)

(** The channel a node makes for a topic, if any. *)
Context (channel_for : TopicAndDatatype → option ChannelWithoutId).

Record topics_refreshed latest t t' : Prop := {
  (** what is still there keeps its id *)
  refreshed_kept id c : advertised_topics t !! id = Some c → channel_key c ∈ latest →
    advertised_topics t' !! id = Some c;
  (** nothing else is advertised *)
  refreshed_sound id c : advertised_topics t' !! id = Some c → channel_key c ∈ latest ∧
    (advertised_topics t !! id = Some c ∨ channel_for (channel_key c) = Some c);
  (** the subscriptions on what is still there, and no others *)
  refreshed_subs ch hdl sub : subscription_of t' ch hdl = Some sub ↔
    subscription_of t ch hdl = Some sub ∧
    ∃ c, advertised_topics t !! ch = Some c ∧ channel_key c ∈ latest;
  refreshed_services : known_services t' = known_services t;
  refreshed_pubs : client_advertised_topics t' = client_advertised_topics t
}.

(** Every topic that has a channel, or can have one, is advertised. *)
Definition topics_complete latest t t' : Prop := ∀ key, key ∈ latest →
  (∃ id c, advertised_topics t !! id = Some c ∧ channel_key c = key) ∨ is_Some (channel_for key) →
  ∃ id c, advertised_topics t' !! id = Some c ∧ channel_key c = key.

Definition new_channels (latest : list TopicAndDatatype) (topics : gmap Z ChannelWithoutId) :
    list ChannelWithoutId :=
  omap channel_for (filter (λ key, is_advertised key topics = false) latest).

(** The texts of the channels that topics get are UTF-8. *)
Definition channels_text latest : Prop :=
  ∀ key c, key ∈ latest → channel_for key = Some c → channel_text c = true.

(** The loop, with the part that builds the channels left open. *)
Definition refresh_topics latest (build : list TopicAndDatatype → M W (list ChannelWithoutId)) :
    M W unit :=
  topics ← get_table advertised_topics;
  channel_ids_to_remove ← remove_stale_channels latest (map_to_list topics);
  remove_channels channel_ids_to_remove;;
  channels ← build (elements latest);
  channel_ids ← add_channels channels;
  register_channels channel_ids channels.

(** Building the channels changes the node outside its tables only, and keeps a
    fact [ψ] about it. *)
Definition builds_channels (ψ : W → Prop)
    (build : list TopicAndDatatype → M W (list ChannelWithoutId)) : Prop :=
  ∀ (keys : list TopicAndDatatype) L s, ψ (world s) → ∃ w,
    build keys L s =
      (Ret (new_channels keys (advertised_topics (tables (world s)))),
       mkSt (srv s) (net s) (trace s) w) ∧
    tables w = tables (world s) ∧ ψ w.

Context (Hkey : ∀ key c, channel_for key = Some c → channel_key c = key).

Lemma new_channels_keys (keys : list TopicAndDatatype) topics :
  NoDup keys → NoDup (channel_key <$> new_channels keys topics).
Proof.
  intros Hnd. apply (NoDup_omap_key _ _ id); [exact Hkey|]. rewrite list_fmap_id.
  by apply NoDup_filter.
Qed.

Lemma new_channels_elem (keys : list TopicAndDatatype) topics c :
  c ∈ new_channels keys topics ↔
  channel_key c ∈ keys ∧ is_advertised (channel_key c) topics = false ∧
  channel_for (channel_key c) = Some c.
Proof.
  unfold new_channels. rewrite list_elem_of_omap. split.
  - intros (key & Hin & Hc). rewrite (Hkey _ _ Hc). by apply list_elem_of_filter in Hin as [? ?].
  - intros (Hin & Hadv & Hc). exists (channel_key c). split; [|done]. by apply list_elem_of_filter.
Qed.

(** The ids of stale channels. *)
Lemma stale_ids_elem latest topics id :
  id ∈ stale_ids latest (map_to_list topics) ↔
  ∃ c, topics !! id = Some c ∧ channel_key c ∉ latest.
Proof.
  unfold stale_ids. rewrite list_elem_of_fmap. split.
  - intros ([i c] & -> & [Hn Hin%elem_of_map_to_list]%list_elem_of_filter). eauto.
  - intros (c & Hc & Hn). exists (id, c). split; [done|]. apply list_elem_of_filter.
    split; [done|]. by apply elem_of_map_to_list.
Qed.

Lemma topics_of_stale latest t id c :
  let t1 := erase_channels (stale_ids latest (map_to_list (advertised_topics t))) t in
  advertised_topics t1 !! id = Some c ↔
  advertised_topics t !! id = Some c ∧ channel_key c ∈ latest.
Proof.
  simpl. rewrite without_lookup. case_decide as Hd.
  - apply stale_ids_elem in Hd as (c' & Hc' & Hn). split; [done|]. intros [Hc ?]. congruence.
  - split; [|by intros []]. intros Hc. split; [done|].
    destruct (decide (channel_key c ∈ latest)); [done|]. destruct Hd. apply stale_ids_elem. eauto.
Qed.

(** Erasing, then adding the new channels. *)
Lemma topics_refreshed_intro latest t chs :
  tables_ok t →
  let t1 := erase_channels (stale_ids latest (map_to_list (advertised_topics t))) t in
  channel_base <$> chs = new_channels (elements latest) (advertised_topics t1) →
  topics_refreshed latest t
    (set_topics t1 (emplace_all (zip (channel_id <$> chs) (channel_base <$> chs))
                      (advertised_topics t1))).
Proof.
  intros Hok t1 Hnew. split.
  - intros id c Hc Hl. simpl. apply emplace_all_keep. by apply topics_of_stale.
  - intros id c. cbn [set_topics advertised_topics]. intros [Hc|[_ Hc]]%emplace_all_Some.
    { apply topics_of_stale in Hc as [? ?]. auto. }
    apply elem_of_zip_r in Hc. rewrite Hnew in Hc. apply new_channels_elem in Hc as (Hc & _ & ?).
    apply elem_of_elements in Hc. auto.
  - intros ch hdl sub.
    change (subscription_of (set_topics t1 _) ch hdl) with (subscription_of t1 ch hdl).
    subst t1. rewrite subscription_of_erased. case_decide as Hd.
    + split; [done|]. intros (_ & c & Hc & Hl). apply stale_ids_elem in Hd as (c' & ? & ?). congruence.
    + split; [|by intros []]. intros Hs. split; [done|].
      destruct (ok_sub_on _ Hok ch hdl sub Hs) as (c & Hc & _). exists c. split; [done|].
      destruct (decide (channel_key c ∈ latest)); [done|]. destruct Hd. apply stale_ids_elem. eauto.
  - done.
  - done.
Qed.

(** With ids above those in use, every new channel is recorded. *)
Lemma topics_complete_intro latest t chs m :
  let t1 := erase_channels (stale_ids latest (map_to_list (advertised_topics t))) t in
  let new := new_channels (elements latest) (advertised_topics t1) in
  channel_base <$> chs = new → channel_id <$> chs = channel_id <$> number_channels m new →
  (∀ id c, advertised_topics t1 !! id = Some c → id ≤ m) →
  topics_complete latest t
    (set_topics t1 (emplace_all (zip (channel_id <$> chs) (channel_base <$> chs))
                      (advertised_topics t1))).
Proof.
  intros t1 new Hchs Eids Hbelow key Hin Hex. cbn [set_topics advertised_topics].
  destruct (is_advertised key (advertised_topics t1)) eqn:Eadv.
  { apply any_value_spec in Eadv as (i & c & Hi & Hc). apply bool_decide_eq_true in Hc.
    exists i, c. split; [|done]. by apply emplace_all_keep. }
  destruct Hex as [(i & c & Hi & Hc)|[c Hc]].
  { rewrite is_advertised_false in Eadv. destruct (Eadv i c); [|done].
    apply topics_of_stale. by rewrite Hc. }
  pose proof (Hkey _ _ Hc) as Hck.
  assert (c ∈ new) as Hcn.
  { apply new_channels_elem. rewrite Hck. split_and!; [by apply elem_of_elements|done..]. }
  rewrite <-Hchs in Hcn. apply list_elem_of_fmap in Hcn as (ch & -> & Hch).
  exists (channel_id ch), (channel_base ch). split; [|done]. apply emplace_all_new.
  - rewrite fst_zip by (by rewrite !length_fmap). rewrite Eids. apply number_channels_NoDup.
  - rewrite zip_channel_ids. apply list_elem_of_fmap. exists (channel_id ch, ch).
    split; [done|]. apply list_elem_of_fmap. eauto.
  - apply eq_None_not_Some. intros [c' Hc']. apply Hbelow in Hc'.
    assert (channel_id ch ∈ channel_id <$> number_channels m new)
      as Hid%number_channels_ids by (rewrite <-Eids; by apply list_elem_of_fmap_2). lia.
Qed.

Lemma refresh_topics_run ψ latest build L s :
  (∀ t w, ψ w → ψ (set_tables t w)) → builds_channels ψ build →
  channels_mutex ∉ L → clients_mutex ∉ L → channels_text latest → both s → ψ (world s) →
  ∃ s', refresh_topics latest build L s = (Ret tt, s') ∧ both s' ∧ ψ (world s') ∧
    net s' = net s ∧ topics_refreshed latest (tables (world s)) (tables (world s')) ∧
    (ids_below_next (srv s) → _next_channel_id (srv s) + Z.of_nat (size latest) < 2 ^ 32 →
     topics_complete latest (tables (world s)) (tables (world s')) ∧ ids_below_next (srv s')).
Proof.
  intros Hψ Hbuild HL1 HL2 Htext Hboth Hw. unfold refresh_topics.
  rewrite bind_get_table_run. erewrite bind_run by apply remove_stale_channels_run.
  set (t := tables (world s)) in *.
  set (ids := stale_ids latest (map_to_list (advertised_topics t))).
  destruct (remove_channels_any ids L (with_tables (erase_channels ids) s)) as (sends & Hsends & E);
    [done..|].
  erewrite bind_run by exact E. clear E.
  change (add_trace sends _) with (retired ids sends s). set (s1 := retired ids sends s).
  assert (both s1) as Hboth1 by (by apply retired_both).
  assert (tables (world s1) = erase_channels ids t) as Ht1 by apply tables_set.
  destruct (Hbuild (elements latest) L s1) as (w & Eb & Htw & Hψw); [by apply Hψ|].
  rewrite Ht1 in Eb, Htw. erewrite bind_run by exact Eb. clear Eb. set (s2 := mkSt _ _ _ w).
  set (new := new_channels _ _).
  assert (both s2) as Hboth2.
  { destruct Hboth1 as [Hi [Ho Hs]]. split; [exact Hi|]. unfold sync. simpl. rewrite Htw, <-Ht1. done. }
  destruct (add_channels_any new L s2) as (chs & n & sends' & Hchs & _ & E); [done..| |].
  { apply Forall_forall. intros c (Hin & _ & Hc)%new_channels_elem.
    by eapply Htext; [apply elem_of_elements|]. }
  pose proof E as Eadd. erewrite bind_run by exact E. clear E.
  rewrite register_channels_run by (by rewrite <-Hchs, !length_fmap).
  rewrite <-Hchs. change (with_tables _ _) with (announced chs n sends' s2).
  assert (tables (world s2) = erase_channels ids t) as Ht2 by exact Htw.
  exists (announced chs n sends' s2).
  assert (tables (world (announced chs n sends' s2)) = set_topics (erase_channels ids t)
    (emplace_all (zip (channel_id <$> chs) (channel_base <$> chs))
       (advertised_topics (erase_channels ids t)))) as Ht3.
  { unfold announced, with_tables. cbn [world]. rewrite tables_set. cbn [world add_trace set_srv].
    by rewrite Ht2. }
  split; [done|]. split_and!.
  - split; [by apply (announced_inv _ _ _ _ _ _ (proj1 Hboth2) Eadd)|].
    apply announced_sync; [apply Hboth2| |].
    + rewrite Hchs. apply new_channels_keys, NoDup_elements.
    + rewrite Ht2. intros c i a Hc Ha E.
      assert (channel_base c ∈ new) as Hin by (rewrite <-Hchs; by apply list_elem_of_fmap_2).
      apply new_channels_elem in Hin as (_ & Hadv & _).
      rewrite is_advertised_false in Hadv. by apply (Hadv i a).
  - unfold announced, with_tables. cbn [world]. apply Hψ, Hψw.
  - done.
  - rewrite Ht3. apply topics_refreshed_intro; [apply Hboth|done].
  - intros Hids Hb.
    assert (ids_below_next (srv s2)) as Hids2.
    { destruct Hids as [? Hids]. split; [done|]. intros id. simpl. rewrite without_lookup.
      case_decide; [by intros []|]. apply Hids. }
    assert (length new ≤ size latest)%nat as Hlen.
    { unfold new, new_channels. etrans; [apply omap_length|]. apply length_filter. }
    assert (_next_channel_id (srv s2) + Z.of_nat (length new) < 2 ^ 32) as Hb2.
    { change (_next_channel_id (srv s2)) with (_next_channel_id (srv s)). lia. }
    destruct (add_channels_fresh _ _ _ _ _ HL1 HL2 Hids2 Hb2 Eadd) as [Eids Hids'].
    split; [|exact Hids'].
    rewrite Ht3. apply (topics_complete_intro latest t chs (_next_channel_id (srv s2))); [done..|].
    intros id c Hc. apply (proj2 Hids2). destruct Hboth2 as [_ [_ Hsy]].
    apply (fmap_is_Some channel_base). rewrite (sync_channels _ _ Hsy), Ht2. by eexists.
Qed.

(** ** Services *)

(** What the node is told of a service, its name, and the service made of it. *)
Context {A : Type} (name_of : A → string) (service_for : A → option ServiceWithoutId).

Definition new_services (entries : list A) (services : gmap Z ServiceWithoutId) :
    list ServiceWithoutId :=
  omap service_for (filter (λ e, is_known_service (name_of e) services = false) entries).

Record services_refreshed (entries : list A) t t' : Prop := {
  services_kept id v : known_services t !! id = Some v → service_name v ∈ name_of <$> entries →
    known_services t' !! id = Some v;
  services_sound id v : known_services t' !! id = Some v →
    service_name v ∈ name_of <$> entries ∧
    (known_services t !! id = Some v ∨ ∃ e, e ∈ entries ∧ service_for e = Some v);
  services_topics : advertised_topics t' = advertised_topics t;
  services_subs : subscriptions t' = subscriptions t;
  services_pubs : client_advertised_topics t' = client_advertised_topics t
}.

Definition refresh_services (entries : list A) (build : list A → M W (list ServiceWithoutId)) :
    M W unit :=
  services ← get_table known_services;
  let services_to_remove := stale_services (name_of <$> entries) services in
  erase_services services_to_remove;;
  remove_services services_to_remove;;
  new_services ← build entries;
  service_ids ← add_services new_services;
  register_services service_ids new_services.

Definition services_text (entries : list A) : Prop :=
  ∀ e v, e ∈ entries → service_for e = Some v → service_text v = true.

(** Building may fail; when it returns, it returns the new services. *)
Definition builds_services (ψ : W → Prop) (build : list A → M W (list ServiceWithoutId)) : Prop :=
  ∀ (entries : list A) L s, ψ (world s) → ∃ o w,
    build entries L s = (o, mkSt (srv s) (net s) (trace s) w) ∧
    tables w = tables (world s) ∧ ψ w ∧
    ∀ l, o = Ret l → l = new_services entries (known_services (tables (world s))).

Context (Hname : ∀ e v, service_for e = Some v → service_name v = name_of e).

Lemma new_services_elem entries services v :
  v ∈ new_services entries services → ∃ e, e ∈ entries ∧ service_for e = Some v ∧
    service_name v = name_of e ∧ is_known_service (name_of e) services = false.
Proof.
  unfold new_services. rewrite list_elem_of_omap. intros (e & [? ?]%list_elem_of_filter & Hv).
  exists e. by split_and!; [..|apply Hname|].
Qed.

Lemma new_services_names entries services :
  NoDup (name_of <$> entries) → NoDup (service_name <$> new_services entries services).
Proof.
  intros Hnd. apply (NoDup_omap_key _ _ name_of); [exact Hname|].
  eapply sublist_NoDup; [exact Hnd|]. apply fmap_sublist, sublist_filter.
Qed.

Lemma stale_services_elem names services id :
  id ∈ stale_services names services ↔
  ∃ v, services !! id = Some v ∧ service_name v ∉ names.
Proof.
  unfold stale_services. rewrite list_elem_of_fmap. split.
  - intros ([i c] & -> & [Hn Hin%elem_of_map_to_list]%list_elem_of_filter). eauto.
  - intros (c & Hc & Hn). exists (id, c). split; [done|]. apply list_elem_of_filter.
    split; [done|]. by apply elem_of_map_to_list.
Qed.

Lemma services_of_stale names services id v :
  without (stale_services names services) services !! id = Some v ↔
  services !! id = Some v ∧ service_name v ∈ names.
Proof.
  rewrite without_lookup. case_decide as Hd.
  - apply stale_services_elem in Hd as (c' & Hc' & Hn). split; [done|]. intros [Hc ?]. congruence.
  - split; [|by intros []]. intros Hc. split; [done|].
    destruct (decide (service_name v ∈ names)); [done|]. destruct Hd. apply stale_services_elem. eauto.
Qed.

Lemma services_refreshed_intro entries t svs :
  let t1 := set_known_services t
    (without (stale_services (name_of <$> entries) (known_services t)) (known_services t)) in
  (∀ v, v ∈ service_base <$> svs → v ∈ new_services entries (known_services t1)) →
  services_refreshed entries t
    (set_known_services t1 (emplace_all (zip (svc_id <$> svs) (service_base <$> svs))
                              (known_services t1))).
Proof.
  intros t1 Hnew. split; try done.
  - intros id v Hv Hl. simpl. apply emplace_all_keep. by apply services_of_stale.
  - intros id v. cbn [set_known_services known_services].
    intros [Hv|[_ Hv]]%emplace_all_Some.
    { apply services_of_stale in Hv as [? ?]. auto. }
    apply elem_of_zip_r, Hnew, new_services_elem in Hv as (e & He & Hv & -> & _).
    split; [by apply list_elem_of_fmap_2|]. eauto.
Qed.

Lemma refresh_services_run ψ entries build L s :
  (∀ t w, ψ w → ψ (set_tables t w)) → builds_services ψ build →
  services_mutex ∉ L → clients_mutex ∉ L → NoDup (name_of <$> entries) →
  services_text entries → both s → ψ (world s) →
  ∃ o s', refresh_services entries build L s = (o, s') ∧ both s' ∧ ψ (world s') ∧
    net s' = net s ∧ services_refreshed entries (tables (world s)) (tables (world s')).
Proof.
  intros Hψ Hbuild HL1 HL2 Hnd Htext Hboth Hw. unfold refresh_services.
  rewrite bind_get_table_run. cbv zeta. erewrite bind_run by apply erase_services_run.
  set (t := tables (world s)) in *. set (ids := stale_services _ _).
  destruct (remove_services_any ids L
    (with_tables (λ t, set_known_services t (without ids (known_services t))) s))
    as (sends & Hsends & E); [done..|].
  erewrite bind_run by exact E. clear E.
  change (add_trace sends _) with (services_retired ids sends s).
  set (s1 := services_retired ids sends s).
  assert (both s1) as Hboth1 by (by apply services_retired_both).
  set (t1 := set_known_services t (without ids (known_services t))).
  assert (tables (world s1) = t1) as Ht1 by apply tables_set.
  destruct (Hbuild entries L s1) as (o & w & Eb & Htw & Hψw & Hnew); [by apply Hψ|].
  rewrite Ht1 in Hnew, Htw. set (s2 := mkSt (srv s1) (net s1) (trace s1) w) in *.
  assert (both s2) as Hboth2.
  { destruct Hboth1 as [Hi [Ho Hs]]. split; [exact Hi|]. unfold sync. simpl. by rewrite Htw, <-Ht1. }
  assert (∀ l, (∀ v, v ∈ service_base <$> l → v ∈ new_services entries (known_services t1)) →
    services_refreshed entries t (set_known_services t1
      (emplace_all (zip (svc_id <$> l) (service_base <$> l)) (known_services t1)))) as Hr
    by (intros l; apply services_refreshed_intro).
  destruct o as [new|e|].
  2,3: unfold mbind at 1, M_mbind, M_bind; rewrite Eb; eexists _, s2; split_and!; try done;
    change (world s2) with w; rewrite Htw; by apply (Hr []); intros ? ?%not_elem_of_nil.
  erewrite bind_run by exact Eb.
  specialize (Hnew new eq_refl).
  destruct (add_services_any new L s2) as (svs & n & sends' & Hsvs & _ & E); [done..| |].
  { apply Forall_forall. rewrite Hnew. intros v (e & He & Hv & _)%new_services_elem. by eapply Htext. }
  erewrite bind_run by exact E. clear E.
  rewrite register_services_run by (by rewrite <-Hsvs, !length_fmap).
  rewrite <-Hsvs. change (with_tables _ _) with (services_announced svs n sends' s2).
  eexists _, _. split; [done|].
  assert (tables (world (services_announced svs n sends' s2)) = set_known_services t1
    (emplace_all (zip (svc_id <$> svs) (service_base <$> svs)) (known_services t1))) as Ht3.
  { unfold services_announced, with_tables. cbn [world]. rewrite tables_set.
    cbn [world add_trace set_srv s2]. by rewrite Htw. }
  split_and!; [|by apply Hψ|done|].
  - apply services_announced_both; [done| |].
    + rewrite Hsvs, Hnew. by apply new_services_names.
    + simpl. rewrite Htw. intros v i a Hv Ha E.
      assert (service_base v ∈ new) as Hin by (rewrite <-Hsvs; by apply list_elem_of_fmap_2).
      rewrite Hnew in Hin. apply new_services_elem in Hin as (e & _ & _ & Hn & Hk).
      rewrite is_known_service_false in Hk. apply (Hk i a); congruence.
  - rewrite Ht3. apply Hr. rewrite Hsvs, Hnew. done.
Qed.

End Refresh.
