(* ===== verification/GenericClient.v ===== *)
(** * Type support and the generic service client of the ROS 2 bridge

    [typesupport_helpers.cpp] and [generic_client.cpp]: the names of the libraries
    and symbols of a type, the construction of a client from them, and the
    requests that wait for a response.  The package index, the shared libraries
    and rcl are the parameter [rcl_env]. *)

From Stdlib Require Import ZArith Lia.
From Stdlib Require Import Strings.Ascii.
From S2P Require Import Prelude Text Json Serialization ServerState ParameterInterface.

Local Open Scope Z_scope.
#[local] Arguments String.append !s1 s2 /.

Record rcl_env := {
  (** [ament_index_cpp::get_package_prefix]; [inl] is the [what()] of a
      [PackageNotFoundError] *)
  get_package_prefix : string → string + string;
  (** the constructor of [rcpputils::SharedLibrary]: what it throws, if it does *)
  load_library : string → option exn;
  (** the symbols of the library at a path, and what [get_symbol] throws without *)
  has_symbol : string → string → bool;
  get_symbol_error : string → string → exn;
  (** [rcl_client_init] with the service name; an error that is thrown *)
  rcl_client_init : string → option exn;
  (** [rmw_deserialize] of a request of a type *)
  rmw_deserialize : string → list byte → bool;
  (** [rcl_send_request]: the sequence number *)
  rcl_send_request : string → list byte → outcome Z;
  (** [throw_from_rcl_error] *)
  rcl_error : Z → string → exn
}.

(** ** Types and symbols *)

(** The text before and after the last separator; [package_name] ends at the
    first one. *)
Definition extract_type_identifier (full_type : string) : outcome (string * string * string) :=
  match split_last full_type with
  | None => Throw (RuntimeError
      "Message type is not of the form package/type and cannot be processed")
  | Some (before, type_name) =>
      if str_empty before || str_empty type_name
      then Throw (RuntimeError
             "Message type is not of the form package/type and cannot be processed")
      else
        match str_find "/" before with
        | None => Ret (before, EmptyString, type_name)
        | Some (package_name, middle_module) => Ret (package_name, middle_module, type_name)
        end
  end.

Definition extract_type_and_package (full_type : string) : outcome (string * string) :=
  '(package_name, _, type_name) ← extract_type_identifier full_type;
  Ret (package_name, type_name).

Definition TYPESUPPORT_INTROSPECTION_LIB_NAME : string := "rosidl_typesupport_introspection_cpp".
Definition TYPESUPPORT_LIB_NAME : string := "rosidl_typesupport_cpp".

Definition default_module (middle_module default : string) : string :=
  if str_empty middle_module then default else middle_module.

Definition get_type_introspection_symbol_name (serviceType : string) : outcome string :=
  '(pkg_name, middle_module, type_name) ← extract_type_identifier serviceType;
  Ret (TYPESUPPORT_INTROSPECTION_LIB_NAME +:+ "__get_service_type_support_handle__" +:+
       pkg_name +:+ "__" +:+ default_module middle_module "srv" +:+ "__" +:+ type_name).

Definition length_prefixed_string (s : string) : string :=
  to_string (Z.of_nat (String.length s)) +:+ s.

Definition get_service_type_support_handle_symbol_name (service_type : string) : outcome string :=
  '(pkg_name, middle_module, type_name) ← extract_type_identifier service_type;
  Ret ("_ZN" +:+ length_prefixed_string TYPESUPPORT_LIB_NAME +:+
       length_prefixed_string "get_service_type_support_handle" +:+ "IN" +:+
       length_prefixed_string pkg_name +:+
       length_prefixed_string (default_module middle_module "srv") +:+
       length_prefixed_string type_name +:+ "EEEPK" +:+
       length_prefixed_string "rosidl_service_type_support_t" +:+ "v").

(** ** Loading *)

Section Rcl.
Context (rcl : rcl_env).

(** The Linux branch. *)
Definition get_typesupport_library_path (package_name typesupport_identifier : string) :
    outcome string :=
  match get_package_prefix rcl package_name with
  | inl what => Throw (RuntimeError what)
  | inr package_prefix =>
      Ret (package_prefix +:+ "/lib/" +:+ "lib" +:+ package_name +:+ "__" +:+
           typesupport_identifier +:+ ".so")
  end.

(** The path stands for the library. *)
Definition get_typesupport_library (type typesupport_identifier : string) : outcome string :=
  '(package_name, _, _) ← extract_type_identifier type;
  library_path ← get_typesupport_library_path package_name typesupport_identifier;
  match load_library rcl library_path with
  | Some e => Throw e
  | None => Ret library_path
  end.

(** [get_symbol] throws when there is none, and the [catch] block rewrites the
    message. *)
Definition get_typesupport_handle (type typesupport_identifier library : string) :
    outcome string :=
  '(package_name, middle_module, type_name) ← extract_type_identifier type;
  let symbol_name :=
    typesupport_identifier +:+ "__get_message_type_support_handle__" +:+ package_name +:+ "__" +:+
    default_module middle_module "msg" +:+ "__" +:+ type_name in
  if has_symbol rcl library symbol_name then Ret symbol_name
  else Throw (RuntimeError
    ("Something went wrong loading the typesupport library for message type " +:+ package_name +:+
     "/" +:+ type_name +:+ "." +:+ " Library could not be found.")).

(** ** The client *)

(** [C] is the type of callbacks. *)
Record GenericClient (C : Type) := {
  gc_service_name : string;
  gc_service_type : string;
  pending_requests_ : gmap Z C
}.

Context {C : Type}.

Definition new_GenericClient (service_name service_type : string) : outcome (GenericClient C) :=
  extract_type_identifier service_type;;
  let request_type_name := service_type +:+ "_Request" in
  let response_type_name := service_type +:+ "_Response" in
  type_support_lib ← get_typesupport_library service_type TYPESUPPORT_LIB_NAME;
  type_introspection_lib ←
    get_typesupport_library service_type TYPESUPPORT_INTROSPECTION_LIB_NAME;
  type_support_symbol_name ← get_service_type_support_handle_symbol_name service_type;
  if negb (has_symbol rcl type_support_lib type_support_symbol_name)
  then Throw (RuntimeError ("Failed to find symbol '" +:+ type_support_symbol_name +:+ "' in " +:+
                            type_support_lib))
  else
    type_introspection_symbol_name ← get_type_introspection_symbol_name service_type;
    if negb (has_symbol rcl type_introspection_lib type_introspection_symbol_name)
    then Throw (get_symbol_error rcl type_introspection_lib type_introspection_symbol_name)
    else
      get_typesupport_handle request_type_name TYPESUPPORT_LIB_NAME type_support_lib;;
      get_typesupport_handle response_type_name TYPESUPPORT_LIB_NAME type_support_lib;;
      match rcl_client_init rcl service_name with
      | Some e => Throw e
      | None => Ret {| gc_service_name := service_name; gc_service_type := service_type;
                       pending_requests_ := ∅ |}
      end.

Definition set_pending (m : gmap Z C) (c : GenericClient C) : GenericClient C :=
  {| gc_service_name := gc_service_name C c; gc_service_type := gc_service_type C c;
     pending_requests_ := m |}.

Definition RCL_RET_ERROR : Z := 1.

(** [ret] is the truth value of [rmw_deserialize(...) != RCL_RET_OK]: 1 when it
    failed, whatever it returned.  The result is the sequence number and the
    client that waits. *)
Definition async_send_request (request : list byte) (cb : C) (c : GenericClient C) :
    outcome (Z * GenericClient C) :=
  if negb (rmw_deserialize rcl (gc_service_type C c) request)
  then Throw (rcl_error rcl RCL_RET_ERROR "failed to desirialize request")
  else
    sequence_number ← rcl_send_request rcl (gc_service_name C c) request;
    Ret (sequence_number,
         set_pending (<[sequence_number := cb]> (pending_requests_ C c)) c).

(** [ser_response] is what [rmw_serialize] made of the response, [None] when it
    failed.  The second component is the callback that is run, with its result. *)
Definition handle_response (sequence_number : Z) (ser_response : option (list byte))
    (c : GenericClient C) : GenericClient C * option (C * list byte) :=
  match ser_response with
  | None => (c, None)
  | Some bytes =>
      match pending_requests_ C c !! sequence_number with
      | None => (c, None)
      | Some callback =>
          (set_pending (delete sequence_number (pending_requests_ C c)) c, Some (callback, bytes))
      end
  end.

End Rcl.
Arguments gc_service_name {C}.
Arguments gc_service_type {C}.
Arguments pending_requests_ {C}.
Arguments Build_GenericClient {C}.
Arguments set_pending {C}.
Arguments handle_response {C}.
Arguments async_send_request rcl {C}.
Arguments new_GenericClient rcl {C}.

(** ** Symbol names are unambiguous *)

Definition is_digit (c : ascii) : bool := ascii_between "0" "9" c.

(** A name that can follow its length: the digits end where it starts. *)
Definition starts_no_digit (s : string) : bool :=
  match s with String c _ => negb (is_digit c) | EmptyString => false end.

Lemma pretty_N_char_digit n : is_digit (pretty_N_char (n mod 10)) = true.
Proof.
  assert (n mod 10 < 10)%N as Hn by (by apply N.mod_upper_bound).
  generalize dependent (n mod 10)%N. intros m Hm.
  assert (m = 0 ∨ m = 1 ∨ m = 2 ∨ m = 3 ∨ m = 4 ∨ m = 5 ∨ m = 6 ∨ m = 7 ∨ m = 8 ∨ m = 9)%N as E
    by lia.
  by repeat destruct E as [->|E]; [..|subst m].
Qed.

Lemma pretty_N_go_digits x s :
  str_forall is_digit s = true → str_forall is_digit (pretty_N_go x s) = true.
Proof.
  revert s. induction (N.lt_wf_0 x) as [x _ IH]; intros s Hs.
  destruct (decide (x = 0)%N) as [->|Hx]; [done|].
  rewrite pretty_N_go_step by lia. apply IH; [apply N.div_lt; lia|].
  cbn [str_forall]. by rewrite pretty_N_char_digit.
Qed.

Lemma to_string_nat_digits n : str_forall is_digit (to_string (Z.of_nat n)) = true.
Proof.
  destruct n as [|n]; [done|]. unfold to_string, pretty, pretty_Z. simpl.
  unfold pretty_positive, pretty, pretty_N. rewrite decide_False by done.
  by apply pretty_N_go_digits.
Qed.

(** Digits followed by something else are split in one way. *)
Lemma digits_app_inj (d1 d2 r1 r2 : string) :
  str_forall is_digit d1 = true → str_forall is_digit d2 = true →
  starts_no_digit r1 = true → starts_no_digit r2 = true →
  d1 +:+ r1 = d2 +:+ r2 → d1 = d2 ∧ r1 = r2.
Proof.
  revert d2. induction d1 as [|c1 d1 IH]; intros [|c2 d2]; simpl; intros H1 H2 Hr1 Hr2 E.
  - done.
  - subst r1. simpl in Hr1. apply andb_prop in H2 as [H2 _]. by rewrite H2 in Hr1.
  - subst r2. simpl in Hr2. apply andb_prop in H1 as [H1 _]. by rewrite H1 in Hr2.
  - apply andb_prop in H1 as [_ H1]. apply andb_prop in H2 as [_ H2].
    injection E as -> E. by destruct (IH d2 H1 H2 Hr1 Hr2 E) as [-> ->].
Qed.

Lemma str_app_inj (s1 s2 r1 r2 : string) :
  String.length s1 = String.length s2 → s1 +:+ r1 = s2 +:+ r2 → s1 = s2 ∧ r1 = r2.
Proof.
  revert s2. induction s1 as [|c1 s1 IH]; intros [|c2 s2]; simpl; try done.
  intros [= Hl] [= -> E]. by destruct (IH s2 Hl E) as [-> ->].
Qed.

Lemma starts_no_digit_app s r : starts_no_digit s = true → starts_no_digit (s +:+ r) = true.
Proof. by destruct s. Qed.

Lemma length_prefixed_inj s1 s2 r1 r2 :
  starts_no_digit s1 = true → starts_no_digit s2 = true →
  length_prefixed_string s1 +:+ r1 = length_prefixed_string s2 +:+ r2 → s1 = s2 ∧ r1 = r2.
Proof.
  unfold length_prefixed_string. intros H1 H2. rewrite !str_app_assoc. intros E.
  apply digits_app_inj in E as [Hlen E];
    auto using to_string_nat_digits, starts_no_digit_app.
  apply (inj pretty) in Hlen. apply Nat2Z.inj in Hlen. by apply str_app_inj.
Qed.

Definition identifier_ok (i : string * string * string) : bool :=
  let '(pkg, mid, type) := i in
  starts_no_digit pkg && starts_no_digit (default_module mid "srv") && starts_no_digit type.

(** Two service types, written [package/srv/Type] or [package/Type] with names that
    do not start with a digit, have the same type support symbol only if package,
    module ([srv] when it is left out) and type are the same. *)
Theorem service_symbols_unambiguous (t1 t2 sym : string) p1 m1 n1 p2 m2 n2 :
  extract_type_identifier t1 = Ret (p1, m1, n1) → extract_type_identifier t2 = Ret (p2, m2, n2) →
  identifier_ok (p1, m1, n1) = true → identifier_ok (p2, m2, n2) = true →
  get_service_type_support_handle_symbol_name t1 = Ret sym →
  get_service_type_support_handle_symbol_name t2 = Ret sym →
  p1 = p2 ∧ default_module m1 "srv" = default_module m2 "srv" ∧ n1 = n2.
Proof.
  intros E1 E2 [[Hp1 Hm1]%andb_prop Hn1]%andb_prop [[Hp2 Hm2]%andb_prop Hn2]%andb_prop.
  unfold get_service_type_support_handle_symbol_name. rewrite E1, E2. simpl_bind.
  intros [= <-] [= E].
  apply length_prefixed_inj in E as [-> E]; [|done..].
  apply length_prefixed_inj in E as [Hm E]; [|done..].
  by apply length_prefixed_inj in E as [-> _].
Qed.

Lemma service_symbols_unambiguous_witness :
  get_service_type_support_handle_symbol_name "test_msgs/srv/BasicTypes" =
    Ret ("_ZN22rosidl_typesupport_cpp31get_service_type_support_handleIN9test_msgs3srv10BasicTypes"
         +:+ "EEEPK29rosidl_service_type_support_tv") ∧
  "test_msgs" = "test_msgs" ∧ default_module "srv" "srv" = default_module EmptyString "srv" ∧
  "BasicTypes" = "BasicTypes".
Proof.
  split; [vm_compute; reflexivity|].
  apply (service_symbols_unambiguous "test_msgs/srv/BasicTypes" "test_msgs/BasicTypes"
    ("_ZN22rosidl_typesupport_cpp31get_service_type_support_handleIN9test_msgs3srv10BasicTypes"
         +:+ "EEEPK29rosidl_service_type_support_tv"));
    vm_compute; reflexivity.
Defined.
