(* ===== verification/Ros2Bridge.v ===== *)
(** * The ROS 2 bridge node

    [ros2_bridge.cpp], [ros2_bridge.hpp]: the node's members, the handlers it
    gives to the server, the threads that poll the ROS graph and fetch assets, and
    its construction.  rclcpp, the ROS graph and the resource retriever are the
    record [RosEnv] in the state of the node, which may change between two steps;
    members only the constructor writes are the record [Config].  A [std::map] of
    the ROS graph is an association list in the order of its keys. *)

From Stdlib Require Import ZArith Lia.
From Stdlib Require Import Strings.Ascii.
From S2P Require Import Prelude Wire Json Serialization ServerState ServerMethods ServerLogic.
From S2P Require Import Text MessageDefinitionCache ParameterInterface BridgeParams.
From S2P Require Import BridgeTables GenericClient.

Local Open Scope Z_scope.
#[local] Arguments String.append !s1 s2 /.

Module Ros2Node.

(** ** rclcpp *)

Inductive HistoryPolicy := HISTORY_SYSTEM_DEFAULT | KEEP_LAST | KEEP_ALL | HISTORY_UNKNOWN.
Inductive ReliabilityPolicy :=
| RELIABILITY_SYSTEM_DEFAULT | RELIABLE | BEST_EFFORT | RELIABILITY_UNKNOWN.
Inductive DurabilityPolicy :=
| DURABILITY_SYSTEM_DEFAULT | TRANSIENT_LOCAL | VOLATILE | DURABILITY_UNKNOWN.

#[export] Instance HistoryPolicy_eq_dec : EqDecision HistoryPolicy.
Proof. solve_decision. Defined.
#[export] Instance ReliabilityPolicy_eq_dec : EqDecision ReliabilityPolicy.
Proof. solve_decision. Defined.
#[export] Instance DurabilityPolicy_eq_dec : EqDecision DurabilityPolicy.
Proof. solve_decision. Defined.

Record QoS := {
  history : HistoryPolicy;
  depth : Z;
  reliability : ReliabilityPolicy;
  durability : DurabilityPolicy
}.

(** [rclcpp::SystemDefaultsQoS()]. *)
Definition SystemDefaultsQoS : QoS :=
  {| history := HISTORY_SYSTEM_DEFAULT; depth := 0; reliability := RELIABILITY_SYSTEM_DEFAULT;
     durability := DURABILITY_SYSTEM_DEFAULT |}.

Record TopicEndpointInfo := {
  endpoint_node_name : string;
  endpoint_node_namespace : string;
  qos_profile : QoS
}.

(** A subscription and a publisher of the node. *)
Record Subscription := { sub_topic : string; sub_datatype : string; sub_qos : QoS }.
Record Publisher := { pub_topic : string; pub_type : string; pub_qos : QoS }.

(** What the node does to ROS. *)
Inductive ros_event :=
| RosPublish (topic : string) (payload : list byte)
| RosServiceCall (service : string) (sequence_number : Z) (payload : list byte)
| RosSetParameters (requests : list (string * list RosParameter)).

Abbreviation NamesAndTypes := (list (string * list string)).

(** A function with result [option exn] says what the call throws, if it does. *)
Record RosEnv := {
  rclcpp_ok : bool;
  get_topic_names_and_types : outcome NamesAndTypes;
  get_service_names_and_types : outcome NamesAndTypes;
  get_publishers_info_by_topic : string → outcome (list TopicEndpointInfo);
  get_subscriptions_info_by_topic : string → outcome (list TopicEndpointInfo);
  get_service_names_and_types_by_node : string → string → outcome NamesAndTypes;
  create_generic_subscription : string → string → QoS → option exn;
  create_generic_publisher : string → string → QoS → option exn;
  publish : string → list byte → option exn;
  wait_for_service : string → bool;
  add_client : string → option exn;
  (** [resource_retriever::Retriever::get] *)
  retrieve : string → outcome (list byte);
  now_nanoseconds : Z;
  rcl : rcl_env;
  (** the parameter services of the nodes, and the names of the nodes *)
  parameter_graph : ros_graph
}.

(** ** The node *)

(** The members the constructor sets and nothing changes; [ament] and [fuel] are
    the package index and the recursion bound of the message definition cache. *)
Record Config := {
  _topic_whitelist_patterns : list regex;
  _service_whitelist_patterns : list regex;
  _asset_uri_allowlist_patterns : list regex;
  _min_qos_depth : Z;
  _max_qos_depth : Z;
  _use_sim_time : bool;
  _capabilities : list string;
  _include_hidden : bool;
  node_name : string;
  node_namespace : string;
  ament : ament_index;
  fuel : nat
}.

(** The data of the callback [response_received_callback]. *)
Abbreviation ResponseCallback := (ServiceRequest * ConnHandle)%type.

Record Node := {
  node_tables : Tables Subscription Publisher;
  _service_clients : gmap Z (GenericClient ResponseCallback);
  _message_definition_cache : spec_cache;
  _param_interface : option ParameterInterface;
  _subscribe_graph_updates : bool;
  (** the callbacks of [_fetch_asset_queue] that have not run *)
  _fetch_asset_queue : list (string * Z * ConnHandle);
  ros_log : list ros_event;
  env : RosEnv
}.

Section NodeSetters.
Context (n : Node).

Definition set_node_tables (t : Tables Subscription Publisher) : Node :=
  {| node_tables := t; _service_clients := _service_clients n;
     _message_definition_cache := _message_definition_cache n;
     _param_interface := _param_interface n;
     _subscribe_graph_updates := _subscribe_graph_updates n;
     _fetch_asset_queue := _fetch_asset_queue n; ros_log := ros_log n; env := env n |}.
Definition set_service_clients (m : gmap Z (GenericClient ResponseCallback)) : Node :=
  {| node_tables := node_tables n; _service_clients := m;
     _message_definition_cache := _message_definition_cache n;
     _param_interface := _param_interface n;
     _subscribe_graph_updates := _subscribe_graph_updates n;
     _fetch_asset_queue := _fetch_asset_queue n; ros_log := ros_log n; env := env n |}.
Definition set_cache (c : spec_cache) : Node :=
  {| node_tables := node_tables n; _service_clients := _service_clients n;
     _message_definition_cache := c; _param_interface := _param_interface n;
     _subscribe_graph_updates := _subscribe_graph_updates n;
     _fetch_asset_queue := _fetch_asset_queue n; ros_log := ros_log n; env := env n |}.
Definition set_param_interface (p : option ParameterInterface) : Node :=
  {| node_tables := node_tables n; _service_clients := _service_clients n;
     _message_definition_cache := _message_definition_cache n; _param_interface := p;
     _subscribe_graph_updates := _subscribe_graph_updates n;
     _fetch_asset_queue := _fetch_asset_queue n; ros_log := ros_log n; env := env n |}.
Definition set_graph_updates (b : bool) : Node :=
  {| node_tables := node_tables n; _service_clients := _service_clients n;
     _message_definition_cache := _message_definition_cache n;
     _param_interface := _param_interface n; _subscribe_graph_updates := b;
     _fetch_asset_queue := _fetch_asset_queue n; ros_log := ros_log n; env := env n |}.
Definition set_fetch_queue (q : list (string * Z * ConnHandle)) : Node :=
  {| node_tables := node_tables n; _service_clients := _service_clients n;
     _message_definition_cache := _message_definition_cache n;
     _param_interface := _param_interface n;
     _subscribe_graph_updates := _subscribe_graph_updates n; _fetch_asset_queue := q;
     ros_log := ros_log n; env := env n |}.
Definition log_ros (e : ros_event) : Node :=
  {| node_tables := node_tables n; _service_clients := _service_clients n;
     _message_definition_cache := _message_definition_cache n;
     _param_interface := _param_interface n;
     _subscribe_graph_updates := _subscribe_graph_updates n;
     _fetch_asset_queue := _fetch_asset_queue n; ros_log := ros_log n ++ [e]; env := env n |}.
Definition set_env (e : RosEnv) : Node :=
  {| node_tables := node_tables n; _service_clients := _service_clients n;
     _message_definition_cache := _message_definition_cache n;
     _param_interface := _param_interface n;
     _subscribe_graph_updates := _subscribe_graph_updates n;
     _fetch_asset_queue := _fetch_asset_queue n; ros_log := ros_log n; env := e |}.

End NodeSetters.

#[export, refine] Instance node_has_tables : HasTables Node Subscription Publisher :=
  {| tables := node_tables; set_tables t n := set_node_tables n t |}.
Proof. all: by intros; destruct w. Defined.

(** A call into rclcpp that may throw. *)
Definition ros_call (e : option exn) : outcome unit :=
  match e with Some e => Throw e | None => Ret tt end.

(** A name of the form [_x] or [a/_x/b]. *)
Definition is_hidden_topic_or_service (name : string) : outcome bool :=
  match name with
  | EmptyString => Throw (StdException "Topic or service name can't be empty")
  | String front _ =>
      Ret (bool_decide (front = "_"%char) || bool_decide (is_Some (str_find "/_" name)))
  end.

Section Methods.
Context {plat : Platform} (cfg : Config).

Definition has_capability (capability : string) : bool :=
  bool_decide (capability ∈ _capabilities cfg).

(** ** Advertising topics *)

(** [latest_topics] *)
Fixpoint collect_topics (topic_names_and_types : NamesAndTypes)
    (latest_topics : gset TopicAndDatatype) : outcome (gset TopicAndDatatype) :=
  match topic_names_and_types with
  | [] => Ret latest_topics
  | (topic_name, datatypes) :: rest =>
      hidden ← (if _include_hidden cfg then Ret false
                else is_hidden_topic_or_service topic_name);
      if hidden : bool then collect_topics rest latest_topics
      else if is_whitelisted topic_name (_topic_whitelist_patterns cfg)
      then collect_topics rest (list_to_set (pair topic_name <$> datatypes) ∪ latest_topics)
      else collect_topics rest latest_topics
  end.

(** The [switch] over the format, and the two [catch] blocks; [None] is
    [continue].  Without a definition only the schema is set, to the empty
    string. *)
Definition new_channel (key : TopicAndDatatype)
    (definition : load_error + (MessageDefinitionFormat * string)) : option ChannelWithoutId :=
  match definition with
  | inr (format, text) =>
      Some {| topic := key.1; encoding := "cdr"; schema_name := key.2; schema := text;
              schema_encoding :=
                Some (match format with
                      | MSG | SRV_REQ | SRV_RESP => "ros2msg"
                      | IDL => "ros2idl"
                      end) |}
  | inl e =>
      if is_DefinitionNotFoundError e
      then Some {| topic := key.1; encoding := EmptyString; schema_name := key.2;
                   schema := EmptyString; schema_encoding := None |}
      else None
  end.

(** The loop that builds [channels_to_add]. *)
Fixpoint channels_to_add (latest_topics : list TopicAndDatatype) : M Node (list ChannelWithoutId) :=
  match latest_topics with
  | [] => mret []
  | key :: latest_topics =>
      topics ← get_table advertised_topics;
      if is_advertised key topics then channels_to_add latest_topics
      else
        cache ← get_world _message_definition_cache;
        let '(cache, definition) := get_full_msg_text (ament cfg) (fuel cfg) key.2 cache in
        update_world (λ n, set_cache n cache);;
        rest ← channels_to_add latest_topics;
        mret (match new_channel key definition with
              | Some channel => channel :: rest
              | None => rest
              end)
  end.

Definition update_advertised_topics (topic_names_and_types : NamesAndTypes) : M Node unit :=
  ok ← get_world (λ n, rclcpp_ok (env n));
  if negb ok then mret tt
  else
    latest_topics ← lift (collect_topics topic_names_and_types ∅);
    with_lock bridge_subscriptions_mutex
      (topics ← get_table advertised_topics;
       channel_ids_to_remove ← remove_stale_channels latest_topics (map_to_list topics);
       remove_channels channel_ids_to_remove;;
       channels ← channels_to_add (elements latest_topics);
       channel_ids ← add_channels channels;
       register_channels channel_ids channels).

(** ** Advertising services *)

(** [None] is [continue]. *)
Definition new_service (name type : string)
    (definition : load_error + (string * string)) : option ServiceWithoutId :=
  match definition with
  | inr (request, response) =>
      Some {| service_name := name; service_type := type; request_schema := request;
              response_schema := response |}
  | inl e =>
      if is_DefinitionNotFoundError e
      then Some {| service_name := name; service_type := type; request_schema := EmptyString;
                   response_schema := EmptyString |}
      else None
  end.

(** The loop that builds [new_services]; [datatypes.front()] is undefined on an
    empty vector. *)
Fixpoint services_to_add (service_names_and_types : NamesAndTypes) :
    M Node (list ServiceWithoutId) :=
  match service_names_and_types with
  | [] => mret []
  | (name, datatypes) :: rest =>
      services ← get_table known_services;
      if is_known_service name services then services_to_add rest
      else
        hidden ← lift (if _include_hidden cfg then Ret false
                       else is_hidden_topic_or_service name);
        if hidden : bool then services_to_add rest
        else if negb (is_whitelisted name (_service_whitelist_patterns cfg))
        then services_to_add rest
        else
          match datatypes with
          | [] => undefined
          | type :: _ =>
              cache ← get_world _message_definition_cache;
              let '(cache, definition) :=
                get_full_srv_text (ament cfg) (fuel cfg) type cache in
              update_world (λ n, set_cache n cache);;
              new ← services_to_add rest;
              mret (match new_service name type definition with
                    | Some service => service :: new
                    | None => new
                    end)
          end
  end.

Definition update_advertised_services : M Node unit :=
  ok ← get_world (λ n, rclcpp_ok (env n));
  if negb ok then mret tt
  else if negb (has_capability CAPABILITY_SERVICES) then mret tt
  else
    visible_services ← get_world (λ n, get_service_names_and_types (env n));
    service_names_and_types ← lift visible_services;
    with_lock bridge_services_mutex
      (services ← get_table known_services;
       let services_to_remove := stale_services (fst <$> service_names_and_types) services in
       erase_services services_to_remove;;
       remove_services services_to_remove;;
       new_services ← services_to_add service_names_and_types;
       service_ids ← add_services new_services;
       register_services service_ids new_services).

(** ** Connection graph *)

Definition ends_with_slash (s : string) : bool := ends_with s "/".

(** [ns + sep + node_name]. *)
Definition endpoint_id (endpoint : TopicEndpointInfo) : string :=
  let ns := endpoint_node_namespace endpoint in
  let sep := if ends_with_slash ns then EmptyString else "/" in
  ns +:+ sep +:+ endpoint_node_name endpoint.

Definition endpoint_ids (endpoints : list TopicEndpointInfo) : gset string :=
  list_to_set (endpoint_id <$> endpoints).

(** The loop over the topics: [publishers] and [subscribers]. *)
Fixpoint graph_topics (topic_names_and_types : NamesAndTypes) (publishers subscribers : MapOfSets) :
    M Node (MapOfSets * MapOfSets) :=
  match topic_names_and_types with
  | [] => mret (publishers, subscribers)
  | (topic_name, _) :: rest =>
      if negb (is_whitelisted topic_name (_topic_whitelist_patterns cfg))
      then graph_topics rest publishers subscribers
      else
        e ← get_world env;
        publishers_info ← lift (get_publishers_info_by_topic e topic_name);
        subscribers_info ← lift (get_subscriptions_info_by_topic e topic_name);
        graph_topics rest
          (emplace_at topic_name (endpoint_ids publishers_info) publishers)
          (emplace_at topic_name (endpoint_ids subscribers_info) subscribers)
  end.

(** [services\[service_name\].insert(fqn_node_name)] for the services of a node. *)
Definition add_providers (fqn_node_name : string) (names_and_types : NamesAndTypes)
    (services : MapOfSets) : MapOfSets :=
  foldl (λ services '(name, _),
    if is_whitelisted name (_service_whitelist_patterns cfg)
    then <[name := {[fqn_node_name]} ∪ default ∅ (services !! name)]> services
    else services) services names_and_types.

Fixpoint graph_services (node_names : list string) (services : MapOfSets) : M Node MapOfSets :=
  match node_names with
  | [] => mret services
  | fqn_node_name :: rest =>
      '(ns, name) ← lift (get_node_and_node_namespace fqn_node_name);
      e ← get_world env;
      service_names_and_types ← lift (get_service_names_and_types_by_node e name ns);
      graph_services rest (add_providers fqn_node_name service_names_and_types services)
  end.

Definition update_connection_graph (topic_names_and_types : NamesAndTypes) : M Node unit :=
  '(publishers, subscribers) ← graph_topics topic_names_and_types ∅ ∅;
  node_names ← get_world (λ n, get_node_names (parameter_graph (env n)));
  services ← graph_services node_names ∅;
  ServerMethods.update_connection_graph publishers subscribers services.

(** [get_topic_names_and_types()] *)
Definition current_topics : M Node NamesAndTypes :=
  topics ← get_world (λ n, get_topic_names_and_types (env n));
  lift topics.

Definition subscribe_connection_graph (subscribe : bool) : M Node unit :=
  update_world (λ n, set_graph_updates n subscribe);;
  if subscribe
  then
    topics ← current_topics;
    update_connection_graph topics
  else mret tt.

(** ** The polling thread *)

(** Before the loop: an exception ends the thread, and with it the process. *)
Definition rosgraph_poll_start : M Node unit :=
  topics ← current_topics;
  update_advertised_topics topics;;
  update_advertised_services.

(** One turn of the loop, [triggered] by a change of the graph. *)
Definition rosgraph_poll (triggered : bool) : M Node unit :=
  try_catch
    (if triggered
     then
       topic_names_and_types ← current_topics;
       update_advertised_topics topic_names_and_types;;
       update_advertised_services;;
       updates ← get_world _subscribe_graph_updates;
       if updates : bool then update_connection_graph topic_names_and_types else mret tt
     else mret tt)
    catch_log.

(** ** Subscriptions *)

(** [depth + std::max(1ul, qos.depth)] over the publishers, in a [size_t]. *)
Definition history_depth (publisher_info : list TopicEndpointInfo) : Z :=
  foldl (λ d publisher, u64 (d + Z.max 1 (depth (qos_profile publisher)))) 0 publisher_info.

Definition limit_depth (d : Z) : Z :=
  let d := Z.max d (_min_qos_depth cfg) in
  if _max_qos_depth cfg <? d then _max_qos_depth cfg else d.

(** The number of endpoints with a policy is compared with their number. *)
Definition count_endpoints (p : QoS → bool) (publisher_info : list TopicEndpointInfo) : nat :=
  length (filter (λ e, p (qos_profile e) = true) publisher_info).

Definition is_reliable (q : QoS) : bool := bool_decide (reliability q = RELIABLE).
Definition is_transient_local (q : QoS) : bool := bool_decide (durability q = TRANSIENT_LOCAL).

Definition subscription_qos (publisher_info : list TopicEndpointInfo) : QoS :=
  {| history := KEEP_LAST;
     depth := limit_depth (history_depth publisher_info);
     reliability := if bool_decide (count_endpoints is_reliable publisher_info =
                                    length publisher_info)
                    then RELIABLE else BEST_EFFORT;
     durability := if bool_decide (count_endpoints is_transient_local publisher_info =
                                   length publisher_info)
                   then TRANSIENT_LOCAL else VOLATILE |}.

(** [catch (const std::exception & ex) { throw ...(... + ex.what()); }]. *)
Definition rethrow {A} (f : string → exn) (e : exn) : M Node A :=
  match what e with Some w => throw (f w) | None => throw e end.

Definition subscribe (channel_id : Z) (client_handle : ConnHandle) : M Node unit :=
  with_lock bridge_subscriptions_mutex
    (topics ← get_table advertised_topics;
     match topics !! channel_id with
     | None =>
         throw (ChannelError channel_id
           ("Received subscribe request for unknown channel " +:+ to_string channel_id))
     | Some channel =>
         subs ← get_table subscriptions;
         let first_subscription := bool_decide (subs !! channel_id = None) in
         update_tables (λ t, set_subs t (emplace_at channel_id ∅ (subscriptions t)));;
         t ← get_table id;
         if negb first_subscription &&
            bool_decide (is_Some (subscription_of t channel_id client_handle))
         then
           throw (ChannelError channel_id
             ("Client is already subscribed to channel " +:+ to_string channel_id))
         else
           e ← get_world env;
           publisher_info ← lift (get_publishers_info_by_topic e (topic channel));
           let qos := subscription_qos publisher_info in
           try_catch
             (lift (ros_call (create_generic_subscription e (topic channel)
                                (schema_name channel) qos));;
              update_tables (λ t, set_subs t
                (alter (emplace_at client_handle
                          {| sub_topic := topic channel; sub_datatype := schema_name channel;
                             sub_qos := qos |}) channel_id (subscriptions t))))
             (rethrow (λ w, ChannelError channel_id
                ("Failed to subscribe to topic " +:+ topic channel +:+ " (" +:+
                 schema_name channel +:+ "): " +:+ w)))
     end).

Definition unsubscribe (channel_id : Z) (client_handle : ConnHandle) : M Node unit :=
  with_lock bridge_subscriptions_mutex
    (topics ← get_table advertised_topics;
     match topics !! channel_id with
     | None =>
         throw (ChannelError channel_id
           ("Received unsubscribe request for unknown channel " +:+ to_string channel_id))
     | Some _ =>
         subs ← get_table subscriptions;
         match subs !! channel_id with
         | None =>
             throw (ChannelError channel_id
               ("Received unsubscribe request for channel " +:+ to_string channel_id +:+
                " that was not subscribed to"))
         | Some subscriptions_by_client =>
             match subscriptions_by_client !! client_handle with
             | None =>
                 throw (ChannelError channel_id
                   ("Received unsubscribe request for channel " +:+ to_string channel_id +:+
                    "from a client that was not subscribed to this channel"))
             | Some _ =>
                 update_tables (λ t, set_subs t
                   (erase_inner channel_id client_handle (subscriptions t)))
             end
         end
     end).

(** A message on a subscription: [timestamp] is 0 unless the middleware gave one. *)
Definition ros_message_handler (channel_id : Z) (client_handle : ConnHandle) (msg : list byte)
    (timestamp : Z) : M Node unit :=
  now ← get_world (λ n, now_nanoseconds (env n));
  send_message client_handle channel_id
    (if decide (timestamp ≠ 0) then timestamp else u64 now) msg.

(** ** Client publications *)

(** The profile of the first publisher of another node, with a usable history
    policy. *)
Definition publisher_qos (other_publishers : list TopicEndpointInfo) : QoS :=
  let qos :=
    match find (λ e, bool_decide (endpoint_node_name e ≠ node_name cfg) ||
                     bool_decide (endpoint_node_namespace e ≠ node_namespace cfg))
            other_publishers with
    | None => SystemDefaultsQoS
    | Some e => qos_profile e
    end in
  if bool_decide (history qos = HISTORY_UNKNOWN)
  then {| history := HISTORY_SYSTEM_DEFAULT; depth := depth qos; reliability := reliability qos;
          durability := durability qos |}
  else qos.

Definition client_advertise (advertisement : ClientAdvertisement) (hdl : ConnHandle) :
    M Node unit :=
  let channel_id := adv_channel_id advertisement in
  with_lock bridge_publications_mutex
    (pubs ← get_table client_advertised_topics;
     let is_first_publication := bool_decide (pubs !! hdl = None) in
     update_tables (λ t, set_pubs t (emplace_at hdl ∅ (client_advertised_topics t)));;
     t ← get_table id;
     if negb is_first_publication && bool_decide (is_Some (publisher_of t hdl channel_id))
     then
       endpoint ← remote_endpoint_string hdl;
       throw (ClientChannelError channel_id
         ("Received client advertisement from " +:+ endpoint +:+ " for channel " +:+
          to_string channel_id +:+ " it had already advertised"))
     else
       try_catch
         (e ← get_world env;
          other_publishers ← lift (get_publishers_info_by_topic e (adv_topic advertisement));
          let qos := publisher_qos other_publishers in
          lift (ros_call (create_generic_publisher e (adv_topic advertisement)
                            (adv_schema_name advertisement) qos));;
          update_tables (λ t, set_pubs t
            (alter (emplace_at channel_id
                      {| pub_topic := adv_topic advertisement;
                         pub_type := adv_schema_name advertisement; pub_qos := qos |})
               hdl (client_advertised_topics t))))
         (rethrow (λ w, ClientChannelError channel_id
            ("Failed to create publisher: " +:+ w)))).

Definition client_unadvertise (channel_id : Z) (hdl : ConnHandle) : M Node unit :=
  with_lock bridge_publications_mutex
    (pubs ← get_table client_advertised_topics;
     endpoint ← remote_endpoint_string hdl;
     match pubs !! hdl with
     | None =>
         throw (ClientChannelError channel_id
           ("Ignoring client unadvertisement from " +:+ endpoint +:+ " for unknown channel " +:+
            to_string channel_id +:+ ", client has no advertised topics"))
     | Some client_publications =>
         match client_publications !! channel_id with
         | None =>
             throw (ClientChannelError channel_id
               ("Ignoring client unadvertisement from " +:+ endpoint +:+
                " for unknown channel " +:+ to_string channel_id +:+ ", client has " +:+
                to_string (Z.of_nat (size client_publications)) +:+ " advertised topic(s)"))
         | Some _ =>
             update_tables (λ t, set_pubs t
               (erase_inner hdl channel_id (client_advertised_topics t)))
         end
     end).

(** [message.getData()], [message.getLength()] bytes, is copied and published. *)
Definition client_message (message : ClientMessage) (hdl : ConnHandle) : M Node unit :=
  let channel_id := adv_channel_id (advertisement message) in
  publisher ← with_lock bridge_publications_mutex
    (pubs ← get_table client_advertised_topics;
     endpoint ← remote_endpoint_string hdl;
     match pubs !! hdl with
     | None =>
         throw (ClientChannelError channel_id
           ("Dropping client message from " +:+ endpoint +:+ " for unknown channel " +:+
            to_string channel_id +:+ ", client has no advertised topics"))
     | Some client_publications =>
         match client_publications !! channel_id with
         | None =>
             throw (ClientChannelError channel_id
               ("Dropping client message from " +:+ endpoint +:+ " for unknown channel " +:+
                to_string channel_id +:+ ", client has " +:+
                to_string (Z.of_nat (size client_publications)) +:+ " advertised topic(s)"))
         | Some publisher => mret publisher
         end
     end);
  payload ← lift (getData message);
  e ← get_world env;
  lift (ros_call (publish e (pub_topic publisher) payload));;
  update_world (λ n, log_ros n (RosPublish (pub_topic publisher) payload)).

(** ** Parameters *)

(** [_param_interface->...]: the pointer is set when the handlers are. *)
Definition get_params_interface : M Node ParameterInterface :=
  p ← get_world _param_interface;
  match p with Some p => mret p | None => undefined end.

Definition get_parameters (parameters : list string) (request_id : option string)
    (hdl : ConnHandle) : M Node unit :=
  p ← get_params_interface;
  e ← get_world env;
  let '(p, params) := get_params (parameter_graph e) parameters p in
  update_world (λ n, set_param_interface n (Some p));;
  params ← lift params;
  publish_parameter_values hdl params request_id.

Definition set_parameters (parameters : list ParameterT) (request_id : option string)
    (hdl : ConnHandle) : M Node unit :=
  p ← get_params_interface;
  e ← get_world env;
  let '(p, requests, r) := set_params (parameter_graph e) parameters p in
  update_world (λ n, log_ros (set_param_interface n (Some p)) (RosSetParameters requests));;
  lift r;;
  match request_id with
  | Some _ => get_parameters (param_name <$> parameters) request_id hdl
  | None => mret tt
  end.

Definition subscribe_parameters (parameters : list string) (op : ParameterSubscriptionOperation)
    (hdl : ConnHandle) : M Node unit :=
  p ← get_params_interface;
  match op with
  | SUBSCRIBE => update_world (λ n, set_param_interface n (Some (subscribe_params parameters p)))
  | UNSUBSCRIBE =>
      p ← lift (unsubscribe_params parameters p);
      update_world (λ n, set_param_interface n (Some p))
  end.

Definition parameter_updates (parameters : list ParameterT) : M Node unit :=
  update_parameter_values parameters.

(** The subscription made for [node] receives a parameter event, of whatever node: the
    interface filters it and calls back. *)
Definition on_parameter_event (node : string) (msg : ParameterEvent) : M Node unit :=
  p ← get_params_interface;
  let '(p, result) := parameter_event node msg p in
  update_world (λ n, set_param_interface n (Some p));;
  match result with
  | Some parameters => parameter_updates parameters
  | None => mret tt
  end.

(** ** Services *)

Definition service_request (request : ServiceRequest) (client_handle : ConnHandle) : M Node unit :=
  let id := service_id request in
  with_lock bridge_services_mutex
    (services ← get_table known_services;
     match services !! id with
     | None =>
         throw (ServiceError id ("Service with id " +:+ to_string id +:+ " does not exist"))
     | Some service =>
         e ← get_world env;
         clients ← get_world _service_clients;
         (match clients !! id with
          | Some _ => mret tt
          | None =>
              try_catch
                (gen_client ← lift (new_GenericClient (rcl e) (service_name service)
                                      (service_type service));
                 update_world (λ n, set_service_clients n
                                      (emplace_at id gen_client (_service_clients n)));;
                 lift (ros_call (add_client e (service_name service))))
                (rethrow (λ w, ServiceError id
                   ("Failed to create service client for service " +:+ service_name service +:+
                    ": " +:+ w)))
          end);;
         clients ← get_world _service_clients;
         match clients !! id with
         | None => undefined
         | Some client =>
             if negb (wait_for_service e (gc_service_name client))
             then
               throw (ServiceError id ("Service " +:+ service_name service +:+ " is not available"))
             else
               '(sequence_number, client) ←
                 lift (async_send_request (rcl e) (serv_data request) (request, client_handle)
                         client);
               update_world (λ n, log_ros
                 (set_service_clients n (<[id := client]> (_service_clients n)))
                 (RosServiceCall (gc_service_name client) sequence_number (serv_data request)))
         end
     end).

(** [response_received_callback]. *)
Definition response_received (callback : ResponseCallback) (response : list byte) : M Node unit :=
  let '(request, client_handle) := callback in
  send_service_response client_handle
    {| service_id := service_id request; call_id := call_id request;
       sr_encoding := sr_encoding request; serv_data := response |}.

(** A response arrives at the client of a service. *)
Definition on_service_response (id sequence_number : Z) (ser_response : option (list byte)) :
    M Node unit :=
  clients ← get_world _service_clients;
  match clients !! id with
  | None => mret tt
  | Some client =>
      let '(client, run) := handle_response sequence_number ser_response client in
      update_world (λ n, set_service_clients n (<[id := client]> (_service_clients n)));;
      match run with
      | Some (callback, response) => response_received callback response
      | None => mret tt
      end
  end.

(** ** Assets *)

Definition asset_allowed (asset_id : string) : bool :=
  negb (bool_decide (is_Some (str_find ".." asset_id))) &&
  is_whitelisted asset_id (_asset_uri_allowlist_patterns cfg).

Definition fetch_asset (asset_id : string) (request_id : Z) (client_handle : ConnHandle) :
    M Node unit :=
  response ← try_catch
    (if negb (asset_allowed asset_id)
     then throw (RuntimeError ("Asset URI not allowed: " +:+ asset_id))
     else
       e ← get_world env;
       data ← lift (retrieve e asset_id);
       mret {| fa_request_id := request_id; fa_status := FetchAssetStatus_Success;
               fa_error_message := EmptyString; fa_data := data |})
    (λ e, match what e with
          | Some _ =>
              mret {| fa_request_id := request_id; fa_status := FetchAssetStatus_Error;
                      fa_error_message := "Failed to retrieve asset " +:+ asset_id;
                      fa_data := [] |}
          | None => throw e
          end);
  send_fetch_asset_response client_handle response.

(** The handler only queues the callback. *)
Definition queue_fetch_asset (uri : string) (request_id : Z) (hdl : ConnHandle) : M Node unit :=
  update_world (λ n, set_fetch_queue n (_fetch_asset_queue n ++ [(uri, request_id, hdl)])).

(** The thread of [_fetch_asset_queue] takes the oldest callback; what it throws
    is caught there. *)
Definition run_fetch_asset : M Node unit :=
  q ← get_world _fetch_asset_queue;
  match q with
  | [] => mret tt
  | (uri, request_id, hdl) :: q =>
      update_world (λ n, set_fetch_queue n q);;
      try_catch (fetch_asset uri request_id hdl) (λ _, mret tt)
  end.

(** ** The handlers *)

Definition parameters_enabled : bool :=
  has_capability CAPABILITY_PARAMETERS || has_capability CAPABILITY_PARAMETERS_SUBSCRIBE.

Definition handlers : ServerHandlers Node := {|
  subscribe_handler := Some subscribe;
  unsubscribe_handler := Some unsubscribe;
  client_advertise_handler := Some client_advertise;
  client_unadvertise_handler := Some client_unadvertise;
  client_message_handler := Some client_message;
  parameter_request_handler := if parameters_enabled then Some get_parameters else None;
  parameter_change_handler := if parameters_enabled then Some set_parameters else None;
  parameter_subscription_handler :=
    if parameters_enabled then Some subscribe_parameters else None;
  service_request_handler := Some service_request;
  subscribe_connection_graph_handler := Some subscribe_connection_graph;
  fetch_asset_handler :=
    if has_capability CAPABILITY_ASSETS then Some queue_fetch_asset else None
|}.

End Methods.

(** ** Construction *)

(** The parameters of the node the constructor reads. *)
Record Parameters := {
  p_port : Z;
  p_address : string;
  p_send_buffer_limit : Z;
  p_tls : bool;
  p_certfile : string;
  p_keyfile : string;
  p_min_qos_depth : Z;
  p_max_qos_depth : Z;
  p_topic_whitelist : list string;
  p_service_whitelist : list string;
  p_param_whitelist : list string;
  p_use_compression : bool;
  p_use_sim_time : bool;
  p_capabilities : list string;
  p_client_topic_whitelist : list string;
  p_include_hidden : bool;
  p_asset_uri_allowlist : list string
}.

Definition CAPABILITY_MESSAGE_TIME : string := "messageTime".

Section Constructor.
(** [std::regex], the name of the node, the package index. *)
Context (compile : string → option regex) (name namespace : string) (index : ament_index)
        (definition_fuel : nat).

Definition new_Config (p : Parameters) : Config := {|
  _topic_whitelist_patterns := Ros2.parse_regex_strings compile (p_topic_whitelist p);
  _service_whitelist_patterns := Ros2.parse_regex_strings compile (p_service_whitelist p);
  _asset_uri_allowlist_patterns := Ros2.parse_regex_strings compile (p_asset_uri_allowlist p);
  _min_qos_depth := u64 (p_min_qos_depth p);
  _max_qos_depth := u64 (p_max_qos_depth p);
  _use_sim_time := p_use_sim_time p;
  _capabilities := p_capabilities p;
  _include_hidden := p_include_hidden p;
  node_name := name;
  node_namespace := namespace;
  ament := index;
  fuel := definition_fuel
|}.

(** [ros_distro] is [getenv("ROS_DISTRO")]: a [std::string] made of a null
    pointer is undefined. *)
Definition new_ServerOptions (p : Parameters) (ros_distro : option string)
    (time mac_addresses : string) (ip_addresses : list string) (colink_ip : string) :
    outcome ServerOptions :=
  match ros_distro with
  | None => Undefined
  | Some ros_distro => Ret {|
      capabilities := p_capabilities p ++
                      (if p_use_sim_time p then [CAPABILITY_TIME] else []) ++
                      [CAPABILITY_MESSAGE_TIME];
      supported_encodings := ["cdr"];
      metadata := {["ROS_DISTRO" := ros_distro; "COLINK" := colink_ip]};
      send_buffer_limit_bytes := u64 (p_send_buffer_limit p);
      use_tls := p_tls p;
      cert_file := p_certfile p;
      key_file := p_keyfile p;
      session_id := time;
      use_compression := p_use_compression p;
      client_topic_whitelist_patterns :=
        Ros2.parse_regex_strings compile (p_client_topic_whitelist p);
      mac_addr := mac_addresses;
      ip_addrs := ip_addresses
    |}
  end.

(** The node after its construction. *)
Definition new_Node (p : Parameters) (e : RosEnv) : Node := {|
  node_tables := empty_tables;
  _service_clients := ∅;
  _message_definition_cache := ∅;
  _param_interface :=
    if parameters_enabled (new_Config p)
    then Some (set_param_update_callback
                 (new_ParameterInterface
                    (Ros2.parse_regex_strings compile (p_param_whitelist p))))
    else None;
  _subscribe_graph_updates := false;
  _fetch_asset_queue := [];
  ros_log := [];
  env := e
|}.

End Constructor.

(** A message on [/clock], when the node uses simulated time: the timestamp is
    asserted not to be negative. *)
Definition on_clock {plat : Platform} (nanoseconds : Z) : M Node unit :=
  if nanoseconds <? 0 then undefined else broadcast_time (u64 nanoseconds).

End Ros2Node.
