(* ===== verification/Ros2Handlers.v ===== *)
(** * The handlers of the ROS 2 node

    They honour the contract of [BridgeSync], so that the node and the server
    agree on their records, and the one of [ServerLogic]. *)

From Stdlib Require Import ZArith Lia.
From S2P Require Import Prelude Wire Json Serialization ServerState ServerMethods ServerLogic.
From S2P Require Import ServerInv ServerSpecs ServerSystem ServerDefined.
From S2P Require Import Text MessageDefinitionCache ParameterInterface BridgeParams.
From S2P Require Import BridgeTables ServerRuns BridgeSync BridgeUpdate GenericClient Ros2Bridge.

Local Open Scope Z_scope.
Import Ros2Node.

#[export] Instance ros2_kind : BridgeKind Subscription Publisher := {|
  sub_on sub channel := sub_topic sub = topic channel ∧ sub_datatype sub = schema_name channel;
  pub_on p adv := pub_topic p = adv_topic adv ∧ pub_type p = adv_schema_name adv
|}.

(** Evaluation of the node's monadic code. *)
Ltac run_node :=
  cbv beta iota delta [mbind M_mbind M_bind mret M_mret M_ret get_world update_world get_table
    update_tables lift throw undefined try_catch rethrow remote_endpoint_string find_connection];
  cbn [fst snd srv net trace world tables set_tables node_has_tables node_tables set_node_tables id].

Section Handlers.
Context {plat : Platform} (cfg : Config).
Implicit Types (L : list mutex) (s : St Node).

Lemma framed_rethrow {A} f e : framed (rethrow (A:=A) f e).
Proof. unfold rethrow. solve_framed. Qed.
#[local] Hint Resolve framed_rethrow : server.

Lemma framed_graph_topics l p q : framed (graph_topics cfg l p q).
Proof. revert p q. induction l as [|[]]; intros; cbn [graph_topics]; solve_framed. Qed.
Lemma framed_graph_services l m : framed (graph_services cfg l m).
Proof. revert m. induction l; intros; cbn [graph_services]; solve_framed. Qed.
#[local] Hint Resolve framed_graph_topics framed_graph_services : server.

Lemma framed_get_parameters ps i hdl : framed (get_parameters ps i hdl).
Proof. unfold get_parameters, get_params_interface. solve_framed. Qed.
#[local] Hint Resolve framed_get_parameters : server.

#[export] Instance ros2_handlers_frame : HandlersFrame (handlers cfg).
Proof.
  intros c body L s Hb. enough (framed body) as Hf by apply Hf. revert Hb.
  destruct c; simpl; try (destruct (parameters_enabled cfg)); try (destruct (has_capability _ _));
    simpl; intros [= <-];
    unfold subscribe, unsubscribe, client_advertise, client_unadvertise, client_message,
      set_parameters, subscribe_parameters, get_params_interface, service_request,
      subscribe_connection_graph, current_topics, Ros2Node.update_connection_graph, queue_fetch_asset,
      get_table, update_tables;
    solve_framed.
Qed.

(** ** Handlers that leave the tables alone *)

Ltac solve_tables := solve_preserves; try (by apply tables_update_world); try (by intros L' s').

Lemma tables_rethrow {A} t f e : preserves (has_tables t) (rethrow (A:=A) f e).
Proof. unfold rethrow. solve_tables. Qed.
#[local] Hint Resolve tables_rethrow : server.

Lemma tables_graph_topics t l p q : preserves (has_tables t) (graph_topics cfg l p q).
Proof. revert p q. induction l as [|[]]; intros; cbn [graph_topics]; solve_tables. Qed.
Lemma tables_graph_services t l m : preserves (has_tables t) (graph_services cfg l m).
Proof. revert m. induction l; intros; cbn [graph_services]; solve_tables. Qed.
Lemma tables_get_parameters t ps i hdl : preserves (has_tables t) (get_parameters ps i hdl).
Proof. unfold get_parameters, get_params_interface. solve_tables. Qed.
#[local] Hint Resolve tables_graph_topics tables_graph_services tables_get_parameters : server.

Lemma quiet_handler_tables c body t :
  quiet c = true → handler_body (handlers cfg) c = Some body → preserves (has_tables t) body.
Proof.
  intros Hq. destruct c; try done; simpl;
    try (destruct (parameters_enabled cfg)); try (destruct (has_capability _ _));
    simpl; intros [= <-];
    unfold client_message, set_parameters, subscribe_parameters, get_params_interface,
      service_request, subscribe_connection_graph, current_topics, Ros2Node.update_connection_graph,
      ServerMethods.update_connection_graph, queue_fetch_asset, get_table;
    solve_tables.
Qed.

(** ** The four handlers that change them *)

Lemma subscribe_effect ch hdl L s :
  tables_ok (tables (world s)) →
  effect_ok (CallSubscribe ch hdl) (tables (world s)) (subscribe cfg ch hdl L s).
Proof.
  intros Hok. unfold subscribe, with_lock. case_decide; [done|]. run_node.
  set (t := node_tables (world s)) in *. simpl in Hok. fold t in Hok.
  destruct (advertised_topics t !! ch) as [channel|] eqn:Hch; simpl; [|done].
  destruct (negb _ && _) eqn:Hif; simpl; [by split; [apply emplace_empty_ok|apply emplace_empty_equiv]|].
  apply not_subscribed_yet in Hif.
  destruct (get_publishers_info_by_topic _ _) as [info|e|]; simpl;
    [|by split; [apply emplace_empty_ok|apply emplace_empty_equiv]|done].
  destruct (create_generic_subscription _ _ _ _) as [e|]; simpl.
  { destruct (what e); by split; [apply emplace_empty_ok|apply emplace_empty_equiv]. }
  assert (∀ sub, sub_on sub channel → let t' := set_subs t (alter (emplace_at hdl sub) ch
      (emplace_at ch ∅ (subscriptions t))) in tables_ok t' ∧
      handler_effect (CallSubscribe ch hdl) true t t') as Heff
    by (intros sub ?; by apply (subscribed_effect t ch hdl sub channel)).
  by apply (Heff {| sub_topic := topic channel; sub_datatype := schema_name channel;
                                           sub_qos := subscription_qos cfg info |}).
Qed.

Lemma unsubscribe_effect ch hdl L s :
  tables_ok (tables (world s)) →
  effect_ok (CallUnsubscribe ch hdl) (tables (world s)) (unsubscribe ch hdl L s).
Proof.
  intros Hok. unfold unsubscribe, with_lock. case_decide; [done|]. run_node.
  set (t := node_tables (world s)) in *. simpl in Hok. fold t in Hok.
  assert (subscription_of t ch hdl = None →
            tables_ok t ∧ t ≡ t ∧ subscription_of t ch hdl = None) as Herr by done.
  unfold subscription_of in Herr at 1.
  destruct (advertised_topics t !! ch) as [channel|] eqn:Hch; simpl; fold t.
  2:{ by apply Herr, (not_advertised_unsubscribed t). }
  destruct (subscriptions t !! ch) as [m|] eqn:Hs; simpl; [|by apply Herr].
  destruct (m !! hdl) as [sub|] eqn:Hm; simpl; [|by apply Herr].
  split; [by apply erase_sub_ok|apply erase_sub_written].
Qed.

Lemma client_advertise_effect adv hdl L s :
  tables_ok (tables (world s)) →
  effect_ok (CallClientAdvertise adv hdl) (tables (world s)) (client_advertise cfg adv hdl L s).
Proof.
  intros Hok. unfold client_advertise, with_lock. case_decide; [done|]. run_node.
  set (t := node_tables (world s)) in *. simpl in Hok. fold t in Hok.
  set (ch := adv_channel_id adv).
  pose proof (set_pubs_ok t (emplace_at hdl ∅ (client_advertised_topics t)) Hok) as Hok1.
  pose proof (emplace_empty_pubs_equiv t hdl) as Heq.
  destruct (negb _ && _) eqn:Hif; simpl; [done|]. apply not_advertised_yet in Hif as Hnone.
  destruct (get_publishers_info_by_topic _ _) as [info|e|]; simpl;
    [|destruct (what e); by split|done].
  destruct (create_generic_publisher _ _ _ _) as [e|]; simpl.
  { destruct (what e); by split. }
  split; [by apply set_pubs_ok|]. split; [done|].
  exists {| pub_topic := adv_topic adv; pub_type := adv_schema_name adv;
            pub_qos := publisher_qos cfg info |}.
  split; [done|]. exact (add_pub_written t hdl ch _ Hnone).
Qed.

Lemma client_unadvertise_effect ch hdl L s :
  tables_ok (tables (world s)) →
  effect_ok (CallClientUnadvertise ch hdl) (tables (world s)) (client_unadvertise ch hdl L s).
Proof.
  intros Hok. unfold client_unadvertise, with_lock. case_decide; [done|]. run_node.
  set (t := node_tables (world s)) in *. simpl in Hok. fold t in Hok.
  destruct (client_advertised_topics t !! hdl) as [m|] eqn:Hm; simpl; [|done].
  destruct (m !! ch) eqn:Hch; simpl; [|done].
  split; [by apply set_pubs_ok|apply erase_pub_written].
Qed.

#[export] Instance ros2_bridge_handlers : BridgeHandlers (handlers cfg).
Proof.
  split; [apply _|by eexists|]. intros c body L s Hb Hok.
  destruct (quiet c) eqn:Hq.
  - apply quiet_effect; [done..|]. intros t. by apply (quiet_handler_tables c).
  - destruct c; try done; injection Hb as <-;
      [by apply subscribe_effect|by apply unsubscribe_effect|by apply client_advertise_effect|
       by apply client_unadvertise_effect].
Qed.

End Handlers.

#[export] Existing Instance ros2_handlers_frame.
#[export] Existing Instance ros2_bridge_handlers.
