(* ===== verification/Ros2System.v ===== *)
(** * The ROS 2 bridge as a system

    The node of [Ros2Bridge] with the server it drives: its polling thread, the
    callbacks of its subscriptions, service clients and parameter events, the
    asset thread and the requests of clients, each step run to its end.  Shows that
    the records of the node and the server agree in every state they reach, and
    what the polling thread makes of the ROS graph. *)

From Stdlib Require Import ZArith Lia.
From S2P Require Import Prelude Wire Json Serialization ServerState ServerMethods ServerLogic.
From S2P Require Import ServerInv ServerSpecs ServerSystem ServerDefined.
From S2P Require Import Text MessageDefinitionCache SchemaText ParameterInterface BridgeParams.
From S2P Require Import BridgeTables ServerRuns BridgeSync BridgeUpdate BridgeRefresh.
From S2P Require Import GenericClient Ros2Bridge Ros2Handlers.

Local Open Scope Z_scope.
Import Ros2Node.

(** ** What is built for a topic and for a service *)

Section Build.
Context {plat : Platform} (cfg : Config).
Implicit Types (L : list mutex) (s : St Node).

(** The channel of a topic: its definition does not depend on what was looked up
    before. *)
Definition channel_for (key : TopicAndDatatype) : option ChannelWithoutId :=
  new_channel key (get_full_msg_text (ament cfg) (fuel cfg) key.2 ∅).2.

Definition visible_service (name : string) : bool :=
  match (if _include_hidden cfg then Ret false else is_hidden_topic_or_service name) with
  | Ret hidden => negb hidden && is_whitelisted name (_service_whitelist_patterns cfg)
  | _ => false
  end.

Definition service_for (e : string * list string) : option ServiceWithoutId :=
  match e.2 with
  | type :: _ =>
      if visible_service e.1
      then new_service e.1 type (get_full_srv_text (ament cfg) (fuel cfg) type ∅).2
      else None
  | [] => None
  end.

Lemma channel_for_key key c : channel_for key = Some c → channel_key c = key.
Proof.
  unfold channel_for, new_channel. destruct (get_full_msg_text _ _ _ _).2 as [e|[f text]];
    [destruct (is_DefinitionNotFoundError e); [|done]|]; intros [= <-]; by destruct key.
Qed.

Lemma service_for_name e v : service_for e = Some v → service_name v = e.1.
Proof.
  unfold service_for. destruct (e.2) as [|ty tys]; [done|]. destruct (visible_service _); [|done].
  unfold new_service. destruct (get_full_srv_text _ _ _ _).2 as [er|[]];
    [destruct (is_DefinitionNotFoundError er); [|done]|]; by intros [= <-].
Qed.

(** The names of a [std::map] are distinct, and what is built for a topic or a service
    that ROS has is UTF-8. *)
Record env_ok (e : RosEnv) : Prop := {
  env_names l : get_service_names_and_types e = Ret l → NoDup (fst <$> l);
  env_services_text l : get_service_names_and_types e = Ret l → services_text service_for l;
  env_channels_text names latest : get_topic_names_and_types e = Ret names →
    collect_topics cfg names ∅ = Ret latest → channels_text channel_for latest
}.

(** The same as a test. *)
Definition check_env (e : RosEnv) : bool :=
  match get_service_names_and_types e with
  | Ret l => bool_decide (NoDup (fst <$> l)) && forallb service_text (omap service_for l)
  | _ => true
  end &&
  match get_topic_names_and_types e with
  | Ret names =>
      match collect_topics cfg names ∅ with
      | Ret latest => forallb channel_text (omap channel_for (elements latest))
      | _ => true
      end
  | _ => true
  end.

Lemma check_env_ok e : check_env e = true → env_ok e.
Proof.
  unfold check_env. rewrite andb_true_iff. intros [Hs Ht]. split.
  - intros l Hl. rewrite Hl in Hs. by apply andb_true_iff in Hs as [?%bool_decide_eq_true _].
  - intros l Hl x v Hx Hv. rewrite Hl in Hs. apply andb_true_iff in Hs as [_ Hs].
    rewrite forallb_forall in Hs. apply Hs, list_elem_of_In, list_elem_of_omap. eauto.
  - intros names latest Hn Hl key c Hk Hc. rewrite Hn, Hl, forallb_forall in Ht.
    apply Ht, list_elem_of_In, list_elem_of_omap. exists key. by rewrite elem_of_elements.
Qed.

(** The node's cache holds what the packages define. *)
Definition node_ok (n : Node) : Prop :=
  cache_coherent (ament cfg) (_message_definition_cache n) ∧ env_ok (env n).

Lemma node_ok_set_tables t n : node_ok n → node_ok (set_tables t n).
Proof. done. Qed.

Lemma channels_to_add_builds : builds_channels channel_for node_ok (channels_to_add cfg).
Proof.
  intros keys L s. revert s. induction keys as [|key keys IH]; intros s [Hco Henv].
  { exists (world s). by destruct s. }
  cbn [channels_to_add]. rewrite bind_get_table_run. unfold new_channels. rewrite filter_cons.
  destruct (is_advertised key (advertised_topics (tables (world s)))) eqn:Eadv.
  { rewrite decide_False by done. by apply IH. }
  rewrite decide_True by done.
  unfold get_world at 1. unfold mbind at 1, M_mbind at 1, M_bind at 1.
  destruct (get_full_msg_text_cache (ament cfg) (fuel cfg) key.2 _ Hco) as [Hco' Hdef].
  destruct (get_full_msg_text _ _ key.2 (_message_definition_cache _)) as [cache def].
  cbn [fst snd] in *. set (s1 := mkSt (srv s) (net s) (trace s) (set_cache (world s) cache)).
  destruct (IH s1) as (w & E & Ht & Hw); [done|].
  erewrite bind_run by reflexivity. fold s1. erewrite bind_run by exact E.
  exists w. split_and!; [|done..]. unfold mret, M_mret, M_ret.
  change (tables (world s1)) with (tables (world s)). unfold new_channels.
  rewrite Hdef. fold (channel_for key). change (omap channel_for (key :: ?l)) with
    (match channel_for key with Some c => c :: omap channel_for l | None => omap channel_for l end).
  by destruct (channel_for key).
Qed.

Lemma services_to_add_builds : builds_services fst service_for node_ok (services_to_add cfg).
Proof.
  intros entries L s. revert s. induction entries as [|[name types] entries IH]; intros s [Hco Henv].
  { exists (Ret []), (world s). split_and!; [by destruct s|done..|by intros ? [= <-]]. }
  cbn [services_to_add]. rewrite bind_get_table_run. unfold new_services. rewrite filter_cons.
  cbn [fst]. destruct (is_known_service name (known_services (tables (world s)))) eqn:Ek.
  { rewrite decide_False by done. by apply IH. }
  rewrite decide_True by done.
  assert (∀ hidden, (if _include_hidden cfg then Ret false else is_hidden_topic_or_service name) =
            Ret hidden →
          service_for (name, types) =
          (if hidden then None else
           if negb (is_whitelisted name (_service_whitelist_patterns cfg)) then None else
           match types with
           | [] => None
           | ty :: _ => new_service name ty (get_full_srv_text (ament cfg) (fuel cfg) ty ∅).2
           end)) as Hfor.
  { intros hidden E. unfold service_for, visible_service. cbn [fst snd]. rewrite E.
    destruct types, hidden; cbn; try done; by destruct (is_whitelisted name _). }
  destruct (if _include_hidden cfg then _ else _) as [hidden|e|] eqn:Eh.
  2,3: eexists _, (world s); split_and!; [by destruct s|done..].
  specialize (Hfor hidden eq_refl). unfold lift at 1. erewrite bind_run by reflexivity.
  change (omap (service_for) ((name, types) :: ?l)) with
    (match service_for (name, types) with
     | Some c => c :: omap service_for l | None => omap service_for l end). rewrite Hfor.
  destruct hidden; [by apply IH|]. destruct (negb _); [by apply IH|].
  destruct types as [|ty tys].
  { eexists Undefined, (world s). split_and!; [by destruct s|done..]. }
  unfold get_world at 1. unfold mbind at 1, M_mbind at 1, M_bind at 1.
  destruct (get_full_srv_text_cache (ament cfg) (fuel cfg) ty _ Hco) as [Hco' Hdef].
  destruct (get_full_srv_text _ _ ty (_message_definition_cache _)) as [cache def].
  cbn [fst snd] in *. set (s1 := mkSt (srv s) (net s) (trace s) (set_cache (world s) cache)).
  destruct (IH s1) as (o & w & E & Ht & Hw & Hnew); [done|].
  erewrite bind_run by reflexivity. cbv beta. fold s1. destruct o as [new|e|].
  2,3: unfold mbind, M_mbind, M_bind; rewrite E; by eexists _, w.
  erewrite bind_run by exact E. eexists _, w. split_and!; [reflexivity|done..|]. intros l [= <-].
  specialize (Hnew new eq_refl). change (tables (world s1)) with (tables (world s)) in Hnew.
  rewrite Hnew, <-Hdef. unfold new_services. by destruct (new_service _ _ _).
Qed.

End Build.

(** ** What the node's threads keep *)

Section Threads.
Context {plat : Platform} (cfg : Config).
Implicit Types (L : list mutex) (s : St Node).

Definition good s : Prop := both s ∧ node_ok cfg (world s).

#[local] Instance good_send_stable : SendStable good.
Proof. by intros s hdl m r [[Hi [Ho Hs]] Hn]. Qed.

Lemma good_of_both (m : M Node unit) :
  preserves both m → preserves (of_world (node_ok cfg)) m → preserves good m.
Proof.
  intros Hb Hw L s [Hs Hn]. specialize (Hb L s Hs). specialize (Hw L s Hn).
  destruct (m L s) as [[]]; by try split.
Qed.

Lemma good_update_world f :
  (∀ n, node_tables (f n) = node_tables n) → (∀ n, node_ok cfg n → node_ok cfg (f n)) →
  preserves good (update_world f).
Proof.
  intros Ht Hf. apply triple_update_world. intros s [[Hi [Ho Hs]] Hn]. split; [|by apply Hf].
  split; [exact Hi|]. unfold sync. simpl. rewrite Ht. by split.
Qed.

Ltac solve_ok := solve_preserves; try (by apply triple_update_world); try (by intros L' s').

Lemma ok_rethrow {A} f e : preserves (of_world (node_ok cfg)) (rethrow (A:=A) f e).
Proof. unfold rethrow. solve_ok. Qed.
Lemma ok_graph_topics l p q : preserves (of_world (node_ok cfg)) (graph_topics cfg l p q).
Proof. revert p q. induction l as [|[]]; intros; cbn [graph_topics]; solve_ok. Qed.
Lemma ok_graph_services l m : preserves (of_world (node_ok cfg)) (graph_services cfg l m).
Proof. revert m. induction l; intros; cbn [graph_services]; solve_ok. Qed.
#[local] Instance ok_send_stable : SendStable (of_world (node_ok cfg)).
Proof. by intros s. Qed.
Lemma ok_get_parameters ps i hdl : preserves (of_world (node_ok cfg)) (get_parameters ps i hdl).
Proof. unfold get_parameters, get_params_interface. solve_ok. Qed.
#[local] Hint Resolve ok_rethrow ok_graph_topics ok_graph_services ok_get_parameters : server.

(** No handler touches the cache or the ROS graph. *)
Lemma handlers_node_ok c body :
  handler_body (handlers cfg) c = Some body → preserves (of_world (node_ok cfg)) body.
Proof.
  destruct c; simpl;
    try (destruct (parameters_enabled cfg)); try (destruct (has_capability _ _));
    simpl; intros [= <-];
    unfold subscribe, unsubscribe, client_advertise, client_unadvertise, client_message,
      set_parameters, subscribe_parameters, get_params_interface, service_request,
      subscribe_connection_graph, current_topics, Ros2Node.update_connection_graph,
      ServerMethods.update_connection_graph, queue_fetch_asset, get_table, update_tables;
    solve_ok.
Qed.

Lemma entry_good parse i : client_side i = true → preserves good (entry (handlers cfg) parse i).
Proof.
  intros Hi. apply good_of_both; [by apply (entry_preserves_both (handlers cfg))|].
  apply entry_of_world, handlers_node_ok.
Qed.

(** The methods of the server that only send. *)
Lemma good_update_parameter_values ps : preserves good (update_parameter_values ps).
Proof. by apply (entry_good (λ _, Undefined) (UpdateParameterValues ps)). Qed.
Lemma good_broadcast_time t : preserves good (broadcast_time t).
Proof. by apply (entry_good (λ _, Undefined) (BroadcastTime t)). Qed.
Lemma good_server_graph p q r : preserves good (ServerMethods.update_connection_graph p q r).
Proof. by apply (entry_good (λ _, Undefined) (UpdateConnectionGraph p q r)). Qed.
Lemma good_graph_topics l p q : preserves good (graph_topics cfg l p q).
Proof. revert p q. induction l as [|[]]; intros; cbn [graph_topics]; solve_preserves. Qed.
Lemma good_graph_services l m : preserves good (graph_services cfg l m).
Proof. revert m. induction l; intros; cbn [graph_services]; solve_preserves. Qed.
#[local] Hint Resolve good_update_parameter_values good_broadcast_time good_server_graph
  good_graph_topics good_graph_services : server.

Lemma good_connection_graph l : preserves good (update_connection_graph cfg l).
Proof. unfold update_connection_graph. solve_preserves. Qed.
#[local] Hint Resolve good_connection_graph : server.

Lemma good_ros_message ch hdl msg t : preserves good (ros_message_handler ch hdl msg t).
Proof. unfold ros_message_handler. solve_preserves. Qed.

Lemma good_service_response id n r : preserves good (on_service_response id n r).
Proof.
  unfold on_service_response, response_received. solve_preserves; by apply good_update_world.
Qed.

Lemma good_parameter_event node ps : preserves good (on_parameter_event node ps).
Proof.
  unfold on_parameter_event, get_params_interface, parameter_updates. solve_preserves;
    by apply good_update_world.
Qed.

Lemma good_fetch_asset : preserves good (run_fetch_asset cfg).
Proof.
  unfold run_fetch_asset, fetch_asset. solve_preserves; by apply good_update_world.
Qed.

Lemma good_clock t : preserves good (on_clock t).
Proof. unfold on_clock. solve_preserves. Qed.

(** *** The polling thread *)

Lemma update_advertised_topics_run names latest s :
  rclcpp_ok (env (world s)) = true → collect_topics cfg names ∅ = Ret latest →
  channels_text (channel_for cfg) latest → good s →
  ∃ s', update_advertised_topics cfg names [] s = (Ret tt, s') ∧ good s' ∧ net s' = net s ∧
    topics_refreshed (channel_for cfg) latest (tables (world s)) (tables (world s')) ∧
    (ids_below_next (srv s) → _next_channel_id (srv s) + Z.of_nat (size latest) < 2 ^ 32 →
     topics_complete (channel_for cfg) latest (tables (world s)) (tables (world s')) ∧
     ids_below_next (srv s')).
Proof.
  intros Hok Hlatest Htext [Hb Hn].
  destruct (refresh_topics_run (channel_for cfg) (channel_for_key cfg) (node_ok cfg) latest
              (channels_to_add cfg) [bridge_subscriptions_mutex] s)
    as (s' & E & Hb' & Hn' & Hnet & Hr & Hc);
    [done|apply channels_to_add_builds|set_solver|set_solver|done..|].
  exists s'. split; [|done]. unfold update_advertised_topics.
  erewrite bind_run by reflexivity. rewrite Hok. cbn [negb].
  erewrite bind_run by (unfold lift; by rewrite Hlatest).
  rewrite with_lock_run by apply not_elem_of_nil. exact E.
Qed.

Lemma update_advertised_services_run l s :
  rclcpp_ok (env (world s)) = true → has_capability cfg CAPABILITY_SERVICES = true →
  get_service_names_and_types (env (world s)) = Ret l → good s →
  ∃ o s', update_advertised_services cfg [] s = (o, s') ∧ good s' ∧ net s' = net s ∧
    services_refreshed fst (service_for cfg) l (tables (world s)) (tables (world s')).
Proof.
  intros Hok Hcap Hl [Hb Hn]. pose proof (proj2 Hn) as [Hnames Htext _].
  destruct (refresh_services_run fst (service_for cfg) (service_for_name cfg) (node_ok cfg)
              l (services_to_add cfg) [bridge_services_mutex] s)
    as (o & s' & E & Hb' & Hn' & Hnet & Hr);
    [done|apply services_to_add_builds|set_solver|set_solver|by apply Hnames|by apply Htext|done..|].
  exists o, s'. split; [|done]. unfold update_advertised_services.
  erewrite bind_run by reflexivity. rewrite Hok. cbn [negb]. rewrite Hcap. cbn [negb].
  erewrite bind_run by reflexivity. rewrite Hl. erewrite bind_run by reflexivity. rewrite with_lock_run by apply not_elem_of_nil. exact E.
Qed.

Lemma keeps_topics names :
  (∀ latest, collect_topics cfg names ∅ = Ret latest → channels_text (channel_for cfg) latest) →
  keeps good (update_advertised_topics cfg names).
Proof.
  intros Htext s Hs. destruct (rclcpp_ok (env (world s))) eqn:Hok.
  - destruct (collect_topics cfg names ∅) as [latest|e|] eqn:E.
    + destruct (update_advertised_topics_run names latest s) as (s' & -> & ? & _); auto.
    + unfold update_advertised_topics. erewrite bind_run by reflexivity. rewrite Hok.
      unfold mbind, M_mbind, M_bind, lift. by rewrite E.
    + unfold update_advertised_topics. erewrite bind_run by reflexivity. rewrite Hok.
      unfold mbind, M_mbind, M_bind, lift. by rewrite E.
  - unfold update_advertised_topics. erewrite bind_run by reflexivity. by rewrite Hok.
Qed.

Lemma keeps_services : keeps good (update_advertised_services cfg).
Proof.
  intros s Hs. destruct (rclcpp_ok (env (world s))) eqn:Hok;
    [destruct (has_capability cfg CAPABILITY_SERVICES) eqn:Hcap|].
  - destruct (get_service_names_and_types (env (world s))) as [l|e|] eqn:Hl.
    + by destruct (update_advertised_services_run l s) as (o & s' & -> & ? & _).
    + unfold update_advertised_services. erewrite bind_run by reflexivity. rewrite Hok, Hcap.
      cbn [negb]. erewrite bind_run by reflexivity. cbv beta. by rewrite Hl.
    + unfold update_advertised_services. erewrite bind_run by reflexivity. rewrite Hok, Hcap.
      cbn [negb]. erewrite bind_run by reflexivity. cbv beta. by rewrite Hl.
  - unfold update_advertised_services. erewrite bind_run by reflexivity. by rewrite Hok, Hcap.
  - unfold update_advertised_services. erewrite bind_run by reflexivity. by rewrite Hok.
Qed.

Lemma keeps_current_topics (k : NamesAndTypes → M Node unit) :
  (∀ names, (∀ latest, collect_topics cfg names ∅ = Ret latest →
               channels_text (channel_for cfg) latest) → keeps good (k names)) →
  keeps good (current_topics ≫= k).
Proof.
  intros Hk s Hs. pose proof (env_channels_text _ _ (proj2 (proj2 Hs))) as Htext.
  unfold current_topics, mbind, M_mbind, M_bind, lift, get_world.
  destruct (get_topic_names_and_types (env (world s))) as [names|e|]; [|done..].
  apply Hk; [|done]. intros latest. by apply Htext.
Qed.

Lemma keeps_poll_start : keeps good (rosgraph_poll_start cfg).
Proof.
  apply keeps_current_topics. intros names Htext.
  apply keeps_bind; [by apply keeps_topics|]. intros []. apply keeps_services.
Qed.

Lemma keeps_poll triggered : keeps good (rosgraph_poll cfg triggered).
Proof.
  apply keeps_try_catch; [|intros e; apply keeps_preserves; unfold catch_log; solve_preserves].
  destruct triggered; [|apply keeps_preserves, preserves_ret].
  apply keeps_current_topics. intros names Htext.
  apply keeps_bind; [by apply keeps_topics|]. intros [].
  apply keeps_bind; [apply keeps_services|]. intros [].
  apply keeps_preserves. solve_preserves.
Qed.

End Threads.

(** ** The system *)

Inductive bridge_input :=
| FromClient (i : input)
| PollStart
| Poll (triggered : bool)
| RosMessage (channel_id : Z) (hdl : ConnHandle) (msg : list byte) (timestamp : Z)
| RosServiceResponse (id sequence_number : Z) (response : option (list byte))
| RosParameterEvent (node : string) (msg : ParameterEvent)
| RunFetchAsset
| ClockMessage (nanoseconds : Z).

(** The callbacks of websocketpp. *)
Definition from_network (i : input) : bool :=
  match i with Opened _ | Closed _ | Message _ _ _ _ => true | _ => false end.

Definition valid_input (b : bridge_input) : bool :=
  match b with FromClient i => from_network i | _ => true end.

Section System.
Context {plat : Platform} (cfg : Config) (parse : list byte → outcome json).
Implicit Types (s : St Node).

Definition bridge_entry (b : bridge_input) : M Node unit :=
  match b with
  | FromClient i => entry (handlers cfg) parse i
  | PollStart => rosgraph_poll_start cfg
  | Poll triggered => rosgraph_poll cfg triggered
  | RosMessage ch hdl msg t => ros_message_handler ch hdl msg t
  | RosServiceResponse id n r => on_service_response id n r
  | RosParameterEvent node ps => on_parameter_event node ps
  | RunFetchAsset => run_fetch_asset cfg
  | ClockMessage t => on_clock t
  end.

Inductive bridge_step : St Node → St Node → Prop :=
| bridge_step_entry b s :
    valid_input b = true → (bridge_entry b [] s).1 ≠ Undefined →
    bridge_step s (bridge_entry b [] s).2
| bridge_step_net n s : bridge_step s (mkSt (srv s) n (trace s) (world s))
| bridge_step_env e s : env_ok cfg e →
    bridge_step s (mkSt (srv s) (net s) (trace s) (set_env (world s) e)).

(** From the construction of the node and its server. *)
Inductive bridge_reachable : St Node → Prop :=
| bridge_reachable_init compile p distro time macs ips colink name options n e :
    cfg = new_Config compile (node_name cfg) (node_namespace cfg) (ament cfg) (fuel cfg) p →
    new_ServerOptions compile p distro time macs ips colink = Ret options → env_ok cfg e →
    bridge_reachable (mkSt (new_Server name options) n []
      (new_Node compile (node_name cfg) (node_namespace cfg) (ament cfg) (fuel cfg) p e))
| bridge_reachable_step s s' : bridge_reachable s → bridge_step s s' → bridge_reachable s'.

Lemma keeps_entry b : valid_input b = true → keeps (good cfg) (bridge_entry b).
Proof.
  destruct b; cbn [valid_input bridge_entry]; intros Hv.
  - apply keeps_preserves, entry_good. by destruct i.
  - apply keeps_poll_start.
  - apply keeps_poll.
  - apply keeps_preserves, good_ros_message.
  - apply keeps_preserves, good_service_response.
  - apply keeps_preserves, good_parameter_event.
  - apply keeps_preserves, good_fetch_asset.
  - apply keeps_preserves, good_clock.
Qed.

Lemma bridge_reachable_good s : bridge_reachable s → good cfg s.
Proof.
  induction 1 as [compile p distro time macs ips colink name options n e _ _ He|s s' _ IH Hstep].
  - split.
    + split; [apply new_Server_inv|]. split; [apply empty_tables_ok|apply new_server_synced].
    + split; [|done]. apply cache_coherent_empty.
  - destruct Hstep as [b s Hv Hu|n s|e s He].
    + by apply keeps_entry.
    + done.
    + destruct IH as [Hb [Hco _]]. done.
Qed.

(** C1. In every state the bridge and its server reach together when their entry points
    run one after the other (each request, callback and poll to its end before the next
    begins), whatever clients, the ROS graph and the middleware do in them, and with
    names and definitions that are UTF-8, their records agree: the channels and
    services of the server are those the node advertises, a client is subscribed on
    the server exactly when the node has a ROS subscription for it, and for every
    client channel the server knows the node has a publisher on its topic.  (A poll that
    removes a channel in the middle of a subscription breaks this, see [Races].) *)
Theorem bridge_and_server_agree s :
  bridge_reachable s →
  server_inv (srv s) ∧ tables_ok (tables (world s)) ∧ synced (srv s) (tables (world s)).
Proof. intros Hr%bridge_reachable_good. destruct Hr as [[Hi [Ho Hs]] _]. done. Qed.

(** *** Topics *)

Definition visible_topic (names : NamesAndTypes) (key : TopicAndDatatype) : Prop :=
  ∃ types, (key.1, types) ∈ names ∧ key.2 ∈ types ∧
    (_include_hidden cfg = true ∨ is_hidden_topic_or_service key.1 = Ret false) ∧
    is_whitelisted key.1 (_topic_whitelist_patterns cfg) = true.

Lemma visible_topic_cons e names key :
  visible_topic (e :: names) key ↔ visible_topic [e] key ∨ visible_topic names key.
Proof. unfold visible_topic. set_solver. Qed.

Lemma collect_topics_spec names acc :
  Forall (λ e, e.1 ≠ EmptyString) names →
  ∃ latest, collect_topics cfg names acc = Ret latest ∧
    ∀ key, key ∈ latest ↔ key ∈ acc ∨ visible_topic names key.
Proof.
  revert acc. induction names as [|[name types] names IH]; intros acc Hne.
  { exists acc. split; [done|]. unfold visible_topic. set_solver. }
  apply Forall_cons in Hne as [Hn Hne]. cbn [collect_topics].
  assert (∃ hidden, (if _include_hidden cfg then Ret false
                     else is_hidden_topic_or_service name) = Ret hidden ∧
    (hidden = false ↔ _include_hidden cfg = true ∨ is_hidden_topic_or_service name = Ret false))
    as (hidden & -> & Hh).
  { destruct (_include_hidden cfg); [exists false; split; [done|]; by split; [left|]|].
    destruct name as [|a name]; [done|]. eexists. split; [reflexivity|]. split.
    - intros Hf. right. unfold is_hidden_topic_or_service. by rewrite Hf.
    - by intros [|[= Hf]]. }
  assert (∀ key, visible_topic [(name, types)] key ↔
    hidden = false ∧ is_whitelisted name (_topic_whitelist_patterns cfg) = true ∧
    key.1 = name ∧ key.2 ∈ types) as Hv.
  { intros key. rewrite Hh. unfold visible_topic. split.
    - intros (ts & Hin%list_elem_of_singleton & Ht & Hv & Hw). by simplify_eq/=.
    - intros (Hv & Hw & <- & Ht). exists types. split_and!; try done. by left. }
  simpl_bind. destruct hidden.
  { destruct (IH acc Hne) as (latest & E & Hl). exists latest. split; [done|]. intros key.
    rewrite Hl, visible_topic_cons, Hv. intuition congruence. }
  destruct (is_whitelisted name _) eqn:Hw.
  - destruct (IH (list_to_set (pair name <$> types) ∪ acc) Hne) as (latest & E & Hl).
    exists latest. split; [done|]. intros key. rewrite Hl, visible_topic_cons, Hv.
    assert (key ∈ pair name <$> types ↔ key.1 = name ∧ key.2 ∈ types) as Hin.
    { rewrite list_elem_of_fmap. destruct key as [a b]. simpl. split.
      - by intros (b' & [= -> ->] & ?).
      - intros [-> ?]. by exists b. }
    rewrite elem_of_union, elem_of_list_to_set, Hin. tauto.
  - destruct (IH acc Hne) as (latest & E & Hl). exists latest. split; [done|]. intros key.
    rewrite Hl, visible_topic_cons, Hv. intuition congruence.
Qed.

(** There are no more topics than names with their types. *)
Lemma collect_topics_size names acc latest :
  collect_topics cfg names acc = Ret latest →
  (size latest ≤ size acc + length (names ≫= snd))%nat.
Proof.
  revert acc. induction names as [|[name types] names IH]; intros acc; cbn [collect_topics].
  { intros [= ->]. lia. }
  change (((name, types) :: names) ≫= snd) with (types ++ (names ≫= snd)). rewrite length_app.
  destruct (if _include_hidden cfg then _ else _) as [hidden|e|]; simpl_bind; [|done..].
  assert (size (list_to_set (pair name <$> types) ∪ acc : gset TopicAndDatatype) ≤
            length types + size acc)%nat as Hs.
  { induction types as [|ty types IHt]; cbn [fmap list_fmap list_to_set].
    - rewrite (left_id_L ∅ _). simpl. lia.
    - rewrite <-(assoc_L _), size_union_alt, size_singleton. cbn [length].
      etrans; [|apply le_n_S, IHt]. simpl. apply le_n_S, subseteq_size. set_solver. }
  destruct hidden; [|destruct (is_whitelisted _ _)]; intros ?%IH; lia.
Qed.

(** The keys of the advertised topics. *)
Definition advertised (t : Tables Subscription Publisher) (key : TopicAndDatatype) : Prop :=
  ∃ id c, advertised_topics t !! id = Some c ∧ channel_key c = key.

(** C6. One poll of the topics, when their definitions are UTF-8, makes what is advertised
    follow the ROS graph: a topic with a type is advertised afterwards exactly when it is visible (on the
    whitelist, not hidden) and was advertised or has a usable definition; channels of
    topics that stay keep their ids and their subscriptions, the subscriptions of the
    others are gone, and the server has the same channels. *)
Theorem topics_follow_graph (names : NamesAndTypes) s :
  bridge_reachable s → rclcpp_ok (env (world s)) = true →
  Forall (λ e, e.1 ≠ EmptyString) names → ids_below_next (srv s) →
  _next_channel_id (srv s) + Z.of_nat (length (names ≫= snd)) < 2 ^ 32 →
  (∀ key c, visible_topic names key → channel_for cfg key = Some c → channel_text c = true) →
  ∃ s', update_advertised_topics cfg names [] s = (Ret tt, s') ∧
  let t := tables (world s) in let t' := tables (world s') in
  (∀ key, advertised t' key ↔
     visible_topic names key ∧ (advertised t key ∨ is_Some (channel_for cfg key))) ∧
  (∀ id c, advertised_topics t !! id = Some c → visible_topic names (channel_key c) →
     advertised_topics t' !! id = Some c) ∧
  (∀ ch hdl sub, subscription_of t' ch hdl = Some sub ↔
     subscription_of t ch hdl = Some sub ∧
     ∃ c, advertised_topics t !! ch = Some c ∧ visible_topic names (channel_key c)) ∧
  (∀ id, channel_base <$> _channels (srv s') !! id = advertised_topics t' !! id).
Proof.
  intros Hr Hok Hne Hids Hb Htext. pose proof (bridge_reachable_good s Hr) as Hgood.
  destruct (collect_topics_spec names ∅ Hne) as (latest & El & Hl).
  assert (∀ key, key ∈ latest ↔ visible_topic names key) as Hv by set_solver.
  destruct (update_advertised_topics_run cfg names latest s) as (s' & E & Hgood' & _ & Href & Hcomp);
    [done..|intros key c Hin%Hv; by apply Htext|done|].
  exists s'. split; [done|]. cbv zeta.
  destruct Hcomp as [Hcomp _]; [done| |].
  { assert (size latest ≤ length (names ≫= snd))%nat; [|lia].
    apply collect_topics_size in El. rewrite size_empty in El. lia. }
  destruct Href as [Hkept Hsound Hsubs _ _]. split_and!.
  - intros key. rewrite <-Hv. split.
    + intros (id & c & Hc & <-). apply Hsound in Hc as [Hin [Hc|Hc]]; (split; [done|]); [left|right].
      * by exists id, c.
      * by eexists.
    + intros [Hin Hor]. by apply Hcomp.
  - intros id c Hc Hin%Hv. by apply Hkept.
  - intros ch hdl sub. rewrite Hsubs. by setoid_rewrite Hv.
  - destruct Hgood' as [[_ [_ Hsy]] _]. apply (sync_channels _ _ Hsy).
Qed.

End System.
