(* ===== verification/Ros2Specs.v ===== *)
(** * What the ROS 2 bridge does for its clients

    The whole way of a message, a publication, a service call and an asset through
    the server and the node, and the quality of service of subscriptions. *)

From Stdlib Require Import ZArith Lia.
From S2P Require Import Prelude Wire Json Serialization ServerState ServerMethods ServerLogic.
From S2P Require Import ServerInv ServerSpecs ServerSystem ServerDispatch.
From S2P Require Import Text MessageDefinitionCache SchemaText ParameterInterface BridgeParams.
From S2P Require Import BridgeTables ServerRuns BridgeSync BridgeUpdate BridgeRefresh.
From S2P Require Import GenericClient Ros2Bridge Ros2Handlers Ros2System.

Local Open Scope Z_scope.
Import Ros2Node.

Section Specs.
Context {plat : Platform} (cfg : Config) (parse : list byte → outcome json).
Implicit Types (s : St Node).

(** ** Messages to clients *)

(** The timestamp of a message: the middleware's, or the node's time. *)
Definition message_time (timestamp now : Z) : Z :=
  if decide (timestamp ≠ 0) then timestamp else u64 now.

(** C3. A message on a ROS subscription the node holds for a client goes to that
    client, as one frame with the id the client gave its subscription; a message that
    comes for a client without the subscription is dropped. *)
Theorem ros_message_reaches_subscriber (ch : Z) (hdl : ConnHandle) (msg : list byte)
    (timestamp : Z) s :
  bridge_reachable cfg parse s → is_Some (net s !! hdl) →
  match subscription_of (tables (world s)) ch hdl with
  | Some _ => ∃ sub_id, server_sub (srv s) hdl ch = Some sub_id ∧
      ros_message_handler ch hdl msg timestamp [] s =
      (Ret tt, add_trace [Send hdl (Binary (x01 :: le_bytes 4 sub_id ++
         le_bytes 8 (message_time timestamp (now_nanoseconds (env (world s)))) ++ msg)) false] s)
  | None => ros_message_handler ch hdl msg timestamp [] s = (Ret tt, s)
  end.
Proof.
  intros [[_ [_ Hs]] _]%bridge_reachable_good [con Hnet].
  pose proof (sync_subs _ _ Hs hdl ch) as Hiff. unfold ros_message_handler.
  erewrite bind_run by reflexivity. rewrite send_message_run, Hnet.
  change (_clients (srv s) !! hdl ≫= _) with (server_sub (srv s) hdl ch).
  destruct (subscription_of _ ch hdl) as [sub|].
  - destruct (server_sub (srv s) hdl ch) as [sub_id|]; [by exists sub_id|].
    destruct (proj1 Hiff); [by eexists|done].
  - destruct (server_sub (srv s) hdl ch) as [sub_id|]; [|by rewrite add_trace_nil].
    destruct (proj2 Hiff); [by eexists|done].
Qed.

(** ** Publications of clients *)

(** What a step of the node leaves of the other members. *)
Definition with_world (f : Node → Node) s : St Node :=
  mkSt (srv s) (net s) (trace s) (f (world s)).

Lemma client_message_run m hdl p payload L s :
  bridge_publications_mutex ∉ L →
  publisher_of (tables (world s)) hdl (adv_channel_id (advertisement m)) = Some p →
  getData m = Ret payload → publish (env (world s)) (pub_topic p) payload = None →
  client_message m hdl L s =
  (Ret tt, with_world (λ n, log_ros n (RosPublish (pub_topic p) payload)) s).
Proof.
  intros HL Hp Hd Hpub. unfold client_message.
  unfold publisher_of in Hp. destruct (client_advertised_topics _ !! hdl) as [pubs|] eqn:Epubs;
    [|done]. simpl in Hp.
  erewrite bind_run.
  2:{ rewrite with_lock_run by done. erewrite bind_run by reflexivity.
      erewrite bind_run by reflexivity. rewrite Epubs, Hp. reflexivity. }
  erewrite bind_run by (unfold lift; by rewrite Hd).
  erewrite bind_run by reflexivity. erewrite bind_run by (unfold lift; by rewrite Hpub).
  done.
Qed.

(** C20. On a little-endian machine, what a client publishes on a channel it advertised
    is published on the ROS topic of that channel, byte for byte and once, and nothing
    is sent back. *)
Theorem client_publication_reaches_ros (now : Z) (hdl : ConnHandle) (cid : Z)
    (buffer : list byte) (adv : ClientAdvertisement) s :
  big_endian = false → is_u32 cid → Z.of_nat (length buffer) < 2 ^ 63 →
  bridge_reachable cfg parse s →
  CAPABILITY_CLIENT_PUBLISH ∈ capabilities (_options (srv s)) →
  publications (srv s) hdl !! cid = Some adv →
  publish (env (world s)) (adv_topic adv) buffer = None →
  ∃ frame msg, client_publish_frame cid buffer = Ret frame ∧
    entry (handlers cfg) parse (Message now hdl BINARY frame) [] s =
    (Ret tt, with_world (λ n, log_ros n (RosPublish (adv_topic adv) buffer))
               (add_trace [Call (CallClientMessage msg hdl)] s)).
Proof.
  intros Hbe Hcid Hlen [[Hinv [_ Hs]] _]%bridge_reachable_good Hcap Hadv Hpub.
  destruct (sync_pubs _ _ Hs hdl cid adv Hadv) as (p & Hp & [Ht _]).
  pose proof (inv_publications _ Hinv hdl cid adv Hadv) as Hid.
  unfold publications in Hadv. destruct (_client_channels (srv s) !! hdl) as [pubs|] eqn:Epubs; [|done].
  destruct (client_publish_run (handlers cfg) now hdl cid buffer pubs adv client_message s)
    as (frame & Hframe & Hdata & Hrun); [done..|].
  eexists frame, _. split; [done|]. cbn [entry]. unfold handle_message, try_catch. rewrite Hrun.
  rewrite (client_message_run _ _ p buffer); [|set_solver|by cbn; rewrite Hid|done|by rewrite Ht].
  by rewrite Ht.
Qed.

(** ** Service calls *)

(** The client object for a service: the one there is, or a new one. *)
Definition service_client (n : Node) (id : Z) (service : ServiceWithoutId)
    (c : GenericClient ResponseCallback) : Prop :=
  _service_clients n !! id = Some c ∨
  (_service_clients n !! id = None ∧
   new_GenericClient (rcl (env n)) (service_name service) (service_type service) = Ret c ∧
   add_client (env n) (service_name service) = None).

(** The node after a request was sent with [seq]. *)
Definition requested (id seq : Z) (c : GenericClient ResponseCallback) (request : ServiceRequest)
    (hdl : ConnHandle) (n : Node) : Node :=
  log_ros (set_service_clients n
      (<[id := set_pending (<[seq := (request, hdl)]> (pending_requests_ c)) c]>
         (_service_clients n)))
    (RosServiceCall (gc_service_name c) seq (serv_data request)).

Lemma service_request_sent request hdl service c seq L s :
  let id := service_id request in let e := env (world s) in
  bridge_services_mutex ∉ L →
  known_services (tables (world s)) !! id = Some service →
  service_client (world s) id service c → wait_for_service e (gc_service_name c) = true →
  rmw_deserialize (rcl e) (gc_service_type c) (serv_data request) = true →
  rcl_send_request (rcl e) (gc_service_name c) (serv_data request) = Ret seq →
  service_request request hdl L s = (Ret tt, with_world (requested id seq c request hdl) s).
Proof.
  intros id e HL Hsv Hc Hwait Hdes Hsend. unfold service_request. fold id.
  rewrite with_lock_run by done. rewrite bind_get_table_run, Hsv.
  do 2 (erewrite bind_run by reflexivity). fold e.
  assert (async_send_request (rcl e) (serv_data request) (request, hdl) c =
    Ret (seq, set_pending (<[seq := (request, hdl)]> (pending_requests_ c)) c)) as Hasync.
  { unfold async_send_request. rewrite Hdes. cbn [negb]. by rewrite Hsend. }
  destruct Hc as [Hc|(Hc & Hnew & Hadd)]; rewrite Hc; [|fold e in Hnew, Hadd].
  - erewrite bind_run by reflexivity. erewrite bind_run by reflexivity.
    rewrite Hc, Hwait. cbn [negb]. erewrite bind_run by (unfold lift; by rewrite Hasync). done.
  - erewrite bind_run.
    2:{ unfold try_catch. erewrite bind_run by (unfold lift; by rewrite Hnew).
        erewrite bind_run by reflexivity. unfold lift. by rewrite Hadd. }
    erewrite bind_run by reflexivity. cbn [world set_service_clients _service_clients].
    assert (∀ m : gmap Z (GenericClient ResponseCallback), m !! id = None →
      emplace_at id c m = <[id := c]> m) as Hem by (intros m Hm; unfold emplace_at; by rewrite Hm).
    rewrite Hem by done. rewrite lookup_insert_eq, Hwait. cbn [negb].
    erewrite bind_run by (unfold lift; by rewrite Hasync).
    unfold update_world, with_world, requested. cbn. by rewrite insert_insert_eq.
Qed.

Lemma service_response_run id seq bytes c request hdl L s :
  _service_clients (world s) !! id = Some c →
  pending_requests_ c !! seq = Some (request, hdl) →
  on_service_response id seq (Some bytes) L s =
  (Ret tt, add_trace (delivered (net s) hdl (Binary (x03 :: ServiceResponse_bytes
       {| service_id := service_id request; call_id := call_id request;
          sr_encoding := sr_encoding request; serv_data := bytes |})) true)
     (with_world (λ n, set_service_clients n
        (<[id := set_pending (delete seq (pending_requests_ c)) c]> (_service_clients n))) s)).
Proof.
  intros Hc Hp. unfold on_service_response. erewrite bind_run by reflexivity. rewrite Hc.
  unfold handle_response. rewrite Hp. erewrite bind_run by reflexivity.
  unfold response_received, send_service_response. rewrite service_response_frame_layout.
  erewrite bind_run by reflexivity. rewrite send_binary_run. done.
Qed.

Lemma service_response_ignored id seq r c L s :
  _service_clients (world s) !! id = Some c → pending_requests_ c !! seq = None →
  on_service_response id seq r L s = (Ret tt, s).
Proof.
  intros Hc Hp. unfold on_service_response. erewrite bind_run by reflexivity. rewrite Hc.
  unfold handle_response. assert (handle_response seq r c = (c, None)) as E.
  { unfold handle_response. destruct r; [by rewrite Hp|done]. }
  unfold handle_response in E. rewrite E. erewrite bind_run by reflexivity.
  unfold mret, M_mret, M_ret. f_equal. destruct s as [sv n tr w]. f_equal. destruct w. simpl in *.
  unfold set_service_clients. simpl. by rewrite insert_id.
Qed.

(** C21. A service call of a client is sent to the ROS service with the client's bytes;
    when ROS answers it, the client that called gets one response with the service
    and call ids and the encoding of its request and the bytes of the answer; a
    second answer to the same call does nothing. *)
Theorem service_call_answered (now : Z) (hdl : ConnHandle) (request : ServiceRequest)
    (service : ServiceWithoutId) (c : GenericClient ResponseCallback) (seq : Z) s :
  let id := service_id request in let e := env (world s) in
  bridge_reachable cfg parse s → ServiceResponse_wf request →
  CAPABILITY_SERVICES ∈ capabilities (_options (srv s)) →
  _services (srv s) !! id = Some service →
  service_client (world s) id service c → wait_for_service e (gc_service_name c) = true →
  rmw_deserialize (rcl e) (gc_service_type c) (serv_data request) = true →
  rcl_send_request (rcl e) (gc_service_name c) (serv_data request) = Ret seq →
  ∃ frame s1, client_service_request_frame request = Ret frame ∧
    entry (handlers cfg) parse (Message now hdl BINARY frame) [] s = (Ret tt, s1) ∧
    ros_log (world s1) =
      ros_log (world s) ++ [RosServiceCall (gc_service_name c) seq (serv_data request)] ∧
    ∀ bytes, ∃ s2, on_service_response id seq (Some bytes) [] s1 = (Ret tt, s2) ∧
      trace s2 = trace s1 ++ delivered (net s) hdl (Binary (x03 :: ServiceResponse_bytes
        {| service_id := id; call_id := call_id request; sr_encoding := sr_encoding request;
           serv_data := bytes |})) true ∧
      ∀ r, on_service_response id seq r [] s2 = (Ret tt, s2).
Proof.
  intros id e [[_ [_ Hs]] _]%bridge_reachable_good Hwf Hcap Hsv Hc Hwait Hdes Hsend.
  destruct (service_request_run (handlers cfg) now hdl request service_request s)
    as (frame & Hframe & Hrun); [done..|]. fold id in Hrun. rewrite Hsv in Hrun.
  pose proof Hsv as Hk. rewrite (sync_services _ _ Hs) in Hk.
  rewrite (service_request_sent request hdl service c seq) in Hrun;
    [|apply not_elem_of_nil|done..].
  eexists frame, _. split; [done|]. split.
  { cbn [entry]. unfold handle_message, try_catch. by rewrite Hrun. }
  split; [done|]. intros bytes. eexists. split.
  { rewrite (service_response_run id seq bytes
      (set_pending (<[seq := (request, hdl)]> (pending_requests_ c)) c) request hdl).
    - reflexivity.
    - apply lookup_insert_eq.
    - apply lookup_insert_eq. }
  split; [done|]. intros r.
  eapply service_response_ignored; [apply lookup_insert_eq|]. simpl. apply lookup_delete_eq.
Qed.

(** ** Assets *)

Definition asset_response (e : RosEnv) (uri : string) (request_id : Z) : FetchAssetResponse :=
  match (if asset_allowed cfg uri then retrieve e uri else Throw (RuntimeError EmptyString)) with
  | Ret data => {| fa_request_id := request_id; fa_status := FetchAssetStatus_Success;
                   fa_error_message := EmptyString; fa_data := data |}
  | _ => {| fa_request_id := request_id; fa_status := FetchAssetStatus_Error;
            fa_error_message := "Failed to retrieve asset " +:+ uri; fa_data := [] |}
  end.

(** C22. The asset thread answers the oldest request with the client's request id: with
    the bytes of the resource if its URI is on the allowlist, has no [..] in it, and
    can be retrieved; with an error status otherwise, whatever the retriever would
    have returned. *)
Theorem fetch_asset_answered (uri : string) (request_id : Z) (hdl : ConnHandle)
    (rest : list (string * Z * ConnHandle)) s :
  _fetch_asset_queue (world s) = (uri, request_id, hdl) :: rest → is_Some (net s !! hdl) →
  (∃ data, retrieve (env (world s)) uri = Ret data) ∨
  (∃ e w, retrieve (env (world s)) uri = Throw e ∧ what e = Some w) →
  (∃ frame, fetch_asset_frame (asset_response (env (world s)) uri request_id) = Ret frame ∧
    run_fetch_asset cfg [] s =
    (Ret tt, add_trace [Send hdl (Binary frame) true]
               (with_world (λ n, set_fetch_queue n rest) s))) ∧
  (fa_status (asset_response (env (world s)) uri request_id) = FetchAssetStatus_Success →
   str_find ".." uri = None ∧
   is_whitelisted uri (_asset_uri_allowlist_patterns cfg) = true ∧
   retrieve (env (world s)) uri =
     Ret (fa_data (asset_response (env (world s)) uri request_id))).
Proof.
  intros Hq [con Hnet] Hret. set (e := env (world s)) in *. split.
  - eexists. split; [apply fetch_asset_frame_layout|].
    unfold run_fetch_asset. erewrite bind_run by reflexivity. rewrite Hq.
    erewrite bind_run by reflexivity. set (s1 := mkSt _ _ _ _). unfold try_catch at 1, fetch_asset.
    erewrite (bind_run _ _ _ s1 (asset_response e uri request_id) s1).
    + unfold send_fetch_asset_response. erewrite bind_run by reflexivity.
      cbn [net s1]. rewrite Hnet.
      erewrite bind_run by (unfold lift; by rewrite fetch_asset_frame_layout). done.
    + unfold asset_response, try_catch. destruct (asset_allowed cfg uri); cbn [negb]; [|done].
      erewrite bind_run by reflexivity. unfold lift, mbind, M_mbind, M_bind.
      cbn [s1 world set_fetch_queue env]. fold e.
      destruct Hret as [[data ->]|(ex & w & -> & Hw)]; [done|]. by rewrite Hw.
  - unfold asset_response, asset_allowed. destruct (bool_decide (is_Some _)) eqn:Ed; [done|].
    cbn [negb andb]. destruct (is_whitelisted _ _); [|done].
    apply bool_decide_eq_false, eq_None_not_Some in Ed.
    destruct (retrieve e uri); done.
Qed.

(** ** Quality of service *)

(** The depths of the publishers, at least one each. *)
Definition total_depth (infos : list TopicEndpointInfo) : Z :=
  foldr Z.add 0 ((λ i, Z.max 1 (depth (qos_profile i))) <$> infos).

Lemma history_depth_total infos : history_depth infos = u64 (total_depth infos).
Proof.
  unfold history_depth, total_depth.
  assert (∀ acc, foldl (λ d publisher, u64 (d + Z.max 1 (depth (qos_profile publisher)))) (u64 acc) infos =
    u64 (acc + foldr Z.add 0 ((λ i, Z.max 1 (depth (qos_profile i))) <$> infos))) as H.
  2:{ change 0 with (u64 0) at 1. rewrite H. f_equal. }
  induction infos as [|i infos IH]; intros acc; [by rewrite Z.add_0_r|].
  cbn [foldl]. rewrite fmap_cons. cbn [foldr].
  rewrite u64_add_l, IH. f_equal. lia.
Qed.

Lemma count_endpoints_all (p : QoS → bool) infos :
  count_endpoints p infos = length infos ↔ ∀ i, i ∈ infos → p (qos_profile i) = true.
Proof.
  unfold count_endpoints. split.
  - intros Hl i Hi. destruct (p (qos_profile i)) eqn:E; [done|].
    pose proof (length_filter_lt (λ e, p (qos_profile e) = true) infos i Hi) as Hlt.
    rewrite Hl, E in Hlt. lia.
  - intros Hall. induction infos as [|i infos IH]; [done|]. rewrite filter_cons, decide_True.
    + cbn [length]. f_equal. apply IH. intros j Hj. apply Hall. by right.
    + apply Hall. by left.
Qed.

(** C27. The history depth of a ROS subscription is the sum of the depths of the
    publishers, one at least for each, forced into the configured bounds (in 64-bit
    arithmetic); the subscription is reliable, or transient local, exactly when every
    publisher is. *)
Theorem subscription_qos_bounds (infos : list TopicEndpointInfo) :
  let qos := subscription_qos cfg infos in
  depth qos = Z.min (_max_qos_depth cfg) (Z.max (_min_qos_depth cfg) (u64 (total_depth infos))) ∧
  depth qos ≤ _max_qos_depth cfg ∧
  (_min_qos_depth cfg ≤ _max_qos_depth cfg → _min_qos_depth cfg ≤ depth qos) ∧
  (reliability qos = RELIABLE ↔ ∀ i, i ∈ infos → reliability (qos_profile i) = RELIABLE) ∧
  (durability qos = TRANSIENT_LOCAL ↔
     ∀ i, i ∈ infos → durability (qos_profile i) = TRANSIENT_LOCAL) ∧
  (reliability qos = RELIABLE ∨ reliability qos = BEST_EFFORT) ∧
  (durability qos = TRANSIENT_LOCAL ∨ durability qos = VOLATILE).
Proof.
  cbv zeta. unfold subscription_qos. cbn [depth reliability durability].
  assert (limit_depth cfg (history_depth infos) =
    Z.min (_max_qos_depth cfg) (Z.max (_min_qos_depth cfg) (u64 (total_depth infos)))) as Hd.
  { unfold limit_depth. rewrite history_depth_total.
    destruct (Z.ltb_spec (_max_qos_depth cfg)
                (Z.max (u64 (total_depth infos)) (_min_qos_depth cfg))); lia. }
  pose proof (count_endpoints_all is_reliable infos) as Hr.
  pose proof (count_endpoints_all is_transient_local infos) as Ht.
  unfold is_reliable in Hr. unfold is_transient_local in Ht.
  setoid_rewrite bool_decide_eq_true in Hr. setoid_rewrite bool_decide_eq_true in Ht.
  rewrite Hd, <-Hr, <-Ht. split_and!; [done|lia..| | | |].
  all: by case_bool_decide; [auto|]; try split; auto.
Qed.

End Specs.
