(* ===== verification/Ros2Scenarios.v ===== *)
(** * A session of the ROS 2 bridge

    A node with one topic and one service, and a client that subscribes, publishes
    and asks for an asset; instances of the specifications of the bridge on it, and
    what the bridge does not mean to do. *)

From Stdlib Require Import ZArith Lia.
From S2P Require Import Prelude Wire Json Serialization ServerState ServerMethods ServerLogic.
From S2P Require Import ServerInv ServerSpecs ServerSystem ServerDispatch.
From S2P Require Import Text MessageDefinitionCache SchemaText ParameterInterface BridgeParams.
From S2P Require Import BridgeTables ServerRuns BridgeSync BridgeUpdate BridgeRefresh.
From S2P Require Import GenericClient Ros2Bridge Ros2Handlers Ros2System Ros2Specs.

Local Open Scope Z_scope.
Import Ros2Node.

(** ** The session *)

Definition demo_qos (d : Z) : QoS :=
  {| history := KEEP_LAST; depth := d; reliability := RELIABLE; durability := VOLATILE |}.

Definition demo_rcl : rcl_env := {|
  get_package_prefix p := inr ("/opt/" +:+ p);
  load_library _ := None;
  has_symbol _ _ := true;
  get_symbol_error _ _ := UnknownException;
  rcl_client_init _ := None;
  rmw_deserialize _ _ := true;
  rcl_send_request _ _ := Ret 41;
  rcl_error _ w := StdException w
|}.

Definition demo_env : RosEnv := {|
  rclcpp_ok := true;
  get_topic_names_and_types := Ret [("/_internal", ["geo/Pose"]); ("/pose", ["geo/Pose"])];
  get_service_names_and_types := Ret [("/where", ["geo/srv/Where"])];
  get_publishers_info_by_topic _ := Ret
    [{| endpoint_node_name := "talker"; endpoint_node_namespace := "/"; qos_profile := demo_qos 3 |};
     {| endpoint_node_name := "other"; endpoint_node_namespace := "/"; qos_profile := demo_qos 0 |}];
  get_subscriptions_info_by_topic _ := Ret [];
  Ros2Node.get_service_names_and_types_by_node _ _ := Ret [];
  create_generic_subscription _ _ _ := None;
  create_generic_publisher _ _ _ := None;
  publish _ _ := None;
  wait_for_service _ := true;
  add_client _ := None;
  retrieve _ := Ret [x61; x62];
  now_nanoseconds := 1000;
  rcl := demo_rcl;
  parameter_graph := demo_ros
|}.

Definition demo_parameters : Parameters := {|
  p_port := 21274; p_address := "0.0.0.0"; p_send_buffer_limit := 10000000; p_tls := false;
  p_certfile := EmptyString; p_keyfile := EmptyString; p_min_qos_depth := 1; p_max_qos_depth := 10;
  p_topic_whitelist := [".*"]; p_service_whitelist := [".*"]; p_param_whitelist := [".*"];
  p_use_compression := false; p_use_sim_time := false;
  p_capabilities := [CAPABILITY_CLIENT_PUBLISH; CAPABILITY_SERVICES; CAPABILITY_ASSETS];
  p_client_topic_whitelist := [".*"]; p_include_hidden := false;
  p_asset_uri_allowlist := [".*"]
|}.

(** [.*] matches everything, any other pattern itself. *)
Definition demo_compile (p : string) : option regex :=
  Some (λ s, bool_decide (p = ".*") || bool_decide (p = s)).

Definition demo_config : Config :=
  new_Config demo_compile "cobridge" "/" demo_ament 5 demo_parameters.

Definition demo_server_options : ServerOptions :=
  match new_ServerOptions demo_compile demo_parameters (Some "humble") "1" "00:11" ["10.0.0.1"]
          EmptyString with
  | Ret o => o
  | _ => demo_options
  end.

Definition bridge_init : St Node :=
  mkSt (new_Server "cobridge" demo_server_options)
    (<[1%nat := demo_connection "10.0.0.5:4000"]> ∅) []
    (new_Node demo_compile "cobridge" "/" demo_ament 5 demo_parameters demo_env).

Definition bridge_requests : list json :=
  [login_request "alice";
   json_object [("op", JStr "subscribe");
                ("subscriptions", JArr [json_object [("id", JUnsigned 7); ("channelId", JUnsigned 1)]])];
   json_object [("op", JStr "advertise");
                ("channels", JArr [json_object [("id", JUnsigned 3); ("topic", JStr "/cmd");
                                                ("encoding", JStr "cdr");
                                                ("schemaName", JStr "geo/Point")]])];
   json_object [("op", JStr "fetchAsset"); ("uri", JStr "package://geo/a.dae");
                ("requestId", JUnsigned 9)];
   json_object [("op", JStr "fetchAsset"); ("uri", JStr "package://geo/../secret");
                ("requestId", JUnsigned 10)]].

Definition bridge_parse (bs : list byte) : outcome json :=
  match bs with
  | [b] => match bridge_requests !! Z.to_nat (byte_to_Z b) with
           | Some j => Ret j
           | None => Throw (StdException "parse error")
           end
  | _ => Throw (StdException "parse error")
  end.

Definition bridge_request (hdl : ConnHandle) (n : Z) : bridge_input :=
  FromClient (Message 0 hdl TEXT [byte_of_Z n]).

(** Run a list of inputs; [None] when one of them has undefined behaviour. *)
Fixpoint run_bridge (l : list bridge_input) (s : St Node) : option (St Node) :=
  match l with
  | [] => Some s
  | b :: l =>
      if valid_input b then
        match bridge_entry (plat:=x86_64) demo_config bridge_parse b [] s with
        | (Undefined, _) => None
        | (_, s') => run_bridge l s'
        end
      else None
  end.

Lemma run_bridge_reachable l s s' :
  bridge_reachable (plat:=x86_64) demo_config bridge_parse s → run_bridge l s = Some s' →
  bridge_reachable (plat:=x86_64) demo_config bridge_parse s'.
Proof.
  revert s. induction l as [|b l IH]; simpl; intros s Hr Hrun; [by simplify_eq|].
  destruct (valid_input b) eqn:Hv; [|done].
  pose proof (bridge_step_entry (plat:=x86_64) demo_config bridge_parse b s Hv) as Hst.
  destruct (bridge_entry (plat:=x86_64) demo_config bridge_parse b [] s) as [[u|e|] s1]; [| |done];
    (apply (IH s1); [|done]); (eapply bridge_reachable_step; [exact Hr|]); by apply Hst.
Qed.

Definition bridge_inputs : list bridge_input :=
  [PollStart; FromClient (Opened 1); bridge_request 1 0; bridge_request 1 1; bridge_request 1 2;
   bridge_request 1 3; bridge_request 1 4; Poll true].

Definition bridge_state : St Node := default bridge_init (run_bridge bridge_inputs bridge_init).

Lemma bridge_init_reachable : bridge_reachable (plat:=x86_64) demo_config bridge_parse bridge_init.
Proof.
  apply (bridge_reachable_init (plat:=x86_64) demo_config bridge_parse demo_compile demo_parameters
           (Some "humble") "1" "00:11" ["10.0.0.1"] EmptyString "cobridge"); [done..|].
  apply check_env_ok. vm_compute. reflexivity.
Qed.

Lemma bridge_state_reachable :
  bridge_reachable (plat:=x86_64) demo_config bridge_parse bridge_state.
Proof.
  apply (run_bridge_reachable bridge_inputs bridge_init); [apply bridge_init_reachable|].
  vm_compute. reflexivity.
Qed.

(** ** Instances *)

Lemma bridge_and_server_agree_witness :
  bridge_reachable (plat:=x86_64) demo_config bridge_parse bridge_state ∧
  synced (srv bridge_state) (tables (world bridge_state)) ∧
  (topic <$> advertised_topics (tables (world bridge_state))) = {[1 := "/pose"]}.
Proof.
  split; [apply bridge_state_reachable|]. split; [|vm_compute; reflexivity].
  apply (bridge_and_server_agree (plat:=x86_64) demo_config bridge_parse), bridge_state_reachable.
Defined.

Lemma ros_message_reaches_subscriber_witness :
  ∃ sub_id, server_sub (srv bridge_state) 1%nat 1 = Some sub_id ∧ sub_id = 7 ∧
    ros_message_handler (plat:=x86_64) 1 1%nat [x2a] 0 [] bridge_state =
    (Ret tt, add_trace [Send 1%nat (Binary (x01 :: le_bytes 4 sub_id ++
       le_bytes 8 (message_time 0 1000) ++ [x2a])) false] bridge_state).
Proof.
  pose proof (ros_message_reaches_subscriber (plat:=x86_64) demo_config bridge_parse 1 1%nat [x2a] 0
    bridge_state bridge_state_reachable) as H.
  assert (is_Some (subscription_of (tables (world bridge_state)) 1 1%nat)) as [sub E]
    by (vm_compute; by eexists).
  rewrite E in H. destruct H as (sub_id & Hsub & Hrun); [vm_compute; by eexists|].
  exists sub_id. split; [done|]. split; [|exact Hrun].
  assert (server_sub (srv bridge_state) 1%nat 1 = Some 7) as H7 by (vm_compute; reflexivity).
  congruence.
Defined.

Lemma bridge_state_ids : ids_below_next (srv bridge_state).
Proof.
  split; [by vm_compute|]. intros id Hid.
  assert (id ∈ dom (_channels (srv bridge_state))) as Hd by (by apply elem_of_dom).
  replace (dom (_channels (srv bridge_state))) with ({[1]} : gset Z) in Hd
    by (vm_compute; reflexivity).
  apply elem_of_singleton in Hd as ->. by vm_compute.
Qed.

(** Another topic appears and [/pose] stays. *)
Lemma topics_follow_graph_witness :
  let names := [("/pose", ["geo/Pose"]); ("/point", ["geo/Point"])] in
  ∃ s', update_advertised_topics demo_config names [] bridge_state = (Ret tt, s') ∧
    ∀ key, advertised (tables (world s')) key ↔
      visible_topic demo_config names key ∧
      (advertised (tables (world bridge_state)) key ∨ is_Some (channel_for demo_config key)).
Proof.
  intros names.
  destruct (topics_follow_graph (plat:=x86_64) demo_config bridge_parse names bridge_state)
    as (s' & Hrun & Hadv & _).
  - apply bridge_state_reachable.
  - vm_compute. reflexivity.
  - by repeat constructor.
  - apply bridge_state_ids.
  - by vm_compute.
  - intros [a b] c (types & Hin & Ht & _) Hc. cbn [fst snd] in Hin, Ht.
    apply elem_of_cons in Hin as [[= -> ->]|[[= -> ->]|Hin%elem_of_nil]%elem_of_cons]; [| |done];
      apply list_elem_of_singleton in Ht as ->; vm_compute in Hc; injection Hc as <-;
      vm_compute; reflexivity.
  - exists s'. split; [exact Hrun|exact Hadv].
Defined.

Lemma client_publication_reaches_ros_witness :
  ∃ frame msg, @client_publish_frame x86_64 3 [x2a] = Ret frame ∧
    entry (plat:=x86_64) (handlers demo_config) bridge_parse (Message 5 1%nat BINARY frame) []
      bridge_state =
    (Ret tt, with_world (λ n, log_ros n (RosPublish "/cmd" [x2a]))
               (add_trace [Call (CallClientMessage msg 1%nat)] bridge_state)).
Proof.
  apply (client_publication_reaches_ros (plat:=x86_64) demo_config bridge_parse 5 1%nat 3 [x2a]
           {| adv_channel_id := 3; adv_topic := "/cmd"; adv_encoding := "cdr";
              adv_schema_name := "geo/Point"; adv_schema := [] |}).
  - done.
  - by vm_compute.
  - by vm_compute.
  - apply bridge_state_reachable.
  - apply (bool_decide_unpack _). vm_compute. exact I.
  - vm_compute. reflexivity.
  - vm_compute. reflexivity.
Defined.

Definition where_request : ServiceRequest :=
  {| service_id := 1; call_id := 5; sr_encoding := "cdr"; serv_data := [x01; x02] |}.

Definition where_client : GenericClient ResponseCallback :=
  {| gc_service_name := "/where"; gc_service_type := "geo/srv/Where"; pending_requests_ := ∅ |}.

Lemma service_call_answered_witness :
  ∃ frame s1, @client_service_request_frame x86_64 where_request = Ret frame ∧
    entry (plat:=x86_64) (handlers demo_config) bridge_parse (Message 5 1%nat BINARY frame) []
      bridge_state = (Ret tt, s1) ∧
    ros_log (world s1) = [RosServiceCall "/where" 41 [x01; x02]].
Proof.
  destruct (service_call_answered (plat:=x86_64) demo_config bridge_parse 5 1%nat where_request
              {| service_name := "/where"; service_type := "geo/srv/Where";
                 request_schema := default EmptyString
                   (request_schema <$> _services (srv bridge_state) !! 1);
                 response_schema := default EmptyString
                   (response_schema <$> _services (srv bridge_state) !! 1) |}
              where_client 41 bridge_state) as (frame & s1 & Hf & Hrun & Hlog & _).
  - apply bridge_state_reachable.
  - by vm_compute.
  - apply (bool_decide_unpack _). vm_compute. exact I.
  - vm_compute. reflexivity.
  - right. vm_compute. done.
  - vm_compute. reflexivity.
  - vm_compute. reflexivity.
  - vm_compute. reflexivity.
  - exists frame, s1. split_and!; [exact Hf|exact Hrun|]. rewrite Hlog. vm_compute. reflexivity.
Defined.

(** The first request is answered with the file. *)
Lemma fetch_asset_answered_witness :
  asset_response demo_config demo_env "package://geo/a.dae" 9 =
    {| fa_request_id := 9; fa_status := FetchAssetStatus_Success;
       fa_error_message := EmptyString; fa_data := [x61; x62] |} ∧
  fa_status (asset_response demo_config demo_env "package://geo/../secret" 10) =
    FetchAssetStatus_Error ∧
  ∃ frame, @fetch_asset_frame x86_64 (asset_response demo_config demo_env "package://geo/a.dae" 9) = Ret frame ∧
    run_fetch_asset (plat:=x86_64) demo_config [] bridge_state =
    (Ret tt, add_trace [Send 1%nat (Binary frame) true]
       (with_world (λ n, set_fetch_queue n [("package://geo/../secret", 10, 1%nat)]) bridge_state)).
Proof.
  split; [vm_compute; reflexivity|]. split; [vm_compute; reflexivity|].
  destruct (fetch_asset_answered (plat:=x86_64) demo_config "package://geo/a.dae" 9 1%nat
    [("package://geo/../secret", 10, 1%nat)] bridge_state) as [H _].
  - vm_compute. reflexivity.
  - vm_compute. by eexists.
  - left. vm_compute. by eexists.
  - exact H.
Defined.
