(* ===== verification/Ros1Bridge.v ===== *)
(** * The ROS 1 bridge nodelet

    [ros1_bridge_nodelet.cpp], [service_utils.cpp]: the members of [CoBridge], the
    handlers it gives to the server, the timer callback that follows the ROS graph,
    and its construction in [onInit].  roscpp, the ROS master and its parameter
    server, ros_babel_fish and the resource retriever are the record [RosEnv] in the
    state of the node, which may change between two steps; the members only [onInit]
    writes are the record [Config]. *)

From Stdlib Require Import ZArith Lia.
From S2P Require Import Prelude Wire Json Serialization ServerState ServerMethods ServerLogic.
From S2P Require Import Text BridgeParams BridgeTables.

Local Open Scope Z_scope.
#[local] Arguments String.append !s1 s2 /.

Module Ros1Node.
Import Ros1.

(** ** roscpp *)

(** [ros_babel_fish]: the descriptions of a message and a service type. *)
Record MessageDescription := { md5 : string; message_definition : string }.
Record ServiceDescription := {
  srv_md5 : string;
  srv_request : MessageDescription;
  srv_response : MessageDescription
}.

Record AdvertiseOptions := {
  ao_topic : string;
  ao_datatype : string;
  ao_md5sum : string;
  ao_message_definition : string;
  ao_queue_size : Z;
  ao_has_header : bool;
  ao_latch : bool
}.

Record Subscriber := { sub_topic : string; sub_queue : Z }.
Record Publisher := { pub_options : AdvertiseOptions }.

Record GenericService := { gs_type : string; gs_md5sum : string; gs_data : list byte }.

(** What becomes of the connection a service is probed with. *)
Inductive service_probe :=
| NoLink
| NoConnection
| HeaderReceived (type : option string)
| ProbeTimeout.

(** [getSystemState]: topics and services with the nodes. *)
Record SystemState := {
  ss_publishers : list (string * list string);
  ss_subscribers : list (string * list string);
  ss_services : list (string * list string)
}.

(** What the node does to ROS. *)
Inductive ros_event :=
| RosPublish (topic : string) (payload : list byte)
| RosServiceCall (service : string) (request : GenericService)
| RosSetParam (name : string) (value : XmlRpcValue)
| RosDeleteParam (name : string)
| RosMaster (method : string) (name : string).

(** A function with result [option exn] says what the call throws, if it does. *)
Record RosEnv := {
  ros_ok : bool;
  (** [ros::master::getTopics], [None] when it fails *)
  getTopics : option (list (string * string));
  (** the state when the call succeeds with status 1 *)
  getSystemState : option SystemState;
  getMessageDescription : string → outcome (option MessageDescription);
  getServiceDescription : string → outcome (option ServiceDescription);
  probe_service : string → service_probe;
  nh_subscribe : string → option exn;
  (** whether the publisher is valid *)
  nh_advertise : AdvertiseOptions → outcome bool;
  publish : string → list byte → option exn;
  getParamNames : option (list string);
  (** a value that is not there stays invalid *)
  getParam : string → outcome XmlRpcValue;
  setParam : string → XmlRpcValue → option exn;
  deleteParam : string → option exn;
  master_execute : string → string → bool;
  names_resolve : string → outcome string;
  names_clean : string → string;
  service_exists : string → bool;
  (** [ros::service::call]: the response, [None] when it fails *)
  service_call : string → GenericService → option (list byte);
  retrieve : string → outcome (list byte)
}.

(** ** The nodelet *)

Record Config := {
  topic_whitelist_patterns_ : list regex;
  param_whitelist_patterns : list regex;
  service_whitelist_patterns : list regex;
  asset_uri_allowlist_patterns_ : list regex;
  max_update_ms_ : Z;
  use_sim_time_ : bool;
  capabilities_ : list string
}.

Record Node := {
  node_tables : Tables Subscriber Publisher;
  (** the period of [update_timer_] in milliseconds, [None] when it is stopped *)
  update_timer_ : option Z;
  update_count_ : Z;
  subscribe_graph_updates_ : bool;
  (** the callbacks of [fetch_asset_queue_] that have not run *)
  fetch_asset_queue_ : list (string * Z * ConnHandle);
  ros_log : list ros_event;
  env : RosEnv
}.

Section NodeSetters.
Context (n : Node).

Definition set_node_tables (t : Tables Subscriber Publisher) : Node :=
  {| node_tables := t; update_timer_ := update_timer_ n; update_count_ := update_count_ n;
     subscribe_graph_updates_ := subscribe_graph_updates_ n;
     fetch_asset_queue_ := fetch_asset_queue_ n; ros_log := ros_log n; env := env n |}.
Definition set_update_timer (t : option Z) : Node :=
  {| node_tables := node_tables n; update_timer_ := t; update_count_ := update_count_ n;
     subscribe_graph_updates_ := subscribe_graph_updates_ n;
     fetch_asset_queue_ := fetch_asset_queue_ n; ros_log := ros_log n; env := env n |}.
Definition set_update_count (c : Z) : Node :=
  {| node_tables := node_tables n; update_timer_ := update_timer_ n; update_count_ := c;
     subscribe_graph_updates_ := subscribe_graph_updates_ n;
     fetch_asset_queue_ := fetch_asset_queue_ n; ros_log := ros_log n; env := env n |}.
Definition set_graph_updates (b : bool) : Node :=
  {| node_tables := node_tables n; update_timer_ := update_timer_ n;
     update_count_ := update_count_ n; subscribe_graph_updates_ := b;
     fetch_asset_queue_ := fetch_asset_queue_ n; ros_log := ros_log n; env := env n |}.
Definition set_fetch_queue (q : list (string * Z * ConnHandle)) : Node :=
  {| node_tables := node_tables n; update_timer_ := update_timer_ n;
     update_count_ := update_count_ n; subscribe_graph_updates_ := subscribe_graph_updates_ n;
     fetch_asset_queue_ := q; ros_log := ros_log n; env := env n |}.
Definition log_ros (e : ros_event) : Node :=
  {| node_tables := node_tables n; update_timer_ := update_timer_ n;
     update_count_ := update_count_ n; subscribe_graph_updates_ := subscribe_graph_updates_ n;
     fetch_asset_queue_ := fetch_asset_queue_ n; ros_log := ros_log n ++ [e]; env := env n |}.
Definition set_env (e : RosEnv) : Node :=
  {| node_tables := node_tables n; update_timer_ := update_timer_ n;
     update_count_ := update_count_ n; subscribe_graph_updates_ := subscribe_graph_updates_ n;
     fetch_asset_queue_ := fetch_asset_queue_ n; ros_log := ros_log n; env := e |}.

End NodeSetters.

#[export, refine] Instance node_has_tables : HasTables Node Subscriber Publisher :=
  {| tables := node_tables; set_tables t n := set_node_tables n t |}.
Proof. all: by intros; destruct w. Defined.

Definition ros_call (e : option exn) : outcome unit :=
  match e with Some e => Throw e | None => Ret tt end.

Definition ROS1_CHANNEL_ENCODING : string := "ros1".
Definition SUBSCRIPTION_QUEUE_LENGTH : Z := 10.
Definition PUBLICATION_QUEUE_LENGTH : Z := 10.
Definition MIN_UPDATE_PERIOD_MS : Z := 100.

(** [retrieve_service_type]. *)
Definition retrieve_service_type (e : RosEnv) (serviceName : string) : outcome string :=
  match probe_service e serviceName with
  | NoLink => Throw (RuntimeError "Failed to create service link")
  | NoConnection => Throw (RuntimeError "Failed to get service link connection")
  | ProbeTimeout => Throw (RuntimeError "Timed out when retrieving service type")
  | HeaderReceived (Some serviceType) => Ret serviceType
  | HeaderReceived None =>
      Throw (RuntimeError "Key 'type' not found in service connection header")
  end.

(** [catch (const std::exception & ex) { throw ...(... + ex.what()); }]. *)
Definition rethrow {A} (f : string → exn) (e : exn) : M Node A :=
  match what e with Some w => throw (f w) | None => throw e end.

Section Methods.
Context {plat : Platform} (cfg : Config).

Definition has_capability (capability : string) : bool :=
  bool_decide (capability ∈ capabilities_ cfg).

(** ** Subscriptions *)

Definition subscribe (channel_id : Z) (client_handle : ConnHandle) : M Node unit :=
  with_lock bridge_subscriptions_mutex
    (topics ← get_table advertised_topics;
     match topics !! channel_id with
     | None =>
         throw (ChannelError channel_id
           ("Received subscribe request for unknown channel " +:+ to_string channel_id))
     | Some channel =>
         subs ← get_table subscriptions;
         let inserted := bool_decide (subs !! channel_id = None) in
         update_tables (λ t, set_subs t (emplace_at channel_id ∅ (subscriptions t)));;
         t ← get_table id;
         if negb inserted && bool_decide (is_Some (subscription_of t channel_id client_handle))
         then
           throw (ChannelError channel_id
             ("Client is already subscribed to channel " +:+ to_string channel_id))
         else
           try_catch
             (e ← get_world env;
              lift (ros_call (nh_subscribe e (topic channel)));;
              update_tables (λ t, set_subs t
                (alter (emplace_at client_handle
                          {| sub_topic := topic channel;
                             sub_queue := SUBSCRIPTION_QUEUE_LENGTH |})
                   channel_id (subscriptions t))))
             (rethrow (λ w, ChannelError channel_id
                ("Failed to subscribe to topic '" +:+ topic channel +:+ "' (" +:+
                 schema_name channel +:+ "): " +:+ w)))
     end).

Definition unsubscribe (channel_id : Z) (client_handle : ConnHandle) : M Node unit :=
  with_lock bridge_subscriptions_mutex
    (topics ← get_table advertised_topics;
     match topics !! channel_id with
     | None =>
         throw (ChannelError channel_id
           ("Received unsubscribe request for unknown channel " +:+ to_string channel_id))
     | Some _ =>
         subs ← get_table subscriptions;
         match subs !! channel_id with
         | None =>
             throw (ChannelError channel_id
               ("Received unsubscribe request for channel " +:+ to_string channel_id +:+
                " that was not subscribed to "))
         | Some subscriptions_by_client =>
             match subscriptions_by_client !! client_handle with
             | None =>
                 throw (ChannelError channel_id
                   ("Received unsubscribe request for channel " +:+ to_string channel_id +:+
                    "from a client that was not subscribed to this channel"))
             | Some _ =>
                 update_tables (λ t, set_subs t
                   (erase_inner channel_id client_handle (subscriptions t)))
             end
         end
     end).

Definition ros_message_handler (channel_id : Z) (client_handle : ConnHandle)
    (receipt_time : Z) (buffer : list byte) : M Node unit :=
  send_message client_handle channel_id receipt_time buffer.

(** ** Client publications *)

Definition client_advertise (channel : ClientAdvertisement) (client_handle : ConnHandle) :
    M Node unit :=
  let id := adv_channel_id channel in
  if bool_decide (adv_encoding channel ≠ ROS1_CHANNEL_ENCODING)
  then throw (ClientChannelError id ("Unsupported encoding. Only '" +:+ ROS1_CHANNEL_ENCODING +:+
                                     "' encoding is supported at the moment."))
  else
    with_lock bridge_publications_mutex
      (pubs ← get_table client_advertised_topics;
       let inserted := bool_decide (pubs !! client_handle = None) in
       update_tables (λ t, set_pubs t (emplace_at client_handle ∅ (client_advertised_topics t)));;
       t ← get_table (λ t, t);
       if negb inserted && bool_decide (is_Some (publisher_of t client_handle id))
       then
         endpoint ← remote_endpoint_string client_handle;
         throw (ClientChannelError id
           ("Received client advertisement from " +:+ endpoint +:+ " for channel " +:+
            to_string id +:+ " it had already advertised"))
       else
         e ← get_world env;
         message_description ← lift (getMessageDescription e (adv_schema_name channel));
         match message_description with
         | None =>
             throw (ClientChannelError id
               ("Failed to retrieve type information of data type '" +:+
                adv_schema_name channel +:+ "'. Unable to advertise topic " +:+
                adv_topic channel))
         | Some message_description =>
             let advertise_options :=
               {| ao_topic := adv_topic channel; ao_datatype := adv_schema_name channel;
                  ao_md5sum := md5 message_description;
                  ao_message_definition := message_definition message_description;
                  ao_queue_size := PUBLICATION_QUEUE_LENGTH; ao_has_header := false;
                  ao_latch := false |} in
             publisher ← lift (nh_advertise e advertise_options);
             if publisher : bool
             then
               update_tables (λ t, set_pubs t
                 (alter (emplace_at id {| pub_options := advertise_options |}) client_handle
                    (client_advertised_topics t)))
             else
               throw (ClientChannelError id
                 ("Failed to create publisher for topic " +:+ adv_topic channel +:+ "(" +:+
                  adv_schema_name channel +:+ ")"))
         end).

Definition client_unadvertise (channel_id : Z) (client_handle : ConnHandle) : M Node unit :=
  with_lock bridge_publications_mutex
    (pubs ← get_table client_advertised_topics;
     endpoint ← remote_endpoint_string client_handle;
     match pubs !! client_handle with
     | None =>
         throw (ClientChannelError channel_id
           ("Ignoring client unadvertisement from " +:+ endpoint +:+ " for unknown channel " +:+
            to_string channel_id +:+ ", client has no advertised topics"))
     | Some client_publications =>
         match client_publications !! channel_id with
         | None =>
             throw (ClientChannelError channel_id
               ("Ignoring client unadvertisement from " +:+ endpoint +:+
                " for unknown channel " +:+ to_string channel_id +:+ ", client has " +:+
                to_string (Z.of_nat (size client_publications)) +:+ " advertised topic(s)"))
         | Some _ =>
             update_tables (λ t, set_pubs t
               (erase_inner client_handle channel_id (client_advertised_topics t)))
         end
     end).

(** [msg->read(client_msg)] copies the payload before the lock is taken. *)
Definition client_message (client_msg : ClientMessage) (client_handle : ConnHandle) :
    M Node unit :=
  msg ← lift (getData client_msg);
  let channel_id := adv_channel_id (advertisement client_msg) in
  with_lock bridge_publications_mutex
    (pubs ← get_table client_advertised_topics;
     endpoint ← remote_endpoint_string client_handle;
     match pubs !! client_handle with
     | None =>
         throw (ClientChannelError channel_id
           ("Dropping client message from " +:+ endpoint +:+ " for unknown channel " +:+
            to_string channel_id +:+ ", client has no advertised topics"))
     | Some client_publications =>
         match client_publications !! channel_id with
         | None =>
             throw (ClientChannelError channel_id
               ("Dropping client message from " +:+ endpoint +:+ " for unknown channel " +:+
                to_string channel_id +:+ ", client has " +:+
                to_string (Z.of_nat (size client_publications)) +:+ " advertised topic(s)"))
         | Some publisher =>
             let topic := ao_topic (pub_options publisher) in
             try_catch
               (e ← get_world env;
                lift (ros_call (publish e topic msg));;
                update_world (λ n, log_ros n (RosPublish topic msg)))
               (rethrow (λ w, ClientChannelError channel_id
                  ("Failed to publish message on topic '" +:+ topic +:+ "': " +:+ w)))
         end
     end).

(** ** Following the ROS graph *)

(** [latest_topics] *)
Definition collect_topics (topic_names_and_types : list (string * string)) :
    gset TopicAndDatatype :=
  list_to_set (filter
    (λ topic, is_whitelisted topic.1 (topic_whitelist_patterns_ cfg) = true)
    topic_names_and_types).

(** A channel without a description, or whose description cannot be had, has an
    empty schema. *)
Definition new_channel (e : RosEnv) (key : TopicAndDatatype) : outcome ChannelWithoutId :=
  let channel schema :=
    {| topic := key.1; encoding := ROS1_CHANNEL_ENCODING; schema_name := key.2;
       schema := schema; schema_encoding := None |} in
  match getMessageDescription e key.2 with
  | Ret (Some msg_description) => Ret (channel (message_definition msg_description))
  | Ret None => Ret (channel EmptyString)
  | Throw ex => match what ex with Some _ => Ret (channel EmptyString) | None => Throw ex end
  | Undefined => Undefined
  end.

Fixpoint channels_to_add (latest_topics : list TopicAndDatatype) : M Node (list ChannelWithoutId) :=
  match latest_topics with
  | [] => mret []
  | key :: latest_topics =>
      topics ← get_table advertised_topics;
      if is_advertised key topics then channels_to_add latest_topics
      else
        e ← get_world env;
        channel ← lift (new_channel e key);
        rest ← channels_to_add latest_topics;
        mret (channel :: rest)
  end.

Definition update_advertised_topics : M Node unit :=
  topic_names_and_types ← get_world (λ n, getTopics (env n));
  match topic_names_and_types with
  | None => mret tt
  | Some topic_names_and_types =>
      let latest_topics := collect_topics topic_names_and_types in
      with_lock bridge_subscriptions_mutex
        (topics ← get_table advertised_topics;
         channel_ids_to_remove ← remove_stale_channels latest_topics (map_to_list topics);
         remove_channels channel_ids_to_remove;;
         channels ← channels_to_add (elements latest_topics);
         channel_ids ← add_channels channels;
         register_channels channel_ids channels)
  end.

(** [None] is [continue]: the type or the description cannot be had. *)
Definition new_service (e : RosEnv) (service_name : string) : outcome (option ServiceWithoutId) :=
  let described :=
    service_type ← retrieve_service_type e service_name;
    srv_description ← getServiceDescription e service_type;
    Ret (match srv_description with
         | Some d =>
             {| service_name := service_name; service_type := service_type;
                request_schema := message_definition (srv_request d);
                response_schema := message_definition (srv_response d) |}
         | None =>
             {| service_name := service_name; service_type := service_type;
                request_schema := EmptyString; response_schema := EmptyString |}
         end) in
  match described with
  | Ret service => Ret (Some service)
  | Throw ex => match what ex with Some _ => Ret None | None => Throw ex end
  | Undefined => Undefined
  end.

Fixpoint services_to_add (service_names : list string) : M Node (list ServiceWithoutId) :=
  match service_names with
  | [] => mret []
  | service_name :: service_names =>
      services ← get_table known_services;
      if is_known_service service_name services then services_to_add service_names
      else
        e ← get_world env;
        service ← lift (new_service e service_name);
        rest ← services_to_add service_names;
        mret (match service with Some service => service :: rest | None => rest end)
  end.

Definition update_advertised_services (service_names : list string) : M Node unit :=
  with_lock bridge_services_mutex
    (services ← get_table known_services;
     let services_to_remove := stale_services service_names services in
     erase_services services_to_remove;;
     remove_services services_to_remove;;
     new_services ← services_to_add service_names;
     service_ids ← add_services new_services;
     register_services service_ids new_services).

(** The whitelisted entries of a part of the system state; [map.emplace] keeps the
    first of a name. *)
Definition whitelisted (patterns : list regex) (entries : list (string * list string)) :
    list (string * list string) :=
  filter (λ entry, is_whitelisted entry.1 patterns = true) entries.

Definition map_of_sets (entries : list (string * list string)) : MapOfSets :=
  foldl (λ m entry, emplace_at entry.1 (list_to_set entry.2) m) ∅ entries.

(** Truncated exponential backoff, in milliseconds: the shift of a [size_t] is
    undefined from 64 on.  The result is rounded to a [double] by the code, which
    is exact below [2 ^ 53]. *)
Definition next_update_ms (update_count : Z) : outcome Z :=
  if 64 <=? update_count then Undefined
  else Ret (Z.max MIN_UPDATE_PERIOD_MS
              (Z.min (u64 (Z.shiftl 1 update_count)) (max_update_ms_ cfg))).

Definition update_advertised_topics_and_services : M Node unit :=
  update_world (λ n, set_update_timer n None);;
  ok ← get_world (λ n, ros_ok (env n));
  if negb ok then mret tt
  else
    graph_updates ← get_world subscribe_graph_updates_;
    let services_enabled := has_capability CAPABILITY_SERVICES in
    let query_system_state := services_enabled || graph_updates in
    system_state ← get_world (λ n, getSystemState (env n));
    let state :=
      match (if query_system_state : bool then system_state else None) with
      | Some state => state
      | None => {| ss_publishers := []; ss_subscribers := []; ss_services := [] |}
      end in
    let services := whitelisted (service_whitelist_patterns cfg) (ss_services state) in
    update_advertised_topics;;
    (if services_enabled then update_advertised_services (fst <$> services) else mret tt);;
    graph_updates ← get_world subscribe_graph_updates_;
    (if graph_updates : bool
     then
       update_connection_graph
         (map_of_sets (whitelisted (topic_whitelist_patterns_ cfg) (ss_publishers state)))
         (map_of_sets (whitelisted (topic_whitelist_patterns_ cfg) (ss_subscribers state)))
         (map_of_sets services)
     else mret tt);;
    update_world (λ n, set_update_count n (u64 (update_count_ n + 1)));;
    update_count ← get_world update_count_;
    next_update_ms ← lift (next_update_ms update_count);
    update_world (λ n, set_update_timer n (Some next_update_ms)).

Definition subscribe_connection_graph (subscribe : bool) : M Node unit :=
  update_world (λ n, set_graph_updates n subscribe).

(** ** Parameters *)

(** The loop of [get_parameters]: the parameters that could be read, and [success].
    A name that is not on the allowlist is skipped when all parameters were
    requested; otherwise [success] is cleared and the parameter is read all the
    same. *)
Fixpoint read_parameters (e : RosEnv) (all_parameters_requested : bool)
    (parameter_names : list string) : outcome (list ParameterT * bool) :=
  match parameter_names with
  | [] => Ret ([], true)
  | param_name :: parameter_names =>
      let allowed := is_whitelisted param_name (param_whitelist_patterns cfg) in
      if negb allowed && all_parameters_requested
      then read_parameters e all_parameters_requested parameter_names
      else
        match (value ← getParam e param_name; from_ros_param param_name value) with
        | Ret param =>
            '(params, success) ← read_parameters e all_parameters_requested parameter_names;
            Ret (param :: params, allowed && success)
        | Throw _ =>
            '(params, _) ← read_parameters e all_parameters_requested parameter_names;
            Ret (params, false)
        | Undefined => Undefined
        end
  end.

Definition get_parameters (parameters : list string) (request_id : option string)
    (hdl : ConnHandle) : M Node unit :=
  e ← get_world env;
  let all_parameters_requested := is_nil parameters in
  parameter_names ← (if all_parameters_requested
                     then match getParamNames e with
                          | Some names => mret names
                          | None => throw (RuntimeError "Failed to retrieve parameter names")
                          end
                     else mret parameters);
  '(params, success) ← lift (read_parameters e all_parameters_requested parameter_names);
  publish_parameter_values hdl params request_id;;
  if success : bool then mret tt
  else throw (RuntimeError "Failed to retrieve one or multiple parameters").

(** One turn of the loop of [set_parameters]: whether it succeeded. *)
Definition set_parameter (param : ParameterT) : M Node bool :=
  if negb (is_whitelisted (param_name param) (param_whitelist_patterns cfg)) then mret false
  else
    try_catch
      (e ← get_world env;
       (match param_value param with
        | PNotSet =>
            lift (ros_call (deleteParam e (param_name param)));;
            update_world (λ n, log_ros n (RosDeleteParam (param_name param)))
        | value =>
            v ← lift (to_ros_param value);
            lift (ros_call (setParam e (param_name param) v));;
            update_world (λ n, log_ros n (RosSetParam (param_name param) v))
        end);;
       mret true)
      (λ _, mret false).

Fixpoint set_parameter_loop (parameters : list ParameterT) : M Node bool :=
  match parameters with
  | [] => mret true
  | param :: parameters =>
      ok ← set_parameter param;
      success ← set_parameter_loop parameters;
      mret (ok && success)
  end.

Definition set_parameters (parameters : list ParameterT) (request_id : option string)
    (hdl : ConnHandle) : M Node unit :=
  success ← set_parameter_loop parameters;
  (match request_id with
   | Some _ => get_parameters (param_name <$> parameters) request_id hdl
   | None => mret tt
   end);;
  if success : bool then mret tt
  else throw (RuntimeError "Failed to set one or multiple parameters").

Definition op_verb (op : ParameterSubscriptionOperation) : string :=
  match op with SUBSCRIBE => "subscribe" | UNSUBSCRIBE => "unsubscribe" end.

(** A parameter that is not on the allowlist is skipped. *)
Fixpoint subscribe_parameter_loop (op : ParameterSubscriptionOperation)
    (parameters : list string) : M Node bool :=
  match parameters with
  | [] => mret true
  | param_name :: parameters =>
      if negb (is_whitelisted param_name (param_whitelist_patterns cfg))
      then subscribe_parameter_loop op parameters
      else
        e ← get_world env;
        let op_name := op_verb op +:+ "Param" in
        name ← lift (names_resolve e param_name);
        let ok := master_execute e op_name name in
        (if ok then update_world (λ n, log_ros n (RosMaster op_name name)) else mret tt);;
        success ← subscribe_parameter_loop op parameters;
        mret (ok && success)
  end.

Definition subscribe_parameters (parameters : list string) (op : ParameterSubscriptionOperation)
    (hdl : ConnHandle) : M Node unit :=
  success ← subscribe_parameter_loop op parameters;
  if success : bool then mret tt
  else throw (RuntimeError ("Failed to " +:+ op_verb op +:+ " one or multiple parameters.")).

(** The call [paramUpdate] of the master: its parameters are an array. *)
Definition parameter_updates (params : list XmlRpcValue) : M Node unit :=
  match params with
  | [_; name; param_value] =>
      try_catch
        (e ← get_world env;
         param_name ← match name with
                      | TypeString s => mret (names_clean e s)
                      | _ => throw UnknownException
                      end;
         param ← lift (from_ros_param param_name param_value);
         update_parameter_values [param])
        (λ _, mret tt)
  | _ => mret tt
  end.

(** ** Services *)

Definition service_request (request : ServiceRequest) (client_handle : ConnHandle) : M Node unit :=
  let id := service_id request in
  with_lock bridge_services_mutex
    (services ← get_table known_services;
     match services !! id with
     | None =>
         throw (ServiceError id ("Service with id " +:+ to_string id +:+ " does not exist"))
     | Some service =>
         let name := service_name service in
         let type := service_type service in
         e ← get_world env;
         if negb (service_exists e name)
         then throw (ServiceError id ("Service '" +:+ name +:+ "' does not exist"))
         else
           srv_description ← lift (getServiceDescription e type);
           match srv_description with
           | None =>
               throw (ServiceError id
                 ("Failed to retrieve type information for service " +:+ name +:+ "(" +:+
                  type +:+ ")"))
           | Some srv_description =>
               let gen_req := {| gs_type := type; gs_md5sum := srv_md5 srv_description;
                                 gs_data := serv_data request |} in
               update_world (λ n, log_ros n (RosServiceCall name gen_req));;
               match service_call e name gen_req with
               | Some data =>
                   send_service_response client_handle
                     {| service_id := id; call_id := call_id request;
                        sr_encoding := sr_encoding request; serv_data := data |}
               | None =>
                   throw (ServiceError id
                     ("Failed to call service " +:+ name +:+ "(" +:+ type +:+ ")"))
               end
           end
     end).

(** ** Assets *)

Definition asset_allowed (uri : string) : bool :=
  negb (bool_decide (is_Some (str_find ".." uri))) &&
  is_whitelisted uri (asset_uri_allowlist_patterns_ cfg).

Definition fetch_asset (uri : string) (request_id : Z) (client_handle : ConnHandle) :
    M Node unit :=
  response ← try_catch
    (if negb (asset_allowed uri)
     then throw (RuntimeError ("Asset URI not allowed: " +:+ uri))
     else
       e ← get_world env;
       data ← lift (retrieve e uri);
       mret {| fa_request_id := request_id; fa_status := FetchAssetStatus_Success;
               fa_error_message := EmptyString; fa_data := data |})
    (λ e, match what e with
          | Some _ =>
              mret {| fa_request_id := request_id; fa_status := FetchAssetStatus_Error;
                      fa_error_message := "Failed to retrieve asset " +:+ uri; fa_data := [] |}
          | None => throw e
          end);
  send_fetch_asset_response client_handle response.

Definition queue_fetch_asset (uri : string) (request_id : Z) (hdl : ConnHandle) : M Node unit :=
  update_world (λ n, set_fetch_queue n (fetch_asset_queue_ n ++ [(uri, request_id, hdl)])).

(** The thread of [fetch_asset_queue_] takes the oldest callback; what it throws is
    caught there. *)
Definition run_fetch_asset : M Node unit :=
  q ← get_world fetch_asset_queue_;
  match q with
  | [] => mret tt
  | (uri, request_id, hdl) :: q =>
      update_world (λ n, set_fetch_queue n q);;
      try_catch (fetch_asset uri request_id hdl) (λ _, mret tt)
  end.

(** ** The handlers *)

Definition handlers : ServerHandlers Node := {|
  subscribe_handler := Some subscribe;
  unsubscribe_handler := Some unsubscribe;
  client_advertise_handler := Some client_advertise;
  client_unadvertise_handler := Some client_unadvertise;
  client_message_handler := Some client_message;
  parameter_request_handler := Some get_parameters;
  parameter_change_handler := Some set_parameters;
  parameter_subscription_handler := Some subscribe_parameters;
  service_request_handler := Some service_request;
  subscribe_connection_graph_handler := Some subscribe_connection_graph;
  fetch_asset_handler :=
    if has_capability CAPABILITY_ASSETS then Some queue_fetch_asset else None
|}.

(** A message on [/clock], when the node uses simulated time. *)
Definition on_clock (nanoseconds : Z) : M Node unit := broadcast_time (u64 nanoseconds).

End Methods.

(** ** Construction *)

(** The parameters [onInit] reads. *)
Record Parameters := {
  p_send_buffer_limit : Z;
  p_tls : bool;
  p_certfile : string;
  p_keyfile : string;
  p_max_update_ms : Z;
  p_use_compression : bool;
  p_use_sim_time : bool;
  p_run_id : string;
  p_capabilities : list string;
  p_topic_whitelist : list string;
  p_param_whitelist : list string;
  p_service_whitelist : list string;
  p_client_topic_whitelist : list string;
  p_asset_uri_allowlist : list string
}.

Definition CAPABILITY_MESSAGE_TIME : string := "messageTime".

Section Constructor.
Context (compile : string → option regex).

Definition new_Config (p : Parameters) : Config := {|
  topic_whitelist_patterns_ := parse_regex_patterns compile (p_topic_whitelist p);
  param_whitelist_patterns := parse_regex_patterns compile (p_param_whitelist p);
  service_whitelist_patterns := parse_regex_patterns compile (p_service_whitelist p);
  asset_uri_allowlist_patterns_ := parse_regex_patterns compile (p_asset_uri_allowlist p);
  max_update_ms_ := u64 (p_max_update_ms p);
  use_sim_time_ := p_use_sim_time p;
  capabilities_ := p_capabilities p
|}.

(** [ros_distro] is [getenv("ROS_DISTRO")]: a [std::string] made of a null
    pointer is undefined. *)
Definition new_ServerOptions (p : Parameters) (ros_distro : option string)
    (mac_addresses : string) (ip_addresses : list string) (colink_ip : string) :
    outcome ServerOptions :=
  match ros_distro with
  | None => Undefined
  | Some ros_distro => Ret {|
      capabilities := p_capabilities p ++
                      (if p_use_sim_time p then [CAPABILITY_TIME] else []) ++
                      [CAPABILITY_MESSAGE_TIME];
      supported_encodings := [ROS1_CHANNEL_ENCODING];
      metadata := {["ROS_DISTRO" := ros_distro; "COLINK" := colink_ip]};
      send_buffer_limit_bytes := u64 (p_send_buffer_limit p);
      use_tls := p_tls p;
      cert_file := p_certfile p;
      key_file := p_keyfile p;
      session_id := p_run_id p;
      use_compression := p_use_compression p;
      client_topic_whitelist_patterns :=
        parse_regex_patterns compile (p_client_topic_whitelist p);
      mac_addr := mac_addresses;
      ip_addrs := ip_addresses
    |}
  end.

(** The members before the first update. *)
Definition new_Node (e : RosEnv) : Node := {|
  node_tables := empty_tables;
  update_timer_ := None;
  update_count_ := 0;
  subscribe_graph_updates_ := false;
  fetch_asset_queue_ := [];
  ros_log := [];
  env := e
|}.

End Constructor.

End Ros1Node.
