(* ===== verification/Ros1System.v ===== *)
(** * The ROS 1 bridge as a system

    The handlers of the nodelet honour the contracts of [ServerLogic] and
    [BridgeSync]; the timer callback follows the ROS graph; and the records of the
    nodelet and the server agree in every state they reach. *)

From Stdlib Require Import ZArith Lia.
From S2P Require Import Prelude Wire Json Serialization ServerState ServerMethods ServerLogic.
From S2P Require Import ServerInv ServerSpecs ServerSystem ServerDefined.
From S2P Require Import Text BridgeParams BridgeTables ServerRuns BridgeSync BridgeUpdate.
From S2P Require Import BridgeRefresh Ros1Bridge.

Local Open Scope Z_scope.
Import Ros1 Ros1Node.

#[export] Instance ros1_kind : BridgeKind Subscriber Publisher := {|
  sub_on sub channel := sub_topic sub = topic channel;
  pub_on p adv := ao_topic (pub_options p) = adv_topic adv ∧
                  ao_datatype (pub_options p) = adv_schema_name adv ∧
                  adv_encoding adv = ROS1_CHANNEL_ENCODING
|}.

(** ** The handlers *)

Section Handlers.
Context {plat : Platform} (cfg : Config).
Implicit Types (L : list mutex) (s : St Node).

Lemma ros1_framed_rethrow {A} f e : framed (rethrow (A:=A) f e).
Proof. unfold rethrow. solve_framed. Qed.
#[local] Hint Resolve ros1_framed_rethrow : server.

Lemma ros1_framed_get_parameters ps i hdl : framed (get_parameters cfg ps i hdl).
Proof. unfold get_parameters. solve_framed. Qed.
Lemma framed_set_loop ps : framed (set_parameter_loop cfg ps).
Proof. induction ps; cbn [set_parameter_loop]; unfold set_parameter; solve_framed. Qed.
Lemma framed_subscribe_loop op ps : framed (subscribe_parameter_loop cfg op ps).
Proof. induction ps; cbn [subscribe_parameter_loop]; solve_framed. Qed.
#[local] Hint Resolve ros1_framed_get_parameters framed_set_loop framed_subscribe_loop : server.

Lemma handlers_framed c body L s :
  handler_body (handlers cfg) c = Some body → handler_frame s (body L s).2.
Proof.
  intros Hb. enough (framed body) as Hf by apply Hf. revert Hb.
  destruct c; simpl; try (destruct (has_capability _ _)); simpl; intros [= <-];
    unfold subscribe, unsubscribe, client_advertise, client_unadvertise, client_message,
      set_parameters, subscribe_parameters, service_request, subscribe_connection_graph,
      queue_fetch_asset, get_table, update_tables;
    solve_framed.
Qed.

Lemma handlers_frame_ros1 : HandlersFrame (handlers cfg).
Proof. intros c body L s. apply handlers_framed. Qed.

Ltac solve_tables := solve_preserves; try (by apply tables_update_world); try (by intros L' s').

Lemma ros1_tables_rethrow {A} t f e : preserves (has_tables t) (rethrow (A:=A) f e).
Proof. unfold rethrow. solve_tables. Qed.
Lemma ros1_tables_get_parameters t ps i hdl : preserves (has_tables t) (get_parameters cfg ps i hdl).
Proof. unfold get_parameters. solve_tables. Qed.
Lemma tables_set_loop t ps : preserves (has_tables t) (set_parameter_loop cfg ps).
Proof. induction ps; cbn [set_parameter_loop]; unfold set_parameter; solve_tables. Qed.
Lemma tables_subscribe_loop t op ps : preserves (has_tables t) (subscribe_parameter_loop cfg op ps).
Proof. induction ps; cbn [subscribe_parameter_loop]; solve_tables. Qed.
#[local] Hint Resolve ros1_tables_rethrow ros1_tables_get_parameters tables_set_loop
  tables_subscribe_loop : server.

Lemma ros1_quiet_handler_tables c body t :
  quiet c = true → handler_body (handlers cfg) c = Some body → preserves (has_tables t) body.
Proof.
  intros Hq. destruct c; try done; simpl; try (destruct (has_capability _ _));
    simpl; intros [= <-];
    unfold client_message, set_parameters, subscribe_parameters,
      service_request, subscribe_connection_graph, queue_fetch_asset, get_table;
    solve_tables.
Qed.

(** *** The four handlers that change the tables *)

Ltac run_node :=
  cbv beta iota delta [mbind M_mbind M_bind mret M_mret M_ret get_world update_world get_table
    update_tables lift throw undefined try_catch rethrow remote_endpoint_string find_connection];
  cbn [fst snd srv net trace world tables set_tables node_has_tables node_tables set_node_tables id].

Lemma ros1_subscribe_effect ch hdl L s :
  tables_ok (tables (world s)) →
  effect_ok (CallSubscribe ch hdl) (tables (world s)) (subscribe ch hdl L s).
Proof.
  intros Hok. unfold subscribe, with_lock. case_decide; [done|]. run_node.
  set (t := node_tables (world s)) in *. simpl in Hok. fold t in Hok.
  destruct (advertised_topics t !! ch) as [channel|] eqn:Hch; simpl; [|done].
  destruct (negb _ && _) eqn:Hif; simpl; [by split; [apply emplace_empty_ok|apply emplace_empty_equiv]|].
  apply not_subscribed_yet in Hif.
  destruct (nh_subscribe _ _) as [e|]; simpl.
  { destruct (what e); by split; [apply emplace_empty_ok|apply emplace_empty_equiv]. }
  assert (∀ sub, sub_on sub channel → let t' := set_subs t (alter (emplace_at hdl sub) ch
      (emplace_at ch ∅ (subscriptions t))) in tables_ok t' ∧
      handler_effect (CallSubscribe ch hdl) true t t') as Heff
    by (intros sub ?; by apply (subscribed_effect t ch hdl sub channel)).
  by apply (Heff {| sub_topic := topic channel; sub_queue := SUBSCRIPTION_QUEUE_LENGTH |}).
Qed.

Lemma ros1_unsubscribe_effect ch hdl L s :
  tables_ok (tables (world s)) →
  effect_ok (CallUnsubscribe ch hdl) (tables (world s)) (unsubscribe ch hdl L s).
Proof.
  intros Hok. unfold unsubscribe, with_lock. case_decide; [done|]. run_node.
  set (t := node_tables (world s)) in *. simpl in Hok. fold t in Hok.
  assert (subscription_of t ch hdl = None →
            tables_ok t ∧ t ≡ t ∧ subscription_of t ch hdl = None) as Herr by done.
  unfold subscription_of in Herr at 1.
  destruct (advertised_topics t !! ch) as [channel|] eqn:Hch; simpl; fold t.
  2:{ by apply Herr, (not_advertised_unsubscribed t). }
  destruct (subscriptions t !! ch) as [m|] eqn:Hs; simpl; [|by apply Herr].
  destruct (m !! hdl) as [sub|] eqn:Hm; simpl; [|by apply Herr].
  split; [by apply erase_sub_ok|apply erase_sub_written].
Qed.

Lemma ros1_client_advertise_effect adv hdl L s :
  tables_ok (tables (world s)) →
  effect_ok (CallClientAdvertise adv hdl) (tables (world s)) (client_advertise adv hdl L s).
Proof.
  intros Hok. unfold client_advertise. case_bool_decide as Henc; [done|].
  unfold with_lock. case_decide; [done|]. run_node.
  set (t := node_tables (world s)) in *. simpl in Hok. fold t in Hok.
  set (ch := adv_channel_id adv).
  pose proof (set_pubs_ok t (emplace_at hdl ∅ (client_advertised_topics t)) Hok) as Hok1.
  pose proof (emplace_empty_pubs_equiv t hdl) as Heq.
  destruct (negb _ && _) eqn:Hif; simpl; [done|]. apply not_advertised_yet in Hif as Hnone.
  destruct (getMessageDescription _ _) as [[d|]|e|]; simpl; [|by split|by split|done].
  destruct (nh_advertise _ _) as [[]|e|]; simpl; [|by split|by split|done].
  split; [by apply set_pubs_ok|]. split; [done|].
  eexists. split; [|exact (add_pub_written t hdl ch _ Hnone)]. done.
Qed.

Lemma ros1_client_unadvertise_effect ch hdl L s :
  tables_ok (tables (world s)) →
  effect_ok (CallClientUnadvertise ch hdl) (tables (world s)) (client_unadvertise ch hdl L s).
Proof.
  intros Hok. unfold client_unadvertise, with_lock. case_decide; [done|]. run_node.
  set (t := node_tables (world s)) in *. simpl in Hok. fold t in Hok.
  destruct (client_advertised_topics t !! hdl) as [m|] eqn:Hm; simpl; [|done].
  destruct (m !! ch) eqn:Hch; simpl; [|done].
  split; [by apply set_pubs_ok|apply erase_pub_written].
Qed.

Lemma bridge_handlers_ros1 : BridgeHandlers (handlers cfg).
Proof.
  split; [apply handlers_frame_ros1|by eexists|]. intros c body L s Hb Hok.
  destruct (quiet c) eqn:Hq.
  - apply quiet_effect; [done..|]. intros t. by apply (ros1_quiet_handler_tables c).
  - destruct c; try done; injection Hb as <-;
      [by apply ros1_subscribe_effect|by apply ros1_unsubscribe_effect|by apply ros1_client_advertise_effect|
       by apply ros1_client_unadvertise_effect].
Qed.

End Handlers.

#[export] Existing Instance handlers_frame_ros1.
#[export] Existing Instance bridge_handlers_ros1.

(** ** What is built for a topic and for a service *)

Section Build.
Context (e : RosEnv).
Implicit Types (L : list mutex) (s : St Node).

(** ros_babel_fish answers, or throws what derives from [std::exception]. *)
Definition answers {A} (o : outcome A) : Prop :=
  (∃ a, o = Ret a) ∨ (∃ ex w, o = Throw ex ∧ what ex = Some w).

Definition channel_for (key : TopicAndDatatype) : option ChannelWithoutId :=
  match new_channel e key with Ret c => Some c | _ => None end.

Definition service_for (name : string) : option ServiceWithoutId :=
  match new_service e name with Ret o => o | _ => None end.

(** The master names a service once, ros_babel_fish answers, and what is built for the
    topics and services of the master is UTF-8. *)
Record env_good : Prop := {
  env_services st : getSystemState e = Some st → NoDup (fst <$> ss_services st);
  env_messages type : answers (getMessageDescription e type);
  ros1_topics_text topics : getTopics e = Some topics →
    ∀ key c, key ∈ topics → channel_for key = Some c → channel_text c = true;
  ros1_services_text st : getSystemState e = Some st →
    services_text service_for (fst <$> ss_services st)
}.

Lemma channel_for_total key : env_good → ∃ c, new_channel e key = Ret c ∧ channel_key c = key.
Proof.
  intros He. unfold new_channel.
  destruct (env_messages He key.2) as [[[d|] ->]|(ex & w & -> & ->)]; eexists; (split; [done|]);
    by destruct key.
Qed.

Lemma ros1_channel_for_key key c : channel_for key = Some c → channel_key c = key.
Proof.
  unfold channel_for, new_channel. destruct (getMessageDescription e key.2) as [[d|]|ex|];
    [..|destruct (what ex)|]; try done; intros [= <-]; by destruct key.
Qed.

Lemma ros1_service_for_name name v : service_for name = Some v → service_name v = name.
Proof.
  unfold service_for, new_service. destruct (retrieve_service_type e name) as [ty|ex|];
    simpl_bind; [|by destruct (what ex)|done].
  destruct (getServiceDescription e ty) as [[d|]|ex|]; simpl_bind; try done;
    [by intros [= <-]..|by destruct (what ex)].
Qed.

Definition node_ok (n : Node) : Prop := env n = e ∧ env_good.

Lemma ros1_channels_to_add_builds : builds_channels channel_for node_ok channels_to_add.
Proof.
  intros keys L s [He Hgood]. revert s He. induction keys as [|key keys IH]; intros s He.
  { exists (world s). by destruct s. }
  destruct (IH s He) as (w & E & Ht & Hw).
  cbn [channels_to_add]. rewrite bind_get_table_run. unfold new_channels. rewrite filter_cons.
  destruct (is_advertised key (advertised_topics (tables (world s)))) eqn:Eadv.
  { rewrite decide_False by done. by exists w. }
  rewrite decide_True by done. erewrite bind_run by reflexivity. rewrite He.
  destruct (channel_for_total key Hgood) as (c & Hc & _).
  erewrite bind_run by (unfold lift; by rewrite Hc).
  erewrite bind_run by exact E. exists w. split_and!; [|done..].
  unfold mret, M_mret, M_ret. unfold new_channels.
  assert (channel_for key = Some c) as Hfor by (unfold channel_for; by rewrite Hc).
  change (omap channel_for (key :: ?l)) with
    (match channel_for key with Some c => c :: omap channel_for l | None => omap channel_for l end).
  by rewrite Hfor.
Qed.

Lemma ros1_services_to_add_builds : builds_services id service_for node_ok services_to_add.
Proof.
  intros names L s [He Hgood]. revert s He. induction names as [|name names IH]; intros s He.
  { exists (Ret []), (world s). split_and!; [by destruct s|done..|by intros ? [= <-]]. }
  destruct (IH s He) as (o & w & E & Ht & Hw & Hnew).
  cbn [services_to_add]. rewrite bind_get_table_run. unfold new_services. rewrite filter_cons.
  change (id name) with name.
  destruct (is_known_service name (known_services (tables (world s)))) eqn:Ek.
  { rewrite decide_False by done. by exists o, w. }
  rewrite decide_True by done. erewrite bind_run by reflexivity. rewrite He.
  destruct (new_service e name) as [v|ex|] eqn:Ev.
  2,3: unfold mbind, M_mbind, M_bind, lift; eexists _, (world s); by destruct s.
  erewrite bind_run by reflexivity. destruct o as [new|ex|].
  2,3: unfold mbind, M_mbind, M_bind; rewrite E; by eexists _, w.
  erewrite bind_run by exact E. eexists _, w. split_and!; [reflexivity|done..|]. intros l [= <-].
  specialize (Hnew new eq_refl).
  assert (service_for name = v) as Hfor by (unfold service_for; by rewrite Ev).
  change (omap service_for (name :: ?l)) with
    (match service_for name with Some c => c :: omap service_for l | None => omap service_for l end).
  rewrite Hfor, Hnew. unfold new_services. by destruct v.
Qed.

End Build.

(** ** What the nodelet's callbacks keep *)

Section Threads.
Context {plat : Platform} (cfg : Config).
Implicit Types (L : list mutex) (s : St Node).

Definition env_kept (n : Node) : Prop := env_good (env n).
Definition good s : Prop := both s ∧ env_kept (world s).

#[local] Instance good_send_stable : SendStable good.
Proof. by intros s hdl m r [[Hi [Ho Hs]] Hn]. Qed.
#[local] Instance ok_send_stable : SendStable (of_world env_kept).
Proof. by intros s. Qed.

Lemma ros1_good_of_both (m : M Node unit) :
  preserves both m → preserves (of_world env_kept) m → preserves good m.
Proof.
  intros Hb Hw L s [Hs Hn]. specialize (Hb L s Hs). specialize (Hw L s Hn).
  destruct (m L s) as [[]]; by try split.
Qed.

Lemma ros1_good_update_world f :
  (∀ n, node_tables (f n) = node_tables n) → (∀ n, env (f n) = env n) →
  preserves good (update_world f).
Proof.
  intros Ht Hf. apply triple_update_world. intros s [[Hi [Ho Hs]] Hn].
  split; [|unfold env_kept; cbn [world]; by rewrite Hf].
  split; [exact Hi|]. unfold sync. simpl. rewrite Ht. by split.
Qed.

Ltac solve_ok := solve_preserves; try (by apply triple_update_world); try (by intros L' s').

Lemma ros1_ok_rethrow {A} f e : preserves (of_world env_kept) (rethrow (A:=A) f e).
Proof. unfold rethrow. solve_ok. Qed.
Lemma ros1_ok_get_parameters ps i hdl : preserves (of_world env_kept) (get_parameters cfg ps i hdl).
Proof. unfold get_parameters. solve_ok. Qed.
Lemma ok_set_loop ps : preserves (of_world env_kept) (set_parameter_loop cfg ps).
Proof. induction ps; cbn [set_parameter_loop]; unfold set_parameter; solve_ok. Qed.
Lemma ok_subscribe_loop op ps : preserves (of_world env_kept) (subscribe_parameter_loop cfg op ps).
Proof. induction ps; cbn [subscribe_parameter_loop]; solve_ok. Qed.
#[local] Hint Resolve ros1_ok_rethrow ros1_ok_get_parameters ok_set_loop ok_subscribe_loop : server.

Lemma handlers_env_kept c body :
  handler_body (handlers cfg) c = Some body → preserves (of_world env_kept) body.
Proof.
  destruct c; simpl; try (destruct (has_capability _ _)); simpl; intros [= <-];
    unfold subscribe, unsubscribe, client_advertise, client_unadvertise, client_message,
      set_parameters, subscribe_parameters, service_request, subscribe_connection_graph,
      queue_fetch_asset, get_table, update_tables;
    solve_ok.
Qed.

Lemma ros1_entry_good parse i : client_side i = true → preserves good (entry (handlers cfg) parse i).
Proof.
  intros Hi. apply ros1_good_of_both; [by apply (entry_preserves_both (handlers cfg))|].
  apply entry_of_world, handlers_env_kept.
Qed.

Lemma ros1_good_update_parameter_values ps : preserves good (update_parameter_values ps).
Proof. by apply (ros1_entry_good (λ _, Undefined) (UpdateParameterValues ps)). Qed.
Lemma ros1_good_broadcast_time t : preserves good (broadcast_time t).
Proof. by apply (ros1_entry_good (λ _, Undefined) (BroadcastTime t)). Qed.
Lemma ros1_good_server_graph p q r : preserves good (update_connection_graph p q r).
Proof. by apply (ros1_entry_good (λ _, Undefined) (UpdateConnectionGraph p q r)). Qed.
#[local] Hint Resolve ros1_good_update_parameter_values ros1_good_broadcast_time ros1_good_server_graph : server.

Lemma ros1_good_ros_message ch hdl t buffer : preserves good (ros_message_handler ch hdl t buffer).
Proof. unfold ros_message_handler. solve_preserves. Qed.
Lemma good_parameter_updates ps : preserves good (parameter_updates ps).
Proof. unfold parameter_updates. solve_preserves. Qed.
Lemma ros1_good_fetch_asset : preserves good (run_fetch_asset cfg).
Proof. unfold run_fetch_asset, fetch_asset. solve_preserves; by apply ros1_good_update_world. Qed.
Lemma ros1_good_clock t : preserves good (on_clock t).
Proof. unfold on_clock. solve_preserves. Qed.

(** *** The timer callback *)

Lemma ros1_update_advertised_topics_run topics s :
  getTopics (env (world s)) = Some topics → good s →
  let latest := collect_topics cfg topics in
  ∃ s', update_advertised_topics cfg [] s = (Ret tt, s') ∧ good s' ∧
    env (world s') = env (world s) ∧
    topics_refreshed (channel_for (env (world s))) latest (tables (world s)) (tables (world s')) ∧
    (ids_below_next (srv s) → _next_channel_id (srv s) + Z.of_nat (size latest) < 2 ^ 32 →
     topics_complete (channel_for (env (world s))) latest (tables (world s)) (tables (world s'))).
Proof.
  intros Htopics [Hb Hn] latest. set (e := env (world s)) in *.
  destruct (refresh_topics_run (channel_for e) (ros1_channel_for_key e) (node_ok e) latest
              channels_to_add [bridge_subscriptions_mutex] s)
    as (s' & E & Hb' & [He' _] & _ & Hr & Hc);
    [done|apply ros1_channels_to_add_builds|set_solver|set_solver| |done|done|].
  { intros key c Hk. eapply (ros1_topics_text _ Hn); [exact Htopics|].
    by apply elem_of_list_to_set, list_elem_of_filter in Hk as [_ ?]. }
  exists s'. split_and!; [|done..| | | |].
  - unfold update_advertised_topics. erewrite bind_run by reflexivity. fold e. rewrite Htopics.
    rewrite with_lock_run by apply not_elem_of_nil. exact E.
  - split; [done|]. unfold env_kept. by rewrite He'.
  - done.
  - done.
  - intros Hi Hlt. by apply Hc.
Qed.

Lemma ros1_update_advertised_services_run names s :
  NoDup names → services_text (service_for (env (world s))) names → good s →
  ∃ o s', update_advertised_services names [] s = (o, s') ∧ good s' ∧
    env (world s') = env (world s) ∧
    services_refreshed id (service_for (env (world s))) names (tables (world s)) (tables (world s')).
Proof.
  intros Hnd Htext [Hb Hn]. set (e := env (world s)) in *.
  destruct (refresh_services_run id (service_for e) (ros1_service_for_name e) (node_ok e) names
              services_to_add [bridge_services_mutex] s)
    as (o & s' & E & Hb' & [He' _] & _ & Hr);
    [done|apply ros1_services_to_add_builds|set_solver|set_solver|by rewrite list_fmap_id|done..|].
  exists o, s'. split_and!; [|split; [done|]|done..].
  - unfold update_advertised_services. rewrite with_lock_run by apply not_elem_of_nil.
    unfold refresh_services in E. by rewrite list_fmap_id in E.
  - unfold env_kept. by rewrite He'.
Qed.

Lemma ros1_keeps_topics e :
  keeps (λ s, good s ∧ env (world s) = e) (update_advertised_topics cfg).
Proof.
  intros s [Hs <-]. destruct (getTopics (env (world s))) as [topics|] eqn:Et.
  - by destruct (ros1_update_advertised_topics_run topics s Et Hs) as (s' & -> & ? & ? & _).
  - unfold update_advertised_topics. erewrite bind_run by reflexivity. by rewrite Et.
Qed.

Lemma whitelisted_NoDup patterns l : NoDup (fst <$> l) → NoDup (fst <$> whitelisted patterns l).
Proof.
  intros Hnd. eapply sublist_NoDup; [exact Hnd|]. apply fmap_sublist, sublist_filter.
Qed.

Lemma whitelisted_text {e} patterns l :
  services_text (service_for e) (fst <$> l) → services_text (service_for e) (fst <$> whitelisted patterns l).
Proof.
  intros Ht name v (x & -> & [_ Hx]%list_elem_of_filter)%list_elem_of_fmap.
  apply Ht. by apply list_elem_of_fmap_2.
Qed.

(** The services of a state the master gave while the ROS graph was [e]. *)
Lemma ros1_keeps_services e names :
  NoDup names → services_text (service_for e) names →
  keeps (λ s, good s ∧ env (world s) = e) (update_advertised_services names).
Proof.
  intros Hnd Ht s [Hs <-].
  by destruct (ros1_update_advertised_services_run names s Hnd Ht Hs) as (o & s' & -> & ? & ? & _).
Qed.

(** While [m] runs the ROS graph is [e]; afterwards that no longer matters. *)
Lemma keeps_while e (m : M Node unit) (k : unit → M Node unit) s :
  keeps (λ s, good s ∧ env (world s) = e) m →
  (∀ a s, good s ∧ env (world s) = e → (k a [] s).1 ≠ Undefined → good (k a [] s).2) →
  good s ∧ env (world s) = e → ((m ≫= k) [] s).1 ≠ Undefined → good ((m ≫= k) [] s).2.
Proof.
  intros Hm Hk Hs. specialize (Hm s Hs). unfold mbind, M_mbind, M_bind.
  destruct (m [] s) as [[a|ex|] s']; simpl in *; intros; [by apply Hk; [apply Hm|]|by apply Hm|done].
Qed.

Lemma keeps_update : keeps good (update_advertised_topics_and_services cfg).
Proof.
  apply keeps_bind; [by apply keeps_preserves, ros1_good_update_world|]. intros [].
  apply keeps_bind; [apply keeps_preserves, preserves_get_world|]. intros ok.
  destruct (negb ok); [apply keeps_preserves, preserves_ret|].
  apply keeps_bind; [apply keeps_preserves, preserves_get_world|]. intros graph_updates.
  intros s Hs. erewrite bind_run by reflexivity. revert s Hs.
  set (query := _ || graph_updates).
  intros s Hs. set (state := match (if query then _ else _) with Some _ => _ | None => _ end).
  assert (NoDup (fst <$> ss_services state) ∧
          services_text (service_for (env (world s))) (fst <$> ss_services state)) as [Hnd Ht].
  { unfold state. destruct query; [|split; [constructor|by intros ? ? ?%elem_of_nil]].
    destruct (getSystemState (env (world s))) as [st|] eqn:E;
      [|split; [constructor|by intros ? ? ?%elem_of_nil]].
    split; [by apply (env_services _ (proj2 Hs))|by apply (ros1_services_text _ (proj2 Hs))]. }
  clearbody state. apply (keeps_while (env (world s))); [apply ros1_keeps_topics| |done].
  intros [] s1. apply keeps_while.
  { destruct (has_capability _ _); [|by apply keeps_preserves, preserves_ret].
    apply ros1_keeps_services; [by apply whitelisted_NoDup|by apply whitelisted_text]. }
  intros [] s2 [Hs2 _]. revert s2 Hs2. apply keeps_preserves.
  solve_preserves; by apply ros1_good_update_world.
Qed.

End Threads.

(** ** The system *)

Inductive bridge_input :=
| FromClient (i : input)
| UpdateTimer
| RosMessage (channel_id : Z) (hdl : ConnHandle) (receipt_time : Z) (buffer : list byte)
| RosParameterUpdate (params : list XmlRpcValue)
| RunFetchAsset
| ClockMessage (nanoseconds : Z).

Definition valid_input (b : bridge_input) : bool :=
  match b with
  | FromClient (Opened _ | Closed _ | Message _ _ _ _) => true
  | FromClient _ => false
  | _ => true
  end.

Section System.
Context {plat : Platform} (cfg : Config) (parse : list byte → outcome json).
Implicit Types (s : St Node).

Definition bridge_entry (b : bridge_input) : M Node unit :=
  match b with
  | FromClient i => entry (handlers cfg) parse i
  | UpdateTimer => update_advertised_topics_and_services cfg
  | RosMessage ch hdl t buffer => ros_message_handler ch hdl t buffer
  | RosParameterUpdate ps => parameter_updates ps
  | RunFetchAsset => run_fetch_asset cfg
  | ClockMessage t => on_clock t
  end.

Inductive bridge_step : St Node → St Node → Prop :=
| bridge_step_entry b s :
    valid_input b = true → (bridge_entry b [] s).1 ≠ Undefined →
    bridge_step s (bridge_entry b [] s).2
| bridge_step_net n s : bridge_step s (mkSt (srv s) n (trace s) (world s))
| bridge_step_env e s : env_good e →
    bridge_step s (mkSt (srv s) (net s) (trace s) (set_env (world s) e)).

Inductive bridge_reachable : St Node → Prop :=
| bridge_reachable_init compile p distro macs ips colink name options n e :
    cfg = new_Config compile p →
    new_ServerOptions compile p distro macs ips colink = Ret options → env_good e →
    bridge_reachable (mkSt (new_Server name options) n [] (new_Node e))
| bridge_reachable_step s s' : bridge_reachable s → bridge_step s s' → bridge_reachable s'.

Lemma ros1_keeps_entry b : valid_input b = true → keeps good (bridge_entry b).
Proof.
  destruct b; cbn [valid_input bridge_entry]; intros Hv.
  - apply keeps_preserves, ros1_entry_good. by destruct i.
  - apply keeps_update.
  - apply keeps_preserves, ros1_good_ros_message.
  - apply keeps_preserves, (good_parameter_updates cfg).
  - apply keeps_preserves, ros1_good_fetch_asset.
  - apply keeps_preserves, (ros1_good_clock cfg).
Qed.

Lemma ros1_bridge_reachable_good s : bridge_reachable s → good s.
Proof.
  induction 1 as [compile p distro macs ips colink name options n e _ _ He|s s' _ IH Hstep].
  - split; [|done]. split; [apply new_Server_inv|]. split; [apply empty_tables_ok|apply new_server_synced].
  - destruct Hstep as [b s Hv Hu|n s|e s He].
    + by apply ros1_keeps_entry.
    + done.
    + by destruct IH as [Hb _].
Qed.

End System.
