(* ===== verification/Ros1Specs.v ===== *)
(** * What the ROS 1 bridge does

    Agreement with the server, topics, the backoff of the update timer, parameters
    and the allowlist; and a session in which the code does not do what it means to
    do. *)

From Stdlib Require Import ZArith Lia.
From S2P Require Import Prelude Wire Json Serialization ServerState ServerMethods ServerLogic.
From S2P Require Import ServerInv ServerSpecs ServerSystem.
From S2P Require Import Text BridgeParams BridgeTables ServerRuns BridgeSync BridgeUpdate.
From S2P Require Import BridgeRefresh Ros1Bridge Ros1System.

Local Open Scope Z_scope.
Import Ros1 Ros1Node.

Section Specs.
Context {plat : Platform} (cfg : Config) (parse : list byte → outcome json).
Implicit Types (L : list mutex) (s : St Node).

(** C2. In every state the ROS 1 bridge and its server reach together when their entry
    points run one after the other (each request, callback and timer update to its end
    before the next begins), and with names and definitions that are UTF-8, their
    records agree, as for ROS 2; every client channel the server knows has a publisher
    on its topic with its type, and the only encoding the bridge accepts.  (An update
    that removes a channel in the middle of a subscription breaks this, see [Races].) *)
Theorem ros1_bridge_and_server_agree s :
  bridge_reachable cfg parse s →
  server_inv (srv s) ∧ tables_ok (tables (world s)) ∧ synced (srv s) (tables (world s)).
Proof. intros Hr%ros1_bridge_reachable_good. destruct Hr as [[Hi [Ho Hs]] _]. done. Qed.

(** ** Topics *)

Definition visible_topic (topics : list (string * string)) (key : TopicAndDatatype) : Prop :=
  key ∈ topics ∧ is_whitelisted key.1 (topic_whitelist_patterns_ cfg) = true.

Definition advertised (t : Tables Subscriber Publisher) (key : TopicAndDatatype) : Prop :=
  ∃ id c, advertised_topics t !! id = Some c ∧ channel_key c = key.

Lemma collect_topics_elem topics key :
  key ∈ collect_topics cfg topics ↔ visible_topic topics key.
Proof.
  unfold collect_topics, visible_topic. rewrite elem_of_list_to_set, list_elem_of_filter. tauto.
Qed.

Lemma collect_topics_length topics : (size (collect_topics cfg topics) ≤ length topics)%nat.
Proof.
  unfold collect_topics. set (P := λ topic : TopicAndDatatype, _ = true).
  etrans; [|apply (length_filter P)]. generalize (filter P topics) as l.
  intros l. induction l as [|x l IH]; [done|]. cbn [list_to_set length].
  rewrite size_union_alt, size_singleton. simpl. apply le_n_S. etrans; [|exact IH].
  apply subseteq_size. set_solver.
Qed.

(** C26. One update of the topics, when their definitions are UTF-8, makes what the
    ROS 1 bridge advertises follow the ROS master: afterwards a topic with a type is advertised exactly when the master
    lists it and it is on the whitelist; channels that stay keep their ids and
    subscriptions, the other subscriptions are gone, and the server has the same
    channels. *)
Theorem ros1_topics_follow_master (topics : list (string * string)) s :
  bridge_reachable cfg parse s → getTopics (env (world s)) = Some topics →
  ids_below_next (srv s) → _next_channel_id (srv s) + Z.of_nat (length topics) < 2 ^ 32 →
  ∃ s', update_advertised_topics cfg [] s = (Ret tt, s') ∧
  let t := tables (world s) in let t' := tables (world s') in
  (∀ key, advertised t' key ↔ visible_topic topics key) ∧
  (∀ id c, advertised_topics t !! id = Some c → visible_topic topics (channel_key c) →
     advertised_topics t' !! id = Some c) ∧
  (∀ ch hdl sub, subscription_of t' ch hdl = Some sub ↔
     subscription_of t ch hdl = Some sub ∧
     ∃ c, advertised_topics t !! ch = Some c ∧ visible_topic topics (channel_key c)) ∧
  (∀ id, channel_base <$> _channels (srv s') !! id = advertised_topics t' !! id).
Proof.
  intros Hr Htopics Hids Hb. pose proof (ros1_bridge_reachable_good _ _ s Hr) as Hgood.
  destruct (ros1_update_advertised_topics_run cfg topics s Htopics Hgood)
    as (s' & E & Hgood' & _ & Href & Hcomp). destruct Href as [Hkept Hsound Hsubs _ _].
  exists s'. split; [done|]. cbv zeta.
  pose proof (collect_topics_elem topics) as Hv. pose proof (collect_topics_length topics) as Hlen.
  specialize (Hcomp Hids ltac:(lia)).
  split_and!.
  - intros key. split.
    + intros (id & c & Hc & <-). apply Hsound in Hc as [Hin _]. by apply Hv.
    + intros Hvis. apply Hcomp; [by apply Hv|]. right.
      destruct (channel_for_total _ key (proj2 Hgood)) as (c & Hc & _). exists c.
      unfold channel_for. by rewrite Hc.
  - intros id c Hc Hin%Hv. by apply Hkept.
  - intros ch hdl sub. rewrite Hsubs. by setoid_rewrite Hv.
  - destruct Hgood' as [[_ [_ Hsy]] _]. apply (sync_channels _ _ Hsy).
Qed.

(** ** The update timer *)

(** The backoff of the update timer: while the number of updates is below 64 the
    next period is between 100 ms and the configured maximum (100 ms at least), never
    shorter than the one before; at the 64th update the shift of a [size_t] by 64
    makes it undefined. *)
Theorem update_backoff_bounds (count : Z) :
  (0 ≤ count < 64 → ∃ ms, next_update_ms cfg count = Ret ms ∧
     MIN_UPDATE_PERIOD_MS ≤ ms ≤ Z.max MIN_UPDATE_PERIOD_MS (max_update_ms_ cfg) ∧
     (∀ ms', 0 < count → next_update_ms cfg (count - 1) = Ret ms' → ms' ≤ ms)) ∧
  (64 ≤ count → next_update_ms cfg count = Undefined).
Proof.
  assert (∀ c, 0 ≤ c < 64 → next_update_ms cfg c =
    Ret (Z.max MIN_UPDATE_PERIOD_MS (Z.min (2 ^ c) (max_update_ms_ cfg)))) as Hrun.
  { intros c Hc. unfold next_update_ms. destruct (Z.leb_spec 64 c); [lia|].
    rewrite Z.shiftl_mul_pow2, Z.mul_1_l by lia. rewrite u64_small; [done|].
    split; [apply Z.pow_nonneg; lia|apply Z.pow_lt_mono_r; lia]. }
  split.
  - intros Hc. eexists. split; [by apply Hrun|]. split; [lia|].
    intros ms' Hpos. rewrite Hrun by lia. intros [= <-].
    assert (2 ^ (count - 1) ≤ 2 ^ count) by (apply Z.pow_le_mono_r; lia). lia.
  - intros Hc. unfold next_update_ms. by rewrite (proj2 (Z.leb_le 64 count) Hc).
Qed.

(** ** Parameters *)

Lemma to_ros_param_defined v : to_ros_param v ≠ Undefined.
Proof.
  assert (∀ A B (f : A → outcome B) l, Forall (λ a, f a ≠ Undefined) l →
            outcome_mapM f l ≠ Undefined) as Hmap.
  { intros A B f l Hl. induction Hl as [|a l Ha _ IH]; cbn [outcome_mapM]; [done|].
    destruct (f a); simpl_bind; [|done..]. by destruct (outcome_mapM f l). }
  induction v as [|b|z|f|s|bs|l IH|o IH] using ParameterValue_nested_ind; try done;
    cbn [to_ros_param].
  - specialize (Hmap _ _ to_ros_param l IH). by destruct (outcome_mapM _ l).
  - match goal with |- context [outcome_mapM ?f o] => specialize (Hmap _ _ f o) end.
    destruct (outcome_mapM _ o); simpl_bind; try done. exfalso. apply Hmap; [|done].
    eapply Forall_impl; [exact IH|]. intros [k v] Hv. cbn in *. by destruct (to_ros_param v).
Qed.

(** What setting a parameter does to the parameter server, if it succeeds. *)
Definition set_effect (e : RosEnv) (p : ParameterT) : option ros_event :=
  if is_whitelisted (param_name p) (param_whitelist_patterns cfg) then
    match param_value p with
    | PNotSet => match deleteParam e (param_name p) with
                 | None => Some (RosDeleteParam (param_name p))
                 | Some _ => None
                 end
    | value => match to_ros_param value with
               | Ret v => match setParam e (param_name p) v with
                          | None => Some (RosSetParam (param_name p) v)
                          | Some _ => None
                          end
               | _ => None
               end
    end
  else None.

Definition log_all (l : list ros_event) s : St Node :=
  mkSt (srv s) (net s) (trace s) (foldl log_ros (world s) l).

Lemma set_parameter_run p L s :
  set_parameter cfg p L s =
  (Ret (bool_decide (is_Some (set_effect (env (world s)) p))),
   log_all (option_list (set_effect (env (world s)) p)) s).
Proof.
  unfold set_parameter, set_effect. destruct (is_whitelisted _ _); [|by destruct s].
  cbn [negb]. unfold try_catch. erewrite bind_run by reflexivity.
  set (e := env (world s)).
  pose proof (to_ros_param_defined (param_value p)) as Hd.
  destruct (param_value p) as [| | | | | | |] eqn:Ev.
  1:{ unfold mbind, M_mbind, M_bind, lift. destruct (deleteParam e _); by destruct s. }
  all: unfold mbind, M_mbind, M_bind, lift; destruct (to_ros_param _) as [v|ex|];
    [|by destruct s|done]; by destruct (setParam e _ v); destruct s.
Qed.

Lemma foldl_log_env l n : env (foldl log_ros n l) = env n.
Proof. revert n. induction l as [|x l IH]; intros n; [done|]. simpl. by rewrite IH. Qed.

Lemma foldl_log_ros l n : ros_log (foldl log_ros n l) = ros_log n ++ l.
Proof.
  revert n. induction l as [|x l IH]; intros n; simpl; [by rewrite app_nil_r|].
  rewrite IH. simpl. by rewrite <-app_assoc.
Qed.

Lemma set_parameter_loop_run ps L s :
  set_parameter_loop cfg ps L s =
  (Ret (forallb (λ p, bool_decide (is_Some (set_effect (env (world s)) p))) ps),
   log_all (omap (set_effect (env (world s))) ps) s).
Proof.
  revert s. induction ps as [|p ps IH]; intros s; cbn [set_parameter_loop]; [by destruct s|].
  erewrite bind_run by apply set_parameter_run. erewrite bind_run by apply IH.
  set (l := option_list (set_effect (env (world s)) p)).
  assert (env (world (log_all l s)) = env (world s)) as Henv by apply foldl_log_env.
  rewrite Henv. unfold mret, M_mret, M_ret. f_equal. unfold log_all. cbn [world srv net trace].
  f_equal. rewrite <-foldl_app. f_equal. unfold l.
  change (omap ?f (p :: ps)) with
    (match f p with Some x => x :: omap f ps | None => omap f ps end).
  by destruct (set_effect _ p).
Qed.

(** The values the parameter server has for the names, as the message that carries them,
    and whether all of them were allowed and could be read. *)
Definition parameters_reply (e : RosEnv) (names : list string) (request_id : option string) :
    outcome (json * bool) :=
  '(params, ok) ← read_parameters cfg e false names;
  js ← outcome_mapM Parameter_to_json (filter (λ p, get_type p ≠ PARAMETER_NOT_SET) params);
  text ← dump (json_object
    ([("op", JStr "parameterValues"); ("parameters", JArr js)] ++
     match request_id with Some id => [("id", JStr id)] | None => [] end));
  Ret (text, ok).

Lemma get_parameters_run names request_id hdl L s :
  names ≠ [] →
  get_parameters cfg names request_id hdl L s =
  match parameters_reply (env (world s)) names request_id with
  | Ret (text, ok) =>
      ((if ok : bool then Ret tt
        else Throw (RuntimeError "Failed to retrieve one or multiple parameters")),
       add_trace (delivered (net s) hdl (Text text) true) s)
  | Throw ex => (Throw ex, s)
  | Undefined => (Undefined, s)
  end.
Proof.
  intros Hne. unfold get_parameters, parameters_reply. erewrite bind_run by reflexivity.
  destruct names as [|name names]; [done|]. cbn [is_nil]. erewrite bind_run by reflexivity.
  unfold mbind at 1, M_mbind, M_bind, lift.
  destruct (read_parameters _ _ _ _) as [[params ok]|ex|]; [|done..]. simpl_bind.
  unfold publish_parameter_values, mbind, M_mbind, M_bind, lift. cbv zeta.
  destruct (outcome_mapM _ _) as [js|ex|]; [|done..].
  unfold outcome_mbind, outcome_bind.
  destruct (dump _) as [text|ex|]; [|done..]. rewrite send_raw_json_run. by destruct ok.
Qed.

(** The parameter server's log and the server's records when [get_parameters] is done. *)
Lemma get_parameters_quiet names request_id hdl L s :
  world (get_parameters cfg names request_id hdl L s).2 = world s ∧
  srv (get_parameters cfg names request_id hdl L s).2 = srv s.
Proof.
  destruct names as [|name names].
  2:{ rewrite get_parameters_run by done. by destruct (parameters_reply _ _ _) as [[]| |]. }
  unfold get_parameters. erewrite bind_run by reflexivity. cbn [is_nil].
  destruct (getParamNames _) as [l|]; [|done]. erewrite bind_run by reflexivity.
  unfold mbind at 1 3, M_mbind, M_bind, lift.
  destruct (read_parameters _ _ _ _) as [[params ok]|ex|]; [|done..].
  unfold publish_parameter_values, mbind, M_mbind, M_bind, lift. cbv zeta.
  destruct (outcome_mapM _ _) as [js|ex|]; [|done..].
  destruct (dump _) as [text|ex|]; [|done..]. rewrite send_raw_json_run. by destruct ok.
Qed.


(** A request for a named parameter that is not on the allowlist is answered with
    its value all the same, before the error is reported. *)
Theorem explicit_request_bypasses_allowlist (name : string) (value : XmlRpcValue)
    (p : ParameterT) (j : json) (request_id : option string) (hdl : ConnHandle) s :
  is_whitelisted name (param_whitelist_patterns cfg) = false →
  getParam (env (world s)) name = Ret value → from_ros_param name value = Ret p →
  Parameter_to_json p = Ret j → get_type p ≠ PARAMETER_NOT_SET →
  dumps (json_object ([("op", JStr "parameterValues"); ("parameters", JArr [j])] ++
    match request_id with Some id => [("id", JStr id)] | None => [] end)) = true →
  get_parameters cfg [name] request_id hdl [] s =
  (Throw (RuntimeError "Failed to retrieve one or multiple parameters"),
   add_trace (delivered (net s) hdl (Text (json_object
     ([("op", JStr "parameterValues"); ("parameters", JArr [j])] ++
      match request_id with Some id => [("id", JStr id)] | None => [] end))) true) s).
Proof.
  intros Hwl Hget Hp Hj Hset Hd. rewrite get_parameters_run by done. unfold parameters_reply.
  cbn [read_parameters]. rewrite Hwl, Hget. cbn [negb andb]. simpl_bind. rewrite Hp. simpl_bind.
  rewrite filter_cons, decide_True, filter_nil by done. cbn [outcome_mapM]. rewrite Hj. simpl_bind.
  by rewrite dump_ret by exact Hd.
Qed.

(** When all parameters are requested, only those on the allowlist are sent. *)
Theorem all_parameters_allowed (e : RosEnv) (names : list string) ps ok :
  read_parameters cfg e true names = Ret (ps, ok) →
  Forall (λ p, is_whitelisted (param_name p) (param_whitelist_patterns cfg) = true) ps.
Proof.
  revert ps ok. induction names as [|name names IH]; intros ps ok; cbn [read_parameters].
  { intros [= <- <-]. constructor. }
  destruct (is_whitelisted name _) eqn:Hw; cbn [negb andb]; [|apply IH].
  destruct (value ← getParam e name; from_ros_param name value) as [p|ex|] eqn:Ep; [| |done].
  - intros ([ps' ok'] & E & [= <- <-])%outcome_bind_Ret. constructor; [|by eapply IH].
    apply outcome_bind_Ret in Ep as (v & _ & Ep). unfold from_ros_param in Ep.
    by apply outcome_bind_Ret in Ep as (x & _ & [= <-]).
  - intros ([ps' ok'] & E & [= <- <-])%outcome_bind_Ret. by eapply IH.
Qed.

End Specs.
