(* ===== verification/Ros1Scenarios.v ===== *)
(** * Sessions of the ROS 1 bridge

    Instances of its specifications, and sessions in which it does not do what it
    means to do. *)

From Stdlib Require Import ZArith Lia.
From S2P Require Import Prelude Wire Json Serialization ServerState ServerMethods ServerLogic.
From S2P Require Import ServerInv ServerSpecs ServerSystem.
From S2P Require Import Text BridgeParams BridgeTables ServerRuns BridgeSync BridgeUpdate.
From S2P Require Import BridgeRefresh Ros1Bridge Ros1System Ros1Specs.

Local Open Scope Z_scope.
Import Ros1 Ros1Node.

(** ** The session *)

Definition demo_description : MessageDescription :=
  {| md5 := "992c"; message_definition := "string data" |}.

Definition demo_env (state : option SystemState) : RosEnv := {|
  ros_ok := true;
  getTopics := Some [("/chatter", "std_msgs/String"); ("/rosout", "rosgraph_msgs/Log")];
  getSystemState := state;
  getMessageDescription type :=
    Ret (if bool_decide (type = "std_msgs/String") then Some demo_description else None);
  getServiceDescription _ :=
    Ret (Some {| srv_md5 := "d41d"; srv_request := demo_description;
                 srv_response := demo_description |});
  probe_service _ := HeaderReceived (Some "std_srvs/Trigger");
  nh_subscribe _ := None;
  nh_advertise _ := Ret true;
  publish _ _ := None;
  getParamNames := Some ["/secret"; "/rate"];
  getParam _ := Ret (TypeInt 42);
  setParam _ _ := None;
  deleteParam _ := None;
  master_execute _ _ := true;
  names_resolve := Ret;
  names_clean n := n;
  service_exists _ := true;
  service_call _ _ := Some [x2a];
  retrieve _ := Ret []
|}.

Definition demo_system : SystemState :=
  {| ss_publishers := [("/chatter", ["/talker"])]; ss_subscribers := [];
     ss_services := [("/reset", ["/node"])] |}.

Definition demo_parameters : Parameters := {|
  p_send_buffer_limit := 10000000; p_tls := false; p_certfile := EmptyString;
  p_keyfile := EmptyString; p_max_update_ms := 5000; p_use_compression := false;
  p_use_sim_time := false; p_run_id := "1";
  p_capabilities := [CAPABILITY_CLIENT_PUBLISH; CAPABILITY_SERVICES; CAPABILITY_PARAMETERS];
  p_topic_whitelist := ["/chatter"]; p_param_whitelist := ["/rate"];
  p_service_whitelist := [".*"]; p_client_topic_whitelist := [".*"];
  p_asset_uri_allowlist := [".*"]
|}.

(** [.*] matches everything, any other pattern itself. *)
Definition demo_compile (p : string) : option regex :=
  Some (λ s, bool_decide (p = ".*") || bool_decide (p = s)).

Definition demo_config : Config := new_Config demo_compile demo_parameters.

Definition demo_server_options : ServerOptions :=
  match new_ServerOptions demo_compile demo_parameters (Some "noetic") "00:11" ["10.0.0.1"]
          EmptyString with
  | Ret o => o
  | _ => demo_options
  end.

Definition bridge_init : St Node :=
  mkSt (new_Server "cobridge" demo_server_options)
    (<[1%nat := demo_connection "10.0.0.5:4000"]> ∅) [] (new_Node (demo_env (Some demo_system))).

Definition bridge_requests : list json :=
  [login_request "alice";
   json_object [("op", JStr "subscribe");
                ("subscriptions", JArr [json_object [("id", JUnsigned 7); ("channelId", JUnsigned 1)]])]].

Definition bridge_parse (bs : list byte) : outcome json :=
  match bs with
  | [b] => match bridge_requests !! Z.to_nat (byte_to_Z b) with
           | Some j => Ret j
           | None => Throw (StdException "parse error")
           end
  | _ => Throw (StdException "parse error")
  end.

Definition bridge_request (hdl : ConnHandle) (n : Z) : bridge_input :=
  FromClient (Message 0 hdl TEXT [byte_of_Z n]).

(** Run a list of inputs; [None] when one of them has undefined behaviour. *)
Fixpoint run_bridge (l : list bridge_input) (s : St Node) : option (St Node) :=
  match l with
  | [] => Some s
  | b :: l =>
      if valid_input b then
        match bridge_entry (plat:=x86_64) demo_config bridge_parse b [] s with
        | (Undefined, _) => None
        | (_, s') => run_bridge l s'
        end
      else None
  end.

Lemma ros1_run_bridge_reachable l s s' :
  bridge_reachable (plat:=x86_64) demo_config bridge_parse s → run_bridge l s = Some s' →
  bridge_reachable (plat:=x86_64) demo_config bridge_parse s'.
Proof.
  revert s. induction l as [|b l IH]; simpl; intros s Hr Hrun; [by simplify_eq|].
  destruct (valid_input b) eqn:Hv; [|done].
  pose proof (bridge_step_entry (plat:=x86_64) demo_config bridge_parse b s Hv) as Hst.
  destruct (bridge_entry (plat:=x86_64) demo_config bridge_parse b [] s) as [[u|e|] s1]; [| |done];
    (apply (IH s1); [|done]); (eapply bridge_reachable_step; [exact Hr|]); by apply Hst.
Qed.

Definition check_env (e : RosEnv) : bool :=
  match getSystemState e with
  | Some st => bool_decide (NoDup (fst <$> ss_services st)) &&
               forallb service_text (omap (service_for e) (fst <$> ss_services st))
  | None => true
  end &&
  match getTopics e with
  | Some topics => forallb channel_text (omap (channel_for e) topics)
  | None => true
  end.

Lemma demo_env_good state : check_env (demo_env state) = true → env_good (demo_env state).
Proof.
  unfold check_env. rewrite andb_true_iff. intros [Hs Ht]. split.
  - intros st Hst. rewrite Hst in Hs. by apply andb_true_iff in Hs as [?%bool_decide_eq_true _].
  - intros type. left. by eexists.
  - intros topics Htopics key c Hk Hc. rewrite Htopics, forallb_forall in Ht.
    apply Ht, list_elem_of_In, list_elem_of_omap. eauto.
  - intros st Hst x v Hx Hv. rewrite Hst in Hs. apply andb_true_iff in Hs as [_ Hs].
    rewrite forallb_forall in Hs. apply Hs, list_elem_of_In, list_elem_of_omap. eauto.
Qed.

Lemma ros1_bridge_init_reachable : bridge_reachable (plat:=x86_64) demo_config bridge_parse bridge_init.
Proof.
  apply (bridge_reachable_init (plat:=x86_64) demo_config bridge_parse demo_compile demo_parameters
           (Some "noetic") "00:11" ["10.0.0.1"] EmptyString "cobridge"); [done..|].
  apply demo_env_good. vm_compute. reflexivity.
Qed.

Definition bridge_inputs : list bridge_input :=
  [UpdateTimer; FromClient (Opened 1); bridge_request 1 0; bridge_request 1 1].

Definition bridge_state : St Node := default bridge_init (run_bridge bridge_inputs bridge_init).

Lemma ros1_bridge_state_reachable :
  bridge_reachable (plat:=x86_64) demo_config bridge_parse bridge_state.
Proof.
  apply (ros1_run_bridge_reachable bridge_inputs bridge_init); [apply ros1_bridge_init_reachable|].
  vm_compute. reflexivity.
Qed.

(** ** Instances *)

Lemma ros1_bridge_and_server_agree_witness :
  synced (srv bridge_state) (tables (world bridge_state)) ∧
  server_sub (srv bridge_state) 1%nat 1 = Some 7.
Proof.
  split; [|vm_compute; reflexivity].
  apply (ros1_bridge_and_server_agree (plat:=x86_64) demo_config bridge_parse), ros1_bridge_state_reachable.
Defined.

Lemma ros1_bridge_state_ids : ids_below_next (srv bridge_state).
Proof.
  split; [by vm_compute|]. intros id Hid.
  assert (id ∈ dom (_channels (srv bridge_state))) as Hd by (by apply elem_of_dom).
  replace (dom (_channels (srv bridge_state))) with ({[1]} : gset Z) in Hd
    by (vm_compute; reflexivity).
  apply elem_of_singleton in Hd as ->. by vm_compute.
Qed.

Lemma ros1_topics_follow_master_witness :
  ∃ s', update_advertised_topics demo_config [] bridge_state = (Ret tt, s') ∧
    ∀ key, advertised (tables (world s')) key ↔
      visible_topic demo_config
        [("/chatter", "std_msgs/String"); ("/rosout", "rosgraph_msgs/Log")] key.
Proof.
  destruct (ros1_topics_follow_master (plat:=x86_64) demo_config bridge_parse
    [("/chatter", "std_msgs/String"); ("/rosout", "rosgraph_msgs/Log")] bridge_state)
    as (s' & Hrun & Hadv & _).
  - apply ros1_bridge_state_reachable.
  - vm_compute. reflexivity.
  - apply ros1_bridge_state_ids.
  - by vm_compute.
  - exists s'. split; [exact Hrun|exact Hadv].
Defined.

Lemma update_backoff_bounds_witness :
  next_update_ms demo_config 13 = Ret 5000 ∧ next_update_ms demo_config 64 = Undefined.
Proof.
  split; [vm_compute; reflexivity|]. apply (update_backoff_bounds demo_config 64). lia.
Defined.

(** [/secret] is not on the allowlist; its value is sent. *)
Lemma explicit_request_bypasses_allowlist_witness :
  get_parameters demo_config ["/secret"] None 1%nat [] bridge_state =
  (Throw (RuntimeError "Failed to retrieve one or multiple parameters"),
   add_trace [Send 1%nat (Text (json_object
     [("op", JStr "parameterValues");
      ("parameters", JArr [json_object [("name", JStr "/secret"); ("value", JInt 42)]])])) true]
     bridge_state).
Proof.
  rewrite (explicit_request_bypasses_allowlist demo_config "/secret" (TypeInt 42)
    {| param_name := "/secret"; param_value := PInt 42 |}
    (json_object [("name", JStr "/secret"); ("value", JInt 42)]) None 1%nat bridge_state).
  - f_equal.
  - vm_compute. reflexivity.
  - vm_compute. reflexivity.
  - vm_compute. reflexivity.
  - vm_compute. reflexivity.
  - done.
  - vm_compute. reflexivity.
Defined.

(** ** Sessions that go wrong *)

(** The timer is fine 63 times; the 64th update has undefined behaviour. *)
Theorem ros1_64th_update_undefined :
  ∃ s, run_bridge (replicate 63 UpdateTimer) bridge_init = Some s ∧
    update_timer_ (world s) = Some 5000 ∧
    (bridge_entry (plat:=x86_64) demo_config bridge_parse UpdateTimer [] s).1 = Undefined.
Proof.
  eexists. split; [vm_compute; reflexivity|]. split; vm_compute; reflexivity.
Qed.

(** When the master does not answer [getSystemState] once, every service is taken
    back from the clients. *)
Theorem ros1_failed_query_drops_services :
  known_services (tables (world bridge_state)) ≠ ∅ ∧
  ∃ s, run_bridge [UpdateTimer]
         (mkSt (srv bridge_state) (net bridge_state) (trace bridge_state)
            (set_env (world bridge_state) (demo_env None))) = Some s ∧
    known_services (tables (world s)) = ∅ ∧ _services (srv s) = ∅ ∧
    trace s = trace bridge_state ++
      [Send 1%nat (Text (json_object [("op", JStr "unadvertiseServices");
                                      ("serviceIds", JArr [JUnsigned 1])])) true].
Proof.
  split; [by vm_compute|]. eexists. split; [vm_compute; reflexivity|].
  split_and!; vm_compute; reflexivity.
Qed.
