(* ===== verification/Standard.v ===== *)
(** * Backports of the standard library

    [standard.hpp]: [any], which owns a heap cell with a value of some type;
    [string_view]; [optional].  The heap of [any] is explicit, with the pointers of
    the objects into it, so that ownership is what is proved: no cell is freed
    twice, read after it was freed, read at another type, or leaked, unless an
    assignment deletes what it copies or its copy throws. *)

From Stdlib Require Import ZArith Lia.
From S2P Require Import Prelude.

(** ** any *)

Section Any.
(** The types that are stored, by their [type_info], and their values. *)
Context {T : Type} `{!EqDecision T} (val : T → Type).

(** [_Storage<_Tp>]: the type and [M_value]. *)
Abbreviation Storage := (sigT val).

Abbreviation loc := nat.

Record heap := { cells : gmap loc Storage; next_loc : loc }.

(** An object [any] is its [M_storage], where [None] is the null pointer. *)
Abbreviation any := (option loc).

(** [new _Storage<_Tp>(_value)]. *)
Definition new_storage (v : Storage) (h : heap) : loc * heap :=
  (next_loc h, {| cells := <[next_loc h := v]> (cells h); next_loc := S (next_loc h) |}).

(** [delete]: nothing for a null pointer, undefined for a cell that is not there. *)
Definition delete_storage (p : any) (h : heap) : outcome heap :=
  match p with
  | None => Ret h
  | Some l =>
      match cells h !! l with
      | Some _ => Ret {| cells := delete l (cells h); next_loc := next_loc h |}
      | None => Undefined
      end
  end.

(** [new _Storage<_Tp>(_value)] copies the value; [e] is what that throws, if it does. *)
Definition copy_storage (e : option exn) (v : Storage) (h : heap) : outcome (any * heap) :=
  match e with
  | Some e => Throw e
  | None => let '(l, h) := new_storage v h in Ret (Some l, h)
  end.

(** [M_storage ? M_storage->_M_clone() : nullptr]. *)
Definition clone (e : option exn) (p : any) (h : heap) : outcome (any * heap) :=
  match p with
  | None => Ret (None, h)
  | Some l =>
      match cells h !! l with
      | Some v => copy_storage e v h
      | None => Undefined
      end
  end.

(** [any(const _Tp & _value)]. *)
Definition any_of (e : option exn) (v : Storage) (h : heap) : outcome (any * heap) :=
  copy_storage e v h.

(** [M_storage = ...]: when the right-hand side throws, [M_storage] stays as it was; the
    exception leaves the operator. *)
Definition set_storage (this : any) (h : heap) (rhs : outcome (any * heap)) :
    outcome (any * heap * option exn) :=
  match rhs with
  | Ret r => Ret (r, None)
  | Throw e => Ret (this, h, Some e)
  | Undefined => Undefined
  end.

(** [operator=(const any & _rhs)]; [same] is [this == &_rhs]. *)
Definition assign (e : option exn) (same : bool) (this rhs : any) (h : heap) :
    outcome (any * heap * option exn) :=
  if same then Ret (this, h, None)
  else h ← delete_storage this h; set_storage this h (clone e rhs h).

(** What the argument of [operator=(const Tp & _rhs)] refers to: a value of its own,
    or the value in a cell. *)
Inductive source := Value (v : Storage) | InCell (l : loc).

Definition read_source (src : source) (h : heap) : outcome Storage :=
  match src with
  | Value v => Ret v
  | InCell l => match cells h !! l with Some v => Ret v | None => Undefined end
  end.

(** The argument is read after the old value was deleted. *)
Definition assign_value (e : option exn) (this : any) (src : source) (h : heap) :
    outcome (any * heap * option exn) :=
  h ← delete_storage this h;
  set_storage this h (v ← read_source src h; any_of e v h).

Definition reset (this : any) (h : heap) : outcome (any * heap) :=
  h ← delete_storage this h; Ret (None, h).

Definition swap (a b : any) : any * any := (b, a).

Definition has_value (a : any) : bool := bool_decide (is_Some a).

(** [type()]: [None] is [typeid(void)], which no value has. *)
Definition type_of (a : any) (h : heap) : outcome (option T) :=
  match a with
  | None => Ret None
  | Some l => match cells h !! l with Some v => Ret (Some (projT1 v)) | None => Undefined end
  end.

(** [static_cast<_Storage<Tp> *>(M_storage)->M_value]: undefined unless the cell is
    a [_Storage<Tp>]. *)
Definition storage_value (tp : T) (a : any) (h : heap) : outcome (val tp) :=
  match a with
  | None => Undefined
  | Some l =>
      match cells h !! l with
      | Some (existT t v) =>
          match decide (t = tp) with
          | left E => Ret (eq_rect t val v tp E)
          | right _ => Undefined
          end
      | None => Undefined
      end
  end.

(** [any_cast<Tp>] of a pointer: the value behind the pointer it returns, or null. *)
Definition any_cast_ptr (tp : T) (a : any) (h : heap) : outcome (option (val tp)) :=
  t ← type_of a h;
  if bool_decide (t = Some tp) then v ← storage_value tp a h; Ret (Some v) else Ret None.

(** [any_cast<Tp>(const any &)]. *)
Definition any_cast (tp : T) (a : any) (h : heap) : outcome (val tp) :=
  r ← any_cast_ptr tp a h;
  match r with Some v => Ret v | None => Throw (StdException "bad any_cast") end.

(** *** Programs with objects *)

(** The objects of a program, by name, and the heap. *)
Record store := { objects : gmap nat any; store_heap : heap }.

(** [AssignFrom x tp y] is [x = *any_cast<tp>(&y)]: the argument is the value in [y]. *)
Inductive any_op :=
| Construct (x : nat)
| ConstructValue (x : nat) (v : Storage)
| CopyConstruct (x y : nat)
| Assign (x y : nat)
| AssignValue (x : nat) (v : Storage)
| AssignFrom (x : nat) (tp : T) (y : nat)
| Reset (x : nat)
| Swap (x y : nat)
| Destroy (x : nat).

Definition set_object (x : nat) (s : store) (r : any * heap) : store :=
  {| objects := <[x := r.1]> (objects s); store_heap := r.2 |}.

(** A constructor that throws makes no object. *)
Definition construct (x : nat) (s : store) (r : outcome (any * heap)) :
    outcome (store * option exn) :=
  match r with
  | Ret r => Ret (set_object x s r, None)
  | Throw e => Ret (s, Some e)
  | Undefined => Undefined
  end.

(** An operator that throws leaves the object as it is then. *)
Definition update_object (x : nat) (s : store) (r : outcome (any * heap * option exn)) :
    outcome (store * option exn) :=
  '(r, e) ← r; Ret (set_object x s r, e).

(** The program catches what an operation throws; [e] is what copying a value throws, if
    it does.  An operation of a name that is not an object is not a program. *)
Definition run_op (e : option exn) (o : any_op) (s : store) : outcome (store * option exn) :=
  let h := store_heap s in
  match o with
  | Construct x => construct x s (Ret (None, h))
  | ConstructValue x v => construct x s (any_of e v h)
  | CopyConstruct x y =>
      match objects s !! y with
      | Some b => construct x s (clone e b h)
      | None => Undefined
      end
  | Assign x y =>
      match objects s !! x, objects s !! y with
      | Some a, Some b => update_object x s (assign e (bool_decide (x = y)) a b h)
      | _, _ => Undefined
      end
  | AssignValue x v =>
      match objects s !! x with
      | Some a => update_object x s (assign_value e a (Value v) h)
      | None => Undefined
      end
  | AssignFrom x tp y =>
      match objects s !! x, objects s !! y with
      | Some a, Some b =>
          p ← any_cast_ptr tp b h;
          match p, b with
          | Some _, Some l => update_object x s (assign_value e a (InCell l) h)
          | _, _ => Undefined
          end
      | _, _ => Undefined
      end
  | Reset x =>
      match objects s !! x with
      | Some a => r ← reset a h; Ret (set_object x s r, None)
      | None => Undefined
      end
  | Swap x y =>
      match objects s !! x, objects s !! y with
      | Some a, Some b =>
          let '(a', b') := swap a b in
          Ret ({| objects := <[x := a']> (<[y := b']> (objects s)); store_heap := h |}, None)
      | _, _ => Undefined
      end
  | Destroy x =>
      match objects s !! x with
      | Some a =>
          h ← delete_storage a h;
          Ret ({| objects := delete x (objects s); store_heap := h |}, None)
      | None => Undefined
      end
  end.

(** *** What the objects mean *)

(** A value, or none, for each object. *)
Abbreviation values := (gmap nat (option Storage)).

Definition value_of (m : values) (x : nat) : option Storage := default None (m !! x).

(** The value an operation copies, if it does. *)
Definition copied (o : any_op) (m : values) : option Storage :=
  match o with
  | ConstructValue _ v | AssignValue _ v => Some v
  | CopyConstruct _ y | AssignFrom _ _ y => value_of m y
  | Assign x y => if bool_decide (x = y) then None else value_of m y
  | Construct _ | Reset _ | Swap _ _ | Destroy _ => None
  end.

(** What an operation throws. *)
Definition op_throws (e : option exn) (o : any_op) (m : values) : option exn :=
  match copied o m with Some _ => e | None => None end.

(** The value an assignment deletes before it copies. *)
Definition deleted_first (o : any_op) (m : values) : option Storage :=
  match o with
  | Assign x _ | AssignValue x _ | AssignFrom x _ _ => value_of m x
  | _ => None
  end.

Definition is_none {A} (o : option A) : bool := match o with None => true | Some _ => false end.

(** What a program may do: construct names that are not objects, use objects that exist,
    not assign to an object the value inside itself, take the value inside another at its
    type, and not assign to an object with a value what throws when it is copied. *)
Definition op_ok (e : option exn) (o : any_op) (m : values) : bool :=
  match o with
  | Construct x | ConstructValue x _ => bool_decide (m !! x = None)
  | CopyConstruct x y => bool_decide (m !! x = None) && bool_decide (is_Some (m !! y))
  | Assign x y | Swap x y => bool_decide (is_Some (m !! x)) && bool_decide (is_Some (m !! y))
  | AssignFrom x tp y =>
      bool_decide (is_Some (m !! x)) &&
      match value_of m y with Some v => bool_decide (projT1 v = tp ∧ x ≠ y) | None => false end
  | AssignValue x _ | Reset x | Destroy x => bool_decide (is_Some (m !! x))
  end && (is_none (op_throws e o m) || is_none (deleted_first o m)).

Definition op_values (e : option exn) (o : any_op) (m : values) : values :=
  if is_none (op_throws e o m) then
    match o with
    | Construct x | Reset x => <[x := None]> m
    | ConstructValue x v | AssignValue x v => <[x := Some v]> m
    | CopyConstruct x y | Assign x y | AssignFrom x _ y => <[x := value_of m y]> m
    | Swap x y => <[x := value_of m y]> (<[y := value_of m x]> m)
    | Destroy x => delete x m
    end
  else m.

(** What is known of an object represents what it means. *)
Definition represents (h : heap) (a : option any) (o : option (option Storage)) : Prop :=
  match a, o with
  | None, None => True
  | Some None, Some None => True
  | Some (Some l), Some (Some v) => cells h !! l = Some v
  | _, _ => False
  end.

(** The store represents the values: every object with a value owns a cell with it,
    no two objects own the same, and there are no other cells. *)
Record owns (s : store) (m : values) : Prop := {
  owns_objects x : represents (store_heap s) (objects s !! x) (m !! x);
  owns_once x y l : objects s !! x = Some (Some l) → objects s !! y = Some (Some l) → x = y;
  owns_all l v : cells (store_heap s) !! l = Some v → ∃ x, objects s !! x = Some (Some l);
  owns_fresh l v : cells (store_heap s) !! l = Some v → (l < next_loc (store_heap s))%nat
}.

Lemma represents_heap h h' a o :
  (∀ l, a = Some (Some l) → cells h' !! l = cells h !! l) → represents h a o → represents h' a o.
Proof. destruct a as [[l|]|], o as [[v|]|]; simpl; try done. intros Hl. by rewrite Hl. Qed.

Lemma owns_lookup s m x o :
  owns s m → m !! x = Some o →
  ∃ a, objects s !! x = Some a ∧
    match a, o with
    | None, None => True
    | Some l, Some v => cells (store_heap s) !! l = Some v
    | _, _ => False
    end.
Proof.
  intros Ho Hx. pose proof (owns_objects _ _ Ho x) as H. rewrite Hx in H.
  destruct (objects s !! x) as [[l|]|]; [..|done]; eexists; (split; [done|]); by destruct o.
Qed.

Lemma owns_lookup_None s m x : owns s m → m !! x = None → objects s !! x = None.
Proof.
  intros Ho Hx. pose proof (owns_objects _ _ Ho x) as H. rewrite Hx in H.
  by destruct (objects s !! x) as [[]|].
Qed.

(** Deleting the cell of an object leaves it without a value. *)
Lemma owns_delete s m x a :
  owns s m → objects s !! x = Some a →
  ∃ h, delete_storage a (store_heap s) = Ret h ∧
    owns {| objects := <[x := None]> (objects s); store_heap := h |} (<[x := None]> m).
Proof.
  intros [Hobj Honce Hall Hfresh] Hx. pose proof (Hobj x) as Hcell. rewrite Hx in Hcell.
  destruct a as [l|]; simpl in *.
  - destruct (m !! x) as [[v|]|] eqn:Em; [|done..]. rewrite Hcell. eexists. split; [done|].
    assert (∀ y l', objects s !! y = Some (Some l') → x ≠ y → l' ≠ l) as Hne.
    { intros y l' Hy Hxy ->. by apply Hxy, (Honce x y l). }
    split; simpl.
    + intros y. destruct (decide (x = y)) as [<-|Hy]; [by rewrite !lookup_insert_eq|].
      rewrite !lookup_insert_ne by done. eapply represents_heap; [|apply Hobj]. simpl.
      intros l' Hl'. apply lookup_delete_ne. symmetry. by eapply Hne.
    + intros y z l'. rewrite !lookup_insert_Some. naive_solver.
    + intros l' v' [Hl' Hv]%lookup_delete_Some. destruct (Hall _ _ Hv) as (y & Hy). exists y.
      rewrite lookup_insert_ne; [done|]. intros <-. congruence.
    + intros l' v' [_ Hv]%lookup_delete_Some. by eapply Hfresh.
  - exists (store_heap s). split; [done|]. rewrite !insert_id; [by destruct s|..|done].
    by destruct (m !! x) as [[]|].
Qed.

(** A cell for an object without a value. *)
Lemma owns_new s m x v :
  owns s m → m !! x = None ∨ m !! x = Some None →
  let '(l, h) := new_storage v (store_heap s) in
  owns (set_object x s (Some l, h)) (<[x := Some v]> m).
Proof.
  intros [Hobj Honce Hall Hfresh] Hx. unfold new_storage. set (l := next_loc (store_heap s)).
  assert (cells (store_heap s) !! l = None) as Hl.
  { apply eq_None_not_Some. intros [v' Hv]. apply Hfresh in Hv. unfold l in Hv. lia. }
  assert (∀ y l', objects s !! y = Some (Some l') → l' ≠ l) as Hne.
  { intros y l' Hy ->. specialize (Hobj y). rewrite Hy in Hobj.
    destruct (m !! y) as [[v'|]|]; [|done..]. simpl in Hobj. congruence. }
  assert (∀ l', objects s !! x ≠ Some (Some l')) as Hnone.
  { intros l' Hy. specialize (Hobj x). rewrite Hy in Hobj. destruct Hx as [E|E]; by rewrite E in Hobj. }
  split; simpl; fold l.
  - intros y. destruct (decide (x = y)) as [<-|Hy].
    { rewrite !lookup_insert_eq. simpl. apply lookup_insert_eq. }
    rewrite !lookup_insert_ne by done. eapply represents_heap; [|apply Hobj]. simpl.
    intros l' Hl'. apply lookup_insert_ne. intros <-. by eapply Hne.
  - intros y z l'. rewrite !lookup_insert_Some. naive_solver.
  - intros l' v'. destruct (decide (l = l')) as [<-|Hll].
    { exists x. apply lookup_insert_eq. }
    rewrite lookup_insert_ne by done. intros (y & Hy)%Hall. exists y.
    rewrite lookup_insert_ne; [done|]. intros <-. by eapply Hnone.
  - intros l' v'. destruct (decide (l = l')) as [<-|Hll]; [unfold l; lia|].
    rewrite lookup_insert_ne by done. intros ?%Hfresh. unfold l. lia.
Qed.

(** An object without a value appears. *)
Lemma owns_null s m x :
  owns s m → m !! x = None →
  owns (set_object x s (None, store_heap s)) (<[x := None]> m).
Proof.
  intros Ho Hx. pose proof (owns_lookup_None _ _ _ Ho Hx) as Hnx.
  destruct Ho as [Hobj Honce Hall Hfresh]. split; simpl; [| | |done].
  - intros y. destruct (decide (x = y)) as [<-|Hy]; [by rewrite !lookup_insert_eq|].
    by rewrite !lookup_insert_ne.
  - intros y z l'. rewrite !lookup_insert_Some. naive_solver.
  - intros l v (y & Hy)%Hall. exists y. rewrite lookup_insert_ne; [done|]. congruence.
Qed.

(** A copy of the value of another object. *)
Lemma owns_clone s m x y o b :
  owns s m → m !! x = None ∨ m !! x = Some None → m !! y = Some o → objects s !! y = Some b →
  ∃ r, clone None b (store_heap s) = Ret r ∧ owns (set_object x s r) (<[x := o]> m).
Proof.
  intros Ho Hx Hy Hb. destruct (owns_lookup _ _ _ _ Ho Hy) as (b' & Hb' & Hbo).
  rewrite Hb in Hb'. injection Hb' as <-. destruct b as [l|], o as [v|]; try done; simpl.
  - rewrite Hbo. eexists. split; [done|]. by apply (owns_new s m x v).
  - eexists. split; [done|]. destruct Hx as [Hx|Hx]; [by apply owns_null|].
    destruct (owns_lookup _ _ _ _ Ho Hx) as ([|] & Ha & ?); [done|].
    unfold set_object. simpl. rewrite !insert_id by done. by destruct s.
Qed.

Lemma owns_swap s m x y a b :
  owns s m → objects s !! x = Some a → objects s !! y = Some b →
  owns {| objects := <[x := b]> (<[y := a]> (objects s)); store_heap := store_heap s |}
    (<[x := value_of m y]> (<[y := value_of m x]> m)).
Proof.
  intros [Hobj Honce Hall Hfresh] Ha Hb.
  assert (∀ z a, objects s !! z = Some a → represents (store_heap s) (Some a)
            (Some (value_of m z))) as Hd.
  { intros z c Hz. specialize (Hobj z). rewrite Hz in Hobj. unfold value_of. by destruct c, (m !! z) as [[]|]. }
  assert (∀ z c, <[x := b]> (<[y := a]> (objects s)) !! z = Some c →
    ∃ z', objects s !! z' = Some c ∧ (z = x ∧ z' = y ∨ z = y ∧ z' = x ∨ z ≠ x ∧ z ≠ y ∧ z' = z)) as Hfrom.
  { intros z c. rewrite !lookup_insert_Some. intros [[<- <-]|[Hx [[<- <-]|[Hy Hz]]]];
      [exists y|exists x|exists z]; (split; [done|]); naive_solver. }
  split; simpl; [| | |done].
  - intros z. destruct (decide (x = z)) as [<-|Hx]; [rewrite !lookup_insert_eq; by apply Hd|].
    rewrite !(lookup_insert_ne _ x) by done.
    destruct (decide (y = z)) as [<-|Hy]; [rewrite !lookup_insert_eq; by apply Hd|].
    by rewrite !lookup_insert_ne.
  - intros z z' l (w & Hw & Hz)%Hfrom (w' & Hw' & Hz')%Hfrom.
    pose proof (Honce _ _ _ Hw Hw'). naive_solver.
  - intros l v (z & Hz)%Hall.
    destruct (decide (z = x)) as [->|Hzx].
    { exists y. destruct (decide (x = y)) as [->|]; [rewrite lookup_insert_eq; congruence|].
      rewrite lookup_insert_ne, lookup_insert_eq by done. congruence. }
    destruct (decide (z = y)) as [->|Hzy]; [exists x; rewrite lookup_insert_eq; congruence|].
    exists z. by rewrite !lookup_insert_ne.
Qed.

Lemma owns_drop s m x :
  owns s m → objects s !! x = Some None →
  owns {| objects := delete x (objects s); store_heap := store_heap s |} (delete x m).
Proof.
  intros [Hobj Honce Hall Hfresh] Hx. split; simpl; [| | |done].
  - intros y. destruct (decide (x = y)) as [<-|]; [by rewrite !lookup_delete_eq|].
    by rewrite !lookup_delete_ne.
  - intros y z l. rewrite !lookup_delete_Some. naive_solver.
  - intros l v (y & Hy)%Hall. exists y. rewrite lookup_delete_ne; [done|]. congruence.
Qed.

(** An assignment whose right-hand side makes the storage. *)
Lemma owns_assign s m x a o (rhs : heap → outcome (any * heap)) :
  owns s m → objects s !! x = Some a →
  (∀ h, let s1 := {| objects := <[x := None]> (objects s); store_heap := h |} in
        owns s1 (<[x := None]> m) →
        ∃ r, rhs h = Ret r ∧ owns (set_object x s1 r) (<[x := o]> (<[x := None]> m))) →
  ∃ s', update_object x s (h ← delete_storage a (store_heap s); set_storage a h (rhs h))
          = Ret (s', None) ∧ owns s' (<[x := o]> m).
Proof.
  intros Ho Ha Hrhs. destruct (owns_delete s m x a Ho Ha) as (h & -> & Ho1). simpl_bind.
  destruct (Hrhs h Ho1) as (r & -> & Ho2). eexists. split; [reflexivity|].
  unfold set_object in *. simpl in Ho2. by rewrite !insert_insert_eq in Ho2.
Qed.

(** An assignment to an object without a value whose right-hand side throws. *)
Lemma assign_throws s m x a ex (rhs : heap → outcome (any * heap)) :
  owns s m → objects s !! x = Some a → value_of m x = None → rhs (store_heap s) = Throw ex →
  update_object x s (h ← delete_storage a (store_heap s); set_storage a h (rhs h))
    = Ret (s, Some ex).
Proof.
  intros Ho Ha Hv Hr. pose proof (owns_objects _ _ Ho x) as Hx. rewrite Ha in Hx. unfold value_of in Hv.
  destruct a as [l|]; [by destruct (m !! x) as [[]|]|]. simpl. simpl_bind. rewrite Hr. simpl. simpl_bind.
  unfold set_object. simpl. rewrite insert_id by done. by destruct s.
Qed.

Lemma owns_copy s m x v :
  owns s m → m !! x = None ∨ m !! x = Some None →
  ∃ r, copy_storage None v (store_heap s) = Ret r ∧ owns (set_object x s r) (<[x := Some v]> m).
Proof. intros Ho Hx. eexists. split; [reflexivity|]. by apply (owns_new s m x v). Qed.

(** The value behind [any_cast] of an object. *)
Lemma owns_cast s m y v :
  owns s m → value_of m y = Some v →
  ∃ l w, objects s !! y = Some (Some l) ∧ cells (store_heap s) !! l = Some v ∧
    any_cast_ptr (projT1 v) (Some l) (store_heap s) = Ret (Some w).
Proof.
  intros Ho Hv. unfold value_of in Hv. destruct (m !! y) as [o|] eqn:Hy; [|done]. simpl in Hv. subst o.
  destruct (owns_lookup _ _ _ _ Ho Hy) as (a & Ha & Hao). destruct a as [l|]; [|done].
  destruct v as [tp w]. exists l, w. split_and!; [done..|].
  unfold any_cast_ptr, type_of, storage_value. rewrite Hao. simpl_bind. simpl.
  rewrite bool_decide_eq_true_2 by done. destruct (decide (tp = tp)) as [E|]; [|done].
  simpl_bind. by rewrite (proof_irrel E eq_refl).
Qed.

Lemma is_none_true {A} (o : option A) : is_none o = true ↔ o = None.
Proof. by destruct o. Qed.

(** The operations that assign. *)
Lemma assign_op_owns e o s m :
  (match o with Assign _ _ | AssignValue _ _ | AssignFrom _ _ _ => true | _ => false end) = true →
  owns s m → op_ok e o m = true →
  ∃ s', run_op e o s = Ret (s', op_throws e o m) ∧ owns s' (op_values e o m).
Proof.
  intros Hop Ho [Hok Ht]%andb_prop.
  assert (∀ z, is_Some (m !! z) → ∃ a, objects s !! z = Some a) as Hobj.
  { intros z [c Hc]. destruct (owns_lookup _ _ _ _ Ho Hc) as (a & Ha & _). eauto. }
  destruct o as [| | |x y|x v|x tp y| | |]; try done; unfold op_values.
  - apply andb_prop in Hok as [Hx%bool_decide_eq_true Hy%bool_decide_eq_true].
    destruct (Hobj x Hx) as [a Ha], (Hobj y Hy) as [b Hb], Hy as [o Ho'].
    cbn [run_op]. rewrite Ha, Hb. unfold assign.
    unfold op_throws, copied, deleted_first, value_of in *. rewrite Ho' in *.
    case_bool_decide as Hxy; simpl in *.
    { subst y. simplify_eq. unfold update_object. simpl_bind. eexists. split; [done|].
      unfold set_object. simpl. rewrite !insert_id by done. by destruct s. }
    destruct o as [v|]; [destruct e as [ex|]|]; simpl in *.
    + rewrite (assign_throws s m x a ex (clone (Some ex) b) Ho Ha).
      * by exists s.
      * by apply is_none_true in Ht.
      * destruct (owns_lookup _ _ _ _ Ho Ho') as (b' & Hb' & Hbo). rewrite Hb in Hb'.
        injection Hb' as <-. destruct b as [l|]; [|done]. simpl. by rewrite Hbo.
    + apply (owns_assign s m x a (Some v) (clone None b) Ho Ha). intros h s1 Ho1.
      apply (owns_clone s1 _ x y (Some v) b Ho1); [right; apply lookup_insert_eq|..];
        simpl; by rewrite lookup_insert_ne.
    + destruct (owns_assign s m x a None (clone e b) Ho Ha) as (s' & Hs & Ho2); [|by exists s'].
      intros h s1 Ho1. destruct (owns_clone s1 _ x y None b Ho1) as (r & Hr & Ho2);
        [right; apply lookup_insert_eq|simpl; by rewrite lookup_insert_ne..|].
      exists r. split; [|done]. destruct (owns_lookup _ _ _ _ Ho Ho') as (b' & Hb' & Hbo).
      rewrite Hb in Hb'. injection Hb' as <-. by destruct b.
  - apply bool_decide_eq_true in Hok. destruct (Hobj x Hok) as [a Ha].
    cbn [run_op]. rewrite Ha. unfold assign_value. unfold op_throws, copied in *.
    destruct e as [ex|]; cbn [is_none orb deleted_first] in *.
    + exists s. split; [|done].
      by apply (assign_throws s m x a ex (λ h, v ← read_source (Value v) h; any_of (Some ex) v h) Ho Ha);
        [apply is_none_true|].
    + apply (owns_assign s m x a (Some v) (λ h, v ← read_source (Value v) h; any_of None v h) Ho Ha).
      intros h s1 Ho1. apply (owns_copy s1 _ x v Ho1). right. apply lookup_insert_eq.
  - apply andb_prop in Hok as [Hx%bool_decide_eq_true Hv]. destruct (Hobj x Hx) as [a Ha].
    destruct (value_of m y) as [v|] eqn:Hy; [|done]. apply bool_decide_eq_true in Hv as [<- Hxy].
    destruct (owns_cast s m y v Ho Hy) as (l & w & Hl & Hc & Hcast).
    cbn [run_op]. rewrite Ha, Hl, Hcast. simpl_bind. unfold assign_value.
    unfold op_throws, copied in *. rewrite Hy in *. destruct e as [ex|]; cbn [is_none orb deleted_first] in *.
    + exists s. split; [|done].
      apply (assign_throws s m x a ex (λ h, v ← read_source (InCell l) h; any_of (Some ex) v h) Ho Ha);
        [by apply is_none_true|]. simpl. by rewrite Hc.
    + apply (owns_assign s m x a (Some v) (λ h, v ← read_source (InCell l) h; any_of None v h) Ho Ha).
      intros h s1 Ho1. pose proof (owns_objects _ _ Ho1 y) as Hr. simpl in Hr.
      rewrite !lookup_insert_ne, Hl in Hr by done. unfold value_of in Hy.
      destruct (m !! y) as [[v'|]|]; simpl in Hr, Hy; simplify_eq. simpl. rewrite Hr. simpl_bind.
      apply (owns_copy s1 _ x v Ho1). right. apply lookup_insert_eq.
Qed.

(** One operation: it is defined, and does to the store what it means. *)
Lemma any_op_owns e o s m :
  owns s m → op_ok e o m = true →
  ∃ s', run_op e o s = Ret (s', op_throws e o m) ∧ owns s' (op_values e o m).
Proof.
  intros Ho Hok. pose proof (assign_op_owns e o s m) as Hassign.
  assert (∀ z, is_Some (m !! z) → ∃ o a, m !! z = Some o ∧ objects s !! z = Some a) as Hobj.
  { intros z [c Hc]. destruct (owns_lookup _ _ _ _ Ho Hc) as (a & Ha & _). eauto. }
  destruct o as [x|x v|x y|x y|x v|x tp y|x|x y|x]; try (by apply Hassign); clear Hassign;
    apply andb_prop in Hok as [Hok _]; unfold op_values, op_throws; simpl in Hok |- *;
    try (apply andb_prop in Hok as [Hx Hy]; apply bool_decide_eq_true in Hx, Hy);
    try apply bool_decide_eq_true in Hok.
  - eexists. split; [done|]. by apply owns_null.
  - destruct e as [ex|]; [by exists s|].
    eexists. split; [reflexivity|]. apply (owns_new s m x v Ho). by left.
  - destruct (Hobj y Hy) as (o & b & Em & Eb). rewrite Eb. unfold value_of. rewrite Em. simpl.
    destruct (owns_clone s m x y o b) as (r & Hr & Ho1); [auto..|].
    destruct (owns_lookup _ _ _ _ Ho Em) as (b' & Eb' & Hbo). rewrite Eb in Eb'. injection Eb' as <-.
    destruct o as [v|], b as [l|]; try done; simpl in *; [|injection Hr as <-; by eexists].
    rewrite Hbo in *. destruct e as [ex|]; [by exists s|]. injection Hr as <-. by eexists.
  - destruct (Hobj x Hok) as (o & a & _ & Ea). rewrite Ea. unfold reset.
    destruct (owns_delete s m x a Ho Ea) as (h & -> & Ho1). simpl_bind. by eexists.
  - destruct (Hobj x Hx) as (o & a & _ & Ea), (Hobj y Hy) as (o' & b & _ & Eb). rewrite Ea, Eb.
    eexists. split; [done|]. by apply owns_swap.
  - destruct (Hobj x Hok) as (o & a & _ & Ea). rewrite Ea.
    destruct (owns_delete s m x a Ho Ea) as (h & -> & Ho1). simpl_bind.
    eexists. split; [done|]. pose proof (owns_drop _ _ x Ho1) as Ho2. simpl in Ho2.
    rewrite !delete_insert_eq in Ho2. apply Ho2, lookup_insert_eq.
Qed.

(** *** Programs *)

(** Operations, each with what copying throws in it. *)
Fixpoint run_ops (l : list (any_op * option exn)) (s : store) : outcome store :=
  match l with
  | [] => Ret s
  | (o, e) :: l => '(s, _) ← run_op e o s; run_ops l s
  end.

Fixpoint ops_ok (l : list (any_op * option exn)) (m : values) : bool :=
  match l with
  | [] => true
  | (o, e) :: l => op_ok e o m && ops_ok l (op_values e o m)
  end.

Definition ops_values (l : list (any_op * option exn)) (m : values) : values :=
  foldl (λ m oe, op_values oe.2 oe.1 m) m l.

Definition no_objects : store :=
  {| objects := ∅; store_heap := {| cells := ∅; next_loc := 0 |} |}.

Lemma no_objects_owns : owns no_objects ∅.
Proof. split; simpl; intros *; by rewrite ?lookup_empty. Qed.

Lemma run_ops_owns l s m :
  owns s m → ops_ok l m = true → ∃ s', run_ops l s = Ret s' ∧ owns s' (ops_values l m).
Proof.
  revert s m. induction l as [|[o e] l IH]; intros s m Ho Hok; [by exists s|].
  apply andb_prop in Hok as [Hok1 Hok2]. cbn [run_ops].
  destruct (any_op_owns e o s m Ho Hok1) as (s1 & -> & Ho1). simpl_bind. by apply IH.
Qed.

(** What [any_cast] returns, by the value of the object. *)
Lemma any_cast_owns s m x a o tp :
  owns s m → objects s !! x = Some a → m !! x = Some o →
  (∀ v : val tp, o = Some (existT tp v) → any_cast tp a (store_heap s) = Ret v) ∧
  ((∀ v : val tp, o ≠ Some (existT tp v)) →
   any_cast tp a (store_heap s) = Throw (StdException "bad any_cast")).
Proof.
  intros Ho Hx Hm. destruct (owns_lookup _ _ _ _ Ho Hm) as (a' & Ha & Hao).
  rewrite Hx in Ha. injection Ha as <-. unfold any_cast, any_cast_ptr, storage_value, type_of.
  destruct a as [l|], o as [[t v]|]; try done; simpl_bind.
  - rewrite Hao. cbn [projT1]. simpl_bind. split.
    + intros v' [= -> Ev]. rewrite bool_decide_eq_true_2 by done.
      apply (Eqdep_dec.inj_pair2_eq_dec _ (λ a b, decide (a = b))) in Ev as ->.
      destruct (decide (tp = tp)) as [E|]; [|done].
      by rewrite (proof_irrel E eq_refl).
    + intros Hne. case_bool_decide as Et; [|done]. exfalso. simplify_eq. by apply (Hne v).
Qed.

(** C28. Type and memory safety of [any]: a program that only uses objects that exist,
    does not assign to an object the value inside that object, and does not assign to an
    object with a value something whose copy throws, never frees or reads a cell that is
    gone and never casts a cell to another type, also when other copies throw and when
    the value inside one object is assigned to another; afterwards every object has the
    value the operations gave it (copies are independent, an operation that throws changes
    nothing), [any_cast] returns that value at its own type and throws [bad_any_cast] at
    every other; and once all objects are destroyed the heap is empty.  (What the
    program may not do does go wrong: [self_assigned_value_undefined],
    [failed_copy_dangles].) *)
Theorem any_type_and_memory_safe (l : list (any_op * option exn)) :
  ops_ok l ∅ = true →
  ∃ s, run_ops l no_objects = Ret s ∧
    (∀ x o, ops_values l ∅ !! x = Some o → ∃ a, objects s !! x = Some a ∧
       has_value a = bool_decide (is_Some o) ∧
       ∀ tp, (∀ v : val tp, o = Some (existT tp v) → any_cast tp a (store_heap s) = Ret v) ∧
             ((∀ v : val tp, o ≠ Some (existT tp v)) →
              any_cast tp a (store_heap s) = Throw (StdException "bad any_cast"))) ∧
    (ops_values l ∅ = ∅ → cells (store_heap s) = ∅).
Proof.
  intros Hok. destruct (run_ops_owns l _ _ no_objects_owns Hok) as (s & Hrun & Ho).
  exists s. split; [done|]. split.
  - intros x o Hx. destruct (owns_lookup _ _ _ _ Ho Hx) as (a & Ha & Hao). exists a.
    split; [done|]. split; [|intros tp; by eapply any_cast_owns].
    unfold has_value. apply bool_decide_ext. destruct a, o; try done; split; by eexists.
  - intros Hemp. apply map_empty. intros k. apply eq_None_not_Some. intros [v Hv].
    destruct (owns_all _ _ Ho _ _ Hv) as (x & Hx). pose proof (owns_objects _ _ Ho x) as Hr.
    by rewrite Hx, Hemp, lookup_empty in Hr.
Qed.

(** Assigning to an object the value inside itself reads it after it was deleted. *)
Theorem self_assigned_value_undefined (l : nat) (v : Storage) (h : heap) e :
  cells h !! l = Some v → assign_value e (Some l) (InCell l) h = Undefined.
Proof.
  intros Hl. unfold assign_value. simpl. rewrite Hl. simpl_bind. simpl.
  by rewrite lookup_delete_eq.
Qed.

(** When the copy throws after the old value was deleted, the object keeps the pointer to
    it: its destruction, which nothing prevents, frees it again. *)
Theorem failed_copy_dangles (s : store) (m : values) (x : nat) (v w : Storage) (ex : exn) :
  owns s m → m !! x = Some (Some v) →
  ∃ s', run_op (Some ex) (AssignValue x w) s = Ret (s', Some ex) ∧
    ∀ e, run_op e (Destroy x) s' = Undefined.
Proof.
  intros Ho Hx. destruct (owns_lookup _ _ _ _ Ho Hx) as ([l|] & Ha & Hl); [|done].
  simpl. rewrite Ha. unfold assign_value, update_object. simpl. rewrite Hl. simpl_bind.
  eexists. split; [reflexivity|]. intros _. simpl. rewrite lookup_insert_eq. simpl.
  by rewrite lookup_delete_eq.
Qed.

End Any.

Arguments Value {T val} v.
Arguments Construct {T val} x.
Arguments ConstructValue {T val} x v.
Arguments CopyConstruct {T val} x y.
Arguments Assign {T val} x y.
Arguments AssignValue {T val} x v.
Arguments AssignFrom {T val} x tp y.
Arguments Reset {T val} x.
Arguments Swap {T val} x y.
Arguments Destroy {T val} x.

(** Booleans are of type [true], strings of type [false]. *)
Definition demo_val (t : bool) : Type := if t then bool else string.

Definition demo_ops : list (any_op demo_val * option exn) :=
  [(ConstructValue 0 (existT false "a"), None); (CopyConstruct 1 0, None);
   (CopyConstruct 2 0, Some (StdException "std::bad_alloc"));
   (AssignValue 0 (existT true false), None); (Construct 2, None);
   (Assign 2 1, Some (StdException "std::bad_alloc")); (AssignFrom 2 false 1, None);
   (Assign 2 2, None); (Swap 0 1, None); (Reset 2, None)].

Lemma any_type_and_memory_safe_witness :
  ∃ s, run_ops demo_val demo_ops (no_objects demo_val) = Ret s ∧
    ∃ a, objects demo_val s !! 0%nat = Some a ∧ any_cast demo_val false a (store_heap demo_val s) = Ret "a" ∧
      any_cast demo_val true a (store_heap demo_val s) = Throw (StdException "bad any_cast").
Proof.
  destruct (any_type_and_memory_safe demo_val demo_ops) as (s & Hrun & Hval & _);
    [vm_compute; reflexivity|].
  exists s. split; [exact Hrun|].
  destruct (Hval 0%nat (Some (existT false "a"))) as (a & Ha & _ & Hcast); [vm_compute; reflexivity|].
  exists a. split; [exact Ha|]. split; [by apply (Hcast false)|apply (Hcast true)]. intros v E.
  by apply (f_equal (λ o, match o with Some c => projT1 c | None => false end)) in E.
Defined.

(** ** string_view *)

(** A view into a buffer: [data_] is the buffer and an offset in it; a null pointer
    is an empty buffer. *)
Record string_view := { buffer : list byte; offset : nat; size_ : nat }.

(** A string without a zero is read past its end. *)
Fixpoint strlen_constexpr (str : list byte) : outcome nat :=
  match str with
  | [] => Undefined
  | c :: str =>
      if Byte.eqb c x00 then Ret 0%nat else n ← strlen_constexpr str; Ret (S n)
  end.

(** The constructor from a C string. *)
Definition string_view_of (str : option (list byte)) : outcome string_view :=
  match str with
  | None => Ret {| buffer := []; offset := 0; size_ := 0 |}
  | Some s => n ← strlen_constexpr s; Ret {| buffer := s; offset := 0; size_ := n |}
  end.

(** The characters of a view must be in the buffer. *)
Definition view_ok (v : string_view) : Prop := (offset v + size_ v ≤ length (buffer v))%nat.

Definition view_at (v : string_view) (pos : nat) : outcome byte :=
  match buffer v !! (offset v + pos)%nat with Some c => Ret c | None => Undefined end.

Definition substr (v : string_view) (pos len : nat) : string_view :=
  let pos' := if (size_ v <? pos)%nat then size_ v else pos in
  {| buffer := buffer v; offset := (offset v + pos')%nat;
     size_ := if (size_ v - pos' <? len)%nat then (size_ v - pos')%nat else len |}.

Definition view_to_string (v : string_view) : outcome (list byte) :=
  if (length (buffer v) <? offset v + size_ v)%nat then Undefined
  else Ret (take (size_ v) (drop (offset v) (buffer v))).

Lemma take_min_drop {A} (b : list A) o n pos len :
  take (Nat.min len (n - Nat.min pos n)) (drop (o + Nat.min pos n) b) =
  take len (drop pos (take n (drop o b))).
Proof.
  rewrite skipn_firstn_comm, take_take, drop_drop. destruct (Nat.le_gt_cases pos n).
  - by rewrite (Nat.min_l pos n) by done.
  - rewrite (Nat.min_r pos n) by lia. replace (n - n)%nat with 0%nat by lia.
    replace (n - pos)%nat with 0%nat by lia. by rewrite Nat.min_0_r.
Qed.

Lemma substr_clamped v pos len :
  substr v pos len =
  {| buffer := buffer v; offset := offset v + Nat.min pos (size_ v);
     size_ := Nat.min len (size_ v - Nat.min pos (size_ v)) |}.
Proof.
  unfold substr. destruct (Nat.ltb_spec (size_ v) pos) as [Hp|Hp].
  - rewrite Nat.min_r by lia. f_equal.
    destruct (Nat.ltb_spec (size_ v - size_ v) len); [by rewrite Nat.min_r by lia|].
    by rewrite Nat.min_l by lia.
  - rewrite (Nat.min_l pos) by lia. f_equal.
    destruct (Nat.ltb_spec (size_ v - pos) len); [by rewrite Nat.min_r by lia|].
    by rewrite Nat.min_l by lia.
Qed.

(** [substr] of a view stays within the view for every position and length, also
    past the end, and is the substring of its text. *)
Theorem substr_bounds (v : string_view) (pos len : nat) (text : list byte) :
  view_ok v → view_to_string v = Ret text →
  let w := substr v pos len in
  view_ok w ∧ (offset v ≤ offset w ∧ offset w + size_ w ≤ offset v + size_ v)%nat ∧
  view_to_string w = Ret (take len (drop pos text)) ∧
  ∀ i, (i < size_ w)%nat → ∃ c, view_at w i = Ret c.
Proof.
  unfold view_ok. intros Hok. unfold view_to_string, view_at.
  destruct (Nat.ltb_spec (length (buffer v)) (offset v + size_ v)); [lia|].
  intros [= <-]. cbv zeta. rewrite substr_clamped. cbn [buffer offset size_].
  split_and!; [lia..| |].
  - destruct (Nat.ltb_spec (length (buffer v)) (offset v + Nat.min pos (size_ v) +
      Nat.min len (size_ v - Nat.min pos (size_ v)))); [lia|]. f_equal. apply take_min_drop.
  - intros i Hi. destruct (lookup_lt_is_Some_2 (buffer v)
      (offset v + Nat.min pos (size_ v) + i)) as [c ->]; [lia|]. by exists c.
Qed.

Lemma substr_bounds_witness :
  ∃ v, string_view_of (Some [x61; x62; x63; x00]) = Ret v ∧
    view_to_string (substr v 1 9) = Ret [x62; x63].
Proof.
  eexists. split; [reflexivity|].
  apply (substr_bounds {| buffer := [x61; x62; x63; x00]; offset := 0; size_ := 3 |} 1 9
           [x61; x62; x63]).
  - unfold view_ok. simpl. lia.
  - vm_compute. reflexivity.
Defined.

(** ** optional *)

Section Optional.
Context {A : Type}.

(** [value_] is there also when there is no value; a default-constructed one is the
    argument. *)
Record optional := { has_value_ : bool; value_ : A }.

Definition optional_default (a : A) : optional := {| has_value_ := false; value_ := a |}.
Definition optional_of (value : A) : optional := {| has_value_ := true; value_ := value |}.
Definition optional_clear (o : optional) : optional :=
  {| has_value_ := false; value_ := value_ o |}.
Definition optional_assign (o : optional) (value : A) : optional :=
  {| has_value_ := true; value_ := value |}.

Definition optional_eqb `{!EqDecision A} (o1 o2 : optional) : bool :=
  if negb (eqb (has_value_ o1) (has_value_ o2)) then false
  else if negb (has_value_ o1) then true
  else bool_decide (value_ o1 = value_ o2).

(** What it means. *)
Definition to_option (o : optional) : option A := if has_value_ o then Some (value_ o) else None.

#[export] Instance optional_equiv : Equiv optional := λ o1 o2, to_option o1 = to_option o2.

#[export] Instance optional_equivalence : Equivalence (≡@{optional}).
Proof. split; unfold equiv, optional_equiv; [done|by intros ??|by intros ??? ->]. Qed.

(** What is left in an empty one is not seen. *)
#[export] Instance optional_clear_proper : Proper ((≡) ==> (≡)) optional_clear.
Proof. by intros o1 o2 _. Qed.
#[export] Instance optional_assign_proper : Proper ((≡) ==> (=) ==> (≡)) optional_assign.
Proof. by intros o1 o2 _ a ? <-. Qed.

(** [operator==] decides equality of what they mean, whatever value an empty one
    still has in it. *)
Theorem optional_eqb_spec `{!EqDecision A} (o1 o2 : optional) : optional_eqb o1 o2 = true ↔ o1 ≡ o2.
Proof.
  unfold optional_eqb, equiv, optional_equiv, to_option.
  destruct o1 as [[] a], o2 as [[] b]; simpl; try done. rewrite bool_decide_eq_true. naive_solver.
Qed.

End Optional.
