(* ===== verification/HttpServer.v ===== *)
(** * The HTTP server

    [http_server.cpp]: the addresses of the machine, the response to a request, and
    the accept loop.  What the operating system returns is an argument: the list of
    interfaces, and for each turn of the loop what [select], [accept] and [read]
    return. *)

From Stdlib Require Import ZArith Lia.
From Stdlib Require Import Strings.Ascii Structures.OrdersEx.
From stdpp Require Import sorting.
From S2P Require Import Prelude Json Text.

Local Open Scope Z_scope.
#[local] Arguments String.append !s1 s2 /.

(** ** Sorting *)

(** [operator<] of [std::string] compares unsigned characters; [a <= b]. *)
Definition string_le (a b : string) : Prop := String_as_OT.compare a b ≠ Gt.

#[export] Instance string_le_dec a b : Decision (string_le a b).
Proof. unfold string_le. destruct (String_as_OT.compare a b); [left|left|right]; naive_solver. Defined.

(** [std::unique] and [erase]: equal neighbours are merged. *)
Fixpoint unique (l : list string) : list string :=
  match l with
  | x :: ((y :: _) as l') => if bool_decide (x = y) then unique l' else x :: unique l'
  | l => l
  end.

Definition sort_unique (l : list string) : list string := unique (merge_sort string_le l).

(** ** Addresses *)

Inductive sockaddr := InetAddress (a b c d : Z) | OtherFamily.

(** An entry of [getifaddrs]: the address, [None] for a null pointer, and what
    [SIOCGIFHWADDR] returns for its name, [None] when the socket or the call fails. *)
Record ifaddr := {
  ifa_name : string;
  ifa_addr : option sockaddr;
  ifa_hwaddr : option (list byte)
}.

Definition hex_digit (n : Z) : ascii :=
  ascii_of_N (Z.to_N (if n <? 10 then 48 + n else 87 + n)).

(** [std::hex << std::setw(2)] with fill [0]. *)
Definition hex2 (b : byte) : string :=
  String (hex_digit (byte_to_Z b / 16)) (String (hex_digit (byte_to_Z b mod 16)) EmptyString).

(** [mac] has six bytes at least. *)
Definition format_mac (mac : list byte) : string := str_join ":" (hex2 <$> take 6 mac).

Definition is_zero_mac (mac : list byte) : bool := forallb (λ b, Byte.eqb b x00) (take 6 mac).

Definition mac_of (ifa : ifaddr) : option string :=
  match ifa_addr ifa, ifa_hwaddr ifa with
  | Some _, Some mac => if is_zero_mac mac then None else Some (format_mac mac)
  | _, _ => None
  end.

(** [None] is a failure of [getifaddrs]; the result is the return value and
    [mac_addresses]. *)
Definition get_dev_mac_addr (ifaddrs : option (list ifaddr)) : bool * string :=
  match ifaddrs with
  | None => (false, EmptyString)
  | Some ifaddrs =>
      let mac_addresses := str_join "," (sort_unique (omap mac_of ifaddrs)) in
      (negb (str_empty mac_addresses), mac_addresses)
  end.

(** [inet_ntop] *)
Definition ip_string (a b c d : Z) : string :=
  to_string a +:+ "." +:+ to_string b +:+ "." +:+ to_string c +:+ "." +:+ to_string d.

(** [ip_str.substr(0, ip_str.find_last_of('.') + 1)] *)
Fixpoint up_to_last_dot (s : string) : option string :=
  match s with
  | EmptyString => None
  | String c s =>
      match up_to_last_dot s with
      | Some p => Some (String c p)
      | None => if bool_decide (c = "."%char) then Some (String c EmptyString) else None
      end
  end.

(** One turn of the loop: [ip_addresses] and [colink_ip]. *)
Definition add_ip (acc : list string * string) (ifa : ifaddr) : list string * string :=
  let '(ip_addresses, colink_ip) := acc in
  match ifa_addr ifa with
  | Some (InetAddress a b c d) =>
      let ip_str := ip_string a b c d in
      if bool_decide (ip_str = "127.0.0.1") then acc
      else if bool_decide (ifa_name ifa = "colink")
      then match up_to_last_dot ip_str with
           | Some p => (ip_addresses, p +:+ "1")
           | None => acc
           end
      else (ip_addresses ++ [ip_str], colink_ip)
  | _ => acc
  end.

Definition get_dev_ip_addrs (ifaddrs : option (list ifaddr)) : bool * list string * string :=
  match ifaddrs with
  | None => (false, [], EmptyString)
  | Some ifaddrs =>
      let '(ip_addresses, colink_ip) := foldl add_ip ([], EmptyString) ifaddrs in
      let ip_addresses := sort_unique ip_addresses in
      (negb (bool_decide (ip_addresses = [])), ip_addresses, colink_ip)
  end.

(** ** Responses *)

Section Responses.
(** [nlohmann::json::dump], and the addresses of the machine. *)
Context (dump : json → string) (_mac_addresses : string).

Definition json_str : string := dump (json_object [("macAddr", JStr _mac_addresses)]).

Definition http_response : string :=
  "HTTP/1.1 200 OK" +:+ NL +:+
  "Content-Type: application/json" +:+ NL +:+
  "Access-Control-Allow-Origin: *" +:+ NL +:+
  "Connection: close" +:+ NL +:+
  "Content-Length: " +:+ to_string (Z.of_nat (String.length json_str)) +:+ NL +:+
  NL +:+
  json_str.

Definition not_found_response : string :=
  "HTTP/1.1 404 Not Found" +:+ NL +:+
  "Content-Type: text/plain" +:+ NL +:+
  "Connection: close" +:+ NL +:+
  "Content-Length: 9" +:+ NL +:+
  NL +:+
  "Not Found".

(** [std::string request(buffer)]: the bytes before the first zero. *)
Fixpoint c_string (buffer : list byte) : string :=
  match buffer with
  | [] => EmptyString
  | b :: buffer => if Byte.eqb b x00 then EmptyString else String (ascii_of_byte b) (c_string buffer)
  end.

(** The path: after the first [GET ], up to the next [ HTTP/]. *)
Definition request_path (request : string) : option string :=
  '(_, rest) ← str_find "GET " request;
  '(path, _) ← str_find " HTTP/" rest;
  if str_empty path then None else Some path.

Definition respond (request : string) : string :=
  match request_path request with
  | Some path => if bool_decide (path = "/device-info") then http_response else not_found_response
  | None => not_found_response
  end.

(** ** The server *)

(** [thread] is the thread object with what its function is doing. *)
Inductive thread_state := NoThread | Starting | Listening | Finished.

Record HttpServer := {
  _running : bool;
  thread : thread_state;
  (** what was sent on each connection, in the order of [accept] *)
  connections : list (option string)
}.

Definition new_HttpServer : HttpServer :=
  {| _running := false; thread := NoThread; connections := [] |}.

(** Assigning to a thread object that is joinable ends the process. *)
Definition start (s : HttpServer) : outcome HttpServer :=
  if _running s then Ret s
  else
    match thread s with
    | NoThread => Ret {| _running := true; thread := Starting; connections := connections s |}
    | _ => Undefined
    end.

(** [stop]: the flag is cleared, then the thread is joined, which returns when its
    function has. *)
Definition stop_flag (s : HttpServer) : HttpServer :=
  {| _running := false; thread := thread s; connections := connections s |}.

Definition join (s : HttpServer) : option HttpServer :=
  match thread s with
  | NoThread => Some s
  | Finished => Some {| _running := _running s; thread := NoThread; connections := connections s |}
  | _ => None
  end.

(** What the operating system does for the thread: whether the socket could be set
    up; for a turn of the loop, what [select], [accept] and [read] return. *)
Inductive thread_input :=
| SetUp (ok : bool)
| SelectError
| SelectTimeout
| AcceptFailed
| Accepted (read : option (list byte)).

Definition add_connection (sent : option string) (s : HttpServer) : HttpServer :=
  {| _running := _running s; thread := thread s; connections := connections s ++ [sent] |}.

Definition set_thread (t : thread_state) (s : HttpServer) : HttpServer :=
  {| _running := _running s; thread := t; connections := connections s |}.

(** A step of [run_server]; at most 4095 bytes are read. *)
Definition thread_step (i : thread_input) (s : HttpServer) : HttpServer :=
  match thread s with
  | Starting => match i with
                | SetUp true => set_thread Listening s
                | SetUp false => set_thread Finished s
                | _ => s
                end
  | Listening =>
      if negb (_running s) then set_thread Finished s
      else
        match i with
        | Accepted (Some (b :: bs)) =>
            add_connection (Some (respond (c_string (take 4095 (b :: bs))))) s
        | Accepted _ => add_connection None s
        | _ => s
        end
  | _ => s
  end.

End Responses.

(** ** Sorted lists of addresses *)

Lemma string_compare_Eq a b : String_as_OT.compare a b = Eq ↔ a = b.
Proof.
  destruct (String_as_OT.compare_spec a b) as [->|H|H]; split; try done; intros ->;
    by destruct (irreflexivity String_as_OT.lt b).
Qed.

#[export] Instance string_le_trans : Transitive string_le.
Proof.
  intros a b c Hab Hbc. unfold string_le in *.
  destruct (String_as_OT.compare_spec a b) as [E|Hlt|]; [| |done].
  { hnf in E. by subst. }
  destruct (String_as_OT.compare_spec b c) as [E|Hlt'|]; [| |done].
  { hnf in E. subst. by rewrite Hlt. }
  assert (String_as_OT.lt a c) as E by (by transitivity b). unfold String_as_OT.lt in E.
  by rewrite E.
Qed.

#[export] Instance string_le_total : Total string_le.
Proof.
  intros a b. unfold string_le. destruct (String_as_OT.compare_spec a b) as [E|H|H]; [by left..|].
  right. unfold String_as_OT.lt in H. by rewrite H.
Qed.

Lemma string_le_antisym a b : string_le a b → string_le b a → a = b.
Proof.
  unfold string_le. intros Hab Hba.
  destruct (String_as_OT.compare_spec a b) as [->|H|]; [done| |done].
  destruct (String_as_OT.compare_spec b a) as [->|H'|]; [done| |done].
  assert (String_as_OT.lt a a) by (by transitivity b).
  by destruct (irreflexivity String_as_OT.lt a).
Qed.

(** In order and without repetitions. *)
Definition strictly_sorted (l : list string) : Prop := StronglySorted String_as_OT.lt l.

Lemma unique_cons a b l :
  unique (a :: b :: l) = if bool_decide (a = b) then unique (b :: l) else a :: unique (b :: l).
Proof. done. Qed.

Lemma unique_elem l x : x ∈ unique l ↔ x ∈ l.
Proof.
  induction l as [|a [|b l] IH]; [done..|]. rewrite unique_cons. case_bool_decide as E.
  - subst. rewrite IH. set_solver.
  - rewrite !(elem_of_cons _ x a), IH. done.
Qed.

Lemma unique_sorted l : StronglySorted string_le l → strictly_sorted (unique l).
Proof.
  induction l as [|a [|b l] IH]; intros Hs; [constructor|repeat constructor|].
  apply StronglySorted_inv in Hs as [Hs Ha]. rewrite unique_cons. case_bool_decide as E; [by apply IH|].
  constructor; [by apply IH|]. apply Forall_forall. intros x Hx. rewrite unique_elem in Hx.
  assert (string_le a x) as Hax by (rewrite Forall_forall in Ha; by apply Ha).
  destruct (String_as_OT.compare_spec a x) as [Hx'|H|H]; [|done|].
  - hnf in Hx'. subst x. exfalso. apply E. apply string_le_antisym.
    + rewrite Forall_forall in Ha. apply Ha. by left.
    + apply StronglySorted_inv in Hs as [_ Hb]. rewrite Forall_forall in Hb.
      apply elem_of_cons in Hx as [->|Hx]; [|by apply Hb]. by destruct (string_le_total b b).
  - unfold string_le in Hax. assert (String_as_OT.lt x a) as Hxa by done.
    destruct (String_as_OT.compare_spec a x) as [Ea|Hlt|]; [| |done].
    + hnf in Ea. subst. by destruct (irreflexivity String_as_OT.lt x).
    + assert (String_as_OT.lt a a) by (by transitivity x).
      by destruct (irreflexivity String_as_OT.lt a).
Qed.

Lemma sort_unique_spec l : strictly_sorted (sort_unique l) ∧ ∀ x, x ∈ sort_unique l ↔ x ∈ l.
Proof.
  split.
  - apply unique_sorted, StronglySorted_merge_sort; apply _.
  - intros x. unfold sort_unique. rewrite unique_elem. by rewrite merge_sort_Permutation.
Qed.

(** The device information lists the hardware addresses of the interfaces that
    have an address and a non-zero hardware address: each once, in order, separated by
    commas; and the call succeeds exactly when there is one. *)
Theorem mac_addresses_spec (ifaddrs : list ifaddr) :
  ∃ macs, get_dev_mac_addr (Some ifaddrs) =
      (negb (bool_decide (macs = [])), str_join "," macs) ∧
    strictly_sorted macs ∧
    ∀ m, m ∈ macs ↔ ∃ ifa mac, ifa ∈ ifaddrs ∧ is_Some (ifa_addr ifa) ∧
                       ifa_hwaddr ifa = Some mac ∧ is_zero_mac mac = false ∧ m = format_mac mac.
Proof.
  exists (sort_unique (omap mac_of ifaddrs)).
  destruct (sort_unique_spec (omap mac_of ifaddrs)) as [Hs He].
  assert (∀ m, m ∈ sort_unique (omap mac_of ifaddrs) ↔ ∃ ifa mac, ifa ∈ ifaddrs ∧
    is_Some (ifa_addr ifa) ∧ ifa_hwaddr ifa = Some mac ∧ is_zero_mac mac = false ∧
    m = format_mac mac) as Hm.
  { intros m. rewrite He, list_elem_of_omap. split.
    - intros (ifa & Hin & Hm). unfold mac_of in Hm. destruct (ifa_addr ifa) as [ad|] eqn:Ea; [|done].
      destruct (ifa_hwaddr ifa) as [mac|] eqn:Eh; [|done]. destruct (is_zero_mac mac) eqn:Ez; [done|].
      injection Hm as <-. exists ifa, mac. by rewrite Ea.
    - intros (ifa & mac & Hin & [ad Ha] & Hh & Hz & ->). exists ifa. split; [done|].
      unfold mac_of. by rewrite Ha, Hh, Hz. }
  split; [|by split]. unfold get_dev_mac_addr. f_equal. f_equal.
  destruct (sort_unique (omap mac_of ifaddrs)) as [|m ms] eqn:El; [done|].
  rewrite bool_decide_eq_false_2 by done.
  assert (m ∈ m :: ms) as (ifa & mac & _ & _ & _ & Hz & ->)%Hm by left.
  unfold format_mac. unfold is_zero_mac in Hz. destruct (take 6 mac) as [|b bs]; [done|].
  cbn [fmap list_fmap]. destruct bs as [|b' bs], ms; done.
Qed.

(** ** Requests *)

Lemma str_find_after_lacks c d a b :
  lacks c a = true → str_find (String c d) (a +:+ String c d +:+ b) = Some (a, b).
Proof.
  induction a as [|x a IH]; cbn [lacks str_forall].
  - intros _. cbn [String.append]. cbn [str_find].
    change (String c (d +:+ b)) with (String c d +:+ b). rewrite str_prefix_app.
    by rewrite str_drop_app.
  - intros [Hx Ha]%andb_prop. specialize (IH Ha). cbn [String.append str_find].
    assert (String.prefix (String c d) (String x (a +:+ String c (d +:+ b))) = false) as Hp.
    { cbn [String.prefix]. destruct (ascii_dec c x) as [->|]; [|done].
      by rewrite bool_decide_eq_true_2 in Hx. }
    cbn [String.append] in IH. rewrite Hp, IH. done.
Qed.

Section Requests.
Context (dump : json → string) (macs : string).

(** C40. A well-formed [GET] request for [/device-info] is answered with the device
    information, whose [Content-Length] is the length of its body; one for any other
    path, every text without a [GET], and every text whose first [GET] is followed by no
    [HTTP/] or by an empty path, with 404. *)
Theorem http_requests_answered (path rest : string) :
  path ≠ EmptyString → lacks " " path = true →
  respond dump macs ("GET " +:+ path +:+ " HTTP/" +:+ rest) =
    (if bool_decide (path = "/device-info") then http_response dump macs else not_found_response) ∧
  (∀ request, str_find "GET " request = None → respond dump macs request = not_found_response) ∧
  (∀ request before after, str_find "GET " request = Some (before, after) →
     str_find " HTTP/" after = None ∨ (∃ rest', after = " HTTP/" +:+ rest') →
     respond dump macs request = not_found_response) ∧
  (∃ header, http_response dump macs =
     header +:+ "Content-Length: " +:+
     to_string (Z.of_nat (String.length (json_str dump macs))) +:+ NL +:+ NL +:+ json_str dump macs).
Proof.
  intros Hne Hsp. split_and!.
  - unfold respond, request_path.
    assert (str_find "GET " ("GET " +:+ path +:+ " HTTP/" +:+ rest) =
      Some (EmptyString, path +:+ " HTTP/" +:+ rest)) as ->.
    { set (d := "GET "). set (r := path +:+ _).
      assert (∀ s, d +:+ s = String "G" (String "E" (String "T" (String " " s)))) as Hd by done.
      assert (str_find d (d +:+ r) = Some (EmptyString, str_drop (String.length d) (d +:+ r))) as ->.
      { rewrite Hd. unfold str_find. rewrite <-Hd. by rewrite str_prefix_app. }
      by rewrite str_drop_app. }
    cbn [mbind option_bind]. rewrite (str_find_after_lacks " " "HTTP/" path rest Hsp).
    cbn [mbind option_bind]. by destruct path.
  - intros request Hg. unfold respond, request_path. by rewrite Hg.
  - intros request before after Hg [Hh|[rest' ->]]; unfold respond, request_path;
      rewrite Hg; cbn [mbind option_bind]; [by rewrite Hh|].
    pose proof (str_find_after_lacks " " "HTTP/" EmptyString rest' eq_refl) as Hf.
    cbn [String.append] in Hf |- *. by rewrite Hf.
  - eexists ("HTTP/1.1 200 OK" +:+ NL +:+ "Content-Type: application/json" +:+ NL +:+
      "Access-Control-Allow-Origin: *" +:+ NL +:+ "Connection: close" +:+ NL).
    unfold http_response. by rewrite !str_app_assoc.
Qed.

(** [GET] is looked for anywhere: a request with another method that has such a line
    in it is answered all the same. *)
Theorem http_method_not_checked :
  respond dump macs ("POST /x HTTP/1.1" +:+ NL +:+ NL +:+ "GET /device-info HTTP/1.1") =
  http_response dump macs.
Proof. done. Qed.

(** ** Start and stop *)

Inductive http_reachable : HttpServer → Prop :=
| http_init : http_reachable new_HttpServer
| http_start s s' : http_reachable s → start s = Ret s' → http_reachable s'
| http_thread i s : http_reachable s → http_reachable (thread_step dump macs i s)
(** [stop] and the destructor: the thread runs on until it can be joined *)
| http_stop s inputs s' : http_reachable s → _running s = true →
    join (foldl (λ s i, thread_step dump macs i s) (stop_flag s) inputs) = Some s' → http_reachable s'.

Lemma thread_step_running i s : _running (thread_step dump macs i s) = _running s.
Proof. unfold thread_step. repeat case_match; done. Qed.

Lemma thread_step_NoThread i s :
  thread (thread_step dump macs i s) = NoThread ↔ thread s = NoThread.
Proof. unfold thread_step. destruct (thread s) eqn:E; repeat case_match; simpl; by rewrite ?E. Qed.

Lemma thread_steps inputs s :
  _running (foldl (λ s i, thread_step dump macs i s) s inputs) = _running s ∧
  (thread (foldl (λ s i, thread_step dump macs i s) s inputs) = NoThread ↔ thread s = NoThread).
Proof.
  revert s. induction inputs as [|i inputs IH]; intros s; [done|]. cbn [foldl].
  destruct (IH (thread_step dump macs i s)) as [-> ->].
  by rewrite thread_step_running, thread_step_NoThread.
Qed.

(** There is a thread to join exactly while the server runs. *)
Lemma http_thread_running s : http_reachable s → (thread s = NoThread ↔ _running s = false).
Proof.
  induction 1 as [|s s' _ IH Hs|i s _ IH|s inputs s' _ IH Hrun Hj].
  - done.
  - unfold start in Hs. destruct (_running s) eqn:E; [by injection Hs as <-; rewrite E|].
    destruct (thread s); [|done..]. by injection Hs as <-.
  - by rewrite thread_step_NoThread, thread_step_running.
  - destruct (thread_steps inputs (stop_flag s)) as [Hr Ht]. unfold join in Hj.
    destruct (thread (foldl _ _ _)) eqn:E; [|done..|].
    + injection Hj as <-. by rewrite Hr, E.
    + injection Hj as <-. simpl. by rewrite Hr.
Qed.

(** The server thread can be started and stopped in any order: starting never
    assigns to a thread that still runs (which would end the process), and after
    [stop] cleared the flag the thread ends within two steps, whatever the network
    does, so that joining it returns. *)
Theorem http_start_stop (s : HttpServer) :
  http_reachable s →
  (∃ s', start s = Ret s' ∧ _running s' = true) ∧
  (∀ ok i, ∃ s', join (thread_step dump macs i (thread_step dump macs (SetUp ok) (stop_flag s))) = Some s').
Proof.
  intros Hr. pose proof (http_thread_running s Hr) as Ht. split.
  - unfold start. destruct (_running s) eqn:E; [by exists s|].
    rewrite (proj2 Ht eq_refl). by eexists.
  - intros ok i. destruct s as [r th cs]. destruct th, ok; by eexists.
Qed.

End Requests.

(** ** Instances *)

Lemma http_requests_answered_witness :
  respond (λ _, "{}") "00:11:22:33:44:55" ("GET " +:+ "/device-info" +:+ " HTTP/" +:+ "1.1") =
  http_response (λ _, "{}") "00:11:22:33:44:55".
Proof.
  apply (http_requests_answered (λ _, "{}") "00:11:22:33:44:55" "/device-info" "1.1").
  - done.
  - vm_compute. reflexivity.
Defined.

Lemma http_start_stop_witness :
  ∃ s', start new_HttpServer = Ret s' ∧ _running s' = true.
Proof.
  apply (http_start_stop (λ _, "{}") EmptyString new_HttpServer). apply http_init.
Defined.
