(* ===== verification/Control.v ===== *)
(** * Starting and stopping

    [start], [stop], [get_port] and the destructor of the server
    ([websocket_server.hpp]), which joins the worker of its callback queue, over a
    model of the websocketpp endpoint they drive, the connection of the client
    ([websocket_client.hpp]), and the loggers of the server
    ([websocket_logging.hpp]). *)

From Stdlib Require Import ZArith Lia.
From S2P Require Import CallbackQueue.
From S2P Require Import Prelude Wire Json Serialization ServerState ServerMethods ServerLogic.
From S2P Require Import ServerInv ServerSync ServerSystem ServerSpecs ServerDefined ServerScenarios.

Local Open Scope Z_scope.

(** ** The server *)

Module ServerControl.

(** What [stop] asks of a connection: to start the closing handshake with the
    status going away, or to end at once. *)
Inductive request := CloseGoingAway (hdl : ConnHandle) | Terminate (hdl : ConnHandle).

(** The server with its endpoint and threads.  [net (st c)] are the connections
    the endpoint has; [_server_thread] is set when there is a thread, which runs
    [_server.run()]; [callbacks] are the closed connections
    [_handler_callback_queue] still has to handle. *)
Record Control (W : Type) := {
  st : St W;
  is_listening : bool;
  stopped : bool;
  _server_thread : bool;
  callbacks : list ConnHandle;
  requests : list request
}.
Arguments st {W}.
Arguments is_listening {W}.
Arguments stopped {W}.
Arguments _server_thread {W}.
Arguments callbacks {W}.
Arguments requests {W}.
Arguments Build_Control {W}.

Section Server.
Context {plat : Platform} {W : Type} (H : ServerHandlers W).
Implicit Types (c : Control W).

Definition set_st (s : St W) c : Control W :=
  {| st := s; is_listening := is_listening c; stopped := stopped c;
     _server_thread := _server_thread c; callbacks := callbacks c; requests := requests c |}.
Definition set_listening (b : bool) c : Control W :=
  {| st := st c; is_listening := b; stopped := stopped c;
     _server_thread := _server_thread c; callbacks := callbacks c; requests := requests c |}.
Definition set_stopped c : Control W :=
  {| st := st c; is_listening := is_listening c; stopped := true;
     _server_thread := _server_thread c; callbacks := callbacks c; requests := requests c |}.
Definition set_server_thread (b : bool) c : Control W :=
  {| st := st c; is_listening := is_listening c; stopped := stopped c;
     _server_thread := b; callbacks := callbacks c; requests := requests c |}.
Definition set_callbacks (q : list ConnHandle) c : Control W :=
  {| st := st c; is_listening := is_listening c; stopped := stopped c;
     _server_thread := _server_thread c; callbacks := q; requests := requests c |}.
Definition ask (rs : list request) c : Control W :=
  {| st := st c; is_listening := is_listening c; stopped := stopped c;
     _server_thread := _server_thread c; callbacks := callbacks c;
     requests := requests c ++ rs |}.

(** [Server::Server]: neither listening nor stopped. *)
Definition new_Control (name : string) (options : ServerOptions) (w : W) : Control W :=
  {| st := mkSt (new_Server name options) ∅ [] w; is_listening := false; stopped := false;
     _server_thread := false; callbacks := []; requests := [] |}.

(** *** [start] and [get_port] *)

(** What the endpoint answers: the errors of [listen] and [start_accept], whether
    it is listening once the thread runs, and the local endpoint, an error or a
    port. *)
Record listen_env := {
  listen_error : option string;
  accept_error : option string;
  listening_after : bool;
  local_endpoint : string + Z;
  (** [ec.message()] of an error code that is not set *)
  success_message : string
}.

(** The last error is reported with [ec], which is not the one that was set. *)
Definition start (e : listen_env) (port : Z) c : outcome unit * Control W :=
  if _server_thread c then (Throw (RuntimeError "Server already started"), c)
  else
    match listen_error e with
    | Some message =>
        (Throw (RuntimeError
           ("Failed to listen on port " +:+ to_string port +:+ ": " +:+ message)), c)
    | None =>
        let c := set_listening true c in
        match accept_error e with
        | Some message =>
            (Throw (RuntimeError ("Failed to start accepting connections: " +:+ message)), c)
        | None =>
            let c := set_server_thread true (set_listening (listening_after e) c) in
            if negb (is_listening c)
            then (Throw (RuntimeError
                    ("WebSocket server failed to listen on port " +:+ to_string port)), c)
            else
              match local_endpoint e with
              | inl _ =>
                  (Throw (RuntimeError
                     ("Failed to resolve the local endpoint: " +:+ success_message e)), c)
              | inr _ => (Ret tt, c)
              end
        end
    end.

Definition get_port (e : listen_env) : outcome Z :=
  match local_endpoint e with
  | inl _ => Throw (RuntimeError "Server not listening on any port. Has it been started before?")
  | inr port => Ret port
  end.

(** [socket_init]: that [TCP_NODELAY] cannot be set is only logged. *)
Definition socket_init (hdl : ConnHandle) : M W unit := get_con_from_hdl hdl;; mret tt.

(** The member [_server_thread] is destroyed; a thread that was not joined ends the
    process. *)
Definition destroy_thread c : outcome unit := if _server_thread c then Undefined else Ret tt.

(** *** The run loop *)

(** [_server.run()] returns when the endpoint is stopped or has nothing left to
    do. *)
Definition run_ended c : bool :=
  stopped c || negb (is_listening c) && bool_decide (net (st c) = ∅).

Definition run_callback c : Control W :=
  match callbacks c with
  | [] => c
  | hdl :: q => set_callbacks q (set_st (handle_connection_closed H hdl [] (st c)).2 c)
  end.

(** A connection is closed: its close handler queues a callback. *)
Definition connection_closed c (hdl : ConnHandle) : Control W :=
  match net (st c) !! hdl with
  | None => c
  | Some _ =>
      let s := st c in
      set_callbacks (callbacks c ++ [hdl])
        (set_st (mkSt (srv s) (delete hdl (net s)) (trace s) (world s)) c)
  end.

(** What happens while [stop] waits: connections that are closed, and how many
    callbacks the queue's thread runs. *)
Record turn := { closed : list ConnHandle; ran : nat }.

Definition endpoint_turn (t : turn) c : Control W :=
  let c := foldl connection_closed c (closed t) in
  let c := Nat.iter (ran t) run_callback c in
  if run_ended c then set_stopped c else c.

(** *** [stop] *)

Definition MAX_SHUTDOWN_MS : Z := 1000.
Definition SLEEP_MS : Z := 10.

(** [connections]: those of the clients that are still there. *)
Definition client_connections c : list ConnHandle :=
  filter (λ hdl, is_Some (net (st c) !! hdl)) (map_to_list (_clients (srv (st c)))).*1.

(** The loop that waits; [None] is a loop that takes more turns than [fuel]. *)
Fixpoint wait_closed (fuel : nat) (env : Z → turn) (duration_ms : Z) c :
    option (Z * Control W) :=
  if negb (stopped c) && (duration_ms <? MAX_SHUTDOWN_MS)
  then
    match fuel with
    | O => None
    | S fuel =>
        wait_closed fuel env (duration_ms + SLEEP_MS) (endpoint_turn (env duration_ms) c)
    end
  else Some (duration_ms, c).

(** The connections that are left are terminated, and the endpoint is stopped. *)
Definition force_stop (connections : list ConnHandle) c : Control W :=
  if stopped c then c
  else
    set_stopped
      (ask (Terminate <$> filter (λ hdl, is_Some (net (st c) !! hdl)) connections) c).

Definition close_connections (env : Z → turn) c : option (Control W) :=
  let connections := client_connections c in
  if bool_decide (connections = []) then Some c
  else
    '(_, c) ← wait_closed 100 env 0 (ask (CloseGoingAway <$> connections) c);
    Some (force_stop connections c).

(** After the thread was joined. *)
Definition finish c : Control W :=
  let s := st c in
  set_server_thread false (set_st (mkSt (set_clients (srv s) ∅) (net s) (trace s) (world s)) c).

(** [stop] has returned, or waits in [_server_thread->join()]. *)
Inductive stop_state := Returned (c : Control W) | Joining (c : Control W).

(** Without a thread there is nothing to join; a run loop that ends leaves the
    endpoint stopped. *)
Definition join c : stop_state :=
  if negb (_server_thread c) then Returned (finish c)
  else if run_ended c then Returned (finish (set_stopped c))
  else Joining c.

(** [listen_stopped] is whether [stop_listening] succeeds; its failure is logged. *)
Definition stop (listen_stopped : bool) (env : Z → turn) c : option stop_state :=
  if stopped c then Some (Returned c)
  else
    let c := if is_listening c then set_listening (negb listen_stopped) c else c in
    c ← close_connections env c;
    Some (join c).

(** While [stop] waits for the thread. *)
Definition join_turn (t : turn) (s : stop_state) : stop_state :=
  match s with
  | Returned c => Returned c
  | Joining c => join (endpoint_turn t c)
  end.

(** *** [~Server] *)

(** The queue of requests when the server is destroyed: where its worker is, requests
    it has not come to, how many of the disconnections it handles before the members
    are destroyed, and how the threads are scheduled then. *)
Record queue_exit := {
  worker : worker_pc (cb:=input);
  pending : list input;
  handled_before : nat;
  schedule : list label
}.

Definition queue_left (x : queue_exit) c : State (cb:=input) :=
  queue_at (worker x)
    (pending x ++ (Closed <$> callbacks (Nat.iter (handled_before x) run_callback c))).

(** The members are destroyed in the reverse order of their declaration: first all that
    requests are handled with, the mutexes, the handlers, the clients and channels; then
    [_handler_callback_queue], whose destructor stops it; then [_server_thread].  A
    request that is handled meanwhile uses members that are gone.  [None] when the
    worker of the queue has not been joined. *)
Definition destroy (x : queue_exit) c : option (outcome unit) :=
  let q := queue_left x c in
  if runs_callback (schedule x) q then Some Undefined
  else
    _ ← CallbackQueue.stop (schedule x) q;
    Some (destroy_thread c).

(** Nothing is queued or handled any more, and the worker gets the wakeup of the queue's
    destructor. *)
Definition queue_drained (x : queue_exit) (n : nat) : Prop :=
  pending x = [] ∧ (n ≤ handled_before x)%nat ∧ is_running (worker x) = false ∧
  wakeup_kept (schedule x) (queue_at (worker x) []).

Lemma run_callbacks_all n c : (length (callbacks c) ≤ n)%nat → callbacks (Nat.iter n run_callback c) = [].
Proof.
  assert (∀ n c, callbacks (Nat.iter n run_callback c) = drop n (callbacks c)) as Hdrop.
  { clear n c. intros n. induction n as [|n IH]; intros c; [done|].
    cbn [Nat.iter nat_rect]. change (nat_rect _ c _ n) with (Nat.iter n run_callback c).
    unfold run_callback at 1. specialize (IH c).
    destruct (callbacks (Nat.iter n run_callback c)) as [|h q] eqn:E.
    - rewrite E. symmetry. rewrite <-(Nat.add_1_l n), <-drop_drop, drop_drop, Nat.add_comm, <-drop_drop.
      by rewrite <-IH.
    - simpl. rewrite <-(Nat.add_1_r n), <-drop_drop, <-IH. by rewrite ?drop_0. }
  intros Hn. rewrite Hdrop. by apply drop_ge.
Qed.

Lemma destroy_drained x c :
  queue_drained x (length (callbacks c)) → destroy x c = Some (destroy_thread c).
Proof.
  intros (Hp & Hn & Hr & Hw). unfold destroy, queue_left.
  rewrite Hp, run_callbacks_all by done. cbn [app fmap list_fmap].
  rewrite idle_runs_nothing by done.
  destruct (stop_returns_kept (schedule x) (queue_at (worker x) [])) as [q ->]; [|done..].
  by apply queue_at_one_worker.
Qed.

(** A request that is handled, or comes to be handled, after the server began to destroy
    its members uses what is destroyed. *)
Theorem request_outlives_members (i : input) (rest : list input) (n : nat) (sched : list label) c :
  destroy {| worker := WRun i; pending := rest; handled_before := n; schedule := sched |} c =
    Some Undefined ∧
  destroy {| worker := WTake; pending := i :: rest; handled_before := n;
             schedule := Worker 0 :: sched |} c = Some Undefined.
Proof.
  split; [done|]. unfold destroy, queue_left. cbn [worker pending handled_before schedule app].
  generalize (rest ++ (Closed <$> callbacks (Nat.iter n run_callback c))). intros l.
  assert (runs_callback (Worker 0 :: sched) (queue_at WTake (i :: l)) = true) as ->; [|done].
  unfold runs_callback. cbn [queue_at _worker_threads existsb is_running orb].
  set (q := default (queue_at WTake (i :: l)) (exec (Worker 0) (queue_at WTake (i :: l)))).
  pose proof (schedule_taken sched q) as Hl. change (length (taken q)) with 1%nat in Hl.
  apply negb_true_iff, Nat.eqb_neq. intros E.
  change (length (taken (run_schedule sched q)) = 0%nat) in E. lia.
Qed.

(** *** Waiting changes connections and members only *)

(** [c'] is [c] with other connections and members. *)
Record waited c c' : Prop := {
  w_listening : is_listening c' = is_listening c;
  w_thread : _server_thread c' = _server_thread c;
  w_requests : requests c' = requests c
}.

#[local] Instance waited_preorder : PreOrder waited.
Proof. split; [by intros c|]. intros c1 c2 c3 [] []. split; congruence. Qed.

Lemma connection_closed_waited c hdl :
  waited c (connection_closed c hdl) ∧ stopped (connection_closed c hdl) = stopped c.
Proof. unfold connection_closed. by destruct (net (st c) !! hdl). Qed.

Lemma run_callback_waited c :
  waited c (run_callback c) ∧ stopped (run_callback c) = stopped c.
Proof. unfold run_callback. by destruct (callbacks c). Qed.

Lemma connections_closed_waited hdls : ∀ c,
  waited c (foldl connection_closed c hdls) ∧
  stopped (foldl connection_closed c hdls) = stopped c.
Proof.
  induction hdls as [|hdl hdls IH]; intros c; [done|]. simpl.
  destruct (connection_closed_waited c hdl) as (Hw & Hs).
  destruct (IH (connection_closed c hdl)) as (Hw' & Hs'). split; [by etrans|congruence].
Qed.

Lemma run_callbacks_waited n c :
  waited c (Nat.iter n run_callback c) ∧ stopped (Nat.iter n run_callback c) = stopped c.
Proof.
  induction n as [|n (Hw & Hs)]; [done|]. simpl.
  destruct (run_callback_waited (Nat.iter n run_callback c)) as (Hw' & Hs').
  split; [by etrans|congruence].
Qed.

Lemma endpoint_turn_waited t c : waited c (endpoint_turn t c).
Proof.
  unfold endpoint_turn. etrans; [apply (connections_closed_waited (closed t))|].
  etrans; [apply (run_callbacks_waited (ran t))|]. by destruct (run_ended _).
Qed.

Lemma wait_closed_total env (n : nat) : ∀ d c,
  d = MAX_SHUTDOWN_MS - SLEEP_MS * Z.of_nat n →
  ∃ d' c', wait_closed n env d c = Some (d', c') ∧ d ≤ d' ≤ MAX_SHUTDOWN_MS ∧ waited c c'.
Proof.
  unfold MAX_SHUTDOWN_MS, SLEEP_MS.
  induction n as [|n IH]; intros d c Hd; cbn [wait_closed];
    destruct (negb (stopped c) && (d <? MAX_SHUTDOWN_MS)) eqn:E.
  - apply andb_true_iff in E as [_ E%Z.ltb_lt]. unfold MAX_SHUTDOWN_MS in E. lia.
  - exists d, c. split_and!; [done|lia..|done].
  - destruct (IH (d + SLEEP_MS) (endpoint_turn (env d) c)) as (d' & c' & -> & Hb & Hw).
    { unfold SLEEP_MS. lia. }
    exists d', c'. unfold SLEEP_MS in *. split_and!; [done|lia..|].
    etrans; [apply endpoint_turn_waited|done].
  - exists d, c. split_and!; [done|lia..|done].
Qed.

Lemma force_stop_spec connections c :
  stopped (force_stop connections c) = true ∧
  ∃ forced, forced ⊆ connections ∧
    requests (force_stop connections c) = requests c ++ (Terminate <$> forced).
Proof.
  unfold force_stop. destruct (stopped c) eqn:E.
  - split; [done|]. exists []. rewrite app_nil_r. split; [set_solver|done].
  - split; [done|]. eexists. split; [|done]. intros k [_ ?]%list_elem_of_filter. done.
Qed.

Lemma force_stop_thread connections c :
  _server_thread (force_stop connections c) = _server_thread c.
Proof. unfold force_stop. by destruct (stopped c). Qed.

Lemma close_connections_spec env c :
  client_connections c ≠ [] →
  ∃ c' forced, close_connections env c = Some c' ∧ stopped c' = true ∧
    _server_thread c' = _server_thread c ∧ forced ⊆ client_connections c ∧
    requests c' = requests c ++ (CloseGoingAway <$> client_connections c) ++
                  (Terminate <$> forced).
Proof.
  intros Hc. unfold close_connections. rewrite bool_decide_eq_false_2 by done.
  set (connections := client_connections c) in *.
  destruct (wait_closed_total env 100 0 (ask (CloseGoingAway <$> connections) c) eq_refl)
    as (d & c1 & -> & _ & [_ Ht Hr]). simpl.
  destruct (force_stop_spec connections c1) as (Hs & forced & Hf & Hr').
  exists (force_stop connections c1), forced. split_and!; [done..| |done|].
  - by rewrite force_stop_thread, Ht.
  - rewrite Hr', Hr. simpl. by rewrite <-(assoc_L (++)).
Qed.

Lemma stop_returns_aux (env : Z → turn) c :
  _server_thread c = true → stopped c = false →
  client_connections c ≠ [] ∨ net (st c) = ∅ →
  ∃ c' forced, stop true env c = Some (Returned c') ∧
    destroy_thread c' = Ret tt ∧ stopped c' = true ∧ _clients (srv (st c')) = ∅ ∧
    forced ⊆ client_connections c ∧
    requests c' = requests c ++ (CloseGoingAway <$> client_connections c) ++
                  (Terminate <$> forced).
Proof.
  intros Ht Hs Hc. unfold stop. rewrite Hs.
  set (c1 := if is_listening c then set_listening (negb true) c else c).
  assert (is_listening c1 = false) as Hl1 by (subst c1; by destruct (is_listening c) eqn:?).
  assert (client_connections c1 = client_connections c ∧ requests c1 = requests c ∧
          net (st c1) = net (st c) ∧ _server_thread c1 = true) as (Hcc & Hr & Hn & Ht1)
    by (subst c1; by destruct (is_listening c)).
  rewrite <-Hcc, <-Hr. rewrite <-Hcc, <-Hn in Hc. clearbody c1.
  destruct (decide (client_connections c1 = [])) as [He|He].
  - destruct Hc as [?|Hnet]; [done|]. unfold close_connections. rewrite He.
    rewrite bool_decide_eq_true_2 by done. exists (finish (set_stopped c1)), []. simpl.
    unfold join, run_ended. rewrite Ht1, Hl1, Hnet, orb_true_r. simpl.
    rewrite app_nil_r. split_and!; done.
  - destruct (close_connections_spec env c1 He) as (c2 & forced & -> & Hst & Hth & Hf & Hreq).
    exists (finish (set_stopped c2)), forced. simpl. unfold join, run_ended.
    rewrite Hth, Ht1, Hst. simpl. by split_and!.
Qed.

(** *** Properties *)

(** Stopping a running server returns, within the second it gives the connections,
    when a connected client is logged in or nobody is connected: whatever the
    connections do, every client's connection is asked to close, what is left is
    terminated, the thread is joined so that the server can be destroyed, and no
    client remains. *)
Theorem stop_returns (env : Z → turn) c :
  _server_thread c = true → stopped c = false →
  client_connections c ≠ [] ∨ net (st c) = ∅ →
  ∃ c' forced, stop true env c = Some (Returned c') ∧
    destroy_thread c' = Ret tt ∧ stopped c' = true ∧ _clients (srv (st c')) = ∅ ∧
    forced ⊆ client_connections c ∧
    requests c' = requests c ++ (CloseGoingAway <$> client_connections c) ++
                  (Terminate <$> forced).
Proof. apply stop_returns_aux. Qed.

(** *** The connections while [stop] waits *)

(** What the handlers and the server's own code do not open or close. *)
Definition keeps_net {A} (m : M W A) : Prop := ∀ L s, net (m L s).2 = net s.

Lemma keeps_net_bind {A B} (m : M W A) (k : A → M W B) :
  keeps_net m → (∀ a, keeps_net (k a)) → keeps_net (m ≫= k).
Proof.
  intros Hm Hk L s. specialize (Hm L s). unfold mbind, M_mbind, M_bind.
  destruct (m L s) as [[a|e|] s']; simpl in *; [by rewrite Hk|done..].
Qed.
Lemma keeps_net_ret {A} (a : A) : keeps_net (mret a).
Proof. done. Qed.
Lemma keeps_net_get {A} (f : Server → A) : keeps_net (get f).
Proof. done. Qed.
Lemma keeps_net_update f : keeps_net (update f).
Proof. done. Qed.
Lemma keeps_net_with_lock {A} mu (m : M W A) : keeps_net m → keeps_net (with_lock mu m).
Proof. intros Hm L s. unfold with_lock. by case_decide. Qed.
Lemma keeps_net_try_catch {A} (m : M W A) h :
  keeps_net m → (∀ e, keeps_net (h e)) → keeps_net (try_catch m h).
Proof.
  intros Hm Hh L s. specialize (Hm L s). unfold try_catch.
  destruct (m L s) as [[a|e|] s']; simpl in *; [done|by rewrite Hh|done].
Qed.
Lemma keeps_net_for_each {A} (l : list A) body :
  (∀ x, keeps_net (body x)) → keeps_net (for_each l body).
Proof. intros Hb. induction l; [done|]. by apply keeps_net_bind. Qed.
Lemma keeps_net_status hdl l m : keeps_net (send_status_and_log_msg (W:=W) hdl l m).
Proof. intros L s. by rewrite send_status_run. Qed.

Context `{!HandlersFrame H}.

Lemma keeps_net_call (k : handler_call) : keeps_net (call H k).
Proof.
  unfold call. destruct (handler_body H k) as [body|] eqn:Hb; [|done].
  apply keeps_net_bind; [done|]. intros _ L s. apply (handlers_frame k body L s Hb).
Qed.
Lemma keeps_net_not_subscribed names : keeps_net (not_subscribed (W:=W) names).
Proof. induction names; [done|]. apply keeps_net_bind; [done|]. intros subs. by apply keeps_net_bind. Qed.

Ltac solve_net :=
  repeat first
    [ apply keeps_net_with_lock | apply keeps_net_bind; [|intros ?] | apply keeps_net_call
    | apply keeps_net_status | apply keeps_net_not_subscribed | apply keeps_net_for_each; intros ?
    | apply keeps_net_try_catch; [|intros ?] | by intros ? ? | case_match ].

Lemma handle_connection_closed_net hdl s : net (handle_connection_closed H hdl [] s).2 = net s.
Proof.
  enough (keeps_net (handle_connection_closed H hdl)) as Hk by apply Hk.
  unfold handle_connection_closed, ignore_exception, unsubscribe_params_without_subscriptions,
    catch_std. solve_net.
Qed.

Lemma connections_closed_net hdls : ∀ c k,
  k ∉ hdls → net (st (foldl connection_closed c hdls)) !! k = net (st c) !! k.
Proof.
  induction hdls as [|hdl hdls IH]; intros c k; [done|]. intros [Hk Hks]%not_elem_of_cons.
  simpl. rewrite IH by done. unfold connection_closed. destruct (net (st c) !! hdl); [|done].
  simpl. by rewrite lookup_delete_ne.
Qed.

Lemma run_callbacks_net n c : net (st (Nat.iter n run_callback c)) = net (st c).
Proof.
  induction n as [|n IH]; [done|]. simpl. unfold run_callback at 1.
  destruct (callbacks _); [done|]. simpl. by rewrite handle_connection_closed_net.
Qed.

(** Disconnections that are queued come from connections there were. *)
Definition closings c : nat := (length (callbacks c) + size (net (st c)))%nat.

Lemma endpoint_turn_closings t c : (closings (endpoint_turn t c) ≤ closings c)%nat.
Proof.
  assert (∀ l c, closings (foldl connection_closed c l) ≤ closings c)%nat as Hl.
  { clear. induction l as [|h l IH]; intros c; [done|]. simpl. etrans; [apply IH|].
    unfold connection_closed, closings. destruct (net (st c) !! h) eqn:Hh; [|done]. simpl.
    rewrite length_app, map_size_delete_Some by eauto. simpl.
    assert (size (net (st c)) ≠ 0)%nat; [|lia]. intros E%map_size_empty_inv. by rewrite E in Hh. }
  unfold endpoint_turn. set (c1 := foldl _ _ _). specialize (Hl (closed t) c). fold c1 in Hl.
  enough (closings (Nat.iter (ran t) run_callback c1) ≤ closings c1)%nat as Hr.
  { destruct (run_ended _); unfold closings in *; simpl in *; lia. }
  unfold closings. rewrite run_callbacks_net. apply Nat.add_le_mono_r. clear.
  induction (ran t) as [|n IH]; [done|]. simpl. etrans; [|exact IH].
  unfold run_callback at 1. destruct (callbacks (Nat.iter n run_callback c1)) eqn:E; rewrite ?E; simpl; lia.
Qed.

Lemma stop_closings (env : Z → turn) b c c' :
  stop b env c = Some (Returned c') ∨ stop b env c = Some (Joining c') →
  (closings c' ≤ closings c)%nat.
Proof.
  assert (∀ n d c r, wait_closed n env d c = Some r → closings r.2 ≤ closings c)%nat as Hw.
  { clear c c'. induction n as [|n IH]; intros d c r; cbn [wait_closed]; case_match; try done;
      try (by intros [= <-]). intros Hr%IH. etrans; [exact Hr|]. apply endpoint_turn_closings. }
  assert (∀ c, closings (finish c) = closings c ∧ closings (finish (set_stopped c)) = closings c)
    as Hf by done.
  unfold stop. destruct (stopped c); [intros [[= <-]|[=]]; done|].
  set (c0 := if is_listening c then _ else c).
  assert (closings c0 = closings c) as Hc0 by (unfold c0; by destruct (is_listening c)).
  unfold close_connections.
  destruct (if bool_decide _ then _ else _) as [c1|] eqn:E; [|by intros [[=]|[=]]]. simpl.
  assert (closings c1 ≤ closings c)%nat as Hc1.
  { destruct (bool_decide _); [by injection E as <-; rewrite Hc0|].
    destruct (wait_closed _ _ _ _) as [[d c2]|] eqn:Ew; [|done]. injection E as <-.
    apply Hw in Ew. simpl in Ew. change (closings (ask _ c0)) with (closings c0) in Ew.
    unfold force_stop. destruct (stopped c2); unfold closings in *; simpl in *; lia. }
  unfold join. destruct (_server_thread c1), (run_ended c1); simpl; intros [[= <-]|[= <-]]; exact Hc1.
Qed.

(** A connection that is not closed keeps the run loop going. *)
Lemma endpoint_turn_open t c k :
  is_Some (net (st c) !! k) → k ∉ closed t → stopped c = false →
  is_Some (net (st (endpoint_turn t c)) !! k) ∧ stopped (endpoint_turn t c) = false.
Proof.
  unfold endpoint_turn. intros Hk Hkt Hst.
  destruct (connections_closed_waited (closed t) c) as [_ Hs].
  set (c1 := foldl connection_closed c (closed t)) in *.
  destruct (run_callbacks_waited (ran t) c1) as [_ Hs'].
  pose proof (run_callbacks_net (ran t) c1) as Hn.
  set (c2 := Nat.iter (ran t) run_callback c1) in *.
  assert (is_Some (net (st c2) !! k)) as Hk2.
  { rewrite Hn. subst c1. by rewrite connections_closed_net. }
  assert (run_ended c2 = false) as ->; [|split; [done|congruence]].
  unfold run_ended. rewrite Hs', Hs, Hst. simpl. apply andb_false_intro2.
  apply bool_decide_eq_false. intros He. rewrite He, lookup_empty in Hk2. by destruct Hk2.
Qed.

Lemma join_waits k c turns :
  _server_thread c = true → stopped c = false → is_Some (net (st c) !! k) →
  (∀ t, t ∈ turns → k ∉ closed t) →
  ∃ c', foldl (λ s t, join_turn t s) (Joining c) turns = Joining c' ∧ waited c c'.
Proof.
  revert c. induction turns as [|t turns IH]; intros c Ht Hs Hk Hn; [by exists c|]. simpl.
  pose proof (endpoint_turn_waited t c) as Hw.
  destruct (endpoint_turn_open t c k Hk (Hn t ltac:(left)) Hs) as [Hk' Hs'].
  assert (join (endpoint_turn t c) = Joining (endpoint_turn t c)) as ->.
  { unfold join. rewrite (w_thread _ _ Hw), Ht. simpl. unfold run_ended. rewrite Hs'. simpl.
    rewrite bool_decide_eq_false_2, andb_false_r; [done|].
    intros He. rewrite He, lookup_empty in Hk'. by destruct Hk'. }
  destruct (IH (endpoint_turn t c)) as (c' & -> & Hw'); [|done..| |].
  - by rewrite (w_thread _ _ Hw).
  - intros t' Ht'. apply Hn. by right.
  - exists c'. split; [done|]. by etrans.
Qed.

(** A connection that never logged in is not in [_clients]: when only such
    connections are open, [stop] asks nobody to close and waits for its thread
    without a limit, until the last of them is closed by its peer. *)
Theorem stop_waits_for_strangers (env : Z → turn) (k : ConnHandle) (turns : list turn) c :
  _server_thread c = true → stopped c = false →
  client_connections c = [] → is_Some (net (st c) !! k) →
  (∀ t, t ∈ turns → k ∉ closed t) →
  ∃ c1 c2, stop true env c = Some (Joining c1) ∧
    foldl (λ s t, join_turn t s) (Joining c1) turns = Joining c2 ∧ requests c2 = requests c.
Proof.
  intros Ht Hs Hc Hk Hturns. unfold stop. rewrite Hs.
  set (c1 := if is_listening c then set_listening (negb true) c else c).
  assert (client_connections c1 = [] ∧ stopped c1 = false ∧ requests c1 = requests c ∧
          net (st c1) = net (st c) ∧ _server_thread c1 = true) as (Hc1 & Hs1 & Hr & Hn & Ht1)
    by (subst c1; by destruct (is_listening c)).
  clearbody c1. unfold close_connections. rewrite Hc1, bool_decide_eq_true_2 by done. simpl.
  destruct (join_waits k c1 turns Ht1 Hs1) as (c2 & Hj & Hw); [by rewrite Hn|done|].
  exists c1, c2. split_and!; [|done|by rewrite (w_requests _ _ Hw)].
  unfold join, run_ended. rewrite Ht1, Hs1, Hn. simpl.
  rewrite bool_decide_eq_false_2, andb_false_r; [done|].
  intros He. rewrite He, lookup_empty in Hk. by destruct Hk.
Qed.

(** A server that was stopped cannot be started again: [start] succeeds, but the
    run loop of the stopped endpoint ends at once, a further [stop] returns before
    it joins the thread, and destroying the server then ends the process. *)
Theorem restarted_server_dead (env : Z → turn) (e : listen_env) (port p : Z) c c' :
  _server_thread c = false → stopped c = true →
  listen_error e = None → accept_error e = None → listening_after e = true →
  local_endpoint e = inr p → start e port c = (Ret tt, c') →
  run_ended c' = true ∧ stop true env c' = Some (Returned c') ∧ destroy_thread c' = Undefined.
Proof.
  intros Ht Hs Hle Hae Hla Hlo. unfold start. rewrite Ht, Hle, Hae, Hla, Hlo. simpl.
  intros [= <-]. unfold run_ended, stop, destroy_thread. simpl. by rewrite Hs.
Qed.

(** [start] reports exactly the failures of the endpoint.  The last two leave a
    thread behind: a second attempt is refused, and the server cannot be destroyed
    before it is stopped. *)
Theorem start_spec (e : listen_env) (port : Z) c :
  _server_thread c = false →
  (start e port c = (Ret tt, set_server_thread true (set_listening true c)) ↔
     listen_error e = None ∧ accept_error e = None ∧ listening_after e = true ∧
     ∃ p, local_endpoint e = inr p) ∧
  (∀ x c', start e port c = (Throw x, c') →
     (listen_error e = None ∧ accept_error e = None ↔ destroy_thread c' = Undefined) ∧
     (destroy_thread c' = Undefined → ∀ e' port',
        start e' port' c' = (Throw (RuntimeError "Server already started"), c'))).
Proof.
  intros Ht. unfold start at 1 2. rewrite Ht.
  destruct (listen_error e) as [m|].
  { split; [naive_solver|]. intros x c' [= _ <-]. unfold destroy_thread. rewrite Ht. naive_solver. }
  destruct (accept_error e) as [m|].
  { split; [naive_solver|]. intros x c' [= _ <-]. unfold destroy_thread. simpl. rewrite Ht. naive_solver. }
  destruct (listening_after e); simpl.
  2:{ split; [naive_solver|]. intros x c' [= _ <-]. unfold destroy_thread, start. simpl. naive_solver. }
  destruct (local_endpoint e) as [m|p].
  - split; [naive_solver|]. intros x c' [= _ <-]. unfold destroy_thread, start. simpl. naive_solver.
  - split; [naive_solver|]. intros x c' [=].
Qed.

End Server.

(** A server with one client, and one with a connection that did not log in; no
    connection answers. *)
Definition running (s : St nat) : Control nat :=
  {| st := s; is_listening := true; stopped := false; _server_thread := true; callbacks := [];
     requests := [] |}.

Definition silent : Z → turn := λ _, {| closed := []; ran := 0 |}.

Definition demo_listen : listen_env :=
  {| listen_error := None; accept_error := None; listening_after := true;
     local_endpoint := inr 21274; success_message := "Success" |}.

Lemma stop_returns_witness :
  ∃ c', stop demo_handlers true silent (running demo_state) = Some (Returned c') ∧
    destroy_thread c' = Ret tt ∧ _clients (srv (st c')) = ∅.
Proof.
  destruct (stop_returns demo_handlers silent (running demo_state))
    as (c' & forced & Hstop & Hd & _ & Hc & _).
  - reflexivity.
  - reflexivity.
  - left. vm_compute. discriminate.
  - exists c'. split_and!; assumption.
Defined.

(** Nobody has logged in. *)
Definition stranger_state : St nat :=
  mkSt (new_Server "cobridge" demo_options) (net demo_state) [] 0%nat.

Lemma stop_waits_for_strangers_witness :
  ∃ c1, stop demo_handlers true silent (running stranger_state) = Some (Joining c1).
Proof.
  destruct (stop_waits_for_strangers demo_handlers silent 1%nat [] (running stranger_state))
    as (c1 & c2 & Hstop & _).
  - reflexivity.
  - reflexivity.
  - vm_compute. reflexivity.
  - vm_compute. by eexists.
  - intros t Ht. by apply not_elem_of_nil in Ht.
  - exists c1. assumption.
Defined.

Lemma start_spec_witness :
  start demo_listen 21274 (new_Control "cobridge" demo_options 0%nat) =
  (Ret tt, set_server_thread true
             (set_listening true (new_Control "cobridge" demo_options 0%nat))).
Proof.
  apply (start_spec demo_listen 21274 (new_Control "cobridge" demo_options 0%nat));
    [reflexivity|].
  split_and!; [reflexivity..|]. by exists 21274.
Defined.

End ServerControl.

(** ** The connection of the client *)

Module ClientControl.

(** [websocketpp::session::state]. *)
Inductive session_state := connecting | open | closing | closed.

#[export] Instance session_state_eq_dec : EqDecision session_state.
Proof. solve_decision. Defined.

(** [_con] points to one of the connections the endpoint made, or to none. *)
Record Client := {
  _con : option nat;
  sessions : gmap nat session_state;
  made : nat
}.

Definition new_Client : Client := {| _con := None; sessions := ∅; made := 0 |}.

(** [ok] is whether [get_connection] made a connection; it returns a null pointer
    when it did not, and [_con] is assigned before that is tested. *)
Definition connect (uri : string) (ok : bool) (c : Client) : outcome unit * Client :=
  if ok
  then (Ret tt, {| _con := Some (made c); sessions := <[made c := connecting]> (sessions c);
                   made := S (made c) |})
  else (Throw (RuntimeError ("Failed to get connection from URI " +:+ uri)),
        {| _con := None; sessions := sessions c; made := made c |}).

Definition close (c : Client) : outcome Client :=
  match _con c with
  | None => Undefined
  | Some k =>
      Ret (if decide (sessions c !! k = Some open)
           then {| _con := _con c; sessions := <[k := closing]> (sessions c); made := made c |}
           else c)
  end.

(** [~Client]: [close], then the thread is joined, which ends when the endpoint has
    no connection left; the result is whether it has ended. *)
Definition destroy (c : Client) : outcome bool :=
  c ← close c;
  Ret (bool_decide (map_Forall (λ _ s, s = closed) (sessions c))).

(** What changes the connection: the methods, and the network. *)
Inductive event :=
| Connect (uri : string) (ok : bool)
| Close
| Network (k : nat) (s : session_state).

Definition client_step (c : Client) (e : event) : outcome Client :=
  match e with
  | Connect uri ok => Ret (connect uri ok c).2
  | Close => close c
  | Network k s =>
      Ret (match sessions c !! k with
           | Some _ => {| _con := _con c; sessions := <[k := s]> (sessions c); made := made c |}
           | None => c
           end)
  end.

Definition client_run (es : list event) (c : Client) : outcome Client :=
  foldl (λ o e, c ← o; client_step c e) (Ret c) es.

(** The last [connect] succeeded. *)
Definition connected (es : list event) : bool :=
  foldl (λ b e, match e with Connect _ ok => ok | _ => b end) false es.

Lemma client_run_snoc es e c : client_run (es ++ [e]) c = (c' ← client_run es c; client_step c' e).
Proof. unfold client_run. by rewrite foldl_app. Qed.

Lemma client_run_con es c :
  client_run es new_Client = Ret c → (is_Some (_con c) ↔ connected es = true).
Proof.
  revert c. induction es as [|e es IH] using rev_ind; intros c.
  { intros [= <-]. split; [by intros []|done]. }
  rewrite client_run_snoc. unfold connected. rewrite foldl_app. fold (connected es). simpl.
  destruct (client_run es new_Client) as [c1| |]; simpl; [|done..]. specialize (IH c1 eq_refl).
  destruct e as [uri ok| |k s]; simpl.
  - destruct ok; intros [= <-]; simpl; [naive_solver|]. split; [by intros []|done].
  - unfold close. destruct (_con c1) as [k|] eqn:E; [|done]. intros [= <-].
    case_decide; simpl; rewrite ?E; exact IH.
  - destruct (sessions c1 !! k); intros [= <-]; simpl; done.
Qed.

(** A client can be closed or destroyed exactly when its last [connect] succeeded;
    otherwise a null pointer is dereferenced, also by the destructor of a client
    that never connected. *)
Theorem client_close_defined (es : list event) (c : Client) :
  client_run es new_Client = Ret c →
  (destroy c ≠ Undefined ↔ connected es = true) ∧ (close c ≠ Undefined ↔ connected es = true).
Proof.
  intros Hc. rewrite <-(client_run_con es c Hc). unfold destroy, close.
  destruct (_con c); simpl; split; naive_solver.
Qed.

Lemma client_close_defined_witness :
  destroy new_Client = Undefined ∧
  ∀ c, client_run [Connect "ws://localhost" true; Network 0 open] new_Client = Ret c →
       destroy c ≠ Undefined.
Proof.
  split; [reflexivity|]. intros c Hc. by apply (client_close_defined _ c Hc).
Defined.

End ClientControl.

(** ** Logging *)

Module Logging.

Inductive channel_type_hint := none | access | error.
Inductive WebSocketLogLevel := LogDebug | LogInfo | LogWarn | LogError | LogCritical.

(** The levels of websocketpp the sources name. *)
Definition elevel_devel : Z := 0x1.
Definition elevel_library : Z := 0x2.
Definition elevel_info : Z := 0x4.
Definition elevel_warn : Z := 0x8.
Definition elevel_rerror : Z := 0x10.
Definition elevel_fatal : Z := 0x20.
Definition all_levels : Z := 0xffffffff.
Definition APP : Z := 0x800.

Record CallbackLogger := {
  _static_channels : Z;
  _dynamic_channels : Z;
  _channel_type_hint : channel_type_hint
}.

Definition new_CallbackLogger (channels : Z) (hint : channel_type_hint) : CallbackLogger :=
  {| _static_channels := channels; _dynamic_channels := 0; _channel_type_hint := hint |}.

Definition set_dynamic (d : Z) (l : CallbackLogger) : CallbackLogger :=
  {| _static_channels := _static_channels l; _dynamic_channels := d;
     _channel_type_hint := _channel_type_hint l |}.

Definition clear_channels (channels : Z) (l : CallbackLogger) : CallbackLogger :=
  set_dynamic (Z.land (_dynamic_channels l) (u32 (Z.lnot channels))) l.

Definition set_channels (channels : Z) (l : CallbackLogger) : CallbackLogger :=
  if channels =? 0 then clear_channels all_levels l
  else set_dynamic (Z.lor (_dynamic_channels l) (Z.land channels (_static_channels l))) l.

Definition static_test (channel : Z) (l : CallbackLogger) : bool :=
  negb (Z.land channel (_static_channels l) =? 0).
Definition dynamic_test (channel : Z) (l : CallbackLogger) : bool :=
  negb (Z.land channel (_dynamic_channels l) =? 0).

(** The level the callback gets; [None] when it is not called. *)
Definition write (channel : Z) (l : CallbackLogger) : option WebSocketLogLevel :=
  if negb (dynamic_test channel l) then None
  else
    match _channel_type_hint l with
    | access => Some LogInfo
    | _ =>
        if channel =? elevel_devel then Some LogDebug
        else if channel =? elevel_library then Some LogDebug
        else if channel =? elevel_info then Some LogInfo
        else if channel =? elevel_warn then Some LogWarn
        else if channel =? elevel_rerror then Some LogError
        else if channel =? elevel_fatal then Some LogCritical
        else None
    end.

(** What [Server::Server] does to the access log. *)
Definition server_access_log (l : CallbackLogger) : CallbackLogger :=
  set_channels APP (clear_channels all_levels l).

Definition status_level_to_log_level (level : StatusLevel) : Z :=
  match level with Info => APP | Warning => elevel_warn | Error => elevel_rerror end.

(** The log entry of [send_status_and_log_msg]. *)
Definition status_log (level : StatusLevel) (alog elog : CallbackLogger) :
    option WebSocketLogLevel :=
  write (status_level_to_log_level level) (match level with Info => alog | _ => elog end).

(** *** Properties *)

Inductive channel_op := SetChannels (channels : Z) | ClearChannels (channels : Z).

Definition run_channel_op (l : CallbackLogger) (op : channel_op) : CallbackLogger :=
  match op with SetChannels ch => set_channels ch l | ClearChannels ch => clear_channels ch l end.

Definition level_ok (ch : Z) : Prop := 0 ≤ ch < 2 ^ 32.
Definition op_ok (op : channel_op) : Prop :=
  match op with SetChannels ch | ClearChannels ch => level_ok ch end.

(** One channel: setting no channel clears all. *)
Definition channel_after (static : bool) (i : Z) (on : bool) (op : channel_op) : bool :=
  match op with
  | SetChannels ch => if ch =? 0 then false else on || Z.testbit ch i && static
  | ClearChannels ch => on && negb (Z.testbit ch i)
  end.

Lemma testbit_u32_lnot ch i : 0 ≤ i < 32 → Z.testbit (u32 (Z.lnot ch)) i = negb (Z.testbit ch i).
Proof.
  intros Hi. unfold u32. rewrite Z.mod_pow2_bits_low by lia. apply Z.lnot_spec. lia.
Qed.

Lemma testbit_all_levels i : 0 ≤ i < 32 → Z.testbit all_levels i = true.
Proof. intros Hi. change all_levels with (Z.ones 32). apply Z.ones_spec_low. lia. Qed.

Lemma run_channel_op_bit l op i :
  0 ≤ i < 32 →
  Z.testbit (_dynamic_channels (run_channel_op l op)) i =
  channel_after (Z.testbit (_static_channels l) i) i (Z.testbit (_dynamic_channels l) i) op.
Proof.
  intros Hi. destruct op as [ch|ch]; simpl.
  - unfold set_channels. destruct (ch =? 0); simpl.
    + rewrite Z.land_spec, testbit_u32_lnot, testbit_all_levels, andb_false_r; done.
    + by rewrite Z.lor_spec, Z.land_spec.
  - by rewrite Z.land_spec, testbit_u32_lnot.
Qed.

Lemma run_channel_op_static l op :
  _static_channels (run_channel_op l op) = _static_channels l.
Proof. destruct op; simpl; [|done]. unfold set_channels. by destruct (_ =? 0). Qed.

Lemma run_channel_ops_bit ops i : 0 ≤ i < 32 → ∀ l,
  Z.testbit (_dynamic_channels (foldl run_channel_op l ops)) i =
  foldl (channel_after (Z.testbit (_static_channels l) i) i)
        (Z.testbit (_dynamic_channels l) i) ops.
Proof.
  intros Hi. induction ops as [|op ops IH]; intros l; [done|]. simpl.
  by rewrite IH, run_channel_op_static, run_channel_op_bit.
Qed.

Lemma land_nonzero a b :
  level_ok a → negb (Z.land a b =? 0) = true ↔
    ∃ i, 0 ≤ i < 32 ∧ Z.testbit a i = true ∧ Z.testbit b i = true.
Proof.
  intros Ha. rewrite negb_true_iff, Z.eqb_neq. split.
  - intros Hn. unfold level_ok in Ha.
    assert (0 ≤ Z.land a b) as H0 by (apply Z.land_nonneg; lia).
    set (i := Z.log2 (Z.land a b)).
    assert (Z.testbit (Z.land a b) i = true) as Hb by (apply Z.bit_log2; lia).
    rewrite Z.land_spec in Hb. apply andb_true_iff in Hb as [Hai Hbi].
    exists i. split_and!; [apply Z.log2_nonneg| |done..].
    destruct (decide (i < 32)) as [|Hge]; [done|]. exfalso.
    rewrite Z.bits_above_log2 in Hai; [done|lia|].
    apply Z.lt_le_trans with 32; [|lia]. destruct (decide (a = 0)) as [->|]; [simpl; lia|].
    apply Z.log2_lt_pow2; lia.
  - intros (i & Hi & Hai & Hbi) He. assert (Z.testbit (Z.land a b) i = false) as Hz.
    { by rewrite He, Z.bits_0. }
    by rewrite Z.land_spec, Hai, Hbi in Hz.
Qed.

(** A message is written exactly when one of the bits of its channel is enabled by
    the history of [set_channels] and [clear_channels] (no channel outside the
    static ones ever is), and on an error log only under the name of a single
    level, which gives the level of the callback. *)
Theorem logger_writes (l : CallbackLogger) (ops : list channel_op) (channel : Z) :
  level_ok channel →
  let on i := foldl (channel_after (Z.testbit (_static_channels l) i) i)
                    (Z.testbit (_dynamic_channels l) i) ops in
  let l' := foldl run_channel_op l ops in
  (is_Some (write channel l') ↔
     (∃ i, 0 ≤ i < 32 ∧ Z.testbit channel i = true ∧ on i = true) ∧
     (_channel_type_hint l = access ∨
      channel ∈ [elevel_devel; elevel_library; elevel_info; elevel_warn; elevel_rerror;
                 elevel_fatal])).
Proof.
  intros Hch on l'.
  assert (dynamic_test channel l' = true ↔
          ∃ i, 0 ≤ i < 32 ∧ Z.testbit channel i = true ∧ on i = true) as Hdyn.
  { unfold dynamic_test. rewrite land_nonzero by done. subst on l'.
    split; intros (i & Hi & Hc & Hb); exists i;
      [rewrite run_channel_ops_bit in Hb by done|rewrite run_channel_ops_bit by done]; done. }
  assert (_channel_type_hint l' = _channel_type_hint l) as Hhint.
  { subst l'. clear. revert l. induction ops as [|op ops IH]; intros l; [done|]. simpl.
    rewrite IH. destruct op; simpl; [|done]. unfold set_channels. by destruct (_ =? 0). }
  rewrite <-Hdyn. unfold write. rewrite Hhint. clear Hdyn Hhint.
  destruct (dynamic_test channel l'); simpl; [|split; [by intros []|by intros []]].
  assert (∀ x, channel =? x = true ↔ channel = x) as Heq by (intros; apply Z.eqb_eq).
  rewrite !elem_of_cons, elem_of_nil, <-!Heq.
  destruct (_channel_type_hint l); [|naive_solver|];
    repeat (destruct (channel =? _); [naive_solver|]); (split; [by intros []|naive_solver]).
Qed.

Lemma logger_writes_witness :
  write elevel_warn (foldl run_channel_op (new_CallbackLogger all_levels error)
    [SetChannels all_levels; ClearChannels elevel_devel]) = Some LogWarn ∧
  is_Some (write elevel_warn (foldl run_channel_op (new_CallbackLogger all_levels error)
    [SetChannels all_levels; ClearChannels elevel_devel])).
Proof.
  split; [vm_compute; reflexivity|].
  apply (logger_writes (new_CallbackLogger all_levels error)
    [SetChannels all_levels; ClearChannels elevel_devel] elevel_warn); [unfold level_ok, elevel_warn; lia|].
  split; [exists 3; split_and!; [lia|lia|vm_compute; reflexivity..]|]. right. set_solver.
Defined.

(** The access log of the server passes exactly the messages on [APP], and every
    status message is logged at its own level. *)
Theorem server_log_levels (alog elog : CallbackLogger) (channel : Z) :
  _static_channels alog = all_levels → _channel_type_hint alog = access →
  _dynamic_channels elog = all_levels → _channel_type_hint elog = error →
  level_ok channel →
  (write channel (server_access_log alog) = Some LogInfo ↔ Z.testbit channel 11 = true) ∧
  (∀ level, status_log level (server_access_log alog) elog =
     Some (match level with Info => LogInfo | Warning => LogWarn | Error => LogError end)).
Proof.
  intros Hst Hh Hed Heh Hch.
  assert (_dynamic_channels (server_access_log alog) = APP) as Hd.
  { unfold server_access_log, set_channels, clear_channels. simpl. rewrite Hst.
    change (u32 (Z.lnot all_levels)) with 0. by rewrite Z.land_0_r. }
  assert (_channel_type_hint (server_access_log alog) = access) as Hh' by exact Hh.
  split.
  - assert (dynamic_test channel (server_access_log alog) = true ↔ Z.testbit channel 11 = true)
      as Hbit.
    { unfold dynamic_test. rewrite Hd, land_nonzero by done. change APP with (2 ^ 11). split.
      - intros (i & Hi & Hc & Hb). rewrite Z.pow2_bits_eqb in Hb by lia.
        by apply Z.eqb_eq in Hb as <-.
      - intros Hc. exists 11. split_and!; [lia|lia|done|]. apply Z.pow2_bits_true. lia. }
    rewrite <-Hbit. unfold write. rewrite Hh'.
    by destruct (dynamic_test channel (server_access_log alog)).
  - intros []; unfold status_log, write, dynamic_test; cbn [status_level_to_log_level];
      rewrite ?Hd, ?Hh', ?Hed, ?Heh; reflexivity.
Qed.

Lemma server_log_levels_witness :
  let alog := new_CallbackLogger all_levels access in
  let elog := set_channels all_levels (new_CallbackLogger all_levels error) in
  status_log Warning (server_access_log alog) elog = Some LogWarn.
Proof.
  intros alog elog.
  apply (server_log_levels alog elog APP); [reflexivity..|unfold level_ok, APP; lia].
Defined.

End Logging.
