(* ===== verification/SendQueue.v ===== *)
(** * The send queue of a connection

    What the server hands to [con->send] waits in the send queue of its websocketpp
    connection.  The repository patches that queue
    ([patches/connection_impl_hpp-fix.patch]): an entry has the time it was pushed
    and whether it must be delivered, entries that are neither recent nor reliable
    are skipped, and a write takes about one megabyte.  This file models the patched
    [send], [write_push], [write_pop] and [write_frame], with [handle_write_frame]
    of the file they patch, as steps of the threads that run them. *)

From Stdlib Require Import ZArith Lia.
From stdpp Require Import relations.
From S2P Require Import Prelude Wire Json Serialization ServerState.

Local Open Scope Z_scope.

(** ** Data *)

(** A prepared message: its payload, and whether the connection ends after it. *)
Record outgoing := { get_payload : list byte; get_terminal : bool }.

Definition payload_size (msg : outgoing) : Z := Z.of_nat (length (get_payload msg)).

(** [std::tuple<uint64_t, message_ptr, bool>]. *)
Record queued := { pushed_at : Z; queued_msg : outgoing; is_reliable : bool }.

Inductive session := Open | Closing | Terminated.

#[export] Instance session_eq_dec : EqDecision session.
Proof. solve_decision. Defined.

(** [dispatched] counts the calls of [write_frame] that wait to be run, [writes]
    are the batches that were given to [async_write]. *)
Record SendState := {
  m_state : session;
  m_send_queue : list queued;
  m_send_buffer_size : Z;
  m_current_msgs : list outgoing;
  m_write_flag : bool;
  dispatched : nat;
  writes : list (list outgoing)
}.

Definition new_connection : SendState :=
  {| m_state := Open; m_send_queue := []; m_send_buffer_size := 0; m_current_msgs := [];
     m_write_flag := false; dispatched := 0; writes := [] |}.

Definition set_queue (q : list queued) (size : Z) (c : SendState) : SendState :=
  {| m_state := m_state c; m_send_queue := q; m_send_buffer_size := size;
     m_current_msgs := m_current_msgs c; m_write_flag := m_write_flag c;
     dispatched := dispatched c; writes := writes c |}.
Definition set_session (s : session) (c : SendState) : SendState :=
  {| m_state := s; m_send_queue := m_send_queue c; m_send_buffer_size := m_send_buffer_size c;
     m_current_msgs := m_current_msgs c; m_write_flag := m_write_flag c;
     dispatched := dispatched c; writes := writes c |}.
Definition set_current (ms : list outgoing) (flag : bool) (c : SendState) : SendState :=
  {| m_state := m_state c; m_send_queue := m_send_queue c;
     m_send_buffer_size := m_send_buffer_size c; m_current_msgs := ms; m_write_flag := flag;
     dispatched := dispatched c; writes := writes c |}.
Definition set_dispatched (n : nat) (c : SendState) : SendState :=
  {| m_state := m_state c; m_send_queue := m_send_queue c;
     m_send_buffer_size := m_send_buffer_size c; m_current_msgs := m_current_msgs c;
     m_write_flag := m_write_flag c; dispatched := n; writes := writes c |}.
Definition async_write (c : SendState) : SendState :=
  {| m_state := m_state c; m_send_queue := m_send_queue c;
     m_send_buffer_size := m_send_buffer_size c; m_current_msgs := m_current_msgs c;
     m_write_flag := true; dispatched := dispatched c;
     writes := writes c ++ [m_current_msgs c] |}.

(** ** Operations *)

(** [now] is the clock in milliseconds, a [uint64_t]. *)
Definition write_push (now : Z) (msg : option outgoing) (reliable : bool) (c : SendState) :
    SendState :=
  match msg with
  | None => c
  | Some msg =>
      set_queue (m_send_queue c ++
                 [{| pushed_at := now; queued_msg := msg; is_reliable := reliable |}])
        (u64 (m_send_buffer_size c + payload_size msg)) c
  end.

(** The loop of [write_pop]; [msg] is the variable of that name. *)
Fixpoint pop_loop (now : Z) (msg : option outgoing) (queue : list queued) (size : Z) :
    option outgoing * list queued * Z :=
  match queue with
  | [] => (msg, [], size)
  | e :: queue =>
      let time_diff_ms := u64 (now - pushed_at e) in
      let size := u64 (size - payload_size (queued_msg e)) in
      if (time_diff_ms <? 100) || is_reliable e
      then (Some (queued_msg e), queue, size)
      else pop_loop now (Some (queued_msg e)) queue size
  end.

Definition write_pop (now : Z) (c : SendState) : option outgoing * SendState :=
  let '(msg, queue, size) := pop_loop now None (m_send_queue c) (m_send_buffer_size c) in
  (msg, set_queue queue size c).

Definition MAX_WRITE : Z := 1048576.

(** The loop of [write_frame]; [clock n] is what the [n]th call of [write_pop]
    reads. [None] is a loop that takes more turns than [fuel]. *)
Fixpoint frame_loop (fuel : nat) (clock : nat → Z) (n : nat) (next_message : option outgoing)
    (total_size : Z) (c : SendState) : option SendState :=
  match next_message with
  | None => Some c
  | Some msg =>
      let c := set_current (m_current_msgs c ++ [msg]) (m_write_flag c) c in
      let total_size := u64 (total_size + payload_size msg) in
      if MAX_WRITE <? total_size then Some c
      else if get_terminal msg then Some c
      else
        match fuel with
        | O => None
        | S fuel =>
            let '(next_message, c) := write_pop (clock n) c in
            frame_loop fuel clock (S n) next_message total_size c
        end
  end.

Definition write_frame (clock : nat → Z) (c : SendState) : option SendState :=
  if m_write_flag c then Some c
  else
    let fuel := length (m_send_queue c) in
    let '(next_message, c) := write_pop (clock O) c in
    c ← frame_loop fuel clock 1 next_message 0 c;
    Some (match m_current_msgs c with [] => c | _ => async_write c end).

(** [write_push], then a call of [write_frame] is dispatched unless a write is in
    progress, whose handler will do that. *)
Definition push_and_dispatch (now : Z) (msg : outgoing) (reliable : bool) (c : SendState) :
    SendState :=
  let c := write_push now (Some msg) reliable c in
  let needs_writing := negb (m_write_flag c) && negb (bool_decide (m_send_queue c = [])) in
  if needs_writing then set_dispatched (S (dispatched c)) c else c.

(** [send]: the result is whether there was no error. [msg] is what
    [prepare_data_frame] made of the message, if it could. *)
Definition send (now : Z) (msg : option (list byte)) (reliable : bool) (c : SendState) :
    bool * SendState :=
  if decide (m_state c = Open)
  then
    match msg with
    | None => (false, c)
    | Some payload =>
        (true, push_and_dispatch now {| get_payload := payload; get_terminal := false |}
                 reliable c)
    end
  else (false, c).

(** [ping], [pong]. *)
Definition send_control (now : Z) (payload : list byte) (c : SendState) : bool * SendState :=
  send now (Some payload) true c.

Definition send_close_frame (now : Z) (payload : list byte) (terminal : bool) (c : SendState) :
    SendState :=
  push_and_dispatch now {| get_payload := payload; get_terminal := terminal |} true
    (set_session Closing c).

(** The write is finished; [m_current_msgs.back()] is undefined on an empty
    vector. *)
Definition handle_write_frame (ec : bool) (c : SendState) : outcome SendState :=
  match last (m_current_msgs c) with
  | None => Undefined
  | Some back =>
      let c := set_current [] (m_write_flag c) c in
      if ec || get_terminal back then Ret (set_session Terminated c)
      else
        let c := set_current [] false c in
        let needs_writing := negb (bool_decide (m_send_queue c = [])) in
        Ret (if needs_writing then set_dispatched (S (dispatched c)) c else c)
  end.

(** ** Steps *)

(** A connection with the time of its last step, what was pushed on it, and whether
    the transport has a write to finish. *)
Record Sys := { conn : SendState; time : Z; pushed : list queued; writing : bool }.

Definition new_Sys (t : Z) : Sys :=
  {| conn := new_connection; time := t; pushed := []; writing := false |}.

Definition entry_of (now : Z) (msg : outgoing) (reliable : bool) : queued :=
  {| pushed_at := now; queued_msg := msg; is_reliable := reliable |}.

(** The clock does not go back and does not wrap; a payload fits in memory. The
    handler of a write is called once, when it is finished. *)
Inductive step : Sys → Sys → Prop :=
| step_send y now payload reliable :
    time y ≤ now < 2 ^ 64 → Z.of_nat (length payload) < 2 ^ 63 →
    m_state (conn y) = Open →
    step y {| conn := (send now (Some payload) reliable (conn y)).2; time := now;
              pushed := pushed y ++
                [entry_of now {| get_payload := payload; get_terminal := false |} reliable];
              writing := writing y |}
| step_refused y now msg reliable :
    time y ≤ now < 2 ^ 64 → msg = None ∨ m_state (conn y) ≠ Open →
    step y {| conn := (send now msg reliable (conn y)).2; time := now; pushed := pushed y;
              writing := writing y |}
| step_close y now payload terminal :
    time y ≤ now < 2 ^ 64 → Z.of_nat (length payload) < 2 ^ 63 →
    m_state (conn y) ≠ Terminated →
    step y {| conn := send_close_frame now payload terminal (conn y); time := now;
              pushed := pushed y ++
                [entry_of now {| get_payload := payload; get_terminal := terminal |} true];
              writing := writing y |}
| step_terminate y :
    step y {| conn := set_session Terminated (conn y); time := time y; pushed := pushed y;
              writing := writing y |}
| step_frame y n clock now c :
    dispatched (conn y) = S n → (∀ i, time y ≤ clock i ≤ now) → now < 2 ^ 64 →
    write_frame clock (set_dispatched n (conn y)) = Some c →
    step y {| conn := c; time := now; pushed := pushed y;
              writing := m_write_flag c && (writing y || negb (m_write_flag (conn y))) |}
| step_written y ec c :
    writing y = true → handle_write_frame ec (conn y) = Ret c →
    step y {| conn := c; time := time y; pushed := pushed y; writing := false |}.

Inductive reachable : Sys → Prop :=
| reachable_new t : 0 ≤ t < 2 ^ 64 → reachable (new_Sys t)
| reachable_step y y' : reachable y → step y y' → reachable y'.

(** ** Taking from the queue *)

Definition deliverable (now : Z) (e : queued) : Prop :=
  u64 (now - pushed_at e) < 100 ∨ is_reliable e = true.

#[export] Instance deliverable_dec now e : Decision (deliverable now e).
Proof. unfold deliverable. apply _. Defined.

Definition total_size (ms : list outgoing) : Z := foldr (λ m n, payload_size m + n) 0 ms.
Definition queue_size (q : list queued) : Z := total_size (queued_msg <$> q).

Lemma payload_size_nonneg m : 0 ≤ payload_size m.
Proof. unfold payload_size. lia. Qed.

Lemma total_size_app l1 l2 : total_size (l1 ++ l2) = total_size l1 + total_size l2.
Proof. induction l1 as [|m l1 IH]; simpl; [done|]. rewrite IH. lia. Qed.

Lemma total_size_nonneg l : 0 ≤ total_size l.
Proof. induction l as [|m l IH]; simpl; [done|]. pose proof (payload_size_nonneg m). lia. Qed.

Lemma queue_size_app l1 l2 : queue_size (l1 ++ l2) = queue_size l1 + queue_size l2.
Proof. unfold queue_size. by rewrite fmap_app, total_size_app. Qed.

Lemma queue_size_cons e q : queue_size (e :: q) = payload_size (queued_msg e) + queue_size q.
Proof. done. Qed.

Lemma u64_sub_l a b : u64 (u64 a - b) = u64 (a - b).
Proof. unfold u64. apply Zminus_mod_idemp_l. Qed.

Lemma deliverable_eqb now e :
  (u64 (now - pushed_at e) <? 100) || is_reliable e = bool_decide (deliverable now e).
Proof.
  symmetry. case_bool_decide as Hd; unfold deliverable in Hd; symmetry.
  - rewrite orb_true_iff, Z.ltb_lt. tauto.
  - rewrite orb_false_iff, Z.ltb_ge. destruct (is_reliable e); [tauto|]. split; [lia|done].
Qed.

(** What the loop does: it skips entries up to the first one it can deliver, and
    returns the last one it skipped when there is none. *)
Lemma pop_loop_spec now q msg size :
  let '(r, q', size') := pop_loop now msg q (u64 size) in
  ∃ skipped, Forall (λ e, ¬ deliverable now e) skipped ∧
    ((∃ e, q = skipped ++ e :: q' ∧ deliverable now e ∧ r = Some (queued_msg e) ∧
           size' = u64 (size - queue_size (skipped ++ [e]))) ∨
     (q = skipped ∧ q' = [] ∧
      r = match last q with Some e => Some (queued_msg e) | None => msg end ∧
      size' = u64 (size - queue_size skipped))).
Proof.
  revert msg size. induction q as [|e q IH]; intros msg size; cbn [pop_loop].
  - exists []. split; [done|]. right. split_and!; [done..|]. by rewrite Z.sub_0_r.
  - rewrite deliverable_eqb, u64_sub_l. case_bool_decide as Hd.
    + exists []. split; [done|]. left. exists e. split_and!; [done..|].
      unfold queue_size. simpl. f_equal. lia.
    + specialize (IH (Some (queued_msg e)) (size - payload_size (queued_msg e))).
      destruct (pop_loop _ _ _ _) as [[r q'] size'].
      destruct IH as (skipped & Hs & [(e' & -> & He' & -> & ->)|(-> & -> & -> & ->)]).
      * exists (e :: skipped). split; [by constructor|]. left. exists e'. split_and!; [done..|].
        cbn [app]. rewrite queue_size_cons. f_equal. lia.
      * exists (e :: skipped). split; [by constructor|]. right. split_and!; [done..| |].
        { destruct skipped as [|e' l]; [done|]. change (last (e :: e' :: l)) with (last (e' :: l)).
          by destruct (last (e' :: l)) eqn:E; [|by apply last_None in E]. }
        rewrite queue_size_cons. f_equal. lia.
Qed.

(** ** Invariant *)

(** [w] is what is written of the entries [l] that were taken from the queue, at
    time [now]: in order, and all but some that need not be delivered and have
    waited for 100 milliseconds. *)
Inductive delivered (now : Z) : list queued → list outgoing → Prop :=
| delivered_nil : delivered now [] []
| delivered_take l w e : delivered now l w → delivered now (l ++ [e]) (w ++ [queued_msg e])
| delivered_skip l w e :
    delivered now l w → is_reliable e = false → pushed_at e + 100 ≤ now →
    delivered now (l ++ [e]) w.

Lemma delivered_later now now' l w : now ≤ now' → delivered now l w → delivered now' l w.
Proof. intros Hle. induction 1; econstructor; eauto; lia. Qed.

(** A batch takes one message more than fits, and nothing after a terminal one. *)
Definition batch_ok (b : list outgoing) : Prop :=
  ∃ ms m, b = ms ++ [m] ∧ total_size ms ≤ MAX_WRITE ∧
          Forall (λ m, get_terminal m = false) ms.

Definition queued_ok (now : Z) (e : queued) : Prop :=
  0 ≤ pushed_at e ≤ now ∧ payload_size (queued_msg e) < 2 ^ 63.

Record sys_inv (y : Sys) : Prop := {
  si_time : 0 ≤ time y < 2 ^ 64;
  si_pushed : Forall (queued_ok (time y)) (pushed y);
  si_size : m_send_buffer_size (conn y) = u64 (queue_size (m_send_queue (conn y)));
  si_delivered : ∃ taken, pushed y = taken ++ m_send_queue (conn y) ∧
                          delivered (time y) taken (concat (writes (conn y)));
  si_batches : Forall batch_ok (writes (conn y));
  (** the write that is in progress, and the dispatch that is due *)
  si_writing : writing y = true → m_write_flag (conn y) = true ∧ m_current_msgs (conn y) ≠ [];
  si_idle : m_write_flag (conn y) = false → m_current_msgs (conn y) = [];
  si_stuck : m_write_flag (conn y) = true → writing y = false → m_state (conn y) = Terminated;
  si_awake : m_write_flag (conn y) = false → m_send_queue (conn y) ≠ [] →
             (0 < dispatched (conn y))%nat
}.

Lemma queued_ok_later t t' l : t ≤ t' → Forall (queued_ok t) l → Forall (queued_ok t') l.
Proof.
  intros Ht Hl. eapply Forall_impl; [exact Hl|]. intros e [??]. split; [lia|done].
Qed.

(** An entry that is skipped is old. *)
Lemma skipped_old now e :
  queued_ok now e → now < 2 ^ 64 → ¬ deliverable now e →
  is_reliable e = false ∧ pushed_at e + 100 ≤ now.
Proof.
  intros [Ht _] Hnow Hd. unfold deliverable in Hd.
  rewrite u64_small in Hd by (unfold is_u64; lia).
  destruct (is_reliable e); [naive_solver|]. split; [done|]. apply Decidable.not_or in Hd. lia.
Qed.

Lemma delivered_skip_all now now' l w skipped :
  now < 2 ^ 64 → now ≤ now' → Forall (queued_ok now) skipped →
  Forall (λ e, ¬ deliverable now e) skipped →
  delivered now' l w → delivered now' (l ++ skipped) w.
Proof.
  intros Hnow Hnow' Hok Hs Hl. revert Hok Hs. induction skipped as [|e skipped IH] using rev_ind.
  { by rewrite app_nil_r. }
  rewrite !Forall_app, !Forall_singleton. intros [Hok He] [Hs Hd].
  rewrite (assoc_L (++)). destruct (skipped_old now e He Hnow Hd). apply delivered_skip; auto; lia.
Qed.

(** Taking messages does not change the state of the session. *)
Lemma write_pop_state now c : m_state (write_pop now c).2 = m_state c.
Proof. unfold write_pop. by destruct (pop_loop _ _ _ _) as [[??]?]. Qed.

Lemma frame_loop_state fuel clock n next total c c' :
  frame_loop fuel clock n next total c = Some c' → m_state c' = m_state c.
Proof.
  revert n next total c. induction fuel as [|fuel IH]; intros n [msg|] total c; cbn [frame_loop];
    try (by intros [= <-]);
    repeat (case_match; [by intros [= <-]|]); [done|].
  pose proof (write_pop_state (clock n)
    (set_current (m_current_msgs c ++ [msg]) (m_write_flag c) c)) as Hp.
  destruct (write_pop _ _) as [next c1]. intros Hl%IH. by rewrite Hl.
Qed.

(** [write_pop]: what is returned is the next message that is written. *)
Lemma write_pop_ok now now' c taken w :
  now < 2 ^ 64 → now ≤ now' → Forall (queued_ok now) (m_send_queue c) →
  delivered now' taken w →
  m_send_buffer_size c = u64 (queue_size (m_send_queue c)) →
  ∃ r c' new, write_pop now c = (r, c') ∧ c' = set_queue (m_send_queue c')
                (u64 (queue_size (m_send_queue c'))) c ∧
    m_send_queue c = new ++ m_send_queue c' ∧
    delivered now' (taken ++ new) (w ++ option_list r) ∧
    (r = None ↔ m_send_queue c = []) ∧
    (∀ m, r = Some m → ∃ e, e ∈ m_send_queue c ∧ queued_msg e = m) ∧
    (length (m_send_queue c') + length (option_list r) ≤ length (m_send_queue c))%nat.
Proof.
  intros Hnow Hnow' Hq Hd Hsize. unfold write_pop. rewrite Hsize.
  pose proof (pop_loop_spec now (m_send_queue c) None (queue_size (m_send_queue c))) as Hp.
  destruct (pop_loop _ _ _ _) as [[r q'] size'].
  destruct Hp as (skipped & Hs & [(e & Hqe & He & -> & ->)|(Hqe & -> & -> & ->)]);
    rewrite Hqe in Hq.
  - eexists _, _, (skipped ++ [e]). split; [done|]. simpl. split_and!.
    + f_equal. f_equal. rewrite Hqe. rewrite cons_middle, (assoc_L (++)), queue_size_app. lia.
    + by rewrite Hqe, cons_middle, (assoc_L (++)).
    + rewrite (assoc_L (++)). apply delivered_take. apply Forall_app in Hq as [Hq _].
      by apply (delivered_skip_all now).
    + rewrite Hqe. by destruct skipped.
    + intros m [= <-]. exists e. rewrite Hqe. split; [set_solver|done].
    + rewrite Hqe. solve_length.
  - eexists _, _, (m_send_queue c). split; [done|]. simpl. split_and!.
    + f_equal. f_equal. rewrite Hqe. unfold queue_size at 3. simpl. lia.
    + by rewrite app_nil_r.
    + rewrite Hqe. destruct skipped as [|e' l _] using rev_ind; [by rewrite !app_nil_r|].
      rewrite last_snoc. simpl. rewrite (assoc_L (++)). apply delivered_take.
      apply Forall_app in Hq as [Hq _], Hs as [Hs _]. by apply (delivered_skip_all now).
    + destruct (last (m_send_queue c)) eqn:E; [|apply last_None in E; by rewrite E].
      split; [done|]. intros Hn. by rewrite Hn in E.
    + intros m Hm. destruct (last (m_send_queue c)) as [e|] eqn:E; simplify_eq/=.
      exists e. split; [|done]. apply last_Some in E as [l ->]. set_solver.
    + destruct (m_send_queue c) as [|e' l]; simpl; [done|].
      destruct (last _); simpl; lia.
Qed.

(** The loop of [write_frame] with a message to write: [w] was written before. *)
Lemma frame_loop_ok clock t now fuel w : (∀ i, t ≤ clock i ≤ now) → now < 2 ^ 64 →
  ∀ n m c taken,
  Forall (queued_ok t) (m_send_queue c) → payload_size m < 2 ^ 63 →
  m_send_buffer_size c = u64 (queue_size (m_send_queue c)) →
  delivered now taken (w ++ m_current_msgs c ++ [m]) →
  total_size (m_current_msgs c) ≤ MAX_WRITE →
  Forall (λ m, get_terminal m = false) (m_current_msgs c) →
  (length (m_send_queue c) < fuel)%nat →
  ∃ ms q new, frame_loop fuel clock n (Some m) (total_size (m_current_msgs c)) c =
      Some (set_current ms (m_write_flag c) (set_queue q (u64 (queue_size q)) c)) ∧
    m_send_queue c = new ++ q ∧ delivered now (taken ++ new) (w ++ ms) ∧ batch_ok ms.
Proof.
  intros Hclock Hnow.
  induction fuel as [|fuel IH]; intros n m c taken Hq Hm Hsize Hd Htot Hterm Hfuel; [lia|].
  cbn [frame_loop]. set (c1 := set_current (m_current_msgs c ++ [m]) (m_write_flag c) c).
  assert (batch_ok (m_current_msgs c ++ [m])) as Hb by (by exists (m_current_msgs c), m).
  assert (u64 (total_size (m_current_msgs c) + payload_size m) =
          total_size (m_current_msgs c1)) as Ht.
  { simpl. rewrite total_size_app. simpl. rewrite Z.add_0_r. apply u64_small. unfold is_u64, MAX_WRITE in *.
    pose proof (total_size_nonneg (m_current_msgs c)). pose proof (payload_size_nonneg m). lia. }
  rewrite Ht.
  assert (c1 = set_current (m_current_msgs c ++ [m]) (m_write_flag c)
                 (set_queue (m_send_queue c) (u64 (queue_size (m_send_queue c))) c)) as Hc1.
  { rewrite <-Hsize. by destruct c. }
  destruct (Z.ltb_spec MAX_WRITE (total_size (m_current_msgs c1))) as [_|Hfit].
  { exists (m_current_msgs c ++ [m]), (m_send_queue c), []. rewrite app_nil_r. by rewrite <-Hc1. }
  destruct (get_terminal m) eqn:Hmt.
  { exists (m_current_msgs c ++ [m]), (m_send_queue c), []. rewrite app_nil_r. by rewrite <-Hc1. }
  destruct (Hclock n) as [Hcl1 Hcl2].
  destruct (write_pop_ok (clock n) now c1 taken (w ++ m_current_msgs c1))
    as (r & c2 & new & -> & Hc2 & Hnew & Hd2 & Hr & Hin & Hlen); [lia|done| | |done|].
  { by eapply queued_ok_later. }
  { done. }
  destruct r as [m'|].
  - destruct (IH (S n) m' c2 (taken ++ new)) as (ms & q & new' & Hrun & Hq2 & Hd3 & Hb3).
    + change (m_send_queue c1) with (m_send_queue c) in Hnew. rewrite Hnew in Hq.
      by apply Forall_app in Hq as [_ Hq].
    + destruct (Hin m' eq_refl) as (e & He & <-).
      apply (proj1 (Forall_forall _ _) Hq e) in He. apply He.
    + by rewrite Hc2.
    + rewrite Hc2. simpl. simpl in Hd2. by rewrite <-(assoc_L (++)) in Hd2.
    + by rewrite Hc2.
    + rewrite Hc2. simpl. by apply Forall_app_2; [|constructor].
    + simpl in Hlen. lia.
    + exists ms, q, (new ++ new'). split_and!; [| |by rewrite (assoc_L (++))|done].
      * rewrite Hc2 in Hrun |- *. simpl in Hrun |- *. by rewrite Hrun.
      * change (m_send_queue c) with (m_send_queue c1). by rewrite Hnew, Hq2, (assoc_L (++)).
  - exists (m_current_msgs c ++ [m]), (m_send_queue c2), new. split_and!; [|done| |done].
    + destruct fuel; cbn [frame_loop]; by rewrite Hc2 at 1.
    + simpl in Hd2. by rewrite app_nil_r in Hd2.
Qed.

Lemma write_frame_ok clock t now c taken w :
  (∀ i, t ≤ clock i ≤ now) → now < 2 ^ 64 →
  m_write_flag c = false → m_current_msgs c = [] →
  Forall (queued_ok t) (m_send_queue c) →
  m_send_buffer_size c = u64 (queue_size (m_send_queue c)) →
  delivered now taken w →
  m_send_queue c = [] ∧ write_frame clock c = Some c ∨
  ∃ ms q new,
    write_frame clock c =
      Some (async_write (set_current ms false (set_queue q (u64 (queue_size q)) c))) ∧
    m_send_queue c = new ++ q ∧ delivered now (taken ++ new) (w ++ ms) ∧ batch_ok ms ∧
    (length q < length (m_send_queue c))%nat.
Proof.
  intros Hclock Hnow Hflag Hcur Hq Hsize Hd. unfold write_frame. rewrite Hflag.
  destruct (Hclock O) as [Hcl1 Hcl2].
  destruct (write_pop_ok (clock O) now c taken w) as (r & c1 & new & -> & Hc1 & Hnew & Hd1 & Hr & Hin & Hlen);
    [lia|done| |done|done|].
  { by eapply queued_ok_later. }
  destruct r as [m|].
  - right. destruct (frame_loop_ok clock t now (length (m_send_queue c)) w Hclock Hnow 1 m c1
      (taken ++ new)) as (ms & q & new' & Hrun & Hq1 & Hd2 & Hb).
    + rewrite Hnew in Hq. by apply Forall_app in Hq as [_ Hq].
    + destruct (Hin m eq_refl) as (e & He & <-).
      apply (proj1 (Forall_forall _ _) Hq e) in He. apply He.
    + by rewrite Hc1.
    + rewrite Hc1. simpl. by rewrite Hcur.
    + rewrite Hc1. simpl. by rewrite Hcur.
    + rewrite Hc1. simpl. by rewrite Hcur.
    + simpl in Hlen. lia.
    + exists ms, q, (new ++ new').
      split_and!; [|by rewrite Hnew, Hq1, (assoc_L (++))| |done|].
      * assert (m_current_msgs c1 = []) as E1 by (rewrite Hc1; simpl; done).
        rewrite E1 in Hrun. simpl in Hrun. rewrite Hrun. simpl.
        destruct Hb as (l & x & -> & _). rewrite Hc1. simpl. rewrite Hflag. by destruct l.
      * by rewrite (assoc_L (++)).
      * rewrite Hq1, length_app in Hlen. simpl in Hlen. lia.
  - left. assert (m_send_queue c = []) as Hqn by (by apply Hr).
    split; [done|].
    assert (m_send_queue c1 = []) as Hq1.
    { rewrite Hqn in Hnew. symmetry in Hnew. by apply app_nil in Hnew as [_ Hn]. }
    assert (c1 = c) as ->.
    { etrans; [exact Hc1|]. rewrite Hq1. rewrite Hqn in Hsize. unfold set_queue.
      rewrite <-Hsize, <-Hqn. by destruct c. }
    rewrite Hqn. simpl. by rewrite Hcur.
Qed.

(** Pushing an entry, under any state of the session. *)
Lemma push_inv y now msg reliable s :
  sys_inv y → time y ≤ now < 2 ^ 64 → payload_size msg < 2 ^ 63 →
  (m_state (conn y) = Terminated → s = Terminated) →
  sys_inv {| conn := push_and_dispatch now msg reliable (set_session s (conn y)); time := now;
             pushed := pushed y ++ [entry_of now msg reliable]; writing := writing y |}.
Proof.
  intros [Ht Hp Hs (taken & Htaken & Hd) Hb Hw Hi Hst Ha] Hnow Hm Hsess.
  unfold push_and_dispatch, write_push. cbn [m_write_flag m_send_queue set_queue set_session].
  rewrite (bool_decide_eq_false_2 (_ ++ _ = [])), andb_true_r by (by intros []%app_nil).
  destruct (m_write_flag (conn y)) eqn:Hf; cbn [negb]; split; simpl; rewrite ?Hf; try done; try lia;
    try (apply Forall_app_2; [by eapply queued_ok_later; [|done]; lia|]; constructor; [|done];
         split; simpl; [lia|done]);
    try (rewrite Hs, u64_add_l, queue_size_app; unfold queue_size at 3; simpl; f_equal; lia);
    try (exists taken; split; [by rewrite Htaken, (assoc_L (++))|by eapply delivered_later; [|done]; lia]);
    auto.
Qed.

Lemma set_session_same c : set_session (m_state c) c = c.
Proof. by destruct c. Qed.

Lemma frame_inv y n clock now c :
  sys_inv y → dispatched (conn y) = S n → (∀ i, time y ≤ clock i ≤ now) → now < 2 ^ 64 →
  write_frame clock (set_dispatched n (conn y)) = Some c →
  sys_inv {| conn := c; time := now; pushed := pushed y;
             writing := m_write_flag c && (writing y || negb (m_write_flag (conn y))) |}.
Proof.
  intros [Ht Hp Hs (taken & Htaken & Hd) Hb Hw Hi Hst Ha] Hn Hclock Hnow Hc.
  pose proof (Hclock O) as Ht0. assert (time y ≤ now) as Htn by lia.
  assert (Forall (queued_ok now) (pushed y)) as Hp' by (by eapply queued_ok_later).
  pose proof (delivered_later _ now _ _ Htn Hd) as Hd'.
  destruct (m_write_flag (conn y)) eqn:Hf.
  { unfold write_frame in Hc. simpl in Hc. rewrite Hf in Hc. injection Hc as <-.
    split; simpl; rewrite ?Hf, ?orb_false_r; try done; [lia|by exists taken]. }
  assert (Forall (queued_ok (time y)) (m_send_queue (conn y))) as Hq.
  { rewrite Htaken in Hp. by apply Forall_app in Hp as [_ Hp]. }
  destruct (write_frame_ok clock (time y) now (set_dispatched n (conn y)) taken
    (concat (writes (conn y))) Hclock Hnow Hf (Hi eq_refl) Hq Hs Hd')
    as [[Hq0 Hrun]|(ms & q & new & Hrun & Hq0 & Hd2 & Hbm & _)]; rewrite Hrun in Hc; injection Hc as <-.
  - split; simpl; rewrite ?Hf; try done; [lia|by exists taken].
  - simpl in Hq0. rewrite orb_true_r. split; simpl; try done.
    + lia.
    + exists (taken ++ new). split; [by rewrite Htaken, Hq0, (assoc_L (++))|].
      rewrite concat_app. simpl. by rewrite app_nil_r.
    + apply Forall_app_2; [done|by constructor].
    + intros _. split; [done|]. destruct Hbm as (l & x & -> & _). by destruct l.
Qed.

Lemma written_inv y ec c :
  sys_inv y → writing y = true → handle_write_frame ec (conn y) = Ret c →
  sys_inv {| conn := c; time := time y; pushed := pushed y; writing := false |}.
Proof.
  intros [Ht Hp Hs Hd Hb Hw Hi Hst Ha] Hwr. unfold handle_write_frame.
  destruct (last (m_current_msgs (conn y))) as [back|]; [|done].
  destruct (ec || get_terminal back); intros [= <-].
  - destruct (Hw Hwr) as [Hf _]. split; simpl; rewrite ?Hf; done.
  - case_bool_decide as Hq; simpl in Hq |- *; split; simpl; try done. intros _ _. lia.
Qed.

Lemma sys_step_inv y y' : sys_inv y → step y y' → sys_inv y'.
Proof.
  intros Hy Hstep. destruct Hstep as [y now payload r Ht Hlen Hopen|y now msg r Ht Hno
    |y now payload term Ht Hlen Hst|y|y n clock now c Hn Hclock Hnow Hc|y ec c Hw Hc].
  - unfold send. rewrite decide_True by done. cbn [snd].
    rewrite <-(set_session_same (conn y)) at 1. by apply push_inv.
  - assert ((send now msg r (conn y)).2 = conn y) as ->.
    { unfold send. destruct Hno as [->|Hno]; case_decide; done. }
    destruct Hy as [? Hp ? (taken & ? & ?) ? ? ? ? ?]. split; simpl; try done; [lia| |].
    + eapply queued_ok_later; [|done]. lia.
    + exists taken. split; [done|]. eapply delivered_later; [|done]. lia.
  - apply push_inv; done.
  - destruct Hy. by split.
  - by eapply frame_inv.
  - by eapply written_inv.
Qed.

Lemma sys_reachable_inv y : reachable y → sys_inv y.
Proof.
  induction 1 as [t Ht|y y' _ IH Hstep]; [|by eapply sys_step_inv].
  split; simpl; try done. exists []. split; [done|constructor].
Qed.

(** ** Properties *)

Lemma delivered_all now l w :
  delivered now l w →
  sublist w (queued_msg <$> l) ∧
  sublist (queued_msg <$> filter (λ e, is_reliable e = true ∨ now < pushed_at e + 100) l) w.
Proof.
  induction 1 as [|l w e _ [IH1 IH2]|l w e _ [IH1 IH2] Hr Ht]; [done|..];
    rewrite fmap_app, filter_app, fmap_app; simpl; split.
  - by apply sublist_app.
  - apply sublist_app; [done|]. rewrite filter_cons. case_decide; simpl; [done|].
    apply sublist_nil_l.
  - rewrite <-(app_nil_r w). apply sublist_app; [done|apply sublist_nil_l].
  - rewrite filter_cons_False by (rewrite Hr; intros [?|?]; [done|lia]). simpl.
    by rewrite app_nil_r.
Qed.

(** What [write_pop] amounts to: the first entry that is recent or reliable, with
    everything before it dropped; when there is none, the queue is emptied and the
    last entry is returned nevertheless. *)
Definition pop_reference (now : Z) (q : list queued) : option outgoing * list queued :=
  match list_find (deliverable now) q with
  | Some (i, e) => (Some (queued_msg e), drop (S i) q)
  | None => (queued_msg <$> last q, [])
  end.

Lemma list_find_skipped {A} (P : A → Prop) `{!∀ x, Decision (P x)} l x l' :
  Forall (λ x, ¬ P x) l → P x → list_find P (l ++ x :: l') = Some (length l, x).
Proof.
  intros Hl Hx. induction Hl as [|y l Hy _ IH]; simpl; [by rewrite decide_True|].
  by rewrite decide_False, IH.
Qed.

Lemma write_pop_equiv_aux (now : Z) (c : SendState) :
  m_send_buffer_size c = u64 (queue_size (m_send_queue c)) →
  write_pop now c =
    let '(msg, queue) := pop_reference now (m_send_queue c) in
    (msg, set_queue queue (u64 (queue_size queue)) c).
Proof.
  intros Hsize. unfold write_pop, pop_reference. rewrite Hsize.
  pose proof (pop_loop_spec now (m_send_queue c) None (queue_size (m_send_queue c))) as Hp.
  destruct (pop_loop _ _ _ _) as [[r q'] size'].
  destruct Hp as (skipped & Hs & [(e & -> & He & -> & ->)|(-> & -> & -> & ->)]).
  - rewrite list_find_skipped by done.
    assert (drop (S (length skipped)) (skipped ++ e :: q') = q') as ->.
    { rewrite cons_middle, (assoc_L (++)). apply drop_app_length'. solve_length. }
    f_equal. f_equal. f_equal. rewrite cons_middle, (assoc_L (++)), queue_size_app. lia.
  - rewrite (proj2 (list_find_None _ _) Hs), Z.sub_diag. by destruct (last skipped).
Qed.

(** C24. [write_pop] equals its reference: it takes the first message of the queue that
    must be delivered or is fresh, with the stale ones before it, and the last one
    when there is none; [get_buffered_amount] stays the size of what is queued. *)
Theorem write_pop_equiv (now : Z) (c : SendState) :
  m_send_buffer_size c = u64 (queue_size (m_send_queue c)) →
  write_pop now c =
    let '(msg, queue) := pop_reference now (m_send_queue c) in
    (msg, set_queue queue (u64 (queue_size queue)) c).
Proof. apply write_pop_equiv_aux. Qed.

(** Whatever the threads do: what is written or still queued is what was pushed, in
    order and without duplicates; every message that must be delivered is among it,
    and so is every message pushed less than 100 milliseconds ago. *)
Theorem reliable_messages_delivered (y : Sys) :
  reachable y →
  let kept := concat (writes (conn y)) ++ (queued_msg <$> m_send_queue (conn y)) in
  sublist kept (queued_msg <$> pushed y) ∧
  sublist (queued_msg <$> filter (λ e, is_reliable e = true ∨ time y < pushed_at e + 100)
                            (pushed y)) kept.
Proof.
  intros Hy kept. destruct (si_delivered y (sys_reachable_inv y Hy)) as (taken & -> & Hd).
  apply delivered_all in Hd as [Hd1 Hd2]. subst kept.
  rewrite fmap_app, filter_app, fmap_app. split; apply sublist_app; try done.
  apply fmap_sublist, sublist_filter.
Qed.

(** C25. A write is at most one message over a megabyte, holds nothing after a terminal
    message, and the buffered amount is the size of the queue. *)
Theorem write_bounds (y : Sys) :
  reachable y →
  m_send_buffer_size (conn y) = u64 (queue_size (m_send_queue (conn y))) ∧
  ∀ b, b ∈ writes (conn y) → ∃ ms m, b = ms ++ [m] ∧
    total_size b ≤ 1048576 + payload_size m ∧ Forall (λ m, get_terminal m = false) ms.
Proof.
  intros Hy%sys_reachable_inv. split; [apply Hy|]. intros b Hb.
  destruct (proj1 (Forall_forall _ _) (si_batches y Hy) b Hb) as (ms & m & -> & Hms & Ht).
  exists ms, m. split_and!; [done| |done]. rewrite total_size_app. unfold MAX_WRITE in Hms.
  simpl. lia.
Qed.

(** A dispatched [write_frame] takes something from a queue that is not empty. *)
Lemma frame_takes y :
  sys_inv y → m_send_queue (conn y) ≠ [] → m_write_flag (conn y) = false →
  ∃ y', step y y' ∧ (length (m_send_queue (conn y')) < length (m_send_queue (conn y)))%nat.
Proof.
  intros Hy Hq Hf. destruct (dispatched (conn y)) as [|n] eqn:Hn.
  { pose proof (si_awake y Hy Hf Hq). lia. }
  destruct Hy as [Ht Hp Hs (taken & Htaken & Hd) Hb Hw Hi Hst Ha].
  assert (Forall (queued_ok (time y)) (m_send_queue (conn y))) as Hqo.
  { rewrite Htaken in Hp. by apply Forall_app in Hp as [_ Hp]. }
  assert (∀ i : nat, time y ≤ (λ _, time y) i ≤ time y) as Hclock by (simpl; lia).
  destruct (write_frame_ok (λ _, time y) (time y) (time y) (set_dispatched n (conn y)) taken
    (concat (writes (conn y))) Hclock (proj2 Ht) Hf (Hi Hf) Hqo Hs Hd)
    as [[Hq0 _]|(ms & q & new & Hrun & _ & _ & _ & Hlen)]; [done|].
  eexists. split.
  - apply (step_frame y n (λ _, time y) (time y)); [done|exact Hclock|apply Ht|exact Hrun].
  - exact Hlen.
Qed.

(** Progress: as long as the connection is not terminated a queued message does not
    wait forever. A dispatched call of [write_frame], or the handler of the write in
    progress, which is defined, takes it or ends the connection. *)
Theorem queued_message_moves (y : Sys) :
  reachable y → m_send_queue (conn y) ≠ [] → m_state (conn y) ≠ Terminated →
  ∃ y', rtc step y y' ∧
    (m_state (conn y') = Terminated ∨
     (length (m_send_queue (conn y')) < length (m_send_queue (conn y)))%nat).
Proof.
  intros Hy%sys_reachable_inv Hq Hst. destruct (m_write_flag (conn y)) eqn:Hf.
  2:{ destruct (frame_takes y Hy Hq Hf) as (y' & Hstep & Hlen).
      exists y'. split; [by apply rtc_once|by right]. }
  destruct (writing y) eqn:Hw; [|by destruct Hst; apply (si_stuck y Hy)].
  destruct (handle_write_frame false (conn y)) as [c| |] eqn:Hc.
  2,3: revert Hc; unfold handle_write_frame; destruct (last _) eqn:E;
       [by destruct (false || _)|by apply last_None in E; destruct (si_writing y Hy Hw)].
  assert (step y {| conn := c; time := time y; pushed := pushed y; writing := false |}) as Hstep
    by (by eapply step_written).
  pose proof (sys_step_inv _ _ Hy Hstep) as Hy1.
  set (y1 := {| conn := c; time := time y; pushed := pushed y; writing := false |}) in *.
  assert (m_send_queue c = m_send_queue (conn y)) as Hqc.
  { revert Hc. unfold handle_write_frame. destruct (last _); [|done].
    destruct (false || _); intros [= <-]; [done|]. by case_bool_decide. }
  destruct (m_write_flag c) eqn:Hfc.
  { exists y1. split; [by apply rtc_once|]. left. by apply (si_stuck y1 Hy1). }
  destruct (frame_takes y1 Hy1) as (y' & Hstep' & Hlen); [by simpl; rewrite Hqc|done|].
  exists y'. split; [by eapply rtc_l; [|apply rtc_once]|]. right. simpl in Hlen. by rewrite <-Hqc.
Qed.

(** ** What goes wrong *)

(** A queue of messages that are all too old is not dropped: its last message is
    written, however old it is. *)
Theorem stale_message_sent (now : Z) (q : list queued) (e : queued) (c : SendState) :
  m_send_queue c = q ++ [e] → Forall (λ e, ¬ deliverable now e) (q ++ [e]) →
  m_send_buffer_size c = u64 (queue_size (m_send_queue c)) →
  write_pop now c = (Some (queued_msg e), set_queue [] 0 c).
Proof.
  intros Hq Hs Hsize. rewrite write_pop_equiv_aux by done. unfold pop_reference.
  by rewrite Hq, (proj2 (list_find_None _ _) Hs), last_snoc.
Qed.

(** When the clock is set back, a message that was just pushed is too old. *)
Theorem clock_set_back_drops (now t : Z) (msg : outgoing) :
  0 ≤ now < t → t < 2 ^ 63 → ¬ deliverable now (entry_of t msg false).
Proof.
  intros Hnow Ht [Hd|?]; [|done]. simpl in Hd. revert Hd. unfold u64.
  rewrite <-(Z.mod_add _ 1), Z.mod_small by lia. lia.
Qed.

(** ** Example *)

(** A message is written; while that write is in progress two more are sent, and one
    of them waits too long. *)
Definition demo_sent : Sys := {|
  conn := (send 1000 (Some [x01; x02]) true new_connection).2; time := 1000;
  pushed := [entry_of 1000 {| get_payload := [x01; x02]; get_terminal := false |} true];
  writing := false |}.

Definition demo_frame : SendState :=
  default new_connection (write_frame (λ _, 1000) (set_dispatched 0 (conn demo_sent))).

Definition demo_first : Sys :=
  {| conn := demo_frame; time := 1000; pushed := pushed demo_sent; writing := true |}.

Definition demo_old : Sys := {|
  conn := (send 1001 (Some [x03]) false demo_frame).2; time := 1001;
  pushed := pushed demo_first ++
    [entry_of 1001 {| get_payload := [x03]; get_terminal := false |} false];
  writing := true |}.

Definition demo_sys : Sys := {|
  conn := (send 1200 (Some [x04]) true (conn demo_old)).2; time := 1200;
  pushed := pushed demo_old ++
    [entry_of 1200 {| get_payload := [x04]; get_terminal := false |} true];
  writing := true |}.

Lemma demo_sys_reachable : reachable demo_sys.
Proof.
  assert (reachable demo_sent) as H0.
  { eapply reachable_step; [apply (reachable_new 1000); lia|].
    apply (step_send (new_Sys 1000) 1000 [x01; x02] true); simpl; [lia|lia|done]. }
  assert (reachable demo_first) as H1.
  { eapply reachable_step; [exact H0|].
    apply (step_frame demo_sent 0 (λ _, 1000) 1000 demo_frame); [done|simpl; lia|lia|done]. }
  eapply (reachable_step demo_old); [eapply (reachable_step demo_first); [exact H1|]|].
  - apply (step_send demo_first 1001 [x03] false); simpl; [lia|lia|done].
  - apply (step_send demo_old 1200 [x04] true); simpl; [lia|lia|done].
Qed.

Lemma reliable_messages_delivered_witness :
  reachable demo_sys ∧
  sublist (queued_msg <$> filter (λ e, is_reliable e = true ∨ time demo_sys < pushed_at e + 100)
                            (pushed demo_sys))
    (concat (writes (conn demo_sys)) ++ (queued_msg <$> m_send_queue (conn demo_sys))).
Proof.
  split; [apply demo_sys_reachable|].
  apply (reliable_messages_delivered demo_sys), demo_sys_reachable.
Defined.

Lemma write_bounds_witness :
  reachable demo_sys ∧ m_send_buffer_size (conn demo_sys) = 2 ∧ length (writes (conn demo_sys)) = 1%nat.
Proof.
  split; [apply demo_sys_reachable|]. split; [|reflexivity].
  rewrite (proj1 (write_bounds demo_sys demo_sys_reachable)). reflexivity.
Defined.

Lemma queued_message_moves_witness :
  ∃ y', rtc step demo_sys y' ∧
    (m_state (conn y') = Terminated ∨
     (length (m_send_queue (conn y')) < length (m_send_queue (conn demo_sys)))%nat).
Proof.
  apply (queued_message_moves demo_sys); [apply demo_sys_reachable|done|done].
Defined.

(** The second message has waited for 100 milliseconds and is skipped. *)
Lemma write_pop_equiv_witness :
  (write_pop 1200 (conn demo_sys)).1 = Some {| get_payload := [x04]; get_terminal := false |}.
Proof. rewrite (write_pop_equiv 1200 (conn demo_sys)); reflexivity. Defined.

Lemma stale_message_sent_witness :
  (write_pop 1200 (send 1001 (Some [x03]) false demo_frame).2).1 =
    Some {| get_payload := [x03]; get_terminal := false |}.
Proof.
  rewrite (stale_message_sent 1200 []
    (entry_of 1001 {| get_payload := [x03]; get_terminal := false |} false)); [done|done| |done].
  apply Forall_singleton. unfold deliverable. simpl. vm_compute. by intros [?|?].
Defined.
