(* ===== verification/Delivery.v ===== *)
(** * From the server to the client's socket

    The messages the server sends to one of its connections ([ServerSystem]) go
    through the send queue of that connection ([SendQueue]), whose threads run at
    any time.  [prepare] is what websocketpp makes of a message: the dumped JSON or
    the bytes, compressed when that is configured. *)

From Stdlib Require Import ZArith Lia.
From S2P Require Import Prelude Wire Json Serialization ServerState ServerMethods ServerLogic.
From S2P Require Import ServerInv ServerSync ServerSystem BridgeSync SendQueue.

Local Open Scope Z_scope.

(** ** Filtered sublists *)

Lemma sublist_filter_mono {A} (P : A → Prop) `{!∀ x, Decision (P x)} l1 l2 :
  sublist l1 l2 → sublist (filter P l1) (filter P l2).
Proof.
  induction 1 as [|x l1 l2 _ IH|x l1 l2 _ IH]; [done|..]; rewrite ?filter_cons;
    case_decide; by try constructor.
Qed.

Lemma sublist_filter_weaken {A} (P Q : A → Prop) `{!∀ x, Decision (P x)}
    `{!∀ x, Decision (Q x)} l :
  (∀ x, P x → Q x) → sublist (filter P l) (filter Q l).
Proof.
  intros HPQ. induction l as [|x l IH]; [done|]. rewrite !filter_cons.
  repeat case_decide; [by constructor|naive_solver|by constructor|done].
Qed.

Section Delivery.
Context {plat : Platform} {W : Type} (H : ServerHandlers W) `{!HandlersFrame H}.
Context (parse : list byte → outcome json) (prepare : message → list byte) (hdl : ConnHandle).
Context (Hprepare : ∀ m, Z.of_nat (length (prepare m)) < 2 ^ 63).

(** What the server sent on the connection, and with which flag. *)
Definition sends_to (tr : list event) : list (message * bool) :=
  omap (λ e, match e with
             | Send h m r => if decide (h = hdl) then Some (m, r) else None
             | Call _ => None
             end) tr.

Lemma sends_to_app tr1 tr2 : sends_to (tr1 ++ tr2) = sends_to tr1 ++ sends_to tr2.
Proof. apply omap_app. Qed.

(** [con->send]: refused when the connection is not open. *)
Definition sent (now : Z) (m : message) (reliable : bool) (y : Sys) : Sys :=
  {| conn := (send now (Some (prepare m)) reliable (conn y)).2; time := now;
     pushed := pushed y ++
       (if decide (m_state (conn y) = Open)
        then [entry_of now {| get_payload := prepare m; get_terminal := false |} reliable]
        else []);
     writing := writing y |}.

Lemma sent_step now m r y : time y ≤ now < 2 ^ 64 → SendQueue.step y (sent now m r y).
Proof.
  intros Hnow. unfold sent. case_decide as Ho; [by apply step_send|].
  rewrite app_nil_r. apply step_refused; auto.
Qed.

(** While a method sends, the threads of the connection go on. *)
Inductive feeds : list (message * bool) → Sys → Sys → Prop :=
| feeds_nil y : feeds [] y y
| feeds_step l y y1 y2 : SendQueue.step y y1 → feeds l y1 y2 → feeds l y y2
| feeds_send m r l y now y2 :
    time y ≤ now < 2 ^ 64 → feeds l (sent now m r y) y2 → feeds ((m, r) :: l) y y2.

(** The server with the connection. *)
Inductive joint : St W → Sys → Prop :=
| joint_init name options n w t :
    0 ≤ t < 2 ^ 64 → joint (mkSt (new_Server name options) n [] w) (new_Sys t)
| joint_server s s' y y' new :
    joint s y → ServerSystem.step H parse s s' → trace s' = trace s ++ new →
    feeds (sends_to new) y y' → joint s' y'
| joint_connection s y y' : joint s y → SendQueue.step y y' → joint s y'.

(** Nothing the server does is lost in this composition: whatever state it can reach,
    it can reach with an open connection. *)
Lemma joint_of_reachable t s :
  0 ≤ t < 2 ^ 64 → ServerSystem.reachable H parse s →
  ∃ y, joint s y ∧ time y = t ∧ m_state (conn y) = Open.
Proof.
  intros Ht. induction 1 as [name options n w|s s' _ (y & Hj & Hy & Ho) Hstep].
  { exists (new_Sys t). split; [by apply joint_init|done]. }
  assert (∃ new, trace s' = trace s ++ new) as [new Hnew].
  { destruct Hstep as [i s Hd|n s|w s]; simpl; [|exists []; by rewrite app_nil_r..].
    destruct (proj1 (preserves_state _ _) (entry_trace H parse i (trace s)) [] s) as [new ->];
      [done|done|by exists new]. }
  assert (∀ l z, time z = t → m_state (conn z) = Open →
    ∃ z', feeds l z z' ∧ time z' = t ∧ m_state (conn z') = Open) as Hfeeds.
  { induction l as [|[m r] l IH]; intros z Hz Hoz; [exists z; by split; [constructor|]|].
    destruct (IH (sent t m r z)) as (z' & Hz' & ? & ?); [done| |].
    { simpl. unfold send, push_and_dispatch. rewrite decide_True by done. simpl.
      by destruct (_ && _). }
    exists z'. split; [|done]. apply (feeds_send m r l z t); [rewrite Hz; lia|done]. }
  destruct (Hfeeds (sends_to new) y Hy Ho) as (y' & Hf & ? & ?).
  exists y'. split; [by eapply joint_server|done].
Qed.

(** ** Invariant *)

Definition flagged (e : queued) : list byte * bool :=
  (get_payload (queued_msg e), is_reliable e).

Definition prepared (l : list (message * bool)) : list (list byte * bool) :=
  (λ '(m, r), (prepare m, r)) <$> l.

(** A connection is not opened again, and what was pushed stays. *)
Lemma step_pushed y y' :
  SendQueue.step y y' →
  pushed y `prefix_of` pushed y' ∧ (m_state (conn y') = Open → m_state (conn y) = Open).
Proof.
  destruct 1 as [y now p r _ _ Ho|y now m r _ Hno|y now p t|y|y n clock now c Hn _ _ Hc|y ec c _ Hc];
    simpl; (split; [try done; by apply prefix_app_r|]); try done.
  - unfold send. destruct Hno as [->|?]; case_decide; done.
  - unfold send_close_frame, push_and_dispatch. simpl. by destruct (_ && _).
  - revert Hc. unfold write_frame. simpl. destruct (m_write_flag (conn y)); [by intros [= <-]|].
    pose proof (write_pop_state (clock O) (set_dispatched n (conn y))) as Hp.
    destruct (write_pop _ _) as [next c1]. simpl in Hp.
    destruct (frame_loop _ _ _ _ _ _) as [c2|] eqn:Hl; simpl; [|done]. intros [= <-].
    apply frame_loop_state in Hl. destruct (m_current_msgs c2); simpl; congruence.
  - revert Hc. unfold handle_write_frame. destruct (last _); [|done].
    destruct (_ || _); intros [= <-]; [done|]. by case_bool_decide.
Qed.

Lemma prepared_app l1 l2 : prepared (l1 ++ l2) = prepared l1 ++ prepared l2.
Proof. apply fmap_app. Qed.

Lemma feeds_pushed l y y' :
  feeds l y y' → SendQueue.reachable y →
  SendQueue.reachable y' ∧ (m_state (conn y') = Open → m_state (conn y) = Open ∧
    ∀ p, sublist p (flagged <$> pushed y) →
         sublist (p ++ prepared l) (flagged <$> pushed y')).
Proof.
  induction 1 as [y|l y y1 y2 Hstep _ IH|m r l y now y2 Hnow _ IH]; intros Hy.
  - split; [done|]. intros Ho. split; [done|]. intros p Hp. by rewrite app_nil_r.
  - destruct (IH (SendQueue.reachable_step _ _ Hy Hstep)) as [Hy2 Hopen]. split; [done|].
    intros Ho. destruct (Hopen Ho) as [Ho1 Hp]. destruct (step_pushed _ _ Hstep) as [[k Hk] Hback].
    split; [by apply Hback|]. intros p Hp'. apply Hp. rewrite Hk, fmap_app.
    by apply sublist_inserts_r.
  - pose proof (sent_step now m r y Hnow) as Hstep.
    destruct (IH (SendQueue.reachable_step _ _ Hy Hstep)) as [Hy2 Hopen]. split; [done|].
    intros Ho. destruct (Hopen Ho) as [Ho1 Hp]. destruct (step_pushed _ _ Hstep) as [_ Hback].
    specialize (Hback Ho1). split; [done|]. intros p Hp'.
    change (prepared ((m, r) :: l)) with ([(prepare m, r)] ++ prepared l). rewrite (assoc_L (++)).
    apply Hp. simpl. rewrite decide_True, fmap_app by done. by apply sublist_app.
Qed.

Lemma joint_pushed s y :
  joint s y → SendQueue.reachable y ∧
  (m_state (conn y) = Open →
   sublist (prepared (sends_to (trace s))) (flagged <$> pushed y)).
Proof.
  induction 1 as [name options n w t Ht|s s' y y' new _ [Hy IH] Hstep Htr Hf|s y y' _ [Hy IH] Hstep].
  - split; [by constructor|done].
  - destruct (feeds_pushed _ _ _ Hf Hy) as [Hy' Hopen]. split; [done|]. intros Ho.
    destruct (Hopen Ho) as [Ho1 Hp]. rewrite Htr, sends_to_app, prepared_app. auto.
  - split; [by eapply SendQueue.reachable_step|]. intros Ho.
    destruct (step_pushed _ _ Hstep) as [[k ->] Hback]. rewrite fmap_app.
    apply sublist_inserts_r. auto.
Qed.

Lemma filter_prepared l q :
  sublist (prepared l) (flagged <$> q) →
  sublist (prepare <$> (filter (λ m, m.2 = true) l).*1)
    (get_payload <$> (queued_msg <$> filter (λ e, is_reliable e = true) q)).
Proof.
  intros Hl%(sublist_filter_mono (λ p, p.2 = true)).
  apply (fmap_sublist fst) in Hl. revert Hl.
  assert ((filter (λ p, p.2 = true) (prepared l)).*1 =
          prepare <$> (filter (λ m, m.2 = true) l).*1) as ->.
  { clear. induction l as [|[m r] l IH]; [done|].
    change (prepared ((m, r) :: l)) with ((prepare m, r) :: prepared l).
    rewrite !filter_cons. destruct r; simpl; [by f_equal|exact IH]. }
  assert ((filter (λ p, p.2 = true) (flagged <$> q)).*1 =
          get_payload <$> (queued_msg <$> filter (λ e, is_reliable e = true) q)) as ->; [|done].
  clear. induction q as [|e q IH]; [done|]. rewrite fmap_cons, !filter_cons. simpl.
  destruct (is_reliable e); simpl; [by f_equal|exact IH].
Qed.

(** C4. Everything the server sends reliably on an open connection (all its messages but
    the data of topics) is written to the socket or still queued, in the order it
    was sent, whatever the server, the clients and the threads of the connection
    do. *)
Theorem server_messages_delivered (s : St W) (y : Sys) :
  joint s y → m_state (conn y) = Open →
  sublist (prepare <$> (filter (λ m, m.2 = true) (sends_to (trace s))).*1)
    (get_payload <$> concat (writes (conn y)) ++ (queued_msg <$> m_send_queue (conn y))).
Proof.
  intros Hj Ho. destruct (joint_pushed s y Hj) as [Hy Hp]. specialize (Hp Ho).
  etrans; [apply (filter_prepared (sends_to (trace s)) (pushed y) Hp)|].
  destruct (si_delivered y (sys_reachable_inv y Hy)) as (taken & -> & Hd).
  apply delivered_all in Hd as [_ Hd]. rewrite filter_app, !fmap_app.
  apply sublist_app.
  - etrans; [|by apply fmap_sublist, Hd]. apply fmap_sublist, fmap_sublist, sublist_filter_weaken. auto.
  - apply fmap_sublist, fmap_sublist, sublist_filter.
Qed.

End Delivery.

(** ** Example *)

(** The session of [ServerSystem] on the connection of its first client. *)
Definition demo_prepare (m : message) : list byte :=
  match m with
  | Text _ => [x7b; x7d]
  | Binary b => take 16 b
  end.

Lemma demo_prepare_size m : Z.of_nat (length (demo_prepare m)) < 2 ^ 63.
Proof. destruct m as [j|b]; simpl; [lia|]. rewrite length_take. lia. Qed.

Lemma server_messages_delivered_witness :
  ∃ y, joint (plat:=x86_64) demo_handlers demo_parse demo_prepare 1%nat demo_state y ∧
    sublist (demo_prepare <$> (filter (λ m, m.2 = true) (sends_to 1%nat (trace demo_state))).*1)
      (get_payload <$> concat (writes (conn y)) ++ (queued_msg <$> m_send_queue (conn y))) ∧
    filter (λ m, m.2 = true) (sends_to 1%nat (trace demo_state)) ≠ [].
Proof.
  destruct (joint_of_reachable (plat:=x86_64) demo_handlers demo_parse demo_prepare 1%nat
    0 demo_state) as (y & Hj & _ & Ho); [lia|apply demo_reachable|].
  exists y. split_and!; [done| |vm_compute; done].
  apply (server_messages_delivered (plat:=x86_64) demo_handlers demo_parse demo_prepare 1%nat
    demo_prepare_size demo_state y Hj Ho).
Defined.
