(* ===== verification/GenericPubSub.v ===== *)
(** * Generic subscriptions and publishers of the ROS 2 bridge on Foxy

    Foxy has no generic publisher and subscription; the bridge brings its own
    ([generic_subscription.cpp], [generic_publisher.cpp] and the headers that create
    them).  rcl and rclcpp are the parameter [foxy_env].  What the bridge does with
    the result of these functions is [Ros2Bridge.subscribe] and
    [Ros2Bridge.client_advertise], here with the functions of this file in the place
    of those of later versions. *)

From Stdlib Require Import ZArith Lia.
From S2P Require Import Prelude Wire Text Json Serialization ServerState ServerMethods ServerLogic.
From S2P Require Import ServerInv ServerSpecs MessageDefinitionCache ParameterInterface.
From S2P Require Import BridgeParams BridgeTables BridgeSync GenericClient Ros2Bridge.
From S2P Require Import ServerRuns ServerSystem Ros2Handlers Ros2System Ros2Specs Ros2Scenarios.

Local Open Scope Z_scope.
Import Ros2Node.

(** ** rcl and rclcpp *)

Record foxy_env := {
  (** the constructors of [SubscriptionBase] and [PublisherBase] with a type support,
      a topic and a profile: what they throw, if they do *)
  SubscriptionBase : string → string → QoS → option exn;
  PublisherBase : string → string → QoS → option exn;
  (** [NodeTopicsInterface::add_subscription] *)
  add_subscription : string → option exn;
  (** [rcl_publish_serialized_message]: a return code *)
  rcl_publish_serialized_message : string → list byte → Z;
  foxy_rcl : rcl_env
}.

(** [catch (const std::runtime_error &)]. *)
Definition is_runtime_error (e : exn) : bool :=
  match e with
  | RuntimeError _ | ChannelError _ _ | ClientChannelError _ _ | ServiceError _ _ => true
  | StdException _ | UnknownException => false
  end.

(** ** Subscriptions *)

(** [K] is the type of callbacks; [is_serialized] is the last argument of the
    constructor of the base class. *)
Record GenericSubscription (K : Type) := {
  gsub_topic : string;
  gsub_type : string;
  gsub_qos : QoS;
  gsub_callback : K;
  gsub_is_serialized : bool;
  gsub_last_frame_timestamp : Z;
  gsub_use_down_sample : bool
}.
Arguments gsub_topic {_}.
Arguments gsub_type {_}.
Arguments gsub_qos {_}.
Arguments gsub_callback {_}.
Arguments gsub_is_serialized {_}.

(** What the node has: the subscriptions its executor takes messages from. *)
Record NodeTopics (K : Type) := { registered : list (GenericSubscription K) }.
Arguments registered {_}.

(** A [rclcpp::SerializedMessage]. *)
Record SerializedMessage := { capacity : Z; buffer : list byte }.

Section Foxy.
Context (f : foxy_env) {K : Type}.

Definition new_GenericSubscription (type_support topic_name topic_type : string) (qos : QoS)
    (callback : K) : outcome (GenericSubscription K) :=
  match SubscriptionBase f type_support topic_name qos with
  | Some e => Throw e
  | None =>
      Ret {| gsub_topic := topic_name; gsub_type := topic_type; gsub_qos := qos;
             gsub_callback := callback; gsub_is_serialized := true;
             gsub_last_frame_timestamp := 0; gsub_use_down_sample := false |}
  end.

(** The result is a pointer, [None] the null one. The [catch] block makes an exception
    and does not throw it. *)
Definition create_generic_subscription (topic type : string) (qos : QoS) (callback : K)
    (n : NodeTopics K) : outcome (option (GenericSubscription K)) * NodeTopics K :=
  match (library ← get_typesupport_library (foxy_rcl f) type TYPESUPPORT_LIB_NAME;
         get_typesupport_handle (foxy_rcl f) type TYPESUPPORT_LIB_NAME library) with
  | Throw e => (Throw e, n)
  | Undefined => (Undefined, n)
  | Ret type_support =>
      match new_GenericSubscription type_support topic type qos callback with
      | Undefined => (Undefined, n)
      | Throw e => (if is_runtime_error e then Ret None else Throw e, n)
      | Ret subscription =>
          match add_subscription f topic with
          | Some e => (if is_runtime_error e then Ret (Some subscription) else Throw e, n)
          | None => (Ret (Some subscription), {| registered := registered n ++ [subscription] |})
          end
      end
  end.

(** A message: the callback is called with it and the time of its source. *)
Definition handle_message {A} (run : K → list byte → Z → A) (s : GenericSubscription K)
    (message : SerializedMessage) (source_timestamp : Z) : A :=
  run (gsub_callback s) (buffer message) (u64 source_timestamp).

Definition handle_loaned_message (message : SerializedMessage) (source_timestamp : Z) : unit := tt.

Definition borrow_serialized_message (capacity : Z) : SerializedMessage :=
  {| capacity := capacity; buffer := [] |}.

Definition create_serialized_message : SerializedMessage := borrow_serialized_message 0.

Definition create_message : SerializedMessage := create_serialized_message.

(** The argument is a reference to the caller's pointer. *)
Definition return_serialized_message (message : option SerializedMessage) :
    option SerializedMessage := None.

(** Only the cast, a local pointer, is reset. *)
Definition return_message (message : option SerializedMessage) : option SerializedMessage :=
  let typed_message := message in
  let typed_message := return_serialized_message typed_message in
  message.

(** ** Publishers *)

Definition create_generic_publisher (topic type : string) (qos : QoS) : outcome Publisher :=
  library ← get_typesupport_library (foxy_rcl f) type TYPESUPPORT_LIB_NAME;
  type_support ← get_typesupport_handle (foxy_rcl f) type TYPESUPPORT_LIB_NAME library;
  match PublisherBase f type_support topic qos with
  | Some e => Throw e
  | None => Ret {| pub_topic := topic; pub_type := type; pub_qos := qos |}
  end.

Definition RCL_RET_OK : Z := 0.

Definition publish (topic : string) (message : list byte) : outcome unit :=
  let return_code := rcl_publish_serialized_message f topic message in
  if return_code =? RCL_RET_OK then Ret tt
  else Throw (rcl_error (foxy_rcl f) return_code "failed to publish serialized message").

End Foxy.

(** ** The bridge on Foxy *)

(** The arguments [std::bind] keeps, and the call it makes. *)
Abbreviation SubscriptionCallback := (Z * ConnHandle)%type.

Definition run_callback {plat : Platform} (k : SubscriptionCallback) (msg : list byte)
    (timestamp : Z) : M Node unit :=
  ros_message_handler k.1 k.2 msg timestamp.

Definition thrown {A} (r : outcome A) : option exn :=
  match r with Throw e => Some e | _ => None end.

(** The environment of the node, with the functions of this file; the callback and
    the node's other subscriptions do not matter for what they throw. *)
Definition foxy_ros_env (f : foxy_env) (e : RosEnv) : RosEnv := {|
  rclcpp_ok := rclcpp_ok e;
  get_topic_names_and_types := get_topic_names_and_types e;
  get_service_names_and_types := get_service_names_and_types e;
  get_publishers_info_by_topic := get_publishers_info_by_topic e;
  get_subscriptions_info_by_topic := get_subscriptions_info_by_topic e;
  get_service_names_and_types_by_node := get_service_names_and_types_by_node e;
  Ros2Node.create_generic_subscription topic type qos :=
    thrown (create_generic_subscription f topic type qos tt {| registered := [] |}).1;
  Ros2Node.create_generic_publisher topic type qos :=
    thrown (create_generic_publisher f topic type qos);
  Ros2Node.publish topic message := thrown (publish f topic message);
  wait_for_service := wait_for_service e;
  add_client := add_client e;
  retrieve := retrieve e;
  now_nanoseconds := now_nanoseconds e;
  rcl := rcl e;
  parameter_graph := parameter_graph e
|}.

(** What is thrown depends neither on the callback nor on the node. *)
Lemma create_generic_subscription_thrown f {K} topic type qos (k : K) n :
  thrown (create_generic_subscription f topic type qos k n).1 =
  thrown (create_generic_subscription f topic type qos tt {| registered := [] |}).1.
Proof.
  unfold create_generic_subscription, new_GenericSubscription.
  destruct (get_typesupport_library _ _ _ ≫= _); [|done..].
  destruct (SubscriptionBase _ _ _ _); simpl; [by destruct (is_runtime_error _)|].
  destruct (add_subscription _ _); simpl; [by destruct (is_runtime_error _)|done].
Qed.

Section Bridge.
Context {plat : Platform} (cfg : Config) (parse : list byte → outcome json) (f : foxy_env).
Implicit Types (s : St Node).

(** The type support of a message type is found and loaded. *)
Definition typesupport (type : string) : outcome string :=
  library ← get_typesupport_library (foxy_rcl f) type TYPESUPPORT_LIB_NAME;
  get_typesupport_handle (foxy_rcl f) type TYPESUPPORT_LIB_NAME library.

(** The message a subscription takes reaches the client it was made for, with the time of
    its source, or the node's time when there is none. *)
Theorem foxy_message_reaches_client (type : string) (qos : QoS) (ch : Z) (hdl : ConnHandle)
    (n n' : NodeTopics SubscriptionCallback) (sub : GenericSubscription SubscriptionCallback)
    (topic : string) (message : SerializedMessage) (source_timestamp sub_id : Z) s :
  create_generic_subscription f topic type qos (ch, hdl) n = (Ret (Some sub), n') →
  is_Some (net s !! hdl) → server_sub (srv s) hdl ch = Some sub_id →
  gsub_topic sub = topic ∧ gsub_qos sub = qos ∧ gsub_is_serialized sub = true ∧
  handle_message run_callback sub message source_timestamp [] s =
  (Ret tt, add_trace [Send hdl (Binary (x01 :: le_bytes 4 sub_id ++
     le_bytes 8 (message_time (u64 source_timestamp) (now_nanoseconds (env (world s)))) ++
     buffer message)) false] s).
Proof.
  intros Hc [con Hnet] Hsub.
  assert (∃ t, new_GenericSubscription f t topic type qos (ch, hdl) = Ret sub) as [t Ht].
  { revert Hc. unfold create_generic_subscription.
    destruct (get_typesupport_library _ _ _ ≫= _) as [t| |]; [|done..]. intros Hc. exists t.
    destruct (new_GenericSubscription _ _ _ _ _ _) as [sub'|e|]; [|by destruct (is_runtime_error e)|done].
    destruct (add_subscription f topic) as [e|]; [destruct (is_runtime_error e)|]; by simplify_eq. }
  revert Ht. unfold new_GenericSubscription. destruct (SubscriptionBase _ _ _ _); [done|].
  intros [= <-]. split_and!; [done..|].
  unfold handle_message, run_callback, ros_message_handler.
  erewrite bind_run by reflexivity. rewrite send_message_run.
  cbn [gsub_callback fst snd]. rewrite Hnet. unfold server_sub in Hsub. by rewrite Hsub.
Qed.

(** ** A failure that is not reported *)

(** When rcl cannot make the subscription, or the node cannot take it, for a
    [std::runtime_error], nothing is thrown: [subscribe] succeeds, the bridge says the
    client is subscribed, and the node has no subscription that takes messages. *)
Theorem foxy_subscribe_error_lost (channel : ChannelWithoutId) (ch : Z) (hdl : ConnHandle)
    (e : RosEnv) (infos : list TopicEndpointInfo) (t : string) (err : exn) L s
    (n : NodeTopics SubscriptionCallback) :
  env (world s) = foxy_ros_env f e → bridge_subscriptions_mutex ∉ L →
  advertised_topics (tables (world s)) !! ch = Some channel →
  subscriptions (tables (world s)) !! ch = None →
  get_publishers_info_by_topic e (topic channel) = Ret infos →
  typesupport (schema_name channel) = Ret t → is_runtime_error err = true →
  let base := SubscriptionBase f t (topic channel) (subscription_qos cfg infos) in
  base = Some err ∨ (base = None ∧ add_subscription f (topic channel) = Some err) →
  (∃ p, create_generic_subscription f (topic channel) (schema_name channel)
          (subscription_qos cfg infos) (ch, hdl) n = (Ret p, n)) ∧
  ∃ s', subscribe cfg ch hdl L s = (Ret tt, s') ∧
    is_Some (subscription_of (tables (world s')) ch hdl) ∧ trace s' = trace s.
Proof.
  intros He HL Hch Hno Hinfo Ht Herr base Hbase. unfold typesupport in Ht.
  assert (∀ K (k : K) m, ∃ p, create_generic_subscription f (topic channel) (schema_name channel)
    (subscription_qos cfg infos) k m = (Ret p, m)) as Hnone.
  { intros K k m. unfold create_generic_subscription, new_GenericSubscription. rewrite Ht.
    fold base. destruct Hbase as [->|[-> ->]]; rewrite Herr; by eexists. }
  split; [apply Hnone|].
  unfold subscribe, with_lock. rewrite decide_False by done. run_node.
  simpl in Hch, Hno. rewrite Hch. run_node. rewrite Hno, bool_decide_true by done.
  cbn [negb andb env world set_node_tables]. rewrite He. cbn [get_publishers_info_by_topic foxy_ros_env]. rewrite Hinfo.
  cbn [Ros2Node.create_generic_subscription foxy_ros_env].
  destruct (Hnone unit tt {| registered := [] |}) as [p ->]. simpl.
  eexists. split; [done|]. split; [|done]. simpl. unfold subscription_of. simpl.
  rewrite lookup_alter_eq, lookup_emplace_at, decide_True by done. simpl.
  rewrite Hno. simpl. rewrite lookup_emplace_at, decide_True by done. by destruct (_ !! hdl).
Qed.

End Bridge.

(** ** Example *)

Definition foxy_demo (base : option exn) : foxy_env := {|
  SubscriptionBase _ _ _ := base;
  PublisherBase _ _ _ := None;
  add_subscription _ := None;
  rcl_publish_serialized_message _ _ := 0;
  foxy_rcl := demo_rcl
|}.

Lemma foxy_message_reaches_client_witness :
  ∃ sub, create_generic_subscription (foxy_demo None) "/pose" "geo/Pose" (demo_qos 3)
      (1, 1%nat) {| registered := [] |} = (Ret (Some sub), {| registered := [sub] |}) ∧
    (handle_message (run_callback (plat:=x86_64)) sub {| capacity := 2; buffer := [x61; x62] |} 5
       [] bridge_state).1 = Ret tt.
Proof.
  eexists. split; [reflexivity|].
  refine (f_equal fst (proj2 (proj2 (proj2 (foxy_message_reaches_client (plat:=x86_64)
    (foxy_demo None) "geo/Pose" (demo_qos 3) 1 1%nat {| registered := [] |} _ _ "/pose" _ 5 7
    bridge_state _ _ _))))).
  - reflexivity.
  - vm_compute. by eexists.
  - vm_compute. reflexivity.
Defined.

Definition foxy_broken : foxy_env := foxy_demo (Some (RuntimeError "rcl node is invalid")).

(** The session of [Ros2Scenarios] up to the request to subscribe, on a node whose
    subscriptions fail. *)
Definition foxy_state : St Node :=
  let s := default bridge_init (run_bridge [PollStart; FromClient (Opened 1); bridge_request 1 0]
                                  bridge_init) in
  mkSt (srv s) (net s) (trace s) (set_env (world s) (foxy_ros_env foxy_broken demo_env)).

Lemma foxy_subscribe_error_lost_witness :
  ∃ s', subscribe demo_config 1 1%nat [] foxy_state = (Ret tt, s') ∧
    is_Some (subscription_of (tables (world s')) 1 1%nat) ∧ trace s' = trace foxy_state.
Proof.
  destruct (advertised_topics (tables (world foxy_state)) !! 1) as [channel|] eqn:Hch;
    [|vm_compute in Hch; discriminate].
  assert (schema_name channel = "geo/Pose") as Hs by (vm_compute in Hch; by simplify_eq).
  refine (proj2 (foxy_subscribe_error_lost demo_config foxy_broken channel 1 1%nat demo_env
    [{| endpoint_node_name := "talker"; endpoint_node_namespace := "/"; qos_profile := demo_qos 3 |};
     {| endpoint_node_name := "other"; endpoint_node_namespace := "/"; qos_profile := demo_qos 0 |}]
    "rosidl_typesupport_cpp__get_message_type_support_handle__geo__msg__Pose"
    (RuntimeError "rcl node is invalid") [] foxy_state {| registered := [] |} _ _ Hch _ _ _ _ _)).
  - reflexivity.
  - by apply not_elem_of_nil.
  - vm_compute. reflexivity.
  - reflexivity.
  - rewrite Hs. vm_compute. reflexivity.
  - reflexivity.
  - left. reflexivity.
Defined.
