(* ===== verification/ServerFactory.v ===== *)
(** * The server factory and TLS

    [server_factory.cpp]: which of the two configurations a server has, and the
    context a TLS server makes for each connection.  OpenSSL is the parameter
    [ssl_env]; the members of a server are those of [ServerState] in both
    configurations. *)

From Stdlib Require Import ZArith Lia.
From S2P Require Import Prelude Text Wire Json Serialization ServerState ServerSystem.

Local Open Scope Z_scope.

(** [WebSocketNoTls] and [WebSocketTls] differ in their socket. *)
Inductive ServerConfiguration := WebSocketNoTls | WebSocketTls.

#[export] Instance ServerConfiguration_eq_dec : EqDecision ServerConfiguration.
Proof. solve_decision. Defined.

Definition create_server (name : string) (options : ServerOptions) : ServerConfiguration * Server :=
  (if use_tls options then WebSocketTls else WebSocketNoTls, new_Server name options).

(** ** The TLS context *)

Inductive ssl_option := default_workarounds | no_tlsv1 | no_sslv2 | no_sslv3.

#[export] Instance ssl_option_eq_dec : EqDecision ssl_option.
Proof. solve_decision. Defined.

(** What a call throws, if it does; [SSL_CTX_set_cipher_list] says whether it
    succeeded. *)
Record ssl_env := {
  ssl_context_make : option exn;
  ssl_set_options : option exn;
  use_certificate_chain_file : string → option exn;
  use_private_key_file : string → option exn;
  SSL_CTX_set_cipher_list : string → bool
}.

Record ssl_context := {
  ctx_options : list ssl_option;
  ctx_certificate : option string;
  ctx_private_key : option string;
  ctx_ciphers : option string
}.

Definition new_ssl_context : ssl_context :=
  {| ctx_options := []; ctx_certificate := None; ctx_private_key := None; ctx_ciphers := None |}.

Definition ciphers : string :=
  "ECDHE-RSA-AES128-GCM-SHA256:ECDHE-ECDSA-AES128-GCM-SHA256:ECDHE-RSA-AES256-GCM-SHA384:" +:+
  "ECDHE-ECDSA-AES256-GCM-SHA384:DHE-RSA-AES128-GCM-SHA256:DHE-DSS-AES128-GCM-SHA256:kEDH+" +:+
  "AESGCM:ECDHE-RSA-AES128-SHA256:ECDHE-ECDSA-AES128-SHA256:ECDHE-RSA-AES128-SHA:ECDHE-ECDSA-" +:+
  "AES128-SHA:ECDHE-RSA-AES256-SHA384:ECDHE-ECDSA-AES256-SHA384:ECDHE-RSA-AES256-SHA:ECDHE-" +:+
  "ECDSA-AES256-SHA:DHE-RSA-AES128-SHA256:DHE-RSA-AES128-SHA:DHE-DSS-AES128-SHA256:DHE-RSA-" +:+
  "AES256-SHA256:DHE-DSS-AES256-SHA:DHE-RSA-AES256-SHA:!aNULL:!eNULL:!EXPORT:!DES:!RC4:!3DES:" +:+
  "!MD5:!PSK".

(** The statements of the [try] block in order: the context as far as they got, and
    the exception that ended them or whether the cipher list failed. *)
Definition configure (ssl : ssl_env) (options : ServerOptions) (ctx : ssl_context) :
    ssl_context * (exn + bool) :=
  match ssl_set_options ssl with
  | Some e => (ctx, inl e)
  | None =>
      let ctx := {| ctx_options := [default_workarounds; no_tlsv1; no_sslv2; no_sslv3];
                    ctx_certificate := ctx_certificate ctx;
                    ctx_private_key := ctx_private_key ctx; ctx_ciphers := ctx_ciphers ctx |} in
      match use_certificate_chain_file ssl (cert_file options) with
      | Some e => (ctx, inl e)
      | None =>
          let ctx := {| ctx_options := ctx_options ctx;
                        ctx_certificate := Some (cert_file options);
                        ctx_private_key := ctx_private_key ctx;
                        ctx_ciphers := ctx_ciphers ctx |} in
          match use_private_key_file ssl (key_file options) with
          | Some e => (ctx, inl e)
          | None =>
              let ctx := {| ctx_options := ctx_options ctx;
                            ctx_certificate := ctx_certificate ctx;
                            ctx_private_key := Some (key_file options);
                            ctx_ciphers := ctx_ciphers ctx |} in
              if SSL_CTX_set_cipher_list ssl ciphers
              then ({| ctx_options := ctx_options ctx; ctx_certificate := ctx_certificate ctx;
                       ctx_private_key := ctx_private_key ctx; ctx_ciphers := Some ciphers |},
                    inr true)
              else (ctx, inr false)
          end
      end
  end.

(** The handler [setup_tls_handler] installs: the context of a connection and the
    entries of the error log. *)
Definition tls_init_handler (ssl : ssl_env) (options : ServerOptions) :
    outcome (ssl_context * list string) :=
  match ssl_context_make ssl with
  | Some e => Throw e
  | None =>
      let '(ctx, result) := configure ssl options new_ssl_context in
      match result with
      | inr true => Ret (ctx, [])
      | inr false => Ret (ctx, ["Error setting cipher list"])
      | inl e =>
          match what e with
          | Some w => Ret (ctx, ["Exception in TLS handshake: " +:+ w])
          | None => Throw e
          end
      end
  end.

(** The access log entry, and the handler if one is installed. *)
Definition setup_tls_handler (ssl : ssl_env) (c : ServerConfiguration) (options : ServerOptions) :
    list string * option (outcome (ssl_context * list string)) :=
  match c with
  | WebSocketNoTls => (["Server running without TLS"], None)
  | WebSocketTls => ([], Some (tls_init_handler ssl options))
  end.

(** ** Properties *)

Definition configured (options : ServerOptions) : ssl_context :=
  {| ctx_options := [default_workarounds; no_tlsv1; no_sslv2; no_sslv3];
     ctx_certificate := Some (cert_file options); ctx_private_key := Some (key_file options);
     ctx_ciphers := Some ciphers |}.

(** The first of the three calls on the context that throws. *)
Definition first_failure (ssl : ssl_env) (options : ServerOptions) : option exn :=
  match ssl_set_options ssl, use_certificate_chain_file ssl (cert_file options),
        use_private_key_file ssl (key_file options) with
  | Some e, _, _ | None, Some e, _ | None, None, Some e => Some e
  | None, None, None => None
  end.

(** C38. A server made with [use_tls] has a handler, one without has none.  Only two kinds
    of exception leave the handler: that of making the context, and the first of
    setting options, certificate and key if it is not a [std::exception].  In all other
    cases it returns a context, with one entry in the log that tells the [std::exception]
    or that the cipher list was refused, and no entry exactly when the context has the
    configured options, certificate, key and ciphers.  A context with a key has a
    certificate, and one with a certificate refuses SSL 2, SSL 3 and TLS 1.0. *)
Theorem tls_context_spec (ssl : ssl_env) (name : string) (options : ServerOptions) :
  let handler := (setup_tls_handler ssl (create_server name options).1 options).2 in
  (is_Some handler ↔ use_tls options = true) ∧
  ∀ h, handler = Some h →
    match ssl_context_make ssl, first_failure ssl options with
    | Some e, _ => h = Throw e
    | None, Some UnknownException => h = Throw UnknownException
    | None, failure => ∃ ctx log, h = Ret (ctx, log) ∧
        log = match failure with
              | Some e => match what e with
                          | Some w => ["Exception in TLS handshake: " +:+ w]
                          | None => []
                          end
              | None => if SSL_CTX_set_cipher_list ssl ciphers then []
                        else ["Error setting cipher list"]
              end ∧
        (log = [] ↔ ctx = configured options) ∧
        (is_Some (ctx_private_key ctx) → is_Some (ctx_certificate ctx)) ∧
        (is_Some (ctx_certificate ctx) →
         ctx_options ctx = [default_workarounds; no_tlsv1; no_sslv2; no_sslv3])
    end.
Proof.
  unfold create_server. simpl. split.
  { destruct (use_tls options); simpl; split; try done; by intros []. }
  destruct (use_tls options); [|done]. simpl. intros h [= <-].
  unfold tls_init_handler, first_failure. destruct (ssl_context_make ssl); [done|].
  unfold configure, configured.
  destruct (ssl_set_options ssl) as [e|]; [|destruct (use_certificate_chain_file _ _) as [e|];
    [|destruct (use_private_key_file _ _) as [e|]; [|destruct (SSL_CTX_set_cipher_list _ _)]]];
    simpl; try (destruct e; simpl; try done);
    eexists _, _; (split; [reflexivity|]); simpl;
    (split_and!; [done|by split; intros ?; simplify_eq|try done; by intros []|try done; by intros []]).
Qed.

(** The literals of the cipher list join to whole names. *)
Lemma cipher_entries :
  split_string ciphers ":" =
    ["ECDHE-RSA-AES128-GCM-SHA256"; "ECDHE-ECDSA-AES128-GCM-SHA256"; "ECDHE-RSA-AES256-GCM-SHA384";
     "ECDHE-ECDSA-AES256-GCM-SHA384"; "DHE-RSA-AES128-GCM-SHA256"; "DHE-DSS-AES128-GCM-SHA256";
     "kEDH+AESGCM"; "ECDHE-RSA-AES128-SHA256"; "ECDHE-ECDSA-AES128-SHA256"; "ECDHE-RSA-AES128-SHA";
     "ECDHE-ECDSA-AES128-SHA"; "ECDHE-RSA-AES256-SHA384"; "ECDHE-ECDSA-AES256-SHA384";
     "ECDHE-RSA-AES256-SHA"; "ECDHE-ECDSA-AES256-SHA"; "DHE-RSA-AES128-SHA256";
     "DHE-RSA-AES128-SHA"; "DHE-DSS-AES128-SHA256"; "DHE-RSA-AES256-SHA256"; "DHE-DSS-AES256-SHA";
     "DHE-RSA-AES256-SHA"; "!aNULL"; "!eNULL"; "!EXPORT"; "!DES"; "!RC4"; "!3DES"; "!MD5"; "!PSK"].
Proof. vm_compute. reflexivity. Qed.

(** ** Example *)

Definition demo_ssl : ssl_env := {|
  ssl_context_make := None; ssl_set_options := None;
  use_certificate_chain_file f :=
    if bool_decide (f = "server.pem") then None else Some (StdException "no such file");
  use_private_key_file _ := None;
  SSL_CTX_set_cipher_list _ := true
|}.

Definition demo_tls_options : ServerOptions :=
  {| capabilities := capabilities demo_options;
     supported_encodings := supported_encodings demo_options; metadata := metadata demo_options;
     send_buffer_limit_bytes := send_buffer_limit_bytes demo_options; use_tls := true;
     cert_file := "server.pem"; key_file := "server.key"; session_id := session_id demo_options;
     use_compression := use_compression demo_options;
     client_topic_whitelist_patterns := client_topic_whitelist_patterns demo_options;
     mac_addr := mac_addr demo_options; ip_addrs := ip_addrs demo_options |}.

Lemma tls_context_spec_witness :
  ∃ log, setup_tls_handler demo_ssl (create_server "cobridge" demo_tls_options).1
           demo_tls_options = ([], Some (Ret (configured demo_tls_options, log))) ∧ log = [].
Proof.
  destruct (tls_context_spec demo_ssl "cobridge" demo_tls_options) as [_ Hh].
  destruct (Hh _ eq_refl) as (ctx & log & Hlog & _ & Hiff & _).
  assert (log = []) as -> by (vm_compute in Hlog; congruence).
  exists []. split; [|reflexivity]. rewrite <-(proj1 Hiff eq_refl), <-Hlog. reflexivity.
Defined.
