(* ===== verification/Ros1Service.v ===== *)
(** * The generic service messages of the ROS 1 bridge

    [generic_service.hpp]: how a [GenericService] is written to and read from a
    stream of ros::serialization.  A stream is the bytes from its position to its
    end. *)

From Stdlib Require Import ZArith Lia.
From Stdlib Require Import Strings.Ascii.
From S2P Require Import Prelude Wire Text Json Serialization ServerState Ros1Bridge.

Local Open Scope Z_scope.
Import Ros1Node.

(** [std::string::c_str]: the text up to the first zero character. *)
Fixpoint c_str (s : string) : string :=
  match s with
  | EmptyString => EmptyString
  | String c s => if Ascii.eqb c zero then EmptyString else String c (c_str s)
  end.

Definition MD5Sum_value (m : GenericService) : string := c_str (gs_md5sum m).
Definition DataType_value (m : GenericService) : string := c_str (gs_type m).
Definition any_value : string := "*".

(** [memcpy] past the end of the stream is undefined; neither function moves the
    position. *)
Definition write (stream : list byte) (m : GenericService) : outcome (list byte) :=
  if decide (length (gs_data m) ≤ length stream)%nat
  then Ret (gs_data m ++ drop (length (gs_data m)) stream)
  else Undefined.

Definition read (stream : list byte) (m : GenericService) : GenericService :=
  {| gs_type := gs_type m; gs_md5sum := gs_md5sum m; gs_data := stream |}.

Definition serializedLength (m : GenericService) : Z := u32 (Z.of_nat (length (gs_data m))).

(** ** Properties *)

Lemma write_defined stream m :
  write stream m ≠ Undefined ↔ (length (gs_data m) ≤ length stream)%nat.
Proof. unfold write. by case_decide. Qed.

(** A message is written to a buffer of its serialized length and read back from it.
    That is defined exactly when the message is shorter than 4 GB: the length of a
    longer one wraps, and the copy goes past the buffer. *)
Theorem generic_service_roundtrip (m m' : GenericService) (stream : list byte) :
  Z.of_nat (length stream) = serializedLength m →
  (Z.of_nat (length (gs_data m)) < 2 ^ 32 ↔ write stream m ≠ Undefined) ∧
  ∀ stream', write stream m = Ret stream' →
    gs_data (read stream' m') = gs_data m ∧
    DataType_value (read stream' m') = DataType_value m' ∧
    MD5Sum_value (read stream' m') = MD5Sum_value m'.
Proof.
  intros Hlen. unfold serializedLength in Hlen. split.
  - rewrite write_defined. split; intros Hsize.
    + rewrite u32_small in Hlen by (unfold is_u32; lia). lia.
    + assert (u32 (Z.of_nat (length (gs_data m))) < 2 ^ 32) by (apply Z.mod_pos_bound; lia). lia.
  - intros stream'. unfold write. case_decide as Hfit; [|done]. intros [= <-].
    split_and!; [|done..]. simpl. rewrite drop_ge; [by rewrite app_nil_r|].
    assert (u32 (Z.of_nat (length (gs_data m))) ≤ Z.of_nat (length (gs_data m)))
      by (apply Z.mod_le; lia). lia.
Qed.

Lemma generic_service_roundtrip_witness :
  ∃ stream', write [x00; x00] {| gs_type := "std_srvs/Empty"; gs_md5sum := "d41d"; gs_data := [x07; x08] |} = Ret stream' ∧
    gs_data (read stream' {| gs_type := "std_srvs/Empty"; gs_md5sum := "d41d"; gs_data := [] |}) = [x07; x08].
Proof.
  eexists. split; [reflexivity|].
  apply (generic_service_roundtrip
    {| gs_type := "std_srvs/Empty"; gs_md5sum := "d41d"; gs_data := [x07; x08] |}
    {| gs_type := "std_srvs/Empty"; gs_md5sum := "d41d"; gs_data := [] |} [x00; x00]); reflexivity.
Defined.
