(* ===== verification/QueuedServer.v ===== *)
(** * The server behind its callback queue

    The constructor of the server ([Server::Server], [websocket_server.hpp]) gives
    websocketpp its handlers: a new connection is handled on the thread of the
    transport, messages and disconnections are added to a [CallbackQueue] with one
    worker, which runs them.  This file composes [CallbackQueue] and [ServerSystem]
    that way. *)

From Stdlib Require Import ZArith Lia.
From stdpp Require Import relations.
From S2P Require Import CallbackQueue.
From S2P Require Import Prelude Wire Json Serialization ServerState ServerMethods ServerLogic.
From S2P Require Import ServerInv ServerSystem ServerDefined ServerScenarios.

(** ** Clients come by a login *)

Section Absent.
Context {plat : Platform} {W : Type} (H : ServerHandlers W) `{!HandlersFrame H}.
Context (parse : list byte → outcome json) (h : ConnHandle).

(** The server has no record of the connection. *)
Definition absent (s : St W) : Prop := _clients (srv s) !! h = None.

#[local] Instance absent_frame_stable : FrameStable absent.
Proof. intros s s' (_ & (p & q & r & Hs) & _). unfold absent. by rewrite Hs. Qed.
#[local] Instance absent_call_stable c : CallStable absent c.
Proof. by intros s. Qed.

Lemma absent_update_client hdl f : preserves absent (update_client (W:=W) hdl f).
Proof.
  apply preserves_update. intros s Hs. unfold absent. simpl. rewrite lookup_alter.
  case_decide; [|done]. subst. by rewrite Hs.
Qed.

Lemma absent_subprotocol hdl p : preserves absent (select_subprotocol hdl p).
Proof. by intros L s. Qed.
#[local] Hint Resolve absent_update_client absent_subprotocol : server.

Ltac solve_absent :=
  repeat first [preserves_step
               | apply preserves_update; intros ? ?; done].

Lemma absent_unsubscribe_params hdl names :
  preserves absent (unsubscribe_params_without_subscriptions H hdl names).
Proof. unfold unsubscribe_params_without_subscriptions, catch_std. solve_absent. Qed.
#[local] Hint Resolve absent_unsubscribe_params : server.

Lemma absent_login payload hdl : hdl ≠ h → preserves absent (handle_login payload hdl).
Proof.
  intros Hne. unfold handle_login, kick_client. solve_absent.
  apply preserves_update. intros s Hs. unfold absent. simpl.
  destruct (_clients (srv s) !! hdl); [done|]. by rewrite lookup_insert_ne.
Qed.

Lemma absent_op o payload hdl : hdl ≠ h → preserves absent (run_op H o payload hdl).
Proof.
  intros Hne. destruct o; cbn [run_op]; [by apply absent_login|..];
    unfold handle_subscribe, handle_unsubscribe, handle_advertise,
      handle_unadvertise, handle_get_parameters, handle_set_parameters,
      handle_subscribe_parameter_updates, handle_unsubscribe_parameter_updates,
      handle_subscribe_connection_graph, handle_unsubscribe_connection_graph,
      handle_fetch_asset, update_publications; solve_absent.
Qed.

Lemma absent_add_channels cs : preserves absent (add_channels (W:=W) cs).
Proof.
  assert (preserves absent (add_channels_loop (W:=W) cs)) as Hl.
  { induction cs; cbn [add_channels_loop]; solve_absent. }
  unfold add_channels. destruct cs; solve_absent.
Qed.
Lemma absent_add_services ss : preserves absent (add_services (W:=W) ss).
Proof.
  assert (preserves absent (add_services_loop (W:=W) ss)) as Hl.
  { induction ss; cbn [add_services_loop]; solve_absent. }
  unfold add_services. destruct ss; solve_absent.
Qed.
Lemma absent_remove_services ids : preserves absent (remove_services (W:=W) ids).
Proof.
  assert (preserves absent (remove_services_loop (W:=W) ids)) as Hl.
  { induction ids; cbn [remove_services_loop]; solve_absent. }
  unfold remove_services. solve_absent.
Qed.
Lemma absent_remove_channels ids : preserves absent (remove_channels (W:=W) ids).
Proof. unfold remove_channels. solve_absent. Qed.
#[local] Hint Resolve absent_add_channels absent_add_services absent_remove_services
  absent_remove_channels : server.

(** Once its record is removed, what is left of the disconnection does not make one. *)
Lemma closed_absent : triple (λ _, True) (handle_connection_closed H h) (λ _, absent) absent.
Proof.
  unfold handle_connection_closed. eapply (triple_bind _ (λ _, absent)).
  - apply triple_with_lock. intros L s _. run. unfold absent.
    destruct (_clients (srv s) !! h) as [c|] eqn:Hc; simpl; [by apply lookup_delete_eq|done].
  - intros client. match goal with |- triple _ ?m _ _ => change (preserves absent m) end.
    unfold ignore_exception. solve_absent.
Qed.

Definition from_client (i : input) : bool :=
  match i with Message _ hdl _ _ => bool_decide (hdl = h) | _ => false end.

Lemma entry_absent i : from_client i = false → preserves absent (entry H parse i).
Proof.
  pose proof (has_handler_preserves H absent) as Hh. intros Hi.
  destruct i as [hdl|hdl|now hdl op payload| | | | | | | | | | |]; cbn [entry];
    unfold validate_connection, handle_connection_opened, update_connection_graph; try solve_absent.
  - intros L s Hs. destruct (decide (hdl = h)) as [->|Hne]; [by apply closed_absent|].
    revert L s Hs. change (preserves absent (handle_connection_closed H hdl)).
    unfold handle_connection_closed, ignore_exception. solve_absent.
    apply preserves_update. intros s Hs. unfold absent. simpl. by rewrite lookup_delete_ne.
  - simpl in Hi. apply bool_decide_eq_false in Hi.
    pose proof (λ o j, absent_op o j hdl Hi) as Hop.
    unfold handle_message, catch_std, handle_text_message, handle_text_payload,
      report_op_failure, handle_binary_message, handle_message_data,
      handle_service_call_request. solve_absent.
Qed.

End Absent.

(** ** The composition *)

(** The inputs the transport hands to the queue. *)
Definition is_callback (i : input) : bool :=
  match i with Message _ _ _ _ | Closed _ => true | _ => false end.

(** [accepted] and [handled] are the callbacks that passed the check of
    [add_callback], and those that were run, in order. *)
Record QueuedServer (W : Type) := mkQS {
  _handler_callback_queue : State (cb:=input);
  server : St W;
  accepted : list input;
  handled : list input
}.
Arguments mkQS {_}.
Arguments _handler_callback_queue {_}.
Arguments server {_}.
Arguments accepted {_}.
Arguments handled {_}.

(** The queue has one worker. *)
Definition construct {W} (name : string) (options : ServerOptions)
    (n : gmap ConnHandle Connection) (w : W) : QueuedServer W :=
  mkQS (new_CallbackQueue 1) (mkSt (new_Server name options) n [] w) [] [].

Section Queued.
Context {plat : Platform} {W : Type} (H : ServerHandlers W) (parse : list byte → outcome json).
Implicit Types (y : QueuedServer W) (s : St W).

(** What the worker of the queue does but run a callback. *)
Definition between_callbacks (l : label) (q : State (cb:=input)) : Prop :=
  match l with
  | Worker i => ∀ c, _worker_threads q !! i ≠ Some (WRun c)
  | Spurious _ | Stopper => True
  | Producer => False
  end.

(** The transport has one thread: it adds a callback when it has finished the one
    before. *)
Inductive qstep : QueuedServer W → QueuedServer W → Prop :=
| qs_opened y hdl :
    adding (_handler_callback_queue y) = [] →
    (entry H parse (Opened hdl) [] (server y)).1 ≠ Undefined →
    qstep y (mkQS (_handler_callback_queue y) (entry H parse (Opened hdl) [] (server y)).2
               (accepted y) (handled y))
| qs_check y i q :
    is_callback i = true → adding (_handler_callback_queue y) = [] →
    CallbackQueue.step Producer (_handler_callback_queue y) q → adding q = [i] →
    qstep y (mkQS q (server y) (accepted y ++ [i]) (handled y))
| qs_dropped y i :
    is_callback i = true → _quit (_handler_callback_queue y) = true → qstep y y
| qs_push y i q :
    adding (_handler_callback_queue y) = [i] →
    CallbackQueue.step Producer (_handler_callback_queue y) q → adding q = [] →
    qstep y (mkQS q (server y) (accepted y) (handled y))
| qs_queue y l q :
    between_callbacks l (_handler_callback_queue y) →
    CallbackQueue.step l (_handler_callback_queue y) q →
    qstep y (mkQS q (server y) (accepted y) (handled y))
| qs_run y i c :
    _worker_threads (_handler_callback_queue y) !! i = Some (WRun c) →
    (entry H parse c [] (server y)).1 ≠ Undefined →
    qstep y (mkQS (set_worker i WLoop (_mutex (_handler_callback_queue y))
                     (_handler_callback_queue y))
               (entry H parse c [] (server y)).2 (accepted y) (handled y ++ [c]))
| qs_method y i :
    is_callback i = false → (∀ hdl, i ≠ Opened hdl) →
    (entry H parse i [] (server y)).1 ≠ Undefined →
    qstep y (mkQS (_handler_callback_queue y) (entry H parse i [] (server y)).2
               (accepted y) (handled y))
| qs_outside y n w :
    qstep y (mkQS (_handler_callback_queue y)
               (mkSt (srv (server y)) n (trace (server y)) w) (accepted y) (handled y)).

Inductive qreachable : QueuedServer W → Prop :=
| qreachable_new name options n w : qreachable (construct name options n w)
| qreachable_step y y' : qreachable y → qstep y y' → qreachable y'.

(** ** The two parts *)

(** Every step of the composition is one of the queue, or leaves the queue. *)
Lemma qreachable_queue y :
  qreachable y → CallbackQueue.reachable 1 (_handler_callback_queue y).
Proof.
  induction 1 as [name options n w|y y' _ IH Hstep]; [constructor|].
  destruct Hstep; simpl; try done; try by eapply CallbackQueue.reachable_step.
  eapply (CallbackQueue.reachable_step _ (Worker i)); [exact IH|by apply (CallbackQueue.step_run i c)].
Qed.

(** Whatever the threads do, the server goes through states of [ServerSystem]: all
    that is proved of those holds of the composition. *)
Lemma qreachable_server y :
  qreachable y → ServerSystem.reachable H parse (server y).
Proof.
  induction 1 as [name options n w|y y' _ IH Hstep]; [constructor|].
  destruct Hstep as [| | | | | | |y n w]; cbn [server]; try done;
    try (eapply reachable_step; [exact IH|by apply step_entry]).
  eapply reachable_step; [eapply reachable_step; [exact IH|apply (step_net _ _ n)]|].
  apply (step_world _ _ w).
Qed.

(** ** Order *)

(** The callback one worker is running. *)
Definition running (q : State (cb:=input)) : list input :=
  match _worker_threads q with [WRun c] => [c] | _ => [] end.

Record order_inv y : Prop := {
  oi_accepted : accepted y = added (_handler_callback_queue y) ++ adding (_handler_callback_queue y);
  oi_taken : taken (_handler_callback_queue y) = handled y ++ running (_handler_callback_queue y);
  oi_one : (length (adding (_handler_callback_queue y)) ≤ 1)%nat;
  oi_callbacks : Forall (λ i, is_callback i = true) (accepted y)
}.

Lemma between_step l (q q' : State (cb:=input)) w :
  _worker_threads q = [w] → between_callbacks l q → CallbackQueue.step l q q' →
  added q' = added q ∧ adding q' = adding q ∧
  ∃ r, taken q' = taken q ++ r ∧ running q' = running q ++ r.
Proof.
  intros Hw Hb Hstep. unfold running. rewrite Hw.
  destruct Hstep as [| |q|q|q|i q Hi|i q Hi|i q Hi|i q Hi|i q Hi|i q Hi|i q Hi|i c r q Hi|i q Hi|i c q Hi];
    simpl in *; try done; try (rewrite Hw in Hi; destruct i; [|done]; injection Hi as ->);
    (split; [done|split; [done|]]); try (exists []; rewrite !app_nil_r, ?Hw; split; [done|]);
    try done; simpl; try by repeat case_match.
  - by destruct w.
  - exists [c]. by rewrite Hw.
  - by destruct (Hb c); rewrite Hw.
Qed.

Lemma check_step (q q' : State (cb:=input)) i :
  adding q = [] → CallbackQueue.step Producer q q' → adding q' = [i] →
  added q' = added q ∧ taken q' = taken q ∧ running q' = running q.
Proof.
  intros Ha Hstep Hi. inversion Hstep as [c q0|c l1 l2 q0 Hm Hadd| | | | | | | | | | | | |]; subst;
    [done|]. rewrite Ha in Hadd. by destruct l1.
Qed.

Lemma push_step (q q' : State (cb:=input)) i w :
  _worker_threads q = [w] → adding q = [i] → CallbackQueue.step Producer q q' → adding q' = [] →
  added q' = added q ++ [i] ∧ taken q' = taken q ∧ running q' = running q.
Proof.
  intros Hw Ha Hstep Hi. inversion Hstep as [c q0|c l1 l2 q0 Hm Hadd| | | | | | | | | | | | |]; subst.
  - simpl in Hi. by rewrite Ha in Hi.
  - rewrite Ha in Hadd. assert (c = i) as ->; [|simpl].
    { destruct l1 as [|? []]; by simplify_eq/=. }
    split_and!; [done|done|]. unfold running. simpl. rewrite Hw. by destruct w.
Qed.

Lemma order_step y y' : qreachable y → qstep y y' → order_inv y → order_inv y'.
Proof.
  intros Hr Hstep [Hacc Htk Hone Hcb].
  destruct (CallbackQueue.reachable_awake _ (qreachable_queue y Hr)) as (w & Hw & _).
  destruct Hstep as [|y i q Hi Ha Hq Hq'| |y i q Ha Hq Hq'|y l q Hb Hq|y i c Hi|?|?]; try by split.
  - destruct (check_step _ _ _ Ha Hq Hq') as (Hadd & Ht & Hrun).
    split; simpl; [by rewrite Hacc, Ha, Hadd, Hq', app_nil_r|congruence|by rewrite Hq'|].
    by apply Forall_app; split; [|apply Forall_singleton].
  - destruct (push_step _ _ _ w Hw Ha Hq Hq') as (Hadd & Ht & Hrun).
    split; simpl; [by rewrite Hacc, Ha, Hadd, Hq', app_nil_r|congruence|by rewrite Hq'; simpl; lia|done].
  - destruct (between_step _ _ _ w Hw Hb Hq) as (Hadd & Ha & r & Ht & Hrun).
    split; simpl; [congruence|by rewrite Ht, Htk, Hrun, (assoc_L (++))|by rewrite Ha|done].
  - rewrite Hw in Hi. destruct i; [|done]. injection Hi as ->.
    split; simpl; [done| |done|done]. rewrite Htk. unfold running. simpl. by rewrite Hw, app_nil_r.
Qed.

Lemma order_reachable y : qreachable y → order_inv y.
Proof.
  induction 1 as [name options n w|y y' Hr IH Hstep]; [by split; simpl; [..|lia|]|].
  by eapply order_step.
Qed.

Lemma accepted_split y :
  qreachable y →
  let q := _handler_callback_queue y in
  accepted y = handled y ++ running q ++ _callback_queue q ++ adding q.
Proof.
  intros Hr q. destruct (order_reachable y Hr) as [Hacc Htk _ _].
  pose proof (CallbackQueue.qi_fifo _ (CallbackQueue.reachable_inv 1 _ (qreachable_queue y Hr))) as Hf.
  by rewrite Hacc, Hf, Htk, <-!(assoc_L (++)).
Qed.

Lemma accepted_handled y : qreachable y → ∃ rest, accepted y = handled y ++ rest.
Proof. intros Hr. eexists. by apply accepted_split. Qed.

(** C5. A client's requests are handled in the order they came, each once: what was
    accepted is what was handled, the request that is being handled, what is queued,
    and what is being added. The server meanwhile goes through states of its own
    system. *)
Theorem requests_in_order y :
  qreachable y →
  let q := _handler_callback_queue y in
  accepted y = handled y ++ running q ++ _callback_queue q ++ adding q ∧
  (length (running q) ≤ 1)%nat ∧ (length (adding q) ≤ 1)%nat ∧
  ServerSystem.reachable H parse (server y).
Proof.
  intros Hr q. split_and!; [by apply accepted_split| |apply order_reachable, Hr|
    by eapply qreachable_server].
  unfold running. repeat case_match; simpl; lia.
Qed.

(** ** Disconnections *)

Section Forgotten.
Context `{!HandlersFrame H}.

(** A client that was logged out of the server's records by its disconnection is not
    recorded again by anything but a message of its own. *)
Lemma handled_closed_absent y :
  qreachable y → ∀ h l1 l2,
  handled y = l1 ++ Closed h :: l2 → Forall (λ i, from_client h i = false) l2 →
  absent h (server y).
Proof.
  assert (∀ h i s, from_client h i = false → (entry H parse i [] s).1 ≠ Undefined →
    absent h s → absent h (entry H parse i [] s).2) as Hentry.
  { intros h i s Hi Hd Hs. exact (proj1 (preserves_state _ _) (entry_absent H parse h i Hi) [] s Hs Hd). }
  induction 1 as [name options n w|y y' _ IH Hstep]; intros h l1 l2 Hh Hl2; [by destruct l1|].
  destruct Hstep as [y hdl|y| |y|y|y i c Hi Hd|y i Hi|y n w]; cbn [server handled] in *;
    try (by eapply IH); try (by apply Hentry; [try done|..|eapply IH]).
  - destruct l2 as [|c' l2 _] using rev_ind.
    + apply app_inj_tail in Hh as [_ ->].
      pose proof (closed_absent H h [] (server y) I) as Hc. cbn [entry] in Hd |- *.
      by destruct (handle_connection_closed H h [] (server y)) as [[]].
    + rewrite app_comm_cons, (assoc_L (++)) in Hh. apply app_inj_tail in Hh as [Hh ->].
      apply Forall_app in Hl2 as [Hl2 Hc']. rewrite Forall_singleton in Hc'.
      by apply Hentry; [..|eapply IH].
  - apply Hentry; [by destruct i|done|by eapply IH].
Qed.

(** C19. The server forgets a client that has disconnected: when the disconnection has
    been handled, and the transport handed over no message of that client after it,
    the client has no entry among the clients of the server ([_clients]), and gets none
    again.  (Parameter subscriptions of a client that never logged in do stay, see
    [disconnect_without_login_leaks].) *)
Theorem closed_client_forgotten y (h : ConnHandle) (l1 l2 : list input) :
  qreachable y → accepted y = l1 ++ Closed h :: l2 →
  Forall (λ i, from_client h i = false) l2 → (length l1 < length (handled y))%nat →
  _clients (srv (server y)) !! h = None.
Proof.
  intros Hr Hacc Hl2 Hlen.
  destruct (accepted_handled y Hr) as [rest Hrest].
  rewrite Hacc in Hrest. symmetry in Hrest.
  apply app_eq_inv in Hrest as [(k & Hk & Hk')|(k & Hk & Hk')].
  - rewrite Hk, length_app in Hlen. destruct k as [|c k]; simpl in Hlen; [lia|].
    simplify_eq/=. apply Forall_app in Hl2 as [Hl2 _]. by eapply handled_closed_absent.
  - rewrite Hk, length_app in Hlen. lia.
Qed.

End Forgotten.

(** ** Progress *)

Section Progress.
Implicit Types (q : State (cb:=input)).

(** The worker takes a step: on its way through [do_work], or it runs a callback to its
    end. *)
Definition worker_step y y' : Prop :=
  (∃ q, between_callbacks (Worker 0) (_handler_callback_queue y) ∧
        CallbackQueue.step (Worker 0) (_handler_callback_queue y) q ∧
        y' = mkQS q (server y) (accepted y) (handled y)) ∨
  (∃ c, _worker_threads (_handler_callback_queue y) = [WRun c] ∧
        (entry H parse c [] (server y)).1 ≠ Undefined ∧
        y' = mkQS (set_worker 0 WLoop (_mutex (_handler_callback_queue y))
                     (_handler_callback_queue y))
               (entry H parse c [] (server y)).2 (accepted y) (handled y ++ [c])).

(** The worker wakes up without a notification. *)
Definition spurious_step y y' : Prop :=
  ∃ q, CallbackQueue.step (Spurious 0) (_handler_callback_queue y) q ∧
       y' = mkQS q (server y) (accepted y) (handled y).

(** The thread of the transport and all others: they leave the queue alone, or add to
    it. *)
Definition other_step y y' : Prop :=
  qstep y y' ∧ handled y' = handled y ∧
  (_handler_callback_queue y' = _handler_callback_queue y ∧ accepted y' = accepted y ∨
   CallbackQueue.step Producer (_handler_callback_queue y) (_handler_callback_queue y')).

(** A step of a callback that is being added: it gets into the queue. *)
Definition push_step_of y y' : Prop :=
  other_step y y' ∧ ∃ i, adding (_handler_callback_queue y) = [i] ∧
    adding (_handler_callback_queue y') = [].

(** A run with [n] steps of the worker and [k] spurious wakeups, in which the queue is
    not stopped. *)
Inductive qrun : nat → nat → QueuedServer W → QueuedServer W → Prop :=
| qrun_end y : qrun 0 0 y y
| qrun_worker n k y y1 y2 : worker_step y y1 → qrun n k y1 y2 → qrun (S n) k y y2
| qrun_spurious n k y y1 y2 : spurious_step y y1 → qrun n k y1 y2 → qrun n (S k) y y2
| qrun_other n k y y1 y2 : other_step y y1 → qrun n k y1 y2 → qrun n k y y2.

Lemma one_thread y :
  qreachable y → ∃ w, _worker_threads (_handler_callback_queue y) = [w].
Proof.
  intros Hr. destruct (CallbackQueue.reachable_awake _ (qreachable_queue y Hr)) as (w & Hw & _).
  by exists w.
Qed.

Lemma worker_qstep y y' : worker_step y y' → qstep y y'.
Proof.
  intros [(q & Hb & Hs & ->)|(c & Hw & Hd & ->)]; [by apply (qs_queue y (Worker 0))|].
  apply (qs_run y 0 c); [by rewrite Hw|done].
Qed.
Lemma spurious_qstep y y' : spurious_step y y' → qstep y y'.
Proof. intros (q & Hs & ->). by apply (qs_queue y (Spurious 0)). Qed.

(** Every step but those of [stop] is one of the three. *)
Lemma qstep_cases y y' :
  qreachable y → qstep y y' →
  stopping (_handler_callback_queue y') = stopping (_handler_callback_queue y) →
  worker_step y y' ∨ spurious_step y y' ∨ other_step y y'.
Proof.
  intros Hr Hstep Hst. destruct (one_thread y Hr) as [w Hw]. pose proof Hstep as Hq.
  destruct Hq as [|y i q Hi Ha Hq Hq'|y i Hi Hq|y i q Ha Hq Hq'|y l q Hb Hq|y i c Hi Hd|?|?];
    try (by right; right; split_and!; [done|done|left]);
    try (by right; right; split_and!; [done|done|right]).
  - destruct l as [i|i| |]; [left; left|right; left| |].
    + exists q. destruct i as [|i]; [done|]. inversion Hq; subst; simpl in *; rewrite Hw in *; done.
    + exists q. destruct i as [|i]; [done|]. inversion Hq; subst; simpl in *; rewrite Hw in *; done.
    + done.
    + exfalso. simpl in Hst. inversion Hq; subst; simpl in Hst; congruence.
  - left. right. exists c. rewrite Hw in Hi. destruct i; [|done]. injection Hi as ->. done.
Qed.

Lemma qrun_reachable n k y y' : qrun n k y y' → qreachable y → qreachable y'.
Proof.
  induction 1 as [y|n k y y1 y2 Hs _ IH|n k y y1 y2 Hs _ IH|n k y y1 y2 [Hs _] _ IH]; intros Hr;
    [done|apply IH; eapply qreachable_step; [exact Hr|]..].
  - by apply worker_qstep.
  - by apply spurious_qstep.
  - done.
Qed.

Lemma producer_queue q q' :
  CallbackQueue.step Producer q q' → _quit q' = _quit q ∧ taken q' = taken q.
Proof. by inversion 1. Qed.

Lemma qrun_quit n k y y' :
  qrun n k y y' → _quit (_handler_callback_queue y') = _quit (_handler_callback_queue y).
Proof.
  induction 1 as [y|n k y y1 y2 Hs _ IH|n k y y1 y2 Hs _ IH|n k y y1 y2 (_ & _ & Hs) _ IH];
    [done|rewrite IH..].
  - destruct Hs as [(q & _ & Hs & ->)|(c & _ & _ & ->)]; [|done]. by inversion Hs.
  - destruct Hs as (q & Hs & ->). by inversion Hs.
  - destruct Hs as [[-> _]|Hs]; [done|by apply producer_queue].
Qed.

(** The lists of the history only grow. *)
Lemma qstep_accepted y y' : qstep y y' → accepted y `prefix_of` accepted y'.
Proof. destruct 1; try done. by apply prefix_app_r. Qed.

Lemma qrun_prefix n k y y' :
  qrun n k y y' → accepted y `prefix_of` accepted y' ∧ handled y `prefix_of` handled y'.
Proof.
  induction 1 as [y|n k y y1 y2 Hs _ [IHa IHh]|n k y y1 y2 Hs _ [IHa IHh]|n k y y1 y2 Hs _ [IHa IHh]];
    [done|split; (etrans; [|eassumption])..].
  - by apply qstep_accepted, worker_qstep.
  - destruct Hs as [(q & _ & _ & ->)|(c & _ & _ & ->)]; [done|by apply prefix_app_r].
  - by apply qstep_accepted, spurious_qstep.
  - by destruct Hs as (q & _ & ->).
  - by apply qstep_accepted, Hs.
  - destruct Hs as (_ & -> & _). done.
Qed.

(** *** What the worker still has to do *)

Definition rank (w : worker_pc (cb:=input)) : nat :=
  match w with
  | WLoop => 6 | WLock | WWoken => 5 | WPred => 4 | WTake => 3
  | WSleep | WRun _ => 2 | WBlocked => 1 | WDone => 0
  end.

(** The steps until the first [T] callbacks are handled; the worker may be woken once
    more when the last of them is added. *)
Definition potential (T : nat) y : nat :=
  7 * (T - length (handled y)) + list_sum (rank <$> _worker_threads (_handler_callback_queue y)) +
  (if length (added (_handler_callback_queue y)) <? T then 5 else 0).

(** Between the test of the predicate and [front] the queue is not emptied. *)
Lemma reachable_take q :
  CallbackQueue.reachable 1 q → _worker_threads q = [WTake] → _quit q = false →
  _callback_queue q ≠ [].
Proof.
  induction 1 as [|l q q' Hr IH Hstep]; [done|].
  destruct (CallbackQueue.reachable_awake q Hr) as (w & Hw & _).
  destruct Hstep as [| |q|q|q|i q Hi|i q Hi|i q Hi|i q Hi|i q Hi|i q Hi|i q Hi|i c r q Hi|i q Hi|i c q Hi];
    simpl; try done; try (rewrite Hw in Hi; destruct i; [|done]; injection Hi as ->);
    try (rewrite Hw; simpl; intros [=] ?; by repeat case_match).
  - intros _ _ Hnil. by apply app_nil in Hnil as [_ [=]].
  - rewrite Hw. intros [= Hw']. apply IH. destruct w; by simplify_eq/=.
Qed.

Record waits (T : nat) y : Prop := {
  wt_reachable : qreachable y;
  wt_quit : _quit (_handler_callback_queue y) = false;
  wt_target : (T ≤ length (accepted y))%nat;
  wt_left : (length (handled y) < T)%nat
}.

(** As long as one of the [T] callbacks is queued or running, the worker is awake. *)
Lemma waits_awake T y w :
  waits T y → _worker_threads (_handler_callback_queue y) = [w] →
  (T ≤ length (added (_handler_callback_queue y)))%nat → w ≠ WBlocked ∧ w ≠ WDone.
Proof.
  intros [Hr Hq _ Hh] Hw HT.
  destruct (CallbackQueue.reachable_awake _ (qreachable_queue y Hr)) as (w' & Hw' & Hb & Hd).
  rewrite Hw in Hw'. injection Hw' as <-.
  split; [|intros ->; by rewrite (Hd eq_refl) in Hq].
  intros ->. apply Hb; [|done]. intros Hnil.
  pose proof (CallbackQueue.qi_fifo _ (CallbackQueue.reachable_inv 1 _ (qreachable_queue y Hr))) as Hf.
  rewrite Hf, Hnil, app_nil_r, (oi_taken _ (order_reachable y Hr)) in HT.
  unfold running in HT. rewrite Hw, app_nil_r in HT. lia.
Qed.

Lemma worker_rank q q' w :
  CallbackQueue.reachable 1 q → _worker_threads q = [w] → _quit q = false →
  between_callbacks (Worker 0) q → CallbackQueue.step (Worker 0) q q' →
  added q' = added q ∧ ∃ w', _worker_threads q' = [w'] ∧ (rank w' < rank w)%nat.
Proof.
  intros Hr Hw Hq Hb Hs. pose proof (reachable_take q Hr) as Htake.
  rewrite <-exec_step in Hs by done. simpl in Hs. unfold exec_worker in Hs. rewrite Hw in Hs.
  cbn [lookup list_lookup] in Hs.
  destruct w as [| | | | | | |c|]; try done; rewrite ?Hq in Hs;
    try (by destruct (Hb c); rewrite Hw);
    repeat (case_match; try done); injection Hs as <-; simpl; rewrite ?Hw;
    try (by destruct Htake); (split; [done|]); eexists; (split; [reflexivity|simpl; lia]).
Qed.

Lemma worker_lowers T y y' : waits T y → worker_step y y' → (potential T y' < potential T y)%nat.
Proof.
  intros Hwt Hs. pose proof Hwt as [Hr Hq _ Hh]. destruct (one_thread y Hr) as [w Hw].
  unfold potential. destruct Hs as [(q & Hb & Hs & ->)|(c & Hw' & _ & ->)]; simpl.
  - destruct (worker_rank _ q w (qreachable_queue y Hr) Hw Hq Hb Hs) as (-> & w' & -> & Hlt).
    rewrite Hw. simpl. lia.
  - rewrite Hw'. simpl. rewrite length_app. simpl. lia.
Qed.

Lemma spurious_raises T y y' : qreachable y → spurious_step y y' → (potential T y' ≤ potential T y + 4)%nat.
Proof.
  intros Hr (q & Hs & ->). destruct (one_thread y Hr) as [w Hw]. unfold potential. simpl.
  inversion Hs as [| | | | | | | | |i q0 Hi| | | | |]; subst. rewrite Hw in *. simpl in *.
  injection Hi as ->. simpl. rewrite Hw. simpl. lia.
Qed.

Lemma other_keeps T y y' : waits T y → other_step y y' → (potential T y' ≤ potential T y)%nat.
Proof.
  intros Hwt (_ & Hh & Hs). pose proof Hwt as [Hr _ HT _]. destruct (one_thread y Hr) as [w Hw].
  pose proof (order_reachable y Hr) as [Hacc _ Hone _].
  rewrite Hacc, length_app in HT. pose proof (waits_awake T y w Hwt Hw) as Haw.
  unfold potential. rewrite Hh. destruct Hs as [[-> _]|Hs]; [done|].
  inversion Hs as [c q0 _|c l1 l2 q0 _ Hadd| | | | | | | | | | | | |]; subst; simpl; [done|].
  rewrite Hw, length_app. simpl.
  destruct (Nat.ltb_spec (length (added (_handler_callback_queue y))) T) as [Hlt|Hge].
  - destruct (Nat.ltb_spec (length (added (_handler_callback_queue y)) + 1) T); [lia|].
    destruct w; simpl; lia.
  - destruct (Nat.ltb_spec (length (added (_handler_callback_queue y)) + 1) T); [lia|].
    destruct (Haw Hge) as [Hnb _]. destruct w; try done; simpl; lia.
Qed.

Lemma waits_after T y y' :
  waits T y → qstep y y' →
  _quit (_handler_callback_queue y') = _quit (_handler_callback_queue y) →
  waits T y' ∨ (T ≤ length (handled y'))%nat.
Proof.
  intros [Hr Hq HT _] Hs Hq'. destruct (decide (T ≤ length (handled y'))%nat); [by right|left].
  split; [by eapply qreachable_step|congruence| |lia].
  pose proof (prefix_length _ _ (qstep_accepted y y' Hs)). lia.
Qed.

Lemma qrun_bound T n k y y' :
  qrun n k y y' → waits T y →
  (T ≤ length (handled y'))%nat ∨ (n + potential T y' ≤ potential T y + 4 * k)%nat.
Proof.
  assert (∀ n k y y', qrun n k y y' → T ≤ length (handled y) → T ≤ length (handled y'))%nat as Hmono.
  { intros ???? [_ Hp%prefix_length]%qrun_prefix. lia. }
  induction 1 as [y|n k y y1 y2 Hs Hrun IH|n k y y1 y2 Hs Hrun IH|n k y y1 y2 Hs Hrun IH]; intros Hwt.
  - right. lia.
  - destruct (waits_after T y y1 Hwt (worker_qstep _ _ Hs)) as [Hwt'|]; [|destruct (IH Hwt'); [by left|]|left; by eapply Hmono].
    + by apply (qrun_quit 1 0 _ _ (qrun_worker _ _ _ _ _ Hs (qrun_end _))).
    + right. pose proof (worker_lowers T y y1 Hwt Hs). lia.
  - destruct (waits_after T y y1 Hwt (spurious_qstep _ _ Hs)) as [Hwt'|]; [|destruct (IH Hwt'); [by left|]|left; by eapply Hmono].
    + by apply (qrun_quit 0 1 _ _ (qrun_spurious _ _ _ _ _ Hs (qrun_end _))).
    + right. pose proof (spurious_raises T y y1 (wt_reachable _ _ Hwt) Hs). lia.
  - destruct (waits_after T y y1 Hwt (proj1 Hs)) as [Hwt'|]; [|destruct (IH Hwt'); [by left|]|left; by eapply Hmono].
    + by apply (qrun_quit 0 0 _ _ (qrun_other _ _ _ _ _ Hs (qrun_end _))).
    + right. pose proof (other_keeps T y y1 Hwt Hs). lia.
Qed.

(** *** The worker, or the thread that is adding, can go on *)

Lemma worker_can T y w :
  waits T y → _worker_threads (_handler_callback_queue y) = [w] → w ≠ WBlocked → w ≠ WDone →
  (∀ c, w = WRun c → (entry H parse c [] (server y)).1 ≠ Undefined) → ∃ y', worker_step y y'.
Proof.
  intros [Hr Hq _ _] Hw Hnb Hnd Hd. set (q := _handler_callback_queue y) in *.
  pose proof (CallbackQueue.reachable_inv 1 _ (qreachable_queue y Hr)) as Hinv. fold q in Hinv.
  pose proof (CallbackQueue.one_worker_mutex q w Hinv Hw) as Hm.
  destruct w as [| | | | | | |c|]; try done.
  7:{ eexists. right. exists c. by split_and!; [|apply Hd|]. }
  all: assert (is_Some (exec (Worker 0) q)) as [q' E]
    by (simpl; unfold exec_worker; rewrite Hw; simpl; rewrite ?Hq, ?Hm by done;
        try (by eexists); destruct (_callback_queue q); by eexists).
  all: apply exec_step in E; [|done]; eexists; left; eexists; (split; [|split; [exact E|reflexivity]]);
    intros c; fold q; by rewrite Hw.
Qed.

Lemma can_push y w i :
  qreachable y → _worker_threads (_handler_callback_queue y) = [w] → holds w = false →
  adding (_handler_callback_queue y) = [i] → ∃ y', push_step_of y y'.
Proof.
  intros Hr Hw Hh Ha. set (q := _handler_callback_queue y) in *.
  pose proof (CallbackQueue.reachable_inv 1 _ (qreachable_queue y Hr)) as Hinv. fold q in Hinv.
  pose proof (CallbackQueue.one_worker_mutex q w Hinv Hw Hh) as Hm.
  pose proof (CallbackQueue.step_add_push i [] [] q Hm Ha) as Hs.
  match type of Hs with CallbackQueue.step _ _ ?q' =>
    exists (mkQS q' (server y) (accepted y) (handled y)) end.
  split; [|by exists i].
  split; [by apply (qs_push y i)|]. by split; [|right].
Qed.

Lemma can_go_on T y :
  waits T y →
  (∀ c, c ∈ take T (accepted y) → (entry H parse c [] (server y)).1 ≠ Undefined) →
  (∃ y', worker_step y y') ∨ ∃ y', push_step_of y y'.
Proof.
  intros Hwt Hd. pose proof Hwt as [Hr Hq HT Hh]. destruct (one_thread y Hr) as [w Hw].
  assert (∀ c, w = WRun c → (entry H parse c [] (server y)).1 ≠ Undefined) as Hrun.
  { intros c ->. apply Hd. pose proof (accepted_split y Hr) as Hs. cbv zeta in Hs.
    unfold running in Hs. rewrite Hw in Hs. rewrite Hs, take_app_ge by lia.
    destruct (T - length (handled y))%nat eqn:E; [lia|]. simpl. set_solver. }
  destruct (decide (T ≤ length (added (_handler_callback_queue y)))%nat) as [Ha|Ha].
  - left. destruct (waits_awake T y w Hwt Hw Ha). by eapply worker_can.
  - pose proof (order_reachable y Hr) as [Hacc _ Hone _]. rewrite Hacc, length_app in HT.
    destruct (adding (_handler_callback_queue y)) as [|i [|]] eqn:Had; simpl in *; [lia| |lia].
    destruct (holds w) eqn:Hhold; [left|right; by eapply can_push].
    by eapply worker_can; [..|done]; try done; intros ->.
Qed.

(** C10. No request waits forever.  While the server is not stopped, consider any
    continuation in which the worker of the queue takes [n] steps (a run of a request
    counts as one) and wakes up spuriously [k] times, while the transport and all other
    threads do what they like: as soon as [n] exceeds 7 steps for every request that was
    waiting, and 11 more, and 4 for every spurious wakeup, all the requests that had been
    accepted are handled, in their order.  Until they are, and if no request has undefined
    behaviour, the worker can take a step, or the thread that is adding one of them to the
    queue can (and wakes the worker); so neither is ever stuck. *)
Theorem accepted_requests_handled y :
  qreachable y → _quit (_handler_callback_queue y) = false →
  (∀ c s, c ∈ accepted y → ServerSystem.reachable H parse s →
          (entry H parse c [] s).1 ≠ Undefined) →
  let waiting := (length (accepted y) - length (handled y))%nat in
  ∀ n k y', qrun n k y y' →
    ((7 * waiting + 11 + 4 * k < n)%nat → accepted y `prefix_of` handled y') ∧
    (accepted y `prefix_of` handled y' ∨
     (∃ y'', worker_step y' y'') ∨ (∃ y'', push_step_of y' y'')).
Proof.
  intros Hr Hq Hd waiting n k y' Hrun.
  pose proof (qrun_reachable _ _ _ _ Hrun Hr) as Hr'.
  pose proof (qrun_quit _ _ _ _ Hrun) as Hq'. rewrite Hq in Hq'.
  destruct (qrun_prefix _ _ _ _ Hrun) as [Hpa Hph].
  set (T := length (accepted y)) in *.
  assert ((T ≤ length (handled y'))%nat → accepted y `prefix_of` handled y') as Hall.
  { intros HT. destruct (accepted_handled y' Hr') as [rest Hrest].
    destruct Hpa as [more Hmore]. rewrite Hmore in Hrest.
    apply app_eq_inv in Hrest as [(l & Hl & _)|(l & Hl & _)]; [|by exists l].
    rewrite Hl. assert (l = []) as ->; [|by rewrite app_nil_r].
    apply (f_equal length) in Hl. rewrite length_app in Hl. apply nil_length_inv. subst T. lia. }
  assert (∀ z, qreachable z → _quit (_handler_callback_queue z) = false →
    accepted y `prefix_of` accepted z → (T ≤ length (handled z))%nat ∨ waits T z) as Hwaits.
  { intros z Hz Hqz Hp%prefix_length. destruct (decide (T ≤ length (handled z))%nat); [by left|].
    right. split; [done..|lia]. }
  split.
  - intros Hn. apply Hall. destruct (Hwaits y Hr Hq) as [HT|Hwt]; [done| |].
    { pose proof (prefix_length _ _ Hph). lia. }
    destruct (qrun_bound T n k y y' Hrun Hwt) as [HT|Hb]; [done|].
    destruct (one_thread y Hr) as [w Hw]. unfold potential in Hb at 2. rewrite Hw in Hb.
    assert (rank w ≤ 6)%nat by (destruct w; simpl; lia). simpl in Hb.
    destruct (length (added _) <? T); lia.
  - destruct (Hwaits y' Hr' Hq' Hpa) as [HT|Hwt]; [left; by apply Hall|right].
    apply (can_go_on T y' Hwt). intros c Hc. apply Hd; [|by apply qreachable_server].
    destruct Hpa as [more Hmore]. rewrite Hmore in Hc. unfold T in Hc. by rewrite take_app_length in Hc.
Qed.

End Progress.

End Queued.

(** ** Example *)

(** A client logs in and disconnects. *)
Definition hello : input := Message 0 1 TEXT [byte_of_Z 0].
Definition goodbye : input := Closed 1%nat.

Definition demo_queue (queue : list input) (mu : option nat) (w : worker_pc (cb:=input))
    (adding added taken : list input) : State :=
  mkState queue false mu [w] adding SIdle added taken.

Definition demo_login : St nat :=
  (entry (plat:=x86_64) demo_handlers demo_parse hello [] demo_init).2.

(** Both are queued, before the worker has started. *)
Definition demo_waiting : QueuedServer nat :=
  mkQS (demo_queue [hello; goodbye] None WLoop [] [hello; goodbye] []) demo_init
    [hello; goodbye] [].

(** Both have been handled. *)
Definition demo_finished : QueuedServer nat :=
  mkQS (demo_queue [] None WLoop [] [hello; goodbye] [hello; goodbye])
    (entry (plat:=x86_64) demo_handlers demo_parse goodbye [] demo_login).2
    [hello; goodbye] [hello; goodbye].

(** Extend a run by a step. *)
Ltac qadvance R tac :=
  let y := match type of R with qreachable _ _ ?y => y end in
  let Hs := fresh in
  eassert (qstep (plat:=x86_64) demo_handlers demo_parse y _) as Hs by tac;
  apply (qreachable_step (plat:=x86_64) _ _ _ _ R) in Hs; clear R; rename Hs into R;
  cbn [server accepted handled _handler_callback_queue _callback_queue _quit _mutex
       _worker_threads adding stopping added taken app set_worker CallbackQueue.notify_one
       insert list_insert demo_queue construct new_CallbackQueue replicate] in R.

Ltac qqueue R tac := qadvance R ltac:(eapply (qs_queue _ _ _ (Worker 0)); [by intros ?|tac]).

Lemma demo_waiting_reachable : qreachable (plat:=x86_64) demo_handlers demo_parse demo_waiting.
Proof.
  pose proof (qreachable_new (plat:=x86_64) demo_handlers demo_parse "demo" demo_options
    (net demo_init) 0%nat) as R.
  qadvance R ltac:(eapply (qs_check _ _ _ hello); [done|done|by apply (CallbackQueue.step_add_check hello)|done]).
  qadvance R ltac:(eapply (qs_push _ _ _ hello); [done|by apply (CallbackQueue.step_add_push hello [] [])|done]).
  qadvance R ltac:(eapply (qs_check _ _ _ goodbye); [done|done|by apply (CallbackQueue.step_add_check goodbye)|done]).
  qadvance R ltac:(eapply (qs_push _ _ _ goodbye); [done|by apply (CallbackQueue.step_add_push goodbye [] [])|done]).
  exact R.
Qed.

Lemma demo_finished_reachable : qreachable (plat:=x86_64) demo_handlers demo_parse demo_finished.
Proof.
  pose proof demo_waiting_reachable as R. unfold demo_waiting in R.
  qqueue R ltac:(by apply (CallbackQueue.step_loop 0)).
  qqueue R ltac:(by apply (CallbackQueue.step_lock 0)).
  qqueue R ltac:(by apply (CallbackQueue.step_pred 0)).
  qqueue R ltac:(by apply (CallbackQueue.step_take 0)).
  qadvance R ltac:(apply (qs_run _ _ _ 0 hello); [done|vm_compute; done]).
  qqueue R ltac:(by apply (CallbackQueue.step_loop 0)).
  qqueue R ltac:(by apply (CallbackQueue.step_lock 0)).
  qqueue R ltac:(by apply (CallbackQueue.step_pred 0)).
  qqueue R ltac:(by apply (CallbackQueue.step_take 0)).
  qadvance R ltac:(apply (qs_run _ _ _ 0 goodbye); [done|vm_compute; done]).
  exact R.
Qed.

Lemma requests_in_order_witness :
  qreachable (plat:=x86_64) demo_handlers demo_parse demo_finished ∧
  accepted demo_finished = handled demo_finished.
Proof.
  split; [apply demo_finished_reachable|].
  rewrite (proj1 (requests_in_order (plat:=x86_64) demo_handlers demo_parse demo_finished
    demo_finished_reachable)). reflexivity.
Defined.

Lemma closed_client_forgotten_witness :
  is_Some (_clients (srv demo_login) !! 1%nat) ∧
  _clients (srv (server demo_finished)) !! 1%nat = None.
Proof.
  split; [vm_compute; by eexists|].
  apply (closed_client_forgotten (plat:=x86_64) demo_handlers demo_parse demo_finished 1%nat
    [hello] []); [apply demo_finished_reachable|reflexivity|constructor|simpl; lia].
Defined.

(** The disconnection of a client waits to be handled. *)
Definition demo_closing : QueuedServer nat :=
  mkQS (demo_queue [goodbye] None WLoop [] [goodbye] []) demo_init [goodbye] [].

Lemma demo_closing_reachable : qreachable (plat:=x86_64) demo_handlers demo_parse demo_closing.
Proof.
  pose proof (qreachable_new (plat:=x86_64) demo_handlers demo_parse "demo" demo_options
    (net demo_init) 0%nat) as R.
  qadvance R ltac:(eapply (qs_check _ _ _ goodbye); [done|done|by apply (CallbackQueue.step_add_check goodbye)|done]).
  qadvance R ltac:(eapply (qs_push _ _ _ goodbye); [done|by apply (CallbackQueue.step_add_push goodbye [] [])|done]).
  exact R.
Qed.

(** It is not handled yet, so its worker can take a step; and whatever happens, after 19
    steps of the worker it is. *)
Lemma accepted_requests_handled_witness :
  (∃ y', worker_step (plat:=x86_64) demo_handlers demo_parse demo_closing y') ∧
  ∀ y', qrun (plat:=x86_64) demo_handlers demo_parse 19 0 demo_closing y' →
    [goodbye] `prefix_of` handled y'.
Proof.
  destruct (accepted_requests_handled (plat:=x86_64) demo_handlers demo_parse demo_closing
    demo_closing_reachable eq_refl) with (n := 0%nat) (k := 0%nat) (y' := demo_closing) as [_ Hgo].
  { intros c s Hc%list_elem_of_singleton _. subst c.
    apply (defined_run _ _ s (handle_connection_closed_defined demo_handlers 1%nat) I). }
  { constructor. }
  split.
  - destruct Hgo as [Hp|[Hw|(y' & _ & i & Hi & _)]]; [|exact Hw|discriminate].
    apply prefix_length in Hp. simpl in Hp. lia.
  - intros y' Hrun.
    apply (accepted_requests_handled (plat:=x86_64) demo_handlers demo_parse demo_closing
      demo_closing_reachable eq_refl) with (n := 19%nat) (k := 0%nat); [|exact Hrun|simpl; lia].
    intros c s Hc%list_elem_of_singleton _. subst c.
    apply (defined_run _ _ s (handle_connection_closed_defined demo_handlers 1%nat) I).
Defined.
