(* ===== verification/BridgeDefined.v ===== *)
(** * Definedness of the tables' operations

    What the ROS 1 and the ROS 2 bridge share of the proofs that they have no undefined
    behaviour: the operations on the tables, and the loops that record new ids. *)

From Stdlib Require Import ZArith Lia.
From S2P Require Import Prelude Wire Json Serialization ServerState ServerMethods ServerLogic.
From S2P Require Import ServerInv ServerSpecs ServerDefined BridgeTables ServerRuns.

Local Open Scope Z_scope.

(** The ambient invariant does not depend on the tables. *)
Class TablesFree {W Sub Pub} `{!HasTables W Sub Pub} (ψ : WorldInv W) :=
  tables_free : ∀ t σ w, world_ok σ w → world_ok σ (set_tables t w).

Section Tables.
Context {W Sub Pub : Type} `{!HasTables W Sub Pub} {ψ : WorldInv W} `{!TablesFree ψ}.
Implicit Types (L : list mutex).

Lemma get_table_defined {A} L (f : Tables Sub Pub → A) : defined L (get_table (W:=W) f).
Proof. apply defined_get_world. Qed.
Lemma update_tables_defined L (f : Tables Sub Pub → Tables Sub Pub) :
  defined L (update_tables (W:=W) f).
Proof. apply defined_update_world. intros σ w. apply tables_free. Qed.
#[local] Hint Resolve get_table_defined update_tables_defined : server.

Lemma remove_stale_channels_defined latest entries L :
  defined L (remove_stale_channels (W:=W) latest entries).
Proof. induction entries as [|[]]; cbn [remove_stale_channels]; solve_defined. Qed.

Lemma erase_services_defined ids L : defined L (erase_services (W:=W) ids).
Proof. unfold erase_services. solve_defined. Qed.

Lemma register_channels_defined ids channels L :
  (length channels ≤ length ids)%nat → defined L (register_channels (W:=W) ids channels).
Proof.
  revert ids. induction channels as [|c channels IH]; intros ids Hlen;
    destruct ids; simpl in Hlen; cbn [register_channels]; solve_defined; [lia|apply IH; lia].
Qed.

Lemma register_services_defined ids services L :
  (length ids ≤ length services)%nat → defined L (register_services (W:=W) ids services).
Proof.
  revert services. induction ids as [|i ids IH]; intros services Hlen;
    destruct services; simpl in Hlen; cbn [register_services]; solve_defined; [lia|apply IH; lia].
Qed.

(** New channels and services are announced and recorded: there is an id for each. *)
Lemma announce_channels_defined channels L :
  channels_mutex ∉ L → clients_mutex ∉ L →
  defined L (channel_ids ← add_channels (W:=W) channels; register_channels channel_ids channels).
Proof.
  intros HL1 HL2.
  apply (defined_bind_post (λ ids, length channels ≤ length ids)%nat);
    [by apply add_channels_defined| |intros ids; apply register_channels_defined].
  intros s ids s' E. destruct (add_channels_run channels L s HL1 HL2) as (chs & n & sends & <- & _ & E').
  rewrite E' in E. destruct (if is_nil _ then _ else _); [|done..]. injection E as <- _. by rewrite !length_fmap.
Qed.

Lemma announce_services_defined services L :
  services_mutex ∉ L → clients_mutex ∉ L →
  defined L (service_ids ← add_services (W:=W) services; register_services service_ids services).
Proof.
  intros HL1 HL2.
  apply (defined_bind_post (λ ids, length ids ≤ length services)%nat);
    [by apply add_services_defined| |intros ids; apply register_services_defined].
  intros s ids s' E. destruct (add_services_run services L s HL1 HL2) as (svs & n & sends & <- & _ & E').
  rewrite E' in E. destruct (if is_nil _ then _ else _); [|done..]. injection E as <- _. by rewrite !length_fmap.
Qed.

End Tables.
#[export] Hint Resolve get_table_defined update_tables_defined : server.
