(* ===== verification/Ros1Defined.v ===== *)
(** * The ROS 1 bridge has no undefined behaviour

    The handlers of the nodelet meet what the server asks of them
    ([HandlersDefined]): none locks a mutex that is held when it is called, and none
    reads what is not there.  With [ServerDefined] every input the bridge has is
    defined, but for the update timer once its counter is too large to shift by. *)

From Stdlib Require Import ZArith Lia.
From S2P Require Import Prelude Wire Json Serialization ServerState ServerMethods ServerLogic.
From S2P Require Import ServerInv ServerSpecs ServerSystem ServerDefined.
From S2P Require Import Text BridgeParams BridgeTables ServerRuns BridgeSync BridgeUpdate.
From S2P Require Import BridgeRefresh BridgeDefined Ros1Bridge Ros1System Ros1Specs Ros1Scenarios.

Local Open Scope Z_scope.
Import Ros1 Ros1Node.

(** The calls into roscpp and its libraries return or throw. *)
Record env_defined (e : RosEnv) : Prop := {
  ed_message type : getMessageDescription e type ≠ Undefined;
  ed_service type : getServiceDescription e type ≠ Undefined;
  ed_advertise o : nh_advertise e o ≠ Undefined;
  ed_param name : getParam e name ≠ Undefined;
  ed_resolve name : names_resolve e name ≠ Undefined;
  ed_retrieve uri : retrieve e uri ≠ Undefined
}.

(** The ambient invariant; nothing but the timer changes the counter. *)
Definition ros1_world (φ : Z → Prop) : WorldInv Node := λ _ n,
  env_defined (env n) ∧ φ (update_count_ n).

Lemma fromRosParam_defined : ∀ v, fromRosParam v ≠ Undefined.
Proof.
  fix IH 1. intros v. destruct v as [| | | | | | |l|l]; try (clear IH; done);
    cbn [fromRosParam].
  - assert (outcome_mapM fromRosParam l ≠ Undefined) as Hl; [|clear IH; by destruct (outcome_mapM _ l)].
    induction l as [|x l IHl]; [clear IH; done|]. cbn [outcome_mapM].
    pose proof (IH x) as Hx. clear IH.
    destruct (fromRosParam x); simpl_bind; [|done..]. by destruct (outcome_mapM fromRosParam l).
  - match goal with |- context [outcome_mapM ?f l] =>
      assert (outcome_mapM f l ≠ Undefined) as Hl; [|clear IH; by destruct (outcome_mapM f l)] end.
    induction l as [|[k x] l IHl]; [clear IH; done|]. cbn [outcome_mapM fst snd].
    pose proof (IH x) as Hx. clear IH.
    destruct (fromRosParam x); simpl_bind; [|done..].
    match goal with |- context [outcome_mapM ?f l] => by destruct (outcome_mapM f l) end.
Qed.

Lemma from_ros_param_defined name v : from_ros_param name v ≠ Undefined.
Proof.
  unfold from_ros_param. pose proof (fromRosParam_defined v). by destruct (fromRosParam v).
Qed.

Section Handlers.
Context {plat : Platform} (cfg : Config) (φ : Z → Prop).
Implicit Types (L : list mutex).

#[local] Instance ros1_world_here : WorldInv Node | 0 := ros1_world φ.
#[local] Instance ros1_tables_free : TablesFree (ros1_world φ).
Proof. by intros t σ w Hw. Qed.

Lemma ros_call_defined e : ros_call e ≠ Undefined.
Proof. by destruct e. Qed.

Lemma log_defined L e : defined L (update_world (λ n, log_ros n e)).
Proof. apply defined_update_world. by intros σ w Hw. Qed.
Lemma ros1_rethrow_defined {A} L f e : defined L (rethrow (A:=A) f e).
Proof. unfold rethrow. solve_defined. Qed.
#[local] Hint Resolve ros_call_defined log_defined
  ros1_rethrow_defined to_ros_param_defined from_ros_param_defined : server.

Ltac solve_ros1 :=
  repeat first
    [ match goal with
      | |- defined _ (mbind _ (get_world env)) =>
          apply defined_bind_get_world; intros ? ? [[? ? ? ? ? ?] _]
      end
    | defined_step ].

Lemma subscribe_defined ch hdl L :
  bridge_subscriptions_mutex ∉ L → defined L (subscribe ch hdl).
Proof. intros HL. unfold subscribe. solve_ros1. Qed.

Lemma unsubscribe_defined ch hdl L :
  bridge_subscriptions_mutex ∉ L → defined L (unsubscribe ch hdl).
Proof. intros HL. unfold unsubscribe. solve_ros1. Qed.

Lemma client_advertise_defined adv hdl L :
  bridge_publications_mutex ∉ L → defined L (client_advertise adv hdl).
Proof. intros HL. unfold client_advertise. solve_ros1. Qed.

Lemma client_unadvertise_defined ch hdl L :
  bridge_publications_mutex ∉ L → defined L (client_unadvertise ch hdl).
Proof. intros HL. unfold client_unadvertise. solve_ros1. Qed.

Lemma client_message_defined m hdl L :
  bridge_publications_mutex ∉ L → getData m ≠ Undefined → defined L (client_message m hdl).
Proof. intros HL Hm. unfold client_message. solve_ros1; done. Qed.

Lemma read_parameters_defined e all names :
  env_defined e → read_parameters cfg e all names ≠ Undefined.
Proof.
  intros He. induction names as [|name names IH]; cbn [read_parameters]; [done|].
  destruct (negb _ && all); [done|].
  pose proof (ed_param e He name) as Hp. destruct (getParam e name) as [v|ex|]; simpl_bind; [| |done].
  - pose proof (from_ros_param_defined name v). destruct (from_ros_param name v); try done;
      by destruct (read_parameters cfg e all names) as [[]| |].
  - by destruct (read_parameters cfg e all names) as [[]| |].
Qed.

Lemma get_parameters_defined ps i hdl L : defined L (get_parameters cfg ps i hdl).
Proof.
  unfold get_parameters. apply defined_bind_get_world. intros σ w Hw.
  apply defined_bind; [solve_ros1|]. intros names.
  apply defined_bind_lift; [by apply read_parameters_defined, Hw|]. intros [params b] _. solve_ros1.
Qed.

Lemma set_parameter_defined p L : defined L (set_parameter cfg p).
Proof. unfold set_parameter. solve_ros1. Qed.

Lemma set_parameters_defined ps i hdl L : defined L (set_parameters cfg ps i hdl).
Proof.
  assert (defined L (set_parameter_loop cfg ps)) as Hl.
  { induction ps as [|p ps IH]; cbn [set_parameter_loop]; [apply defined_ret|].
    apply defined_bind; [apply set_parameter_defined|]. intros ok.
    apply defined_bind; [done|]. intros. apply defined_ret. }
  unfold set_parameters. apply defined_bind; [done|]. intros b.
  apply defined_bind; [destruct i; [apply get_parameters_defined|apply defined_ret]|]. intros []. solve_ros1.
Qed.

Lemma subscribe_parameters_defined ps op hdl L : defined L (subscribe_parameters cfg ps op hdl).
Proof.
  assert (defined L (subscribe_parameter_loop cfg op ps)) as Hl.
  { induction ps as [|p ps IH]; cbn [subscribe_parameter_loop]; [apply defined_ret|].
    destruct (negb _); [done|]. solve_ros1. }
  unfold subscribe_parameters. solve_ros1.
Qed.

Lemma service_request_defined r hdl L :
  bridge_services_mutex ∉ L → defined L (service_request r hdl).
Proof.
  intros HL. pose proof (λ L h x, send_service_response_defined (W:=Node) L h x) as Hr.
  unfold service_request. solve_ros1.
Qed.

Lemma fetch_asset_defined uri i hdl L : defined L (fetch_asset cfg uri i hdl).
Proof.
  pose proof (λ L h x, send_fetch_asset_response_defined (W:=Node) L h x) as Hr.
  unfold fetch_asset. solve_ros1.
Qed.

Lemma run_fetch_asset_defined L : defined L (run_fetch_asset cfg).
Proof.
  unfold run_fetch_asset. apply defined_bind; [apply defined_get_world|].
  intros [|[[uri i] hdl] q]; [apply defined_ret|].
  apply defined_bind; [by apply defined_update_world; intros σ w Hw|]. intros [].
  apply defined_try_catch; [apply fetch_asset_defined|intros; apply defined_ret].
Qed.

Lemma parameter_updates_defined ps : defined [] (parameter_updates ps).
Proof.
  pose proof (update_parameter_values_defined (W:=Node)) as Hu. unfold parameter_updates. solve_ros1.
Qed.

Lemma ros1_handlers_defined : HandlersDefined (handlers cfg).
Proof.
  apply handlers_always_defined; [done|]. intros c body L Hb HL.
  destruct c as [| | | | | | | | |b|]; simpl in Hb; try injection Hb as <-; simpl in HL;
    try (apply subscribe_defined || apply unsubscribe_defined || apply client_advertise_defined ||
         apply client_unadvertise_defined || apply get_parameters_defined ||
         apply set_parameters_defined || apply subscribe_parameters_defined ||
         apply service_request_defined); try (subst L; set_solver); try set_solver.
  - apply client_message_defined; [set_solver|apply HL].
  - apply defined_update_world. by intros σ w Hw.
  - destruct (has_capability _ _); [|done]. injection Hb as <-.
    apply defined_update_world. by intros σ w Hw.
Qed.

(** ** The update timer *)

Lemma new_channel_defined e key : env_defined e → new_channel e key ≠ Undefined.
Proof.
  intros He. unfold new_channel. pose proof (ed_message e He key.2).
  destruct (getMessageDescription e key.2) as [[]|ex|]; [done..| |done]. by destruct (what ex).
Qed.

Lemma new_service_defined e name : env_defined e → new_service e name ≠ Undefined.
Proof.
  intros He. unfold new_service.
  assert (retrieve_service_type e name ≠ Undefined) as Hr.
  { unfold retrieve_service_type. by destruct (probe_service e name) as [| |[]|]. }
  destruct (retrieve_service_type e name) as [type|ex|]; simpl_bind; [|by destruct (what ex)|done].
  pose proof (ed_service e He type).
  destruct (getServiceDescription e type) as [|ex|]; simpl_bind; [done|by destruct (what ex)|done].
Qed.

Lemma channels_to_add_defined keys L : defined L (channels_to_add keys).
Proof.
  induction keys as [|key keys IH]; cbn [channels_to_add]; [apply defined_ret|].
  apply defined_bind; [apply get_table_defined|]. intros topics. destruct (is_advertised _ _); [done|].
  apply defined_bind_get_world. intros σ w Hw.
  apply defined_bind_lift; [by apply new_channel_defined, Hw|]. intros c _. solve_defined.
Qed.

Lemma services_to_add_defined names L : defined L (services_to_add names).
Proof.
  induction names as [|name names IH]; cbn [services_to_add]; [apply defined_ret|].
  apply defined_bind; [apply get_table_defined|]. intros v. destruct (is_known_service _ _); [done|].
  apply defined_bind_get_world. intros σ w Hw.
  apply defined_bind_lift; [by apply new_service_defined, Hw|]. intros c _. solve_defined.
Qed.

Lemma update_topics_defined : defined [] (update_advertised_topics cfg).
Proof.
  pose proof channels_to_add_defined. unfold update_advertised_topics.
  apply defined_bind_get_world. intros σ w _. destruct (getTopics _); [|apply defined_ret].
  apply defined_with_lock; [set_solver|].
  apply defined_bind; [apply get_table_defined|]. intros topics.
  apply defined_bind; [apply remove_stale_channels_defined|]. intros ids.
  apply defined_bind; [apply remove_channels_defined; set_solver|]. intros [].
  apply defined_bind; [done|]. intros ?. apply announce_channels_defined; set_solver.
Qed.

Lemma update_services_defined names : defined [] (update_advertised_services names).
Proof.
  pose proof services_to_add_defined. unfold update_advertised_services.
  apply defined_with_lock; [set_solver|].
  apply defined_bind; [apply get_table_defined|]. intros known.
  apply defined_bind; [apply erase_services_defined|]. intros [].
  apply defined_bind; [apply remove_services_defined; set_solver|]. intros [].
  apply defined_bind; [done|]. intros ?. apply announce_services_defined; set_solver.
Qed.


End Handlers.

(** ** Every input of the bridge *)

Section Bridge.
Context {plat : Platform} (cfg : Config) (parse : list byte → outcome json).
Implicit Types (s : St Node).

(** Shifts up to 63 are defined. *)
Definition count_room (c : Z) : Prop := 0 ≤ c < 63.

#[local] Instance count_world : WorldInv Node | 0 := ros1_world count_room.

Lemma next_update_ms_defined c : count_room c → next_update_ms cfg (u64 (c + 1)) ≠ Undefined.
Proof.
  intros Hc. unfold count_room in Hc. rewrite u64_small by (unfold is_u64; lia).
  unfold next_update_ms. by rewrite (proj2 (Z.leb_gt 64 (c + 1))) by lia.
Qed.

Lemma timer_defined s :
  state_ok s → (update_advertised_topics_and_services cfg [] s).1 ≠ Undefined.
Proof.
  intros Hw. unfold update_advertised_topics_and_services.
  apply defined_then; [by apply defined_update_world; intros σ w Hw'|done|].
  intros [] s1 Hs1. apply defined_then; [apply defined_get_world|done|]. intros ok s2 Hs2.
  destruct (negb ok); [done|].
  apply defined_then; [apply defined_get_world|done|]. intros updates s3 Hs3.
  apply defined_then; [apply defined_get_world|done|]. intros state s4 Hs4.
  apply defined_then; [apply (update_topics_defined cfg count_room)|done|]. intros [] s5 Hs5.
  apply defined_then; [|done|].
  { destruct (has_capability _ _); [apply (update_services_defined count_room)|apply defined_ret]. }
  intros [] s6 Hs6. apply defined_then; [apply defined_get_world|done|]. intros updates' s7 Hs7.
  apply defined_then; [|done|].
  { destruct updates'; [apply update_connection_graph_defined|apply defined_ret]. }
  intros [] s8 [_ Hc]. run. cbv beta delta [update_world get_world] iota. cbn [fst snd world].
  pose proof (next_update_ms_defined (update_count_ (world s8)) Hc) as Hn.
  by destruct (next_update_ms cfg _).
Qed.

(** The conditions under which an input is handled without undefined behaviour: of a
    client, that its JSON does not trip an unchecked access and the counter of graph
    subscriptions has room; of the timer, that its counter has room. *)
Definition bridge_input_safe (b : bridge_input) s : Prop :=
  match b with
  | FromClient i => input_safe parse i ∧ graph_room s
  | UpdateTimer => count_room (update_count_ (world s))
  | _ => True
  end.

(** C14. On safe inputs nothing the ROS 1 bridge does is undefined, given that roscpp
    returns or throws: no callback and no request locks a mutex it holds, reads what is
    not there or shifts too far.  Safe are the requests of clients whose JSON trips no
    unchecked access ([input_safe]) while the count of graph subscribers does not
    overflow, the updates of the timer while it has made fewer than 63 (the 64th is
    undefined, [ros1_64th_update_undefined]), and everything else. *)
Theorem ros1_bridge_defined (b : bridge_input) s :
  env_defined (env (world s)) → bridge_input_safe b s →
  (bridge_entry cfg parse b [] s).1 ≠ Undefined.
Proof.
  intros He Hb. set (φ := λ _ : Z, True).
  assert (state_ok (ψ := ros1_world φ) s) as Hw by done.
  destruct b as [i| |ch hdl t buffer|ps| |t]; cbn [bridge_entry].
  - destruct Hb as [Hi Hg].
    exact (defined_if_run (ψ := ros1_world φ) _ _ _ s
      (entry_defined (ψ := ros1_world φ) (handlers cfg)
         (HandlersDefined0 := ros1_handlers_defined cfg φ) parse i Hi) (input_ready_any parse i s Hg) Hw).
  - by apply timer_defined.
  - apply (defined_run (ψ := ros1_world φ)); [apply send_message_defined|done].
  - apply (defined_run (ψ := ros1_world φ)); [apply parameter_updates_defined|done].
  - apply (defined_run (ψ := ros1_world φ)); [apply run_fetch_asset_defined|done].
  - apply (defined_run (ψ := ros1_world φ)); [apply broadcast_time_defined|done].
Qed.

End Bridge.

(** ** Example *)

(** The session of [Ros1Scenarios]: its client asks for the parameters. *)
Lemma demo_env_defined state : env_defined (demo_env state).
Proof. split; intros; simpl; try done; by repeat case_bool_decide. Qed.

Lemma ros1_bridge_defined_witness :
  (bridge_entry (plat:=x86_64) demo_config bridge_parse UpdateTimer [] bridge_state).1 ≠ Undefined.
Proof.
  apply (ros1_bridge_defined (plat:=x86_64) demo_config bridge_parse UpdateTimer bridge_state).
  - assert (env (world bridge_state) = demo_env (Some demo_system)) as ->
      by (vm_compute; reflexivity). apply demo_env_defined.
  - split; [vm_compute; discriminate|vm_compute; reflexivity].
Defined.
