(* ===== verification/Ros2Params.v ===== *)
(** * The subscriptions to parameters and the parameter interface

    The server counts which client is subscribed to which parameter and tells the
    ROS 2 bridge the names that are new or no longer used; the parameter interface
    follows parameters by node.  This file relates the two records: what is
    subscribed is followed, as long as the names have the form [node.parameter] and
    are on the whitelist. *)

From Stdlib Require Import ZArith Lia.
From S2P Require Import Prelude Wire Json Serialization ServerState ServerMethods ServerLogic.
From S2P Require Import ServerSync ServerDefined Text ParameterInterface.

Local Open Scope Z_scope.

Abbreviation Subscriptions := (gmap ConnHandle (gset string)).

(** Some client is subscribed to the parameter. *)
Definition subscribed (σ : Subscriptions) (name : string) : Prop :=
  ∃ h names, σ !! h = Some names ∧ name ∈ names.

Lemma elem_of_unsubscribed' σ names n :
  n ∈ unsubscribed σ names ↔ n ∈ names ∧ ¬ subscribed σ n.
Proof. apply elem_of_unsubscribed. Qed.

Lemma not_unsubscribed σ names n : n ∈ names → n ∉ unsubscribed σ names → subscribed σ n.
Proof.
  intros Hn Hu. apply param_subscribed_spec. destruct (param_subscribed σ n) eqn:E; [done|].
  destruct Hu. apply elem_of_unsubscribed'. split; [done|]. intros Hs%param_subscribed_spec.
  congruence.
Qed.

Lemma subscribed_insert_union σ hdl names n :
  subscribed (<[hdl := default ∅ (σ !! hdl) ∪ names]> σ) n ↔ subscribed σ n ∨ n ∈ names.
Proof.
  unfold subscribed. split.
  - intros (h & x & Hx & Hn). destruct (decide (h = hdl)) as [->|Hne].
    + rewrite lookup_insert_eq in Hx. injection Hx as <-.
      apply elem_of_union in Hn as [Hn|Hn]; [|by right]. left.
      destruct (σ !! hdl) as [y|] eqn:E; [by exists hdl, y|by apply not_elem_of_empty in Hn].
    + rewrite lookup_insert_ne in Hx by done. left. by exists h, x.
  - intros [(h & x & Hx & Hn)|Hn].
    + destruct (decide (h = hdl)) as [->|Hne].
      * eexists hdl, _. rewrite lookup_insert_eq, Hx. split; [done|]. set_solver.
      * exists h, x. by rewrite lookup_insert_ne.
    + eexists hdl, _. rewrite lookup_insert_eq. split; [done|]. set_solver.
Qed.

Lemma subscribed_insert_difference σ hdl names n :
  subscribed (<[hdl := default ∅ (σ !! hdl) ∖ names]> σ) n → subscribed σ n.
Proof.
  intros (h & x & Hx & Hn). destruct (decide (h = hdl)) as [->|Hne].
  - rewrite lookup_insert_eq in Hx. injection Hx as <-. apply elem_of_difference in Hn as [Hn _].
    destruct (σ !! hdl) as [y|] eqn:E; [by exists hdl, y|by apply not_elem_of_empty in Hn].
  - rewrite lookup_insert_ne in Hx by done. by exists h, x.
Qed.

Lemma subscribed_delete σ hdl n : subscribed (delete hdl σ) n → subscribed σ n.
Proof. intros (h & x & [_ Hx]%lookup_delete_Some & Hn). by exists h, x. Qed.

Lemma subscribed_default σ hdl n : n ∈ default ∅ (σ !! hdl) → subscribed σ n.
Proof.
  destruct (σ !! hdl) as [x|] eqn:E; intros Hn; [by exists hdl, x|by apply not_elem_of_empty in Hn].
Qed.

(** ** Names *)

(** A name of the form [node.parameter]. *)
Definition proper (name : string) : Prop := is_Some (str_find PARAM_SEP name).

#[export] Instance proper_dec name : Decision (proper name).
Proof. unfold proper. apply _. Defined.

Lemma proper_inj a b :
  proper a → proper b → get_node_and_param_name a = get_node_and_param_name b → a = b.
Proof.
  unfold get_node_and_param_name. intros [[n p] Ha] [[n' p'] Hb]. rewrite Ha, Hb.
  intros [= -> ->]. apply str_find_Some in Ha, Hb. congruence.
Qed.

Lemma proper_NoDup names :
  Forall proper names → NoDup names → NoDup (get_node_and_param_name <$> names).
Proof.
  rewrite Forall_forall. intros Hp Hnd. induction Hnd as [|x names Hx _ IH]; [constructor|].
  rewrite fmap_cons. constructor; [|apply IH; intros y Hy; apply Hp; by right].
  intros (y & Hxy & Hy)%list_elem_of_fmap. apply proper_inj in Hxy as ->; [done|..]; apply Hp.
  - left.
  - by right.
Qed.

(** ** What is subscribed is followed *)

Record param_inv (patterns : list regex) (σ : Subscriptions) (p : ParameterInterface) : Prop := {
  pi_ok : interface_ok p;
  pi_patterns : _param_whitelist_patterns p = patterns;
  pi_follows n : subscribed σ n → proper n ∧ follows p (get_node_and_param_name n)
}.

Lemma param_inv_subscribed patterns σ σ' p :
  (∀ n, subscribed σ' n → subscribed σ n) → param_inv patterns σ p → param_inv patterns σ' p.
Proof. intros Hσ [Hok Hp Hf]. split; [done..|]. intros n Hn. by apply Hf, Hσ. Qed.

Lemma subscribe_loop_patterns names nodes s :
  _param_whitelist_patterns (subscribe_loop names nodes s).1.1 = _param_whitelist_patterns s.
Proof.
  revert nodes s. induction names as [|n names IH]; intros nodes s; [done|].
  cbn [subscribe_loop]. destruct (negb _); [done|].
  destruct (get_node_and_param_name n) as [node p]. by rewrite IH.
Qed.

Lemma subscribe_params_patterns names s :
  _param_whitelist_patterns (subscribe_params names s) = _param_whitelist_patterns s.
Proof.
  unfold subscribe_params. pose proof (subscribe_loop_patterns names ∅ s) as Hp.
  destruct (subscribe_loop names ∅ s) as [[s' nodes] finished]. by destruct finished.
Qed.

Lemma unsubscribe_params_patterns names : ∀ s s',
  unsubscribe_params names s = Ret s' →
  _param_whitelist_patterns s' = _param_whitelist_patterns s.
Proof.
  induction names as [|n names IH]; intros s s'; cbn [unsubscribe_params]; [by intros [= <-]|].
  destruct (get_node_and_param_name n) as [node p].
  destruct (_subscribed_params_by_node s !! node) as [ps|]; [|apply IH].
  destruct (erase_found p ps) as [ps'| |]; simpl_bind; [|done..].
  case_bool_decide; [|by intros ->%IH].
  destruct (erase_found node _) as [subs| |]; simpl_bind; [|done..]. by intros ->%IH.
Qed.

(** The interface is told the names that are new. *)
Lemma param_inv_subscribe patterns σ σ' p names :
  param_inv patterns σ p →
  (∀ n, n ∈ names → proper n ∧ is_whitelisted n patterns = true) →
  (∀ n, subscribed σ' n → subscribed σ n ∨ n ∈ names) →
  param_inv patterns σ' (subscribe_params names p).
Proof.
  intros [Hok Hp Hf] Hn Hσ.
  destruct (subscribe_params_ok names p Hok) as [Hok' Hf'].
  { rewrite Hp. apply forallb_forall. intros n Hin%list_elem_of_In. by apply Hn. }
  split; [done|by rewrite subscribe_params_patterns|].
  intros n [Hs|Hs]%Hσ.
  - destruct (Hf n Hs) as [? ?]. split; [done|]. apply Hf'. by left.
  - split; [by apply Hn|]. apply Hf'. right. apply list_elem_of_fmap. by exists n.
Qed.

(** The interface is told the names that are no longer used. *)
Lemma param_inv_unsubscribe patterns σ σ' p names :
  param_inv patterns σ p → NoDup names →
  (∀ n, n ∈ names → subscribed σ n ∧ ¬ subscribed σ' n) →
  (∀ n, subscribed σ' n → subscribed σ n) →
  ∃ p', unsubscribe_params names p = Ret p' ∧ param_inv patterns σ' p'.
Proof.
  intros [Hok Hp Hf] Hnd Hn Hσ.
  assert (Forall proper names) as Hprop.
  { apply Forall_forall. intros n Hin. by apply Hf, Hn. }
  destruct (unsubscribe_params_ok names p Hok) as (p' & Hrun & Hok' & Hf').
  { by apply proper_NoDup. }
  { apply Forall_forall. intros n Hin. by apply Hf, Hn. }
  exists p'. split; [done|]. split; [done|by rewrite (unsubscribe_params_patterns _ _ _ Hrun)|].
  intros n Hs. destruct (Hf n (Hσ n Hs)) as [Hpn Hfn]. split; [done|]. apply Hf'. split; [done|].
  intros (m & Heq & Hm)%list_elem_of_fmap. rewrite Forall_forall in Hprop.
  apply proper_inj in Heq as ->; [|done|by apply Hprop]. by destruct (Hn m Hm).
Qed.

(** Reading and setting make clients for nodes, nothing else. *)
Lemma param_inv_clients patterns σ p c :
  param_inv patterns σ p → _param_clients_by_node p ⊆ c →
  param_inv patterns σ (set_param_clients c p).
Proof.
  intros [[Hne Hsub Hcl] Hp Hf] Hc. split; [|done..]. split; [done..|].
  intros n Hn. by apply Hc, Hcl.
Qed.

Lemma param_inv_get patterns σ ros names p :
  param_inv patterns σ p → param_inv patterns σ (get_params ros names p).1.
Proof.
  intros Hp. unfold get_params. destruct (match names with [] => _ | _ => _ end); [|done..].
  apply param_inv_clients; [done|]. set_solver.
Qed.

Lemma param_inv_set patterns σ ros ps p :
  param_inv patterns σ p → param_inv patterns σ (set_params ros ps p).1.1.
Proof.
  intros Hp. unfold set_params. destruct (group_params _ _ _) as [[m|]| |]; [|done..].
  apply param_inv_clients; [done|]. set_solver.
Qed.

Lemma node_name_defined name : get_node_and_node_namespace name ≠ Undefined.
Proof. unfold get_node_and_node_namespace. by destruct (split_last name). Qed.

Lemma nodes_with_parameters_defined ros nodes m : nodes_with_parameters ros nodes m ≠ Undefined.
Proof.
  revert m. induction nodes as [|n nodes IH]; intros m; cbn [nodes_with_parameters]; [done|].
  destruct (_ || _); [done|]. pose proof (node_name_defined n).
  destruct (get_node_and_node_namespace n) as [[ns name]| |]; simpl_bind; [|done..].
  by destruct (_ && _).
Qed.

Lemma get_params_defined ros names p : (get_params ros names p).2 ≠ Undefined.
Proof.
  unfold get_params. destruct names as [|n names]; [|done].
  pose proof (nodes_with_parameters_defined ros (get_node_names ros) ∅).
  by destruct (nodes_with_parameters _ _ _).
Qed.

(** Values without an empty array can be converted. *)
Definition settable (ps : list ParameterT) : Prop := ∀ q, q ∈ ps → param_value q ≠ PArray [].

Lemma to_ros_param_settable q : param_value q ≠ PArray [] → to_ros_param q ≠ Undefined.
Proof.
  intros Hq. unfold to_ros_param. destruct (param_value q) as [| | | | | |l|] eqn:E; try done.
  destruct l as [|v l]; [done|].
  assert (∀ {A} (f : ParameterValue → outcome A) l, (∀ v, f v ≠ Undefined) →
    outcome_mapM f l ≠ Undefined) as Hm.
  { intros A f l' Hf. apply mapM_defined. auto. }
  destruct (getType v); try done; (apply bind_defined; [apply Hm; by intros []|done]).
Qed.

Lemma set_params_defined ros ps p : settable ps → (set_params ros ps p).2 ≠ Undefined.
Proof.
  intros Hs. unfold set_params.
  assert (∀ m, group_params (_param_whitelist_patterns p) ps m ≠ Undefined) as Hg.
  { induction ps as [|q ps IH]; intros m; cbn [group_params]; [done|].
    destruct (negb _); [done|].
    pose proof (to_ros_param_settable q (Hs q ltac:(left))) as Hq.
    destruct (to_ros_param q) as [r| |]; simpl_bind; [|done..].
    destruct (get_node_and_param_name _) as [node name]. apply IH. intros x Hx. apply Hs. by right. }
  specialize (Hg ∅). by destruct (group_params _ _ _) as [[m|]| |].
Qed.
