(* ===== verification/Ros2Defined.v ===== *)
(** * Undefined behaviour of the ROS 2 bridge

    The handlers of the node meet what the server asks of them ([HandlersDefined]),
    with the parameter capabilities ([Ros2Params]: what is subscribed is followed) and
    without, and every safe input of the bridge is defined in every state safe inputs
    lead to.  Safe is what the code does not check: a service has a type, the clock is
    not negative, no parameter is set to an empty array, the names that are subscribed
    have the form [node.parameter] and are on the whitelist, and a name that is
    unsubscribed is one somebody is subscribed to.  The conditions on values and on
    names to unsubscribe are needed: a client can cause undefined behaviour without
    them. *)

From Stdlib Require Import ZArith Lia.
From S2P Require Import Prelude Wire Json Serialization ServerState ServerMethods ServerLogic.
From S2P Require Import ServerInv ServerSpecs ServerSystem ServerDefined.
From S2P Require Import Text MessageDefinitionCache SchemaText ParameterInterface BridgeParams.
From S2P Require Import BridgeTables ServerRuns BridgeSync BridgeDefined ServerSync Ros2Params.
From S2P Require Import GenericClient Ros2Bridge Ros2Handlers Ros2System Ros2Scenarios.

Local Open Scope Z_scope.
Import Ros2Node.

(** The calls into rclcpp return or throw, and a service has a type. *)
Record env_defined (e : RosEnv) : Prop := {
  ed_publishers topic : get_publishers_info_by_topic e topic ≠ Undefined;
  ed_subscribers topic : get_subscriptions_info_by_topic e topic ≠ Undefined;
  ed_providers name ns : Ros2Node.get_service_names_and_types_by_node e name ns ≠ Undefined;
  ed_retrieve uri : retrieve e uri ≠ Undefined;
  ed_send service bytes : rcl_send_request (rcl e) service bytes ≠ Undefined;
  ed_topics : get_topic_names_and_types e ≠ Undefined;
  ed_services : get_service_names_and_types e ≠ Undefined;
  ed_types l name types :
    get_service_names_and_types e = Ret l → (name, types) ∈ l → types ≠ []
}.

(** With the parameter capabilities there is an interface, and it follows what is
    subscribed. *)
Definition ros2_world (cfg : Config) (patterns : list regex) : WorldInv Node := λ σ n,
  env_defined (env n) ∧
  (parameters_enabled cfg = true →
   ∃ p, _param_interface n = Some p ∧ param_inv patterns σ p).

(** The requests on parameters the bridge can serve: names of the form
    [node.parameter] on the whitelist are subscribed, names some client is subscribed
    to are unsubscribed, and no value is an empty array. *)
Definition ros2_requests (patterns : list regex) : ParamRequests := {|
  subscribe_safe names := ∀ n, n ∈ names → proper n ∧ is_whitelisted n patterns = true;
  unsubscribe_ready names σ := ∀ n, n ∈ names → subscribed σ n;
  set_safe := settable
|}.

Section Handlers.
Context {plat : Platform} (cfg : Config) (patterns : list regex).
Implicit Types (L : list mutex).

#[local] Instance ros2_world_here : WorldInv Node | 0 := ros2_world cfg patterns.
#[local] Instance ros2_requests_here : ParamRequests | 0 := ros2_requests patterns.
#[local] Instance ros2_tables_free : TablesFree (ros2_world cfg patterns).
Proof. by intros t σ w Hw. Qed.

Lemma ros2_call_defined e : ros_call e ≠ Undefined.
Proof. by destruct e. Qed.
Lemma ros2_log_defined L e : defined L (update_world (λ n, log_ros n e)).
Proof. apply defined_update_world. by intros σ w Hw. Qed.
Lemma ros2_rethrow_defined {A} L f e : defined L (rethrow (A:=A) f e).
Proof. unfold rethrow. solve_defined. Qed.
#[local] Hint Resolve ros2_call_defined ros2_log_defined ros2_rethrow_defined : server.

Ltac solve_ros2 :=
  repeat first
    [ match goal with
      | |- defined _ (mbind _ (get_world env)) =>
          apply defined_bind_get_world; intros ? ? [[? ? ? ? ? ? ? ?] _]
      | |- defined _ (get_world _) => apply defined_get_world
      | |- defined _ (update_world _) => apply defined_update_world; by intros ? ? ?
      end
    | defined_step ].

Lemma ros2_subscribe_defined ch hdl L :
  bridge_subscriptions_mutex ∉ L → defined L (subscribe cfg ch hdl).
Proof. intros HL. unfold subscribe. solve_ros2. Qed.

Lemma ros2_unsubscribe_defined ch hdl L :
  bridge_subscriptions_mutex ∉ L → defined L (unsubscribe ch hdl).
Proof. intros HL. unfold unsubscribe. solve_ros2. Qed.

Lemma ros2_client_advertise_defined adv hdl L :
  bridge_publications_mutex ∉ L → defined L (client_advertise cfg adv hdl).
Proof. intros HL. unfold client_advertise. solve_ros2. Qed.

Lemma ros2_client_unadvertise_defined ch hdl L :
  bridge_publications_mutex ∉ L → defined L (client_unadvertise ch hdl).
Proof. intros HL. unfold client_unadvertise. solve_ros2. Qed.

Lemma ros2_client_message_defined m hdl L :
  bridge_publications_mutex ∉ L → getData m ≠ Undefined → defined L (client_message m hdl).
Proof. intros HL Hm. unfold client_message. solve_ros2; done. Qed.

Lemma ros2_fetch_asset_defined uri i hdl L : defined L (fetch_asset cfg uri i hdl).
Proof.
  pose proof (λ L h x, send_fetch_asset_response_defined (W:=Node) L h x) as Hr.
  unfold fetch_asset. solve_ros2.
Qed.

Lemma ros2_run_fetch_asset_defined L : defined L (run_fetch_asset cfg).
Proof. pose proof ros2_fetch_asset_defined. unfold run_fetch_asset. solve_ros2. Qed.

(** ** The connection graph *)

Lemma current_topics_defined L : defined L current_topics.
Proof.
  apply defined_bind_get_world. intros σ w [Hw _]. apply defined_lift, (ed_topics _ Hw).
Qed.

Lemma graph_topics_defined l p q L : defined L (graph_topics cfg l p q).
Proof.
  revert p q. induction l as [|[name types] l IH]; intros p q; cbn [graph_topics];
    [apply defined_ret|]. solve_ros2.
Qed.

Lemma graph_services_defined l m L : defined L (graph_services cfg l m).
Proof.
  pose proof node_name_defined. revert m.
  induction l as [|name l IH]; intros m; cbn [graph_services]; [apply defined_ret|].
  apply defined_bind_lift; [done|]. intros [ns n] _. solve_ros2.
Qed.

Lemma ros2_connection_graph_defined l : defined [] (update_connection_graph cfg l).
Proof.
  pose proof graph_topics_defined. pose proof graph_services_defined.
  pose proof (update_connection_graph_defined (W:=Node)).
  unfold update_connection_graph. apply defined_bind; [done|]. intros [p q]. solve_ros2.
Qed.

Lemma subscribe_connection_graph_defined b L :
  (b = true → L = []) → defined L (subscribe_connection_graph cfg b).
Proof.
  intros HL. unfold subscribe_connection_graph. apply defined_bind; [solve_ros2|]. intros [].
  destruct b; [|apply defined_ret]. rewrite HL by done.
  apply defined_bind; [apply current_topics_defined|]. intros l. apply ros2_connection_graph_defined.
Qed.

(** ** Services *)

Ltac solve_outcome :=
  repeat match goal with
  | |- (_ ≫= _) ≠ Undefined => apply bind_defined; [|intros ? _]
  | |- (let '(_, _) := ?x in _) ≠ Undefined => destruct x
  | |- (match ?x with _ => _ end) ≠ Undefined => destruct x
  | |- (let _ := _ in _) ≠ Undefined => cbv zeta
  | |- _ ≠ Undefined => solve [eauto with server | discriminate]
  end.

Lemma extract_type_identifier_defined type : extract_type_identifier type ≠ Undefined.
Proof. unfold extract_type_identifier. solve_outcome. Qed.
#[local] Hint Resolve extract_type_identifier_defined : server.

Lemma typesupport_library_defined rcl type lib : get_typesupport_library rcl type lib ≠ Undefined.
Proof. unfold get_typesupport_library, get_typesupport_library_path. solve_outcome. Qed.
Lemma typesupport_handle_defined rcl type id lib :
  get_typesupport_handle rcl type id lib ≠ Undefined.
Proof. unfold get_typesupport_handle. solve_outcome. Qed.
#[local] Hint Resolve typesupport_library_defined typesupport_handle_defined : server.

Lemma new_GenericClient_defined rcl name type :
  new_GenericClient (C:=ResponseCallback) rcl name type ≠ Undefined.
Proof.
  unfold new_GenericClient, get_service_type_support_handle_symbol_name,
    get_type_introspection_symbol_name. solve_outcome.
Qed.
#[local] Hint Resolve new_GenericClient_defined : server.

Lemma send_request_defined e request cb (c : GenericClient ResponseCallback) :
  env_defined e → async_send_request (rcl e) request cb c ≠ Undefined.
Proof. intros [? ? ? ? ? ?]. unfold async_send_request. solve_outcome. Qed.

Lemma ros2_service_request_defined r hdl L :
  bridge_services_mutex ∉ L → defined L (service_request r hdl).
Proof.
  intros HL. unfold service_request. apply defined_with_lock; [set_solver|].
  apply defined_bind; [apply get_table_defined|]. intros services.
  destruct (services !! service_id r) as [service|]; [|apply defined_throw].
  apply defined_bind_get_world. intros σ w [Hw _].
  set (e := env w).
  assert (∀ client, defined (bridge_services_mutex :: L)
    (if negb (wait_for_service e (gc_service_name client))
     then throw (ServiceError (service_id r)
                   ("Service " +:+ service_name service +:+ " is not available"))
     else
       '(sequence_number, client) ←
         lift (async_send_request (rcl e) (serv_data r) (r, hdl) client);
       update_world (λ n, log_ros
         (set_service_clients n (<[service_id r := client]> (_service_clients n)))
         (RosServiceCall (gc_service_name client) sequence_number (serv_data r))))) as Htail.
  { intros client. destruct (negb _); [apply defined_throw|].
    apply defined_bind_lift; [by apply send_request_defined|]. intros [seq client'] _. solve_ros2. }
  intros s _ Hs. erewrite bind_run by reflexivity. cbv beta.
  destruct (_service_clients (world s) !! service_id r) as [client|] eqn:Hc.
  { do 2 erewrite bind_run by reflexivity. rewrite Hc. by apply Htail. }
  apply (defined_bind_state (λ s, is_Some (_service_clients (world s) !! service_id r)));
    [solve_ros2| | |done..].
  - intros s1 [] s2. unfold try_catch, mbind, M_mbind, M_bind, lift, update_world, rethrow.
    destruct (new_GenericClient _ _ _) as [client|ex|]; [|by destruct (what ex)|done].
    destruct (ros_call _) as [|ex|]; [|by destruct (what ex)|done].
    intros Heq. simplify_eq/=. rewrite lookup_emplace_at, decide_True by done. by eexists.
  - intros [] s1 [client Hclient] Hs1. erewrite bind_run by reflexivity. rewrite Hclient.
    by apply Htail.
Qed.

Lemma service_response_defined id n r L : defined L (on_service_response id n r).
Proof.
  pose proof (λ L h x, send_service_response_defined (W:=Node) L h x) as Hr.
  unfold on_service_response. apply defined_bind; [apply defined_get_world|]. intros clients.
  destruct (clients !! id) as [client|]; [|apply defined_ret].
  destruct (handle_response n r client) as [client' [[[request hdl] response]|]]; solve_ros2.
Qed.

(** ** Parameters *)

(** A run that ended, in a state with the ambient invariant. *)
Definition ends_ok {A} (r : outcome A * St Node) : Prop :=
  match r with
  | (Undefined, _) => False
  | (_, s') => state_ok s'
  end.

Lemma ends_ok_try_catch {A} L (m : M Node A) h s :
  ends_ok (m L s) → (∀ e, defined L (h e)) → ends_ok (try_catch m h L s).
Proof.
  unfold try_catch. destruct (m L s) as [[a|e|] s']; [done| |done]. intros Hs Hh. by apply Hh.
Qed.

(** The interface a handler reads, and the one it leaves. *)
Lemma bind_interface {A} L (k : ParameterInterface → M Node A) (s : St Node) p :
  _param_interface (world s) = Some p → (get_params_interface ≫= k) L s = k p L s.
Proof. intros Hp. unfold get_params_interface. run_node. simpl. by rewrite Hp. Qed.

Lemma store_interface {A} L (f : Node → Node) p (k : unit → M Node A) (s : St Node) :
  env_defined (env (world s)) →
  param_inv patterns (_client_param_subscriptions (srv s)) p →
  (∀ n, _param_interface (f n) = Some p ∧ env (f n) = env n) →
  defined L (k tt) →
  ends_ok ((update_world f ≫= k) L s).
Proof.
  intros He Hp Hf Hk. destruct (Hf (world s)) as [Hi Hen]. erewrite bind_run by reflexivity.
  apply Hk; [done|]. split; simpl; [by rewrite Hen|]. intros _. by exists p.
Qed.

Lemma ros2_get_parameters_defined names i hdl L :
  parameters_enabled cfg = true → defined L (get_parameters names i hdl).
Proof.
  intros Hen s _ [He Hp]. destruct (Hp Hen) as (p & Hpi & Hinv).
  unfold get_parameters. rewrite (bind_interface _ _ _ p Hpi). erewrite bind_run by reflexivity.
  cbv beta. pose proof (param_inv_get patterns _ (parameter_graph (env (world s))) names p Hinv) as Hg.
  pose proof (get_params_defined (parameter_graph (env (world s))) names p) as Hd.
  destruct (get_params _ _ p) as [p' params]. simpl in Hg, Hd.
  apply (store_interface _ _ p'); [done..|]. solve_defined.
Qed.

Lemma ros2_set_parameters_defined ps i hdl L :
  parameters_enabled cfg = true → settable ps → defined L (set_parameters ps i hdl).
Proof.
  intros Hen Hps s _ [He Hp]. destruct (Hp Hen) as (p & Hpi & Hinv).
  unfold set_parameters. rewrite (bind_interface _ _ _ p Hpi). erewrite bind_run by reflexivity.
  cbv beta. pose proof (param_inv_set patterns _ (parameter_graph (env (world s))) ps p Hinv) as Hg.
  pose proof (set_params_defined (parameter_graph (env (world s))) ps p Hps) as Hd.
  destruct (set_params _ _ p) as [[p' requests] r]. simpl in Hg, Hd.
  apply (store_interface _ _ p'); [done..|]. solve_defined; try done.
  by apply ros2_get_parameters_defined.
Qed.

(** An event of a node whose events are subscribed. *)
Definition event_expected (node : string) (s : St Node) : Prop :=
  ∃ p, _param_interface (world s) = Some p ∧ node ∈ _param_subscriptions_by_node p.

Lemma ros2_parameter_event_defined node ps :
  parameters_enabled cfg = true →
  defined_if (event_expected node) [] (on_parameter_event node ps).
Proof.
  intros Hen s (p & Hpi & Hn) [He Hp]. destruct (Hp Hen) as (p0 & Hpi0 & Hinv).
  assert (p0 = p) as -> by congruence.
  unfold on_parameter_event. rewrite (bind_interface _ _ _ p Hpi).
  pose proof (parameter_event_followed node ps p) as Hev.
  destruct (parameter_event node ps p) as [p' result]. simpl in Hev.
  rewrite Hev by (by apply (followed_subscribed p (pi_ok _ _ _ Hinv))).
  apply (store_interface _ _ p); [done..|].
  pose proof (update_parameter_values_defined (W:=Node)) as Hu. unfold parameter_updates. solve_defined.
Qed.

(** Subscriptions change in the server first; then the interface is told. *)
Lemma call_subscription names op hdl s p :
  parameters_enabled cfg = true → _param_interface (world s) = Some p →
  call (handlers cfg) (CallParameterSubscription names op hdl) [] s =
  match op with
  | SUBSCRIBE => update_world (λ n, set_param_interface n (Some (subscribe_params names p)))
  | UNSUBSCRIBE =>
      p ← lift (unsubscribe_params names p);
      update_world (λ n, set_param_interface n (Some p))
  end [] (mkSt (srv s) (net s) (trace s ++ [Call (CallParameterSubscription names op hdl)])
            (world s)).
Proof.
  intros Hen Hpi. unfold call. cbn [handler_body handlers parameter_subscription_handler].
  rewrite Hen. cbn. erewrite bind_run by reflexivity. unfold subscribe_parameters.
  by rewrite (bind_interface _ _ _ p).
Qed.

Lemma tell_subscribe σ names hdl s p :
  parameters_enabled cfg = true → env_defined (env (world s)) →
  _param_interface (world s) = Some p → param_inv patterns σ p →
  (∀ n, n ∈ names → proper n ∧ is_whitelisted n patterns = true) →
  (∀ n, subscribed (_client_param_subscriptions (srv s)) n → subscribed σ n ∨ n ∈ names) →
  ends_ok (call (handlers cfg) (CallParameterSubscription names SUBSCRIBE hdl) [] s).
Proof.
  intros Hen He Hpi Hinv Hn Hσ. rewrite (call_subscription _ _ _ _ p) by done.
  split; [done|]. intros _. eexists. split; [done|]. simpl. by eapply param_inv_subscribe.
Qed.

Lemma tell_unsubscribe σ names hdl s p :
  parameters_enabled cfg = true → env_defined (env (world s)) →
  _param_interface (world s) = Some p → param_inv patterns σ p → NoDup names →
  (∀ n, n ∈ names → subscribed σ n ∧ ¬ subscribed (_client_param_subscriptions (srv s)) n) →
  (∀ n, subscribed (_client_param_subscriptions (srv s)) n → subscribed σ n) →
  ends_ok (call (handlers cfg) (CallParameterSubscription names UNSUBSCRIBE hdl) [] s).
Proof.
  intros Hen He Hpi Hinv Hnd Hn Hσ. rewrite (call_subscription _ _ _ _ p) by done.
  destruct (param_inv_unsubscribe patterns σ _ p names Hinv Hnd Hn Hσ) as (p' & -> & Hinv').
  split; [done|]. intros _. by exists p'.
Qed.

(** The names of [names] nobody is subscribed to any more are handed to the interface,
    which followed all of them. *)
Lemma forget_unused σ names hdl s :
  ros2_world cfg patterns σ (world s) →
  (∀ n, n ∈ names → subscribed σ n) →
  (∀ n, subscribed (_client_param_subscriptions (srv s)) n → subscribed σ n) →
  ends_ok (unsubscribe_params_without_subscriptions (handlers cfg) hdl names [] s).
Proof.
  intros [He Hp] Hn Hσ.
  unfold unsubscribe_params_without_subscriptions. erewrite bind_run by (apply not_subscribed_run).
  destruct (_ && _) eqn:Hb.
  - apply andb_true_iff in Hb as [Hen%bool_decide_eq_true _].
    cbn [handlers parameter_subscription_handler] in Hen.
    destruct (parameters_enabled cfg) eqn:E; [|by destruct Hen].
    destruct (Hp eq_refl) as (p & Hpi & Hinv).
    apply ends_ok_try_catch; [|intros e; unfold catch_std; solve_defined].
    apply (tell_unsubscribe σ _ hdl s p); try done.
    + apply NoDup_filter, NoDup_elements.
    + intros n [Hin Hnot]%elem_of_unsubscribed'. apply elem_of_elements in Hin. auto.
  - split; [done|]. intros Hen. destruct (Hp Hen) as (p & Hpi & Hinv). exists p. split; [done|].
    by eapply param_inv_subscribed.
Qed.

Lemma ros2_subscribe_names_defined names hdl :
  subscribe_safe names → defined [] (subscribe_names (handlers cfg) names hdl).
Proof.
  intros Hn s _ [He Hp]. unfold subscribe_names. set (σ := _client_param_subscriptions (srv s)) in *.
  erewrite bind_run by (unfold with_lock; simpl; erewrite bind_run by apply not_subscribed_run; reflexivity).
  fold σ. set (new := unsubscribed σ (elements names)).
  set (s1 := mkSt _ _ _ _).
  assert (∀ n, subscribed (_client_param_subscriptions (srv s1)) n → subscribed σ n ∨ n ∈ new) as Hnew.
  { intros n [Hs|Hs]%subscribed_insert_union; [by left|].
    destruct (decide (n ∈ new)) as [?|Hni]; [by right|]. left.
    apply (not_unsubscribed σ (elements names)); [|done]. by apply elem_of_elements. }
  destruct (parameters_enabled cfg) eqn:Hen.
  - destruct (Hp eq_refl) as (p & Hpi & Hinv). destruct (is_nil new) eqn:Hnil.
    + split; [done|]. intros _. exists p. split; [done|]. eapply param_inv_subscribed, Hinv.
      intros n Hs%Hnew. destruct new; [|done]. destruct Hs as [?|Hs]; [done|].
      by apply elem_of_nil in Hs.
    + apply (tell_subscribe σ _ hdl s1 p); try done.
      intros n [Hin _]%elem_of_unsubscribed'. by apply Hn, elem_of_elements.
  - assert (state_ok s1) as Hs1 by (split; [done|by rewrite Hen]).
    destruct (is_nil new); [done|]. unfold call. cbn [handler_body handlers parameter_subscription_handler].
    by rewrite Hen.
Qed.

Lemma ros2_unsubscribe_names_defined names hdl :
  defined_if (λ s, unsubscribe_ready names (_client_param_subscriptions (srv s))) []
    (unsubscribe_names (handlers cfg) names hdl).
Proof.
  intros s Hn Hs. unfold unsubscribe_names. erewrite bind_run by reflexivity.
  apply (forget_unused (_client_param_subscriptions (srv s))); [done..|]. simpl. intros n.
  apply subscribed_insert_difference.
Qed.

Lemma ros2_forget_names_defined hdl : defined [] (forget_names (handlers cfg) hdl).
Proof.
  intros s _ Hs. unfold forget_names. erewrite bind_run by reflexivity.
  apply (forget_unused (_client_param_subscriptions (srv s))); [done| |]; simpl; intros n.
  - apply subscribed_default.
  - apply subscribed_delete.
Qed.

(** The handlers of a node meet what the server asks of them. *)
Lemma ros2_handlers_defined : HandlersDefined (handlers cfg).
Proof.
  split; [|apply ros2_subscribe_names_defined|apply ros2_unsubscribe_names_defined|
    apply ros2_forget_names_defined].
  intros c body L Hb HL Hs.
  destruct c as [| | | | | | | | |b|]; simpl in Hb, Hs;
    try (destruct (parameters_enabled cfg) eqn:Hp; [|done]);
    try injection Hb as <-; simpl in HL; try done;
    try (apply ros2_subscribe_defined || apply ros2_unsubscribe_defined ||
         apply ros2_client_advertise_defined || apply ros2_client_unadvertise_defined ||
         apply ros2_service_request_defined || by apply ros2_get_parameters_defined ||
         by apply ros2_set_parameters_defined); try (subst L; set_solver); try set_solver.
  - apply ros2_client_message_defined; [set_solver|apply HL].
  - apply subscribe_connection_graph_defined. by intros ->.
  - destruct (has_capability _ _); [|done]. injection Hb as <-. unfold queue_fetch_asset. solve_ros2.
Qed.

(** ** The polling thread *)

Lemma hidden_defined name : is_hidden_topic_or_service name ≠ Undefined.
Proof. by destruct name. Qed.

Lemma collect_topics_defined l acc : collect_topics cfg l acc ≠ Undefined.
Proof.
  revert acc. induction l as [|[name types] l IH]; intros acc; cbn [collect_topics]; [done|].
  apply bind_defined; [|intros hidden _; destruct hidden; [done|by destruct (is_whitelisted name _)]].
  destruct (_include_hidden cfg); [done|apply hidden_defined].
Qed.

Lemma ros2_channels_to_add_defined keys L : defined L (channels_to_add cfg keys).
Proof.
  induction keys as [|key keys IH]; cbn [channels_to_add]; [apply defined_ret|].
  apply defined_bind; [apply get_table_defined|]. intros topics. destruct (is_advertised _ _); [done|].
  apply defined_bind; [apply defined_get_world|]. intros cache.
  destruct (get_full_msg_text _ _ _ _) as [cache' definition]. solve_ros2.
Qed.

Lemma ros2_services_to_add_defined l L :
  (∀ name types, (name, types) ∈ l → types ≠ []) → defined L (services_to_add cfg l).
Proof.
  pose proof hidden_defined as Hh.
  induction l as [|[name types] l IH]; intros Ht; cbn [services_to_add]; [apply defined_ret|].
  assert (defined L (services_to_add cfg l)) as Hl by (apply IH; set_solver).
  apply defined_bind; [apply get_table_defined|]. intros known.
  destruct (is_known_service _ _); [done|].
  apply defined_bind_lift; [by destruct (_include_hidden cfg)|]. intros hidden _.
  destruct hidden; [done|]. destruct (negb _); [done|].
  destruct types as [|type types]; [by destruct (Ht name []); [set_solver|]|].
  apply defined_bind; [apply defined_get_world|]. intros cache.
  destruct (get_full_srv_text _ _ _ _) as [cache' definition]. solve_ros2.
Qed.

Lemma ros2_topics_defined l : defined [] (update_advertised_topics cfg l).
Proof.
  pose proof ros2_channels_to_add_defined. unfold update_advertised_topics.
  apply defined_bind; [apply defined_get_world|]. intros ok. destruct (negb ok); [apply defined_ret|].
  apply defined_bind_lift; [apply collect_topics_defined|]. intros latest _.
  apply defined_with_lock; [set_solver|].
  apply defined_bind; [apply get_table_defined|]. intros topics.
  apply defined_bind; [apply remove_stale_channels_defined|]. intros ids.
  apply defined_bind; [apply remove_channels_defined; set_solver|]. intros [].
  apply defined_bind; [done|]. intros ?. apply announce_channels_defined; set_solver.
Qed.

Lemma ros2_services_defined : defined [] (update_advertised_services cfg).
Proof.
  unfold update_advertised_services.
  apply defined_bind; [apply defined_get_world|]. intros ok. destruct (negb ok); [apply defined_ret|].
  destruct (negb _); [apply defined_ret|]. apply defined_bind_get_world. intros σ w [Hw _].
  apply defined_bind_lift; [apply (ed_services _ Hw)|]. intros l Hl.
  apply defined_with_lock; [set_solver|].
  apply defined_bind; [apply get_table_defined|]. intros known.
  apply defined_bind; [apply erase_services_defined|]. intros [].
  apply defined_bind; [apply remove_services_defined; set_solver|]. intros [].
  apply defined_bind; [apply ros2_services_to_add_defined; intros name types; by apply (ed_types _ Hw)|]. intros ?.
  apply announce_services_defined; set_solver.
Qed.

Lemma poll_start_defined : defined [] (rosgraph_poll_start cfg).
Proof.
  pose proof ros2_topics_defined. pose proof ros2_services_defined. pose proof current_topics_defined.
  unfold rosgraph_poll_start. solve_ros2.
Qed.

Lemma poll_defined b : defined [] (rosgraph_poll cfg b).
Proof.
  pose proof ros2_topics_defined. pose proof ros2_services_defined.
  pose proof ros2_connection_graph_defined. pose proof (catch_log_defined (W:=Node)).
  pose proof current_topics_defined.
  unfold rosgraph_poll. solve_ros2.
Qed.

End Handlers.

(** ** Every input of the bridge *)

Section Bridge.
Context {plat : Platform} (cfg : Config) (parse : list byte → outcome json).
Context (patterns : list regex).
Implicit Types (s : St Node).

#[local] Instance bridge_world_here : WorldInv Node | 0 := ros2_world cfg patterns.
#[local] Instance bridge_requests_here : ParamRequests | 0 := ros2_requests patterns.

(** Inputs without the unchecked accesses; a clock that is not negative; events of
    nodes whose events are subscribed. *)
Definition ros2_input_safe (b : bridge_input) s : Prop :=
  match b with
  | FromClient i => input_safe parse i ∧ input_ready parse i s
  | ClockMessage t => 0 ≤ t
  | RosParameterEvent node _ => parameters_enabled cfg = true ∧ event_expected node s
  | _ => True
  end.

(** Safe inputs from the construction of the node and its server, with the whitelist of
    parameters [patterns]; the network and the ROS graph change in between. *)
Inductive safely_reachable : St Node → Prop :=
| safely_reachable_init compile p distro time macs ips colink name options n e :
    cfg = new_Config compile (node_name cfg) (node_namespace cfg) (ament cfg) (fuel cfg) p →
    patterns = Ros2.parse_regex_strings compile (p_param_whitelist p) →
    new_ServerOptions compile p distro time macs ips colink = Ret options → env_defined e →
    safely_reachable (mkSt (new_Server name options) n []
      (new_Node compile (node_name cfg) (node_namespace cfg) (ament cfg) (fuel cfg) p e))
| safely_reachable_entry b s :
    safely_reachable s → ros2_input_safe b s → safely_reachable (bridge_entry cfg parse b [] s).2
| safely_reachable_net n s :
    safely_reachable s → safely_reachable (mkSt (srv s) n (trace s) (world s))
| safely_reachable_env e s :
    safely_reachable s → env_defined e →
    safely_reachable (mkSt (srv s) (net s) (trace s) (set_env (world s) e)).

Lemma bridge_entry_defined b : defined_if (ros2_input_safe b) [] (bridge_entry cfg parse b).
Proof.
  destruct b as [i| |b|ch hdl msg t|id n r|node ps| |t]; cbn [bridge_entry ros2_input_safe].
  - pose proof (ros2_handlers_defined cfg patterns) as Hd. intros s [Hi Hr].
    exact (entry_defined (handlers cfg) parse i Hi s Hr).
  - apply defined_weaken, poll_start_defined.
  - apply defined_weaken, poll_defined.
  - apply defined_weaken. unfold ros_message_handler.
    apply defined_bind; [apply defined_get_world|]. intros now. apply send_message_defined.
  - apply defined_weaken, service_response_defined.
  - intros s [Hen He]. by apply ros2_parameter_event_defined.
  - apply defined_weaken, ros2_run_fetch_asset_defined.
  - intros s Ht. simpl in Ht. unfold on_clock. destruct (Z.ltb_spec t 0); [lia|]. by apply broadcast_time_defined.
Qed.

Lemma new_Node_ok compile p e :
  cfg = new_Config compile (node_name cfg) (node_namespace cfg) (ament cfg) (fuel cfg) p →
  patterns = Ros2.parse_regex_strings compile (p_param_whitelist p) → env_defined e →
  ros2_world cfg patterns ∅
    (new_Node compile (node_name cfg) (node_namespace cfg) (ament cfg) (fuel cfg) p e).
Proof.
  intros Hcfg Hp He. split; [done|]. intros Hen. cbn [new_Node _param_interface].
  rewrite <-Hcfg, Hen. eexists. split; [done|]. split.
  - by destruct (new_interface_ok patterns) as [? ? ?]; subst patterns.
  - done.
  - intros n (h & names & [=] & _).
Qed.

Lemma safely_reachable_ok s : safely_reachable s → state_ok s.
Proof.
  induction 1 as [compile p distro time macs ips colink name options n e Hc Hp _ He
    |b s _ IH Hb|n s _ IH|e s _ [_ IH] He].
  - by apply new_Node_ok.
  - pose proof (bridge_entry_defined b s Hb IH) as Hd.
    by destruct (bridge_entry cfg parse b [] s) as [[] ?].
  - done.
  - split; [done|]. exact IH.
Qed.


End Bridge.

(** ** What a client can do with the parameter capability *)

(** A [setParameters] request that sets a parameter to an empty array. *)
Definition empty_array_request (name : string) : json :=
  json_object [("op", JStr "setParameters");
               ("parameters", JArr [JObj [("name", JStr name); ("value", JArr [])]])].

(** Any client of a bridge with the parameter capability can cause undefined
    behaviour: the element type of an array is read from its first element, which an
    empty array has not. *)
Theorem empty_array_request_undefined {plat : Platform} (cfg : Config)
    (parse : list byte → outcome json) (now : Z) (hdl : ConnHandle) (payload : list byte)
    (name : string) (p : ParameterInterface) (s : St Node) :
  parse payload = Ret (empty_array_request name) →
  CAPABILITY_PARAMETERS ∈ capabilities (_options (srv s)) → parameters_enabled cfg = true →
  _param_interface (world s) = Some p →
  is_whitelisted name (_param_whitelist_patterns p) = true →
  (bridge_entry cfg parse (FromClient (Message now hdl TEXT payload)) [] s).1 = Undefined.
Proof.
  intros Hp Hcap Hen Hpi Hwl. cbn [bridge_entry entry].
  assert (switch_op (string_hash "setParameters") = Some SET_PARAMETERS) as Hsw
    by (destruct plat as [be []]; vm_compute; reflexivity).
  unfold handle_message, handle_text_message, handle_text_payload, try_catch. run. rewrite Hp.
  change (json_at (empty_array_request name) "op") with (Ret (JStr "setParameters")). run.
  cbn [get_string]. unfold missing_capability, ServerMethods.has_capability.
  change (obj_find "setParameters" CAPABILITY_BY_CLIENT_OPERATION)
    with (Some CAPABILITY_PARAMETERS). run.
  rewrite bool_decide_eq_true_2 by done. unfold has_handler. rewrite Hsw. run.
  rewrite bool_decide_eq_true_2 by (simpl; rewrite Hen; by eexists). run.
  cbn [run_op]. unfold handle_set_parameters. run.
  change (json_at (empty_array_request name) "parameters")
    with (Ret (JArr [JObj [("name", JStr name); ("value", JArr [])]])).
  cbn [get_vector outcome_mapM negb].
  change (Parameter_from_json (JObj [("name", JStr name); ("value", JArr [])]))
    with (Ret {| param_name := name; param_value := PArray [] |}).
  change (get_request_id (empty_array_request name)) with (Ret (A:=option string) None).
  run. unfold call. cbn [handler_body handlers parameter_change_handler]. rewrite Hen. simpl.
  unfold set_parameters, get_params_interface. run_node. simpl. rewrite Hpi.
  unfold set_params. cbn [group_params param_name]. by rewrite Hwl.
Qed.

(** ** Example *)

Lemma ros2_demo_env_defined : env_defined demo_env.
Proof.
  split; intros; try done. intros ->. injection H as <-. by apply list_elem_of_singleton in H0.
Qed.

(** A node with the parameter capability, before anything happened. *)
Definition param_parameters : Parameters := {|
  p_port := 21274; p_address := "0.0.0.0"; p_send_buffer_limit := 10000000; p_tls := false;
  p_certfile := EmptyString; p_keyfile := EmptyString; p_min_qos_depth := 1; p_max_qos_depth := 10;
  p_topic_whitelist := [".*"]; p_service_whitelist := [".*"]; p_param_whitelist := [".*"];
  p_use_compression := false; p_use_sim_time := false;
  p_capabilities := [CAPABILITY_PARAMETERS; CAPABILITY_PARAMETERS_SUBSCRIBE];
  p_client_topic_whitelist := [".*"]; p_include_hidden := false; p_asset_uri_allowlist := [".*"]
|}.

Definition param_options : ServerOptions :=
  match new_ServerOptions demo_compile param_parameters (Some "humble") "1" "00:11" ["10.0.0.1"]
          EmptyString with
  | Ret o => o
  | _ => demo_options
  end.

Definition param_state : St Node :=
  mkSt (new_Server "cobridge" param_options) ∅ []
    (new_Node demo_compile "cobridge" "/" demo_ament 5 param_parameters demo_env).

Lemma empty_array_request_undefined_witness :
  (bridge_entry (plat:=x86_64)
     (new_Config demo_compile "cobridge" "/" demo_ament 5 param_parameters)
     (λ _, Ret (empty_array_request "/n.a")) (FromClient (Message 0 1%nat TEXT [])) []
     param_state).1 = Undefined.
Proof.
  destruct (_param_interface (world param_state)) as [p|] eqn:Hp;
    [|vm_compute in Hp; discriminate].
  apply (empty_array_request_undefined (plat:=x86_64)
    (new_Config demo_compile "cobridge" "/" demo_ament 5 param_parameters)
    (λ _, Ret (empty_array_request "/n.a")) 0 1%nat [] "/n.a" p param_state);
    [reflexivity| |vm_compute; reflexivity|exact Hp|].
  - apply (bool_decide_unpack _). vm_compute. exact I.
  - vm_compute in Hp. injection Hp as <-. vm_compute. reflexivity.
Defined.

(** A client subscribes to a parameter of a node. *)
Definition follow_request : json :=
  json_object [("op", JStr "subscribeParameterUpdates"); ("parameterNames", JArr [JStr "/n.a"])].

Definition param_config : Config :=
  new_Config demo_compile "cobridge" "/" demo_ament 5 param_parameters.

Definition follow_input : bridge_input := FromClient (Message 0 1%nat TEXT []).

Lemma follow_request_safe : safe_payload follow_request.
Proof. split; try done; intros *; vm_compute; intros [=]. Qed.

Lemma param_state_safe :
  safely_reachable (plat:=x86_64) param_config (λ _, Ret follow_request)
    (Ros2.parse_regex_strings demo_compile [".*"]) param_state.
Proof.
  exact (safely_reachable_init (plat:=x86_64) param_config (λ _, Ret follow_request) _ demo_compile
    param_parameters (Some "humble") "1" "00:11" ["10.0.0.1"] EmptyString "cobridge" param_options ∅
    demo_env eq_refl eq_refl eq_refl ros2_demo_env_defined).
Qed.

Lemma follow_input_safe :
  ros2_input_safe (plat:=x86_64) param_config (λ _, Ret follow_request)
    (Ros2.parse_regex_strings demo_compile [".*"]) follow_input param_state.
Proof.
  split; [split; [done|intros j [= <-]; apply follow_request_safe]|].
  split; [by vm_compute|]. intros j [= <-]. split; [by vm_compute|].
  intros op o [= <-] Ho. assert (o = SUBSCRIBE_PARAMETER_UPDATES) as ->.
  { vm_compute in Ho. congruence. }
  intros names [= <-] n Hn.
  apply (elem_of_list_to_set (C:=gset string) _ ["/n.a"]), list_elem_of_singleton in Hn as ->.
  split; [by eexists|by vm_compute].
Qed.


(** The condition on names to unsubscribe is needed: once a parameter of a node is
    followed, a client that unsubscribes from another parameter of that node, to which
    nobody is subscribed, makes the interface erase what is not there. *)
Definition unfollow_request : json :=
  json_object [("op", JStr "unsubscribeParameterUpdates"); ("parameterNames", JArr [JStr "/n.b"])].

Definition followed_state : St Node :=
  (bridge_entry (plat:=x86_64) param_config (λ _, Ret follow_request) follow_input [] param_state).2.

Lemma followed_state_safe :
  safely_reachable (plat:=x86_64) param_config (λ _, Ret follow_request)
    (Ros2.parse_regex_strings demo_compile [".*"]) followed_state.
Proof. exact (safely_reachable_entry _ _ _ _ _ param_state_safe follow_input_safe). Qed.

Example unfollow_request_undefined :
  (bridge_entry (plat:=x86_64) param_config (λ _, Ret unfollow_request) follow_input []
     followed_state).1 = Undefined.
Proof. vm_compute. reflexivity. Qed.
