(* ===== verification/Races.v ===== *)
(** * A subscription that overtakes the removal of its channel

    The other files run a request as one step.  The mutexes of the server do not make
    it one: [handle_subscribe] calls the bridge with no mutex held, and records the
    subscription in a second critical section.  Between the two the polling thread of
    the bridge may remove the channel.  This file splits the request at that point
    and shows what the agreement of server and bridge
    ([Ros2System.bridge_and_server_agree]) is worth there. *)

From Stdlib Require Import ZArith Lia.
From S2P Require Import Prelude Wire Json Serialization ServerState ServerMethods ServerLogic.
From S2P Require Import ServerInv ServerSpecs ServerSystem ServerDefined ServerRuns.
From S2P Require Import Text MessageDefinitionCache SchemaText ParameterInterface BridgeParams.
From S2P Require Import BridgeTables BridgeSync GenericClient Ros2Bridge Ros2Handlers Ros2System.
From S2P Require Import Ros2Specs Ros2Scenarios.

Local Open Scope Z_scope.
Import Ros2Node.

(** ** The two halves *)

Section Split.
Context {W : Type} (H : ServerHandlers W).

(** The second critical section of a turn of the loop of [handle_subscribe]. *)
Definition record_subscription (channel_id sub_id : Z) (hdl : ConnHandle) : M W unit :=
  with_lock clients_mutex
    (clients_at hdl;;
     update_client hdl (λ c,
       match subscriptions_by_channel c !! channel_id with
       | Some _ => c
       | None => set_subscriptions (<[channel_id := sub_id]> (subscriptions_by_channel c)) c
       end)).

Definition subscribe_request (channel_id sub_id : Z) : json :=
  json_object [("op", JStr "subscribe");
    ("subscriptions", JArr [json_object [("id", JUnsigned sub_id);
                                         ("channelId", JUnsigned channel_id)]])].

Lemma bind_ret_unit (m : M W unit) L s : (m;; mret tt) L s = m L s.
Proof. run. by destruct (m L s) as [[[]|e|] s']. Qed.

(** A request for one subscription, with an id that is not used and a channel that is
    there, is a call of the handler and then the record. *)
Lemma handle_subscribe_split channel_id sub_id hdl c s :
  is_u32 channel_id → is_u32 sub_id →
  _clients (srv s) !! hdl = Some c →
  find_subscription_by_sub_id (subscriptions_by_channel c) sub_id = None →
  is_Some (_channels (srv s) !! channel_id) →
  handle_subscribe H (subscribe_request channel_id sub_id) hdl [] s =
  (call H (CallSubscribe channel_id hdl);; record_subscription channel_id sub_id hdl) [] s.
Proof.
  intros Hch Hsub Hc Hid [ch Hchan]. unfold handle_subscribe.
  assert (with_lock clients_mutex (clients_at hdl) [] s = (Ret c, s)) as Hcl.
  { unfold with_lock, clients_at. rewrite decide_False by apply not_elem_of_nil. run. by rewrite Hc. }
  erewrite bind_run by exact Hcl. cbv zeta. erewrite bind_run by reflexivity.
  change (json_elements _) with
    [json_object [("id", JUnsigned sub_id); ("channelId", JUnsigned channel_id)]].
  cbn [for_each]. rewrite bind_ret_unit.
  erewrite bind_run by (simpl; rewrite u32_small by done; reflexivity).
  erewrite bind_run by (simpl; rewrite u32_small by done; reflexivity).
  rewrite Hid. erewrite bind_run by reflexivity. by rewrite Hchan.
Qed.

End Split.

(** ** The race *)

(** The session of [Ros2Scenarios] when its client asks for the channel. *)
Definition before_subscribe : St Node :=
  default bridge_init
    (run_bridge [PollStart; FromClient (Opened 1); bridge_request 1 0] bridge_init).

(** The request up to the call of the handler, the removal, the rest of the request. *)
Definition after_handler : St Node :=
  (call (handlers demo_config) (CallSubscribe 1 1%nat) [] before_subscribe).2.
Definition after_removal : St Node :=
  (update_advertised_topics demo_config [] [] after_handler).2.
Definition after_request : St Node := (record_subscription 1 7 1%nat [] after_removal).2.

(** The client subscribes, the topic disappears before the subscription is recorded:
    the client is left with a subscription to a channel that neither the server nor
    the bridge has, and the node has no ROS subscription for it. *)
Theorem subscribe_races_with_removal :
  ∃ s1 s2 s3,
    call (handlers demo_config) (CallSubscribe 1 1%nat) [] before_subscribe = (Ret tt, s1) ∧
    update_advertised_topics demo_config [] [] s1 = (Ret tt, s2) ∧
    record_subscription 1 7 1%nat [] s2 = (Ret tt, s3) ∧
    server_sub (srv s3) 1%nat 1 = Some 7 ∧ _channels (srv s3) !! 1 = None ∧
    advertised_topics (tables (world s3)) !! 1 = None ∧
    subscription_of (tables (world s3)) 1 1%nat = None ∧
    ¬ synced (srv s3) (tables (world s3)).
Proof.
  exists after_handler, after_removal, after_request.
  assert (server_sub (srv after_request) 1%nat 1 = Some 7) as Hs by (vm_compute; reflexivity).
  assert (subscription_of (tables (world after_request)) 1 1%nat = None) as Hn
    by (vm_compute; reflexivity).
  split_and!; [vm_compute; reflexivity..|done|vm_compute; reflexivity|
    vm_compute; reflexivity|done|].
  intros Hy. destruct (proj2 (sync_subs _ _ Hy 1%nat 1)) as [sub Hsub]; [by eexists|]. congruence.
Qed.
