(* ===== verification/Lifecycle.v ===== *)
(** * The life of a bridge: what the two nodes share

    Construction and destruction of a bridge create and join threads: that of the
    WebSocket server, that of the HTTP server, that of the asset queue and, on ROS 2,
    the one that polls the graph.  This file has the monad of a constructor (the
    members made so far stay when it throws), the operations on the servers both
    nodes call, and when they return. *)

From Stdlib Require Import ZArith Lia.
From S2P Require Import CallbackQueue.
From S2P Require Import Prelude Wire Json Serialization ServerState ServerMethods ServerLogic.
From S2P Require Import ServerSystem ServerDefined Control HttpServer.

Local Open Scope Z_scope.

(** ** Constructors *)

(** A constructor works on the members [B]; what it made before an exception is
    there when the members are destroyed. *)
Definition Life (B A : Type) : Type := B → outcome A * B.

Section Life.
Context {B : Type}.

#[export] Instance Life_mret : MRet (Life B) := λ A a b, (Ret a, b).
#[export] Instance Life_mbind : MBind (Life B) := λ A C f m b,
  match m b with
  | (Ret a, b) => f a b
  | (Throw e, b) => (Throw e, b)
  | (Undefined, b) => (Undefined, b)
  end.

Definition of_outcome {A} (o : outcome A) : Life B A := λ b, (o, b).
Definition throw_if (e : option exn) : Life B unit := λ b,
  (match e with Some x => Throw x | None => Ret tt end, b).
Definition modify (f : B → B) : Life B unit := λ b, (Ret tt, f b).

Lemma life_bind {A C} (m : Life B A) (f : A → Life B C) b a b' :
  m b = (Ret a, b') → (m ≫= f) b = f a b'.
Proof. intros Hm. unfold mbind, Life_mbind. by rewrite Hm. Qed.

Lemma life_throws {A C} (m : Life B A) (f : A → Life B C) b x b' :
  m b = (Throw x, b') → (m ≫= f) b = (Throw x, b').
Proof. intros Hm. unfold mbind, Life_mbind. by rewrite Hm. Qed.

End Life.

(** What the machine and the libraries answer during construction.  [arrived] are
    the connections made once the server listens. *)
Record start_env := {
  ros_distro : option string;
  interfaces : option (list ifaddr);
  time : string;
  parameter_error : option exn;
  init_asio_error : option string;
  endpoint : ServerControl.listen_env;
  arrived : gmap ConnHandle Connection;
  (** creating callback groups or the subscription to [/clock] *)
  ros_error : option exn
}.

(** Every call into the endpoint succeeds. *)
Definition endpoint_ok (l : ServerControl.listen_env) (port : Z) : Prop :=
  ServerControl.listen_error l = None ∧ ServerControl.accept_error l = None ∧
  ServerControl.listening_after l = true ∧ ServerControl.local_endpoint l = inr port.

(** ** The WebSocket server *)

Section Server.
Context {plat : Platform} {W : Type} (H : ServerHandlers W).
Context `{!HandlersFrame H}.
Implicit Types (c : ServerControl.Control W).

(** [ServerFactory::create_server]: the constructor of the server throws when its
    endpoint cannot be initialised. *)
Definition try_create_server (e : start_env) (options : ServerOptions) (w : W) :
    outcome (ServerControl.Control W) :=
  match init_asio_error e with
  | Some message =>
      Throw (RuntimeError ("Failed to initialize websocket server: " +:+ message))
  | None => Ret (ServerControl.new_Control "cobridge" options w)
  end.

(** [_server->start(address, port)]; connections can arrive when it has returned. *)
Definition start_server (e : start_env) (port : Z) c : outcome unit * ServerControl.Control W :=
  let '(o, c) := ServerControl.start (endpoint e) port c in
  let s := ServerControl.st c in
  (o, ServerControl.set_st (mkSt (srv s) (arrived e) (trace s) (world s)) c).

(** [_server->stop()]: [env] is what happens during its second, [joins] what happens
    while it joins the thread of the server; [None] when that is not over. *)
Definition stop_server (env : Z → ServerControl.turn) (joins : list ServerControl.turn) c :
    option (ServerControl.Control W) :=
  s ← ServerControl.stop H true env c;
  match foldl (λ s t, ServerControl.join_turn H t s) s joins with
  | ServerControl.Returned c => Some c
  | ServerControl.Joining _ => None
  end.

(** [stop] does not wait without a limit. *)
Definition stoppable c : Prop :=
  ServerControl.client_connections c ≠ [] ∨ net (ServerControl.st c) = ∅ ∨
  ServerControl._server_thread c = false.

(** A connected client is logged in, or nobody is connected. *)
Lemma stoppable_clients c s :
  (∃ hdl, is_Some (_clients (srv s) !! hdl) ∧ is_Some (net s !! hdl)) ∨ net s = ∅ →
  stoppable (ServerControl.set_st s c).
Proof.
  intros [(hdl & [ci Hci] & Hk)|Hn]; [left|by right; left].
  apply (elem_of_not_nil hdl), list_elem_of_filter. split; [done|].
  apply list_elem_of_fmap. exists (hdl, ci). split; [done|]. by apply elem_of_map_to_list.
Qed.

Lemma join_turns_returned joins c :
  foldl (λ s t, ServerControl.join_turn H t s) (ServerControl.Returned c) joins =
  ServerControl.Returned c.
Proof. by induction joins. Qed.

Lemma stop_unstarted env c :
  ServerControl._server_thread c = false → ServerControl.stopped c = false →
  ∃ c', ServerControl.stop H true env c = Some (ServerControl.Returned c') ∧
    ServerControl.destroy_thread c' = Ret tt.
Proof.
  intros Ht Hs. unfold ServerControl.stop. rewrite Hs.
  set (c1 := if ServerControl.is_listening c then _ else c).
  assert (ServerControl._server_thread c1 = false) as Ht1
    by (subst c1; by destruct (ServerControl.is_listening c)).
  clearbody c1. destruct (decide (ServerControl.client_connections c1 = [])) as [He|He].
  - unfold ServerControl.close_connections. rewrite He, bool_decide_eq_true_2 by done. simpl.
    unfold ServerControl.join. rewrite Ht1. by eexists.
  - destruct (ServerControl.close_connections_spec H env c1 He)
      as (c2 & forced & -> & _ & Hth & _). simpl.
    unfold ServerControl.join. rewrite Hth, Ht1. by eexists.
Qed.

Lemma stop_server_returns env joins c :
  ServerControl.stopped c = false → stoppable c →
  ∃ c', stop_server env joins c = Some c' ∧ ServerControl.destroy_thread c' = Ret tt ∧
    (length (ServerControl.callbacks c') ≤ ServerControl.closings c)%nat.
Proof.
  intros Hs Hc. unfold stop_server.
  assert (∃ c', ServerControl.stop H true env c = Some (ServerControl.Returned c') ∧
                ServerControl.destroy_thread c' = Ret tt) as (c' & Hc' & Hd).
  { destruct (ServerControl._server_thread c) eqn:Ht; [|by apply stop_unstarted].
    destruct (ServerControl.stop_returns_aux H env c Ht Hs) as (c' & f & ? & ? & _);
      [|by exists c'].
    destruct Hc as [?|[?|?]]; [by left|by right|congruence]. }
  rewrite Hc'. simpl. rewrite join_turns_returned. exists c'. split_and!; [done..|].
  etrans; [|apply (ServerControl.stop_closings H env true c c'); by left].
  unfold ServerControl.closings. lia.
Qed.

(** Starting does not stop the endpoint, and without a thread it threw. *)
Lemma start_server_spec e port c :
  ServerControl.stopped c = false →
  ServerControl.stopped (start_server e port c).2 = false ∧
  net (ServerControl.st (start_server e port c).2) = arrived e.
Proof.
  intros Hs. unfold start_server.
  assert (ServerControl.stopped (ServerControl.start (endpoint e) port c).2 = false) as Hstop.
  { unfold ServerControl.start. repeat case_match; done. }
  destruct (ServerControl.start (endpoint e) port c) as [o c']. done.
Qed.

Lemma start_server_callbacks e port c :
  ServerControl.callbacks (start_server e port c).2 = ServerControl.callbacks c.
Proof.
  unfold start_server. assert (ServerControl.callbacks (ServerControl.start (endpoint e) port c).2 =
    ServerControl.callbacks c) as Hc by (unfold ServerControl.start; repeat case_match; done).
  by destruct (ServerControl.start (endpoint e) port c).
Qed.

End Server.

(** ** The HTTP server *)

Section Http.
Context (dump : json → string) (macs : string).

(** [stop]: [inputs] are the steps of the thread while it is joined. *)
Definition http_stop (inputs : list thread_input) (s : HttpServer) : option HttpServer :=
  if _running s
  then HttpServer.join (foldl (λ s i, thread_step dump macs i s) (stop_flag s) inputs)
  else Some s.

(** The thread gets the two steps it needs to see the flag. *)
Definition thread_scheduled (inputs : list thread_input) : Prop :=
  ∃ ok i rest, inputs = SetUp ok :: i :: rest.

Lemma finished_stays inputs s :
  thread s = Finished → foldl (λ s i, thread_step dump macs i s) s inputs = s.
Proof.
  induction inputs as [|i inputs IH]; intros Hs; [done|]. cbn [foldl].
  assert (thread_step dump macs i s = s) as -> by (unfold thread_step; by rewrite Hs).
  by apply IH.
Qed.

Lemma http_stop_returns inputs s :
  thread_scheduled inputs → (thread s = NoThread ↔ _running s = false) →
  ∃ s', http_stop inputs s = Some s' ∧ _running s' = false ∧ thread s' = NoThread.
Proof.
  intros (ok & i & rest & ->) Ht. unfold http_stop. destruct (_running s) eqn:Hr.
  - cbn [foldl]. destruct s as [r th cs]. simpl in *. subst r.
    destruct th; [by destruct Ht as [Ht _]; specialize (Ht eq_refl)|..];
      destruct ok; cbn -[foldl]; rewrite finished_stays by done; by eexists.
  - exists s. split_and!; [done..|]. by apply Ht.
Qed.

End Http.

(** ** Leaving *)

(** How the threads are joined when a bridge is destroyed: the steps of the HTTP
    server's thread, where the worker of the asset queue is, the requests for assets it
    has not come to, and how worker and destructor are scheduled; and the same of the
    server's queue. *)
Record exit_env := {
  http_inputs : list thread_input;
  asset_worker : worker_pc (cb:=string * Z * ConnHandle);
  asset_pending : list (string * Z * ConnHandle);
  asset_schedule : list label;
  handler_exit : ServerControl.queue_exit
}.

(** [~CallbackQueue] of the asset queue: [stop]; [None] when it has not returned.  What a
    request for an asset uses is declared before the queue and still there. *)
Definition destroy_asset_queue (x : exit_env) : option unit :=
  _ ← CallbackQueue.stop (asset_schedule x) (queue_at (asset_worker x) (asset_pending x));
  Some tt.

(** Every thread gets its turns and no wakeup is lost; the server's queue comes to the
    [n] disconnections there can be, and to nothing else, before it is destroyed. *)
Record threads_scheduled (x : exit_env) (n : nat) : Prop := {
  ts_http : thread_scheduled (http_inputs x);
  ts_asset_queue : asset_worker x = WSleep → asset_pending x = [];
  ts_asset_wakeup : wakeup_kept (asset_schedule x) (queue_at (asset_worker x) (asset_pending x));
  ts_requests : ServerControl.queue_drained (handler_exit x) n
}.

Lemma asset_queue_destroyed x n : threads_scheduled x n → destroy_asset_queue x = Some tt.
Proof.
  intros [_ Hw Hk _]. unfold destroy_asset_queue.
  destruct (stop_returns_kept (asset_schedule x) (queue_at (asset_worker x) (asset_pending x)))
    as [q ->]; [by apply queue_at_one_worker|done..].
Qed.

(** The queue is drained when it comes to more disconnections than there are. *)
Lemma drained_le x n m :
  ServerControl.queue_drained x n → (m ≤ n)%nat → ServerControl.queue_drained x m.
Proof. intros (? & ? & ? & ?) Hle. split_and!; [done|lia|done..]. Qed.

(** The two workers wait, are notified, and end. *)
Definition demo_exit (ran : nat) : exit_env := {|
  http_inputs := [SetUp true; SelectTimeout];
  asset_worker := WBlocked; asset_pending := [];
  asset_schedule := [Stopper; Stopper; Worker 0; Worker 0; Worker 0; Stopper];
  handler_exit := {|
    ServerControl.worker := WBlocked; ServerControl.pending := [];
    ServerControl.handled_before := ran;
    ServerControl.schedule := [Stopper; Stopper; Worker 0; Worker 0; Worker 0; Stopper]
  |}
|}.

Lemma demo_exit_scheduled ran : threads_scheduled (demo_exit ran) ran.
Proof.
  assert (∀ cb, wakeup_kept [Stopper; Stopper; Worker 0; Worker 0; Worker 0; Stopper]
                  (queue_at (cb:=cb) WBlocked [])) as Hk.
  { intros cb. by exists [], [], [Worker 0; Worker 0; Worker 0]. }
  split; [by exists true, SelectTimeout, []|done|apply Hk|]. by split_and!; [..|apply Hk].
Qed.
