(* ===== verification/Ros2Lifecycle.v ===== *)
(** * The life of the ROS 2 bridge

    The constructor and destructor of [CoBridge] and the thread it starts
    ([ros2_bridge.cpp]), and [main] ([ros2_bridge_node.cpp]).  A constructor that
    throws destroys the members made so far, but does not run the destructor; a
    thread object destroyed before it is joined ends the process. *)

From Stdlib Require Import ZArith Lia.
From S2P Require Import CallbackQueue.
From S2P Require Import Prelude Wire Json Serialization ServerState ServerMethods ServerLogic.
From S2P Require Import ServerSystem ServerDefined Control HttpServer Lifecycle.
From S2P Require Import Text MessageDefinitionCache SchemaText ParameterInterface BridgeParams.
From S2P Require Import BridgeTables GenericClient Ros2Bridge Ros2Handlers Ros2System Ros2Scenarios.

Local Open Scope Z_scope.
Import Ros2Node.

Module Ros2Life.

(** The thread of [rosgraph_poll_thread]: none, or one that has passed the updates
    before its loop or not. *)
Inductive poll_state := NoPoll | Polling (begun : bool).

(** The members that own threads or are made late, and the parameter [port]. *)
Record Bridge := {
  http : option HttpServer;
  fetch_queue : bool;
  server : option (ServerControl.Control Node);
  poll : poll_state;
  callback_groups : bool;
  clock_subscription : bool;
  port_parameter : Z
}.

Section Setters.
Context (b : Bridge).
Definition set_http (h : option HttpServer) : Bridge :=
  {| http := h; fetch_queue := fetch_queue b; server := server b; poll := poll b;
     callback_groups := callback_groups b; clock_subscription := clock_subscription b;
     port_parameter := port_parameter b |}.
Definition set_fetch_queue : Bridge :=
  {| http := http b; fetch_queue := true; server := server b; poll := poll b;
     callback_groups := callback_groups b; clock_subscription := clock_subscription b;
     port_parameter := port_parameter b |}.
Definition set_server (c : option (ServerControl.Control Node)) : Bridge :=
  {| http := http b; fetch_queue := fetch_queue b; server := c; poll := poll b;
     callback_groups := callback_groups b; clock_subscription := clock_subscription b;
     port_parameter := port_parameter b |}.
Definition set_poll (p : poll_state) : Bridge :=
  {| http := http b; fetch_queue := fetch_queue b; server := server b; poll := p;
     callback_groups := callback_groups b; clock_subscription := clock_subscription b;
     port_parameter := port_parameter b |}.
Definition set_ros (groups clock : bool) : Bridge :=
  {| http := http b; fetch_queue := fetch_queue b; server := server b; poll := poll b;
     callback_groups := groups; clock_subscription := clock;
     port_parameter := port_parameter b |}.
Definition set_port (z : Z) : Bridge :=
  {| http := http b; fetch_queue := fetch_queue b; server := server b; poll := poll b;
     callback_groups := callback_groups b; clock_subscription := clock_subscription b;
     port_parameter := z |}.
End Setters.

(** [set_parameter] refuses a parameter that was declared read-only, with a result
    nobody looks at. *)
Definition set_port_parameter (v : Z) : Life Bridge unit :=
  modify (λ b,
    match list_find (λ d, Ros2.decl_name d = Ros2.PARAM_PORT) Ros2.declare_parameters with
    | Some (_, d) => if Ros2.read_only (Ros2.decl_descriptor d) then b else set_port b v
    | None => b
    end).

Section Bridge.
Context {plat : Platform} (parse : list byte → outcome json).
Context (compile : string → option regex) (name namespace : string) (index : ament_index)
        (definition_fuel : nat) (dump : json → string).
Implicit Types (p : Parameters) (e : start_env) (b : Bridge).

Definition config p : Config := new_Config compile name namespace index definition_fuel p.

(** ** Construction *)

Definition empty_bridge p : Bridge :=
  {| http := None; fetch_queue := false; server := None; poll := NoPoll;
     callback_groups := false; clock_subscription := false; port_parameter := p_port p |}.

Definition make_server p e (r : RosEnv) : Life Bridge unit :=
  let macs := (get_dev_mac_addr (interfaces e)).2 in
  let '(_, ips, colink) := get_dev_ip_addrs (interfaces e) in
  http_server ← of_outcome (HttpServer.start new_HttpServer);
  modify (λ b, set_http b (Some http_server));;
  options ← of_outcome (new_ServerOptions compile p (ros_distro e) (time e) macs ips colink);
  c ← of_outcome
        (try_create_server e options (new_Node compile name namespace index definition_fuel p r));
  modify (λ b, set_server b (Some c)).

(** [_server->start(address, port)] *)
Definition run_server e (port : Z) : Life Bridge unit := λ b,
  match server b with
  | None => (Undefined, b)
  | Some c => let '(o, c) := start_server e port c in (o, set_server b (Some c))
  end.

(** [CoBridge::CoBridge] *)
Definition constructor p e (r : RosEnv) : Life Bridge unit :=
  throw_if (parameter_error e);;
  let port := p_port p mod 2 ^ 16 in
  modify set_fetch_queue;;
  make_server p e r;;
  run_server e port;;
  listening_port ← of_outcome (ServerControl.get_port (endpoint e));
  (if decide (port ≠ listening_port) then set_port_parameter listening_port else mret tt);;
  modify (λ b, set_poll b (Polling false));;
  throw_if (ros_error e);;
  modify (λ b, set_ros b true (p_use_sim_time p)).

(** The members in the reverse order of their declaration: the HTTP server (its
    destructor stops it), the asset queue (its destructor joins the worker), the polling
    thread and the server, whose destructor joins the worker of its queue; [None] when
    one of the threads is not joined. *)
Definition destroy_members p (macs : string) (x : exit_env) b : option (outcome unit) :=
  _ ← match http b with
      | Some s => http_stop dump macs (http_inputs x) s
      | None => Some new_HttpServer
      end;
  _ ← (if fetch_queue b then destroy_asset_queue x else Some tt);
  match poll b with
  | Polling _ => Some Undefined
  | NoPoll =>
      match server b with
      | Some c => ServerControl.destroy (handlers (config p)) (handler_exit x) c
      | None => Some (Ret tt)
      end
  end.

(** [new CoBridge(options)] *)
Definition construct (x : exit_env) p e (r : RosEnv) : option (outcome Bridge) :=
  match constructor p e r (empty_bridge p) with
  | (Ret _, b) => Some (Ret b)
  | (Throw ex, b) =>
      o ← destroy_members p (get_dev_mac_addr (interfaces e)).2 x b;
      Some (match o with Ret _ => Throw ex | Throw y => Throw y | Undefined => Undefined end)
  | (Undefined, _) => Some Undefined
  end.

(** ** The polling thread *)

(** What happens to node and server. *)
Inductive life_event := Input (i : bridge_input) | Network (n : gmap ConnHandle Connection).

Definition run_event p (s : St Node) (i : life_event) : outcome (St Node) :=
  match i with
  | Input i => match bridge_entry (config p) parse i [] s with
               | (Undefined, _) => Undefined
               | (_, s) => Ret s
               end
  | Network n => Ret (mkSt (srv s) n (trace s) (world s))
  end.

Fixpoint run_events p (events : list life_event) (s : St Node) : outcome (St Node) :=
  match events with
  | [] => Ret s
  | i :: events => s ← run_event p s i; run_events p events s
  end.

(** A turn of the loop: what ROS answers in it, whether the graph changed, and what
    the other threads do meanwhile. *)
Record poll_turn := {
  turn_env : RosEnv;
  turn_triggered : bool;
  meanwhile : list life_event
}.

Definition with_env (r : RosEnv) (s : St Node) : St Node :=
  mkSt (srv s) (net s) (trace s) (set_env (world s) r).

(** [while (rclcpp::ok())]; [None] when the loop has not ended after the turns. *)
Fixpoint poll_loop p (turns : list poll_turn) (s : St Node) : option (outcome (St Node)) :=
  match turns with
  | [] => None
  | t :: turns =>
      let s := with_env (turn_env t) s in
      if rclcpp_ok (turn_env t)
      then
        match run_events p (Input (Poll (turn_triggered t)) :: meanwhile t) s with
        | Ret s => poll_loop p turns s
        | Throw x => Some (Throw x)
        | Undefined => Some Undefined
        end
      else Some (Ret s)
  end.

(** [rosgraph_poll_thread]: an exception before the loop leaves the thread, which
    ends the process. *)
Definition rosgraph_poll_thread p (begun : bool) (turns : list poll_turn) (s : St Node) :
    option (outcome (St Node)) :=
  if begun then poll_loop p turns s
  else
    match bridge_entry (config p) parse PollStart [] s with
    | (Ret _, s) => poll_loop p turns s
    | _ => Some Undefined
    end.

(** ** Destruction *)

Definition join_poll p (turns : list poll_turn) b : option (outcome Bridge) :=
  match poll b, server b with
  | NoPoll, _ => Some (Ret b)
  | Polling begun, Some c =>
      o ← rosgraph_poll_thread p begun turns (ServerControl.st c);
      Some (s ← o; Ret (set_poll (set_server b (Some (ServerControl.set_st s c))) NoPoll))
  | Polling _, None => Some Undefined
  end.

(** [CoBridge::~CoBridge] and the destruction of the members; [None] when one of
    the joins has not returned. *)
Definition destructor p (macs : string) (turns : list poll_turn) (x : exit_env)
    (env : Z → ServerControl.turn) (joins : list ServerControl.turn) b : option (outcome unit) :=
  o ← join_poll p turns b;
  match o with
  | Throw ex => Some (Throw ex)
  | Undefined => Some Undefined
  | Ret b =>
      h ← match http b with
          | Some s => s ← http_stop dump macs (http_inputs x) s; Some (Some s)
          | None => Some None
          end;
      match server b with
      | None => Some Undefined
      | Some c =>
          c ← stop_server (handlers (config p)) env joins c;
          destroy_members p macs x (set_server (set_http b h) (Some c))
      end
  end.

(** ** [main] *)

Definition shut_down (r : RosEnv) : RosEnv := {|
  rclcpp_ok := false;
  get_topic_names_and_types := get_topic_names_and_types r;
  get_service_names_and_types := get_service_names_and_types r;
  get_publishers_info_by_topic := get_publishers_info_by_topic r;
  get_subscriptions_info_by_topic := get_subscriptions_info_by_topic r;
  get_service_names_and_types_by_node := Ros2Node.get_service_names_and_types_by_node r;
  create_generic_subscription := create_generic_subscription r;
  create_generic_publisher := create_generic_publisher r;
  publish := publish r;
  wait_for_service := wait_for_service r;
  add_client := add_client r;
  retrieve := retrieve r;
  now_nanoseconds := now_nanoseconds r;
  rcl := rcl r;
  parameter_graph := parameter_graph r
|}.

Definition is_poll_start (i : life_event) : bool :=
  match i with Input PollStart => true | _ => false end.

Definition EXIT_SUCCESS : Z := 0.
Definition EXIT_FAILURE : Z := 1.

(** The component is created, the executor spins until rclcpp is shut down, and
    leaving [main] destroys the node. *)
Definition main p e (r : RosEnv) (resources_found : bool) (spinning : list life_event)
    (x : exit_env) (env : Z → ServerControl.turn)
    (joins : list ServerControl.turn) : option (outcome Z) :=
  if negb resources_found then Some (Ret EXIT_FAILURE)
  else
    o ← construct x p e r;
    match o with
    | Throw ex => Some (Throw ex)
    | Undefined => Some Undefined
    | Ret b =>
        match server b with
        | None => Some Undefined
        | Some c =>
            match run_events p spinning (ServerControl.st c) with
            | Throw ex => Some (Throw ex)
            | Undefined => Some Undefined
            | Ret s =>
                let r := shut_down (Ros2Node.env (world s)) in
                let c := ServerControl.set_st (with_env r s) c in
                let b := set_poll (set_server b (Some c))
                           (Polling (existsb is_poll_start spinning)) in
                let last := {| turn_env := r; turn_triggered := false; meanwhile := [] |} in
                o ← destructor p (get_dev_mac_addr (interfaces e)).2 [last] x env joins b;
                Some (_ ← o; Ret EXIT_SUCCESS)
            end
        end
    end.

(** ** Construction on every branch *)

(** Making the members up to the server. *)
Lemma make_server_run p e r d b :
  ros_distro e = Some d → init_asio_error e = None →
  ∃ h c ips colink options,
    make_server p e r b = (Ret tt, set_server (set_http b (Some h)) (Some c)) ∧
    (thread h = NoThread ↔ _running h = false) ∧
    new_ServerOptions compile p (Some d) (time e) (get_dev_mac_addr (interfaces e)).2 ips colink
      = Ret options ∧
    c = ServerControl.new_Control "cobridge" options
          (new_Node compile name namespace index definition_fuel p r).
Proof.
  intros Hd Hi. unfold make_server.
  destruct (get_dev_ip_addrs (interfaces e)) as [[? ips] colink].
  unfold try_create_server, new_ServerOptions. rewrite Hd, Hi.
  eexists _, _, ips, colink, _. split; [reflexivity|]. by split_and!.
Qed.

(** The members when [start] is called. *)
Definition before_start p (h : HttpServer) (c : ServerControl.Control Node) : Bridge :=
  set_server (set_http (set_fetch_queue (empty_bridge p)) (Some h)) (Some c).

Lemma constructor_run p e r d :
  ros_distro e = Some d → parameter_error e = None → init_asio_error e = None →
  ∃ h c ips colink options,
    (thread h = NoThread ↔ _running h = false) ∧
    new_ServerOptions compile p (Some d) (time e) (get_dev_mac_addr (interfaces e)).2 ips colink
      = Ret options ∧
    c = ServerControl.new_Control "cobridge" options
          (new_Node compile name namespace index definition_fuel p r) ∧
    constructor p e r (empty_bridge p) =
      (run_server e (p_port p mod 2 ^ 16);;
       listening_port ← of_outcome (ServerControl.get_port (endpoint e));
       (if decide (p_port p mod 2 ^ 16 ≠ listening_port)
        then set_port_parameter listening_port else mret tt);;
       modify (λ b, set_poll b (Polling false));;
       throw_if (ros_error e);;
       modify (λ b, set_ros b true (p_use_sim_time p))) (before_start p h c).
Proof.
  intros Hd Hp Hi.
  destruct (make_server_run p e r d (set_fetch_queue (empty_bridge p)) Hd Hi)
    as (h & c & ips & colink & options & Hm & Hh & Ho & Hc).
  exists h, c, ips, colink, options. split_and!; [done..|].
  unfold constructor. rewrite (life_bind (throw_if (parameter_error e)) _ _ tt (empty_bridge p))
    by (unfold throw_if; by rewrite Hp).
  rewrite (life_bind (modify set_fetch_queue) _ _ tt (set_fetch_queue (empty_bridge p))) by done.
  by rewrite (life_bind (make_server p e r) _ _ _ _ Hm).
Qed.

Lemma run_server_run e port b c :
  server b = Some c →
  run_server e port b =
    ((start_server e port c).1, set_server b (Some (start_server e port c).2)).
Proof. intros Hs. unfold run_server. rewrite Hs. by destruct (start_server e port c). Qed.

(** A server that was made and not started. *)
Lemma start_server_ok e port listening (c : ServerControl.Control Node) :
  ServerControl._server_thread c = false → endpoint_ok (endpoint e) listening →
  start_server e port c =
    (Ret tt, ServerControl.set_st
       (mkSt (srv (ServerControl.st c)) (arrived e) (trace (ServerControl.st c))
             (world (ServerControl.st c)))
       (ServerControl.set_server_thread true (ServerControl.set_listening true c))).
Proof.
  intros Ht (Hl & Ha & Hli & Hp). unfold start_server, ServerControl.start.
  by rewrite Ht, Hl, Ha, Hli, Hp.
Qed.

(** The port is declared read-only. *)
Lemma set_port_parameter_run v b : set_port_parameter v b = (Ret tt, b).
Proof. reflexivity. Qed.

(** What follows [start] when it succeeds. *)
Lemma constructor_started p e h (c : ServerControl.Control Node) port :
  ServerControl._server_thread c = false → endpoint_ok (endpoint e) port →
  (run_server e (p_port p mod 2 ^ 16);;
   listening_port ← of_outcome (ServerControl.get_port (endpoint e));
   (if decide (p_port p mod 2 ^ 16 ≠ listening_port)
    then set_port_parameter listening_port else mret tt);;
   modify (λ b, set_poll b (Polling false));;
   throw_if (ros_error e);;
   modify (λ b, set_ros b true (p_use_sim_time p))) (before_start p h c) =
  let b := set_poll (set_server (before_start p h c)
             (Some (start_server e (p_port p mod 2 ^ 16) c).2)) (Polling false) in
  match ros_error e with
  | Some x => (Throw x, b)
  | None => (Ret tt, set_ros b true (p_use_sim_time p))
  end.
Proof.
  intros Ht He. pose proof (start_server_ok e (p_port p mod 2 ^ 16) port c Ht He) as Hs.
  rewrite (life_bind (run_server e (p_port p mod 2 ^ 16)) _ _ tt
    (set_server (before_start p h c) (Some (start_server e (p_port p mod 2 ^ 16) c).2)))
    by (rewrite (run_server_run _ _ _ c) by done; by rewrite Hs).
  destruct He as (_ & _ & _ & Hp).
  rewrite (life_bind (of_outcome _) _ _ port _) by (unfold ServerControl.get_port; by rewrite Hp).
  rewrite (life_bind (if decide _ then _ else _) _ _ tt _)
    by (case_decide; [apply set_port_parameter_run|done]).
  unfold modify, throw_if. by destruct (ros_error e).
Qed.

(** The members of a bridge whose constructor threw before the polling thread. *)
Lemma destroy_members_run p macs x n b h c :
  threads_scheduled x n → http b = Some h → (thread h = NoThread ↔ _running h = false) →
  server b = Some c → (length (ServerControl.callbacks c) ≤ n)%nat →
  destroy_members p macs x b =
  Some (match poll b with Polling _ => Undefined | NoPoll => ServerControl.destroy_thread c end).
Proof.
  intros Hx Hh Ht Hs Hn. unfold destroy_members. rewrite Hh, Hs.
  destruct (http_stop_returns dump macs (http_inputs x) h (ts_http _ _ Hx) Ht) as (h' & -> & _).
  simpl. rewrite (asset_queue_destroyed x n Hx).
  rewrite ServerControl.destroy_drained
    by (by eapply drained_le; [apply (ts_requests _ _ Hx)|]).
  by destruct (fetch_queue b), (poll b).
Qed.

(** [start] throws. *)
Lemma construct_start_throws p e r h c k ex c' x n :
  threads_scheduled x n → ServerControl.callbacks c = [] → (thread h = NoThread ↔ _running h = false) →
  constructor p e r (empty_bridge p) =
    (run_server e (p_port p mod 2 ^ 16) ≫= k) (before_start p h c) →
  start_server e (p_port p mod 2 ^ 16) c = (Throw ex, c') →
  construct x p e r =
    Some (match ServerControl.destroy_thread c' with Undefined => Undefined | _ => Throw ex end).
Proof.
  intros Hx Hcb Hh Hrun Hs. unfold construct. rewrite Hrun.
  rewrite (life_throws (run_server e (p_port p mod 2 ^ 16)) k _ ex
    (set_server (before_start p h c) (Some c')))
    by (rewrite (run_server_run _ _ _ c) by done; by rewrite Hs).
  pose proof (start_server_callbacks e (p_port p mod 2 ^ 16) c) as Hcb'. rewrite Hs, Hcb in Hcb'.
  rewrite (destroy_members_run _ _ x n _ h c') by (done || by simpl in Hcb'; rewrite Hcb'; simpl; lia).
  simpl. unfold ServerControl.destroy_thread. by destruct (ServerControl._server_thread c').
Qed.

(** C23. Constructing the bridge: when every call succeeds the server listens with its
    thread running, the polling thread exists and node and server are in their
    initial state; the parameter [port] keeps its value also when the server listens
    on another port, because it was declared read-only.  When the port cannot be
    bound or accepting fails, everything made so far is destroyed, with the threads that
    exist by then joined (when they are scheduled and no wakeup is lost), and the
    exception leaves the constructor. *)
Theorem ros2_construction p e r d x n :
  ros_distro e = Some d → parameter_error e = None → init_asio_error e = None →
  env_ok (config p) r →
  (∀ port, endpoint_ok (endpoint e) port → ros_error e = None →
     ∃ b c, construct x p e r = Some (Ret b) ∧ server b = Some c ∧
       ServerControl.is_listening c = true ∧ ServerControl._server_thread c = true ∧
       ServerControl.stopped c = false ∧ poll b = Polling false ∧ callback_groups b = true ∧
       clock_subscription b = p_use_sim_time p ∧ port_parameter b = p_port p ∧
       bridge_reachable (config p) parse (ServerControl.st c)) ∧
  (∀ message, threads_scheduled x n →
     ServerControl.listen_error (endpoint e) = Some message →
     construct x p e r =
       Some (Throw (RuntimeError ("Failed to listen on port " +:+
                                  to_string (p_port p mod 2 ^ 16) +:+ ": " +:+ message)))) ∧
  (∀ message, threads_scheduled x n →
     ServerControl.listen_error (endpoint e) = None →
     ServerControl.accept_error (endpoint e) = Some message →
     construct x p e r =
       Some (Throw (RuntimeError ("Failed to start accepting connections: " +:+ message)))).
Proof.
  intros Hd Hp Hi He.
  destruct (constructor_run p e r d Hd Hp Hi)
    as (h & c & ips & colink & options & Hh & Ho & Hc & Hrun).
  assert (ServerControl._server_thread c = false ∧ ServerControl.callbacks c = [])
    as [Ht Hcb] by (by subst c).
  split_and!.
  - intros port Hok Hr. unfold construct. rewrite Hrun. rewrite (constructor_started p e h c port Ht Hok), Hr.
    rewrite (start_server_ok e _ port c Ht Hok). eexists _, _. split_and!; try reflexivity.
    + by subst c.
    + subst c. simpl. by eapply (bridge_reachable_init (config p)).
  - intros message Hs Hl.
    erewrite (construct_start_throws p e r h c _ _ _ x n Hs Hcb Hh Hrun);
      [|unfold start_server, ServerControl.start; rewrite Ht, Hl; reflexivity].
    unfold ServerControl.destroy_thread. simpl. by rewrite Ht.
  - intros message Hs Hl Ha.
    erewrite (construct_start_throws p e r h c _ _ _ x n Hs Hcb Hh Hrun);
      [|unfold start_server, ServerControl.start; rewrite Ht, Hl, Ha; reflexivity].
    unfold ServerControl.destroy_thread. simpl. by rewrite Ht.
Qed.

(** A failure after the thread of the server was made ends the process: the
    destructor of the bridge does not run, so nobody joins the thread, and the
    exception never reaches who created the component. *)
Theorem late_failure_ends_process p e r d x n :
  ros_distro e = Some d → parameter_error e = None → init_asio_error e = None →
  threads_scheduled x n →
  ServerControl.listen_error (endpoint e) = None →
  ServerControl.accept_error (endpoint e) = None →
  ServerControl.listening_after (endpoint e) = false ∨
  (∃ message, ServerControl.local_endpoint (endpoint e) = inl message) ∨
  ros_error e ≠ None →
  construct x p e r = Some Undefined.
Proof.
  intros Hd Hp Hi Hs Hl Ha Hlate.
  destruct (constructor_run p e r d Hd Hp Hi)
    as (h & c & ips & colink & options & Hh & Ho & Hc & Hrun).
  assert (ServerControl._server_thread c = false ∧ ServerControl.callbacks c = [])
    as [Ht Hcb] by (by subst c).
  destruct (ServerControl.listening_after (endpoint e)) eqn:Hla;
    [destruct (ServerControl.local_endpoint (endpoint e)) as [m|port] eqn:Hle|].
  - by erewrite (construct_start_throws p e r h c _ _ _ x n Hs Hcb Hh Hrun);
      [|unfold start_server, ServerControl.start; rewrite Ht, Hl, Ha, Hla, Hle; reflexivity].
  - assert (endpoint_ok (endpoint e) port) as Hok by done.
    unfold construct. rewrite Hrun, (constructor_started p e h c port Ht Hok).
    destruct (ros_error e) as [ex|]; [|naive_solver]. cbv zeta beta iota.
    rewrite (destroy_members_run _ _ x n _ h (start_server e (p_port p mod 2 ^ 16) c).2);
      [done..|]. rewrite start_server_callbacks, Hcb. simpl. lia.
  - by erewrite (construct_start_throws p e r h c _ _ _ x n Hs Hcb Hh Hrun);
      [|unfold start_server, ServerControl.start; rewrite Ht, Hl, Ha, Hla; reflexivity].
Qed.

(** ** Destruction *)

Lemma poll_loop_ends p turns : ∀ s s',
  poll_loop p turns s = Some (Ret s') → ∃ t, t ∈ turns ∧ rclcpp_ok (turn_env t) = false.
Proof.
  induction turns as [|t turns IH]; intros s s'; [done|]. cbn [poll_loop].
  destruct (rclcpp_ok (turn_env t)) eqn:Hok; [|intros _; exists t; split; [left|done]].
  destruct (run_events _ _ _) as [s1| |]; [|done..]. intros (t' & Ht & ?)%IH.
  exists t'. split; [by right|done].
Qed.

(** A bridge that is unloaded while rclcpp runs is never destroyed: its destructor
    joins the polling thread, whose loop ends only when rclcpp is shut down. *)
Theorem destruction_needs_shutdown p macs turns x env joins b :
  poll b ≠ NoPoll → destructor p macs turns x env joins b = Some (Ret tt) →
  ∃ t, t ∈ turns ∧ rclcpp_ok (turn_env t) = false.
Proof.
  intros Hp. unfold destructor, join_poll, rosgraph_poll_thread.
  destruct (poll b) as [|begun]; [done|]. destruct (server b) as [c|]; [|done].
  destruct begun.
  - destruct (poll_loop p turns (ServerControl.st c)) as [[s| |]|] eqn:E; simpl; try done.
    intros _. by eapply poll_loop_ends.
  - destruct (bridge_entry _ _ PollStart [] _) as [[| |] s1]; simpl; try done.
    destruct (poll_loop p turns s1) as [[s| |]|] eqn:E; simpl; try done.
    intros _. by eapply poll_loop_ends.
Qed.

(** Once rclcpp is shut down, the updates before the loop do nothing, if the topics can
    still be asked for. *)
Lemma poll_start_down p s names :
  rclcpp_ok (Ros2Node.env (world s)) = false →
  get_topic_names_and_types (Ros2Node.env (world s)) = Ret names →
  bridge_entry (config p) parse PollStart [] s = (Ret tt, s).
Proof.
  intros Hd Hn. cbn [bridge_entry].
  unfold rosgraph_poll_start, current_topics, update_advertised_topics, update_advertised_services.
  unfold mbind, M_mbind, M_bind, lift, get_world. simpl. rewrite Hn, Hd. simpl. by rewrite Hd.
Qed.

Lemma join_poll_down p begun b c r :
  poll b = Polling begun → server b = Some c → rclcpp_ok r = false →
  rclcpp_ok (Ros2Node.env (world (ServerControl.st c))) = false →
  begun = true ∨ (∃ names, get_topic_names_and_types
                    (Ros2Node.env (world (ServerControl.st c))) = Ret names) →
  join_poll p [{| turn_env := r; turn_triggered := false; meanwhile := [] |}] b =
  Some (Ret (set_poll (set_server b
    (Some (ServerControl.set_st (with_env r (ServerControl.st c)) c))) NoPoll)).
Proof.
  intros Hp Hs Hr Hc Hb. unfold join_poll, rosgraph_poll_thread. rewrite Hp, Hs.
  destruct begun; [|destruct Hb as [|[names Hn]]; [done|];
    rewrite (poll_start_down p _ names) by done]; cbn [poll_loop turn_env]; by rewrite Hr.
Qed.

(** With the polling thread joined, the rest of the destructor. *)
Lemma destructor_run p macs turns x n env joins b b' h c :
  join_poll p turns b = Some (Ret b') → threads_scheduled x n →
  (ServerControl.closings c ≤ n)%nat →
  http b' = Some h → (thread h = NoThread ↔ _running h = false) →
  server b' = Some c → ServerControl.stopped c = false → stoppable c → poll b' = NoPoll →
  destructor p macs turns x env joins b = Some (Ret tt).
Proof.
  intros Hj Hx Hn Hh Ht Hs Hst Hc Hp. unfold destructor. rewrite Hj. simpl. rewrite Hh.
  destruct (http_stop_returns dump macs (http_inputs x) h (ts_http _ _ Hx) Ht)
    as (h' & -> & Hr' & Ht'). simpl.
  rewrite Hs. destruct (stop_server_returns (handlers (config p)) env joins c Hst Hc)
    as (c' & -> & Hd & Hcb). simpl.
  rewrite (destroy_members_run p macs x n _ h' c') by (done || by etrans). simpl. by rewrite Hp, Hd.
Qed.

(** The bridge after a construction that succeeded. *)
Lemma construct_run p e r d x port :
  ros_distro e = Some d → parameter_error e = None → init_asio_error e = None →
  endpoint_ok (endpoint e) port → ros_error e = None →
  ∃ b h c, construct x p e r = Some (Ret b) ∧ server b = Some c ∧ http b = Some h ∧
    (thread h = NoThread ↔ _running h = false) ∧ ServerControl.stopped c = false ∧
    ServerControl.callbacks c = [].
Proof.
  intros Hd Hp Hi Hok Hr.
  destruct (constructor_run p e r d Hd Hp Hi)
    as (h & c & ips & colink & options & Hh & Ho & Hc & Hrun).
  assert (ServerControl._server_thread c = false) as Ht by (by subst c).
  unfold construct. rewrite Hrun, (constructor_started p e h c port Ht Hok), Hr.
  eexists _, h, _. split_and!; [reflexivity..|done| |];
    rewrite (start_server_ok e _ port c Ht Hok); by subst c.
Qed.

(** C11. The program ends.  Whatever clients and ROS did while it was spinning without
    undefined behaviour, after rclcpp was shut down the polling thread ends, both servers
    stop, every thread is joined, those of the asset queue and of the server's queue of
    requests among them, and [main] returns success.  This needs that a connected client
    is logged in or nobody is connected (else [stop] waits for its thread), that the
    polling thread had begun when rclcpp was shut down or the topics can still be asked
    for (else an exception leaves the thread), that
    the workers of the two queues do not miss the notification of their [stop] (else it
    never returns, [CallbackQueue.lost_wakeup_hangs]), and that the server's queue has come to
    every request and disconnection before the server is destroyed (else they are
    handled with destroyed members, [request_outlives_members]). *)
Theorem ros2_main_exits p e r d port b c spinning x env joins s :
  ros_distro e = Some d → parameter_error e = None → init_asio_error e = None →
  endpoint_ok (endpoint e) port → ros_error e = None →
  construct x p e r = Some (Ret b) → server b = Some c →
  run_events p spinning (ServerControl.st c) = Ret s → threads_scheduled x (size (net s)) →
  existsb is_poll_start spinning = true ∨
  (∃ names, get_topic_names_and_types (Ros2Node.env (world s)) = Ret names) →
  (∃ hdl, is_Some (_clients (srv s) !! hdl) ∧ is_Some (net s !! hdl)) ∨ net s = ∅ →
  main p e r true spinning x env joins = Some (Ret EXIT_SUCCESS).
Proof.
  intros Hd Hp Hi Hok Hr Hb Hc Hrun Hs Hbegun Hconn.
  destruct (construct_run p e r d x port Hd Hp Hi Hok Hr)
    as (b' & h & c' & Hb' & Hc' & Hh & Ht & Hst & Hcb).
  rewrite Hb in Hb'. injection Hb' as <-. rewrite Hc in Hc'. injection Hc' as <-.
  unfold main. simpl. rewrite Hb. simpl. rewrite Hc, Hrun.
  set (down := shut_down (Ros2Node.env (world s))).
  set (c1 := ServerControl.set_st (with_env down s) c).
  set (b1 := set_poll (set_server b (Some c1)) _).
  assert (ServerControl.closings (ServerControl.set_st (with_env down (with_env down s)) c) ≤
          size (net s))%nat as Hn by (unfold ServerControl.closings; simpl; by rewrite Hcb).
  erewrite (destructor_run p _ _ x _ env joins b1 _ h _
    (join_poll_down p _ b1 c1 down eq_refl eq_refl eq_refl eq_refl Hbegun) Hs Hn Hh Ht eq_refl Hst);
    [done| |done].
  by apply (stoppable_clients (ServerControl.set_st s c) (with_env down (with_env down s))).
Qed.

End Bridge.

(** ** Instances *)

Definition demo_start : start_env := {|
  ros_distro := Some "humble"; interfaces := None; time := "1"; parameter_error := None;
  init_asio_error := None; endpoint := ServerControl.demo_listen; arrived := ∅;
  ros_error := None
|}.

Abbreviation demo_construct e p :=
  (construct demo_compile "cobridge" "/" demo_ament 5 (λ _, "{}") (demo_exit 1) p e demo_env).

Lemma ros2_construction_witness :
  ∃ b, demo_construct demo_start demo_parameters = Some (Ret b) ∧
    poll b = Polling false ∧ port_parameter b = p_port demo_parameters.
Proof.
  destruct (ros2_construction (plat:=x86_64) bridge_parse demo_compile "cobridge" "/" demo_ament 5
    (λ _, "{}") demo_parameters demo_start demo_env "humble" (demo_exit 1) 1%nat) as [Hok _];
    [reflexivity..| |].
  - apply check_env_ok. vm_compute. reflexivity.
  - destruct (Hok 21274) as (b & c & ? & _ & _ & _ & _ & ? & _ & _ & ? & _);
      [by split_and!|reflexivity|].
    exists b. split_and!; assumption.
Defined.

(** The local endpoint cannot be resolved. *)
Definition unresolved_start : start_env := {|
  ros_distro := Some "humble"; interfaces := None; time := "1"; parameter_error := None;
  init_asio_error := None;
  endpoint := {| ServerControl.listen_error := None; ServerControl.accept_error := None;
                 ServerControl.listening_after := true;
                 ServerControl.local_endpoint := inl "Bad file descriptor";
                 ServerControl.success_message := "Success" |};
  arrived := ∅; ros_error := None
|}.

Lemma late_failure_ends_process_witness :
  demo_construct unresolved_start demo_parameters = Some Undefined.
Proof.
  apply (late_failure_ends_process demo_compile "cobridge" "/" demo_ament 5 (λ _, "{}")
    demo_parameters unresolved_start demo_env "humble" (demo_exit 1) 1%nat); try reflexivity.
  - apply demo_exit_scheduled.
  - right. left. by eexists.
Defined.

Definition demo_bridge : Bridge :=
  match demo_construct demo_start demo_parameters with
  | Some (Ret b) => b
  | _ => empty_bridge demo_parameters
  end.

(** A client connects, logs in and subscribes while the program runs. *)
Definition demo_spinning : list life_event :=
  Network (net bridge_init) :: (Input <$> bridge_inputs).

Abbreviation demo_run c :=
  (run_events (plat:=x86_64) bridge_parse demo_compile "cobridge" "/" demo_ament 5
     demo_parameters demo_spinning (ServerControl.st c)).

Lemma ros2_main_exits_witness :
  main (plat:=x86_64) bridge_parse demo_compile "cobridge" "/" demo_ament 5 (λ _, "{}")
    demo_parameters demo_start demo_env true demo_spinning (demo_exit 1) ServerControl.silent []
  = Some (Ret EXIT_SUCCESS).
Proof.
  assert (match server demo_bridge with
          | Some c =>
              match demo_run c with
              | Ret s => bool_decide (is_Some (_clients (srv s) !! 1%nat)) &&
                         bool_decide (is_Some (net s !! 1%nat)) && (size (net s) =? 1)%nat
              | _ => false
              end
          | None => false
          end = true) as Hd by (vm_compute; reflexivity).
  destruct (server demo_bridge) as [c|] eqn:Hc; [|discriminate].
  destruct (demo_run c) as [s| |] eqn:Hs; [|discriminate..].
  apply andb_true_iff in Hd as [Hd Hn%Nat.eqb_eq].
  apply andb_true_iff in Hd as [Hd1%bool_decide_eq_true_1 Hd2%bool_decide_eq_true_1].
  apply (ros2_main_exits (plat:=x86_64) bridge_parse demo_compile "cobridge" "/" demo_ament 5
    (λ _, "{}") demo_parameters demo_start demo_env "humble" 21274 demo_bridge c demo_spinning
    (demo_exit 1) ServerControl.silent [] s); try reflexivity; try assumption.
  - by split_and!.
  - rewrite Hn. apply demo_exit_scheduled.
  - left. vm_compute. reflexivity.
  - left. exists 1%nat. by split.
Defined.

Lemma destruction_needs_shutdown_witness :
  ∃ t, t ∈ [{| turn_env := shut_down demo_env; turn_triggered := false; meanwhile := [] |}] ∧
    rclcpp_ok (turn_env t) = false.
Proof.
  apply (destruction_needs_shutdown (plat:=x86_64) bridge_parse demo_compile "cobridge" "/"
    demo_ament 5 (λ _, "{}") demo_parameters EmptyString
    [{| turn_env := shut_down demo_env; turn_triggered := false; meanwhile := [] |}]
    (demo_exit 1) ServerControl.silent [] demo_bridge).
  - vm_compute. discriminate.
  - vm_compute. reflexivity.
Defined.

End Ros2Life.
