(* ===== verification/Ros1Lifecycle.v ===== *)
(** * The life of the ROS 1 bridge

    [onInit] and the destructor of the nodelet ([ros1_bridge_nodelet.cpp]) and
    [main] ([ros1_bridge_node.cpp]).  Members are made in [onInit], not in the
    constructor: when it throws the loader destroys the nodelet, and the destructor
    joins the threads there are. *)

From Stdlib Require Import ZArith Lia.
From S2P Require Import CallbackQueue.
From S2P Require Import Prelude Wire Json Serialization ServerState ServerMethods ServerLogic.
From S2P Require Import ServerSystem ServerDefined Control HttpServer Lifecycle.
From S2P Require Import Text BridgeParams BridgeTables Ros1Bridge Ros1System Ros1Scenarios.

Local Open Scope Z_scope.
Import Ros1 Ros1Node.

Module Ros1Life.

Record Bridge := {
  http : option HttpServer;
  fetch_queue : bool;
  server : option (ServerControl.Control Node);
  xmlrpc_server : bool;
  clock_subscription : bool
}.

Definition empty_bridge : Bridge :=
  {| http := None; fetch_queue := false; server := None; xmlrpc_server := false;
     clock_subscription := false |}.

Section Setters.
Context (b : Bridge).
Definition set_http (h : HttpServer) : Bridge :=
  {| http := Some h; fetch_queue := fetch_queue b; server := server b;
     xmlrpc_server := xmlrpc_server b; clock_subscription := clock_subscription b |}.
Definition set_fetch_queue : Bridge :=
  {| http := http b; fetch_queue := true; server := server b;
     xmlrpc_server := xmlrpc_server b; clock_subscription := clock_subscription b |}.
Definition set_server (c : ServerControl.Control Node) : Bridge :=
  {| http := http b; fetch_queue := fetch_queue b; server := Some c;
     xmlrpc_server := xmlrpc_server b; clock_subscription := clock_subscription b |}.
Definition set_xmlrpc (on : bool) : Bridge :=
  {| http := http b; fetch_queue := fetch_queue b; server := server b;
     xmlrpc_server := on; clock_subscription := clock_subscription b |}.
Definition set_clock : Bridge :=
  {| http := http b; fetch_queue := fetch_queue b; server := server b;
     xmlrpc_server := xmlrpc_server b; clock_subscription := true |}.
End Setters.

Section Bridge.
Context {plat : Platform} (parse : list byte → outcome json).
Context (compile : string → option regex) (dump : json → string).
Implicit Types (p : Parameters) (e : start_env) (b : Bridge).

(** ** [onInit] *)

(** [throw err]: the exception is copied as a [std::exception]. *)
Definition rethrow_copy {A} (m : Life Bridge A) : Life Bridge A := λ b,
  match m b with
  | (Throw x, b) =>
      (Throw (match what x with Some _ => StdException "std::exception" | None => x end), b)
  | r => r
  end.

(** [_server->start(address, port)] *)
Definition run_server e (port : Z) : Life Bridge unit := λ b,
  match server b with
  | None => (Undefined, b)
  | Some c => let '(o, c) := start_server e port c in (o, set_server b c)
  end.

(** [update_advertised_topics_and_services(ros::TimerEvent())]; connections can
    arrive meanwhile. *)
Definition first_update p e : Life Bridge unit := λ b,
  match server b with
  | None => (Undefined, b)
  | Some c =>
      let '(o, s) := update_advertised_topics_and_services (new_Config compile p) []
                       (ServerControl.st c) in
      (o, set_server b
            (ServerControl.set_st (mkSt (srv s) (arrived e) (trace s) (world s)) c))
  end.

Definition start_bridge p e (port : Z) (r : RosEnv) : Life Bridge unit :=
  let macs := (get_dev_mac_addr (interfaces e)).2 in
  let '(_, ips, colink) := get_dev_ip_addrs (interfaces e) in
  options ← of_outcome (new_ServerOptions compile p (ros_distro e) macs ips colink);
  modify set_fetch_queue;;
  c ← of_outcome (try_create_server e options (new_Node r));
  modify (λ b, set_server b c);;
  run_server e (port mod 2 ^ 16);;
  modify (λ b, set_xmlrpc b true);;
  first_update p e;;
  if p_use_sim_time p then throw_if (ros_error e);; modify set_clock else mret tt.

Definition onInit p e (port : Z) (r : RosEnv) : Life Bridge unit :=
  throw_if (parameter_error e);;
  http_server ← of_outcome (HttpServer.start new_HttpServer);
  modify (λ b, set_http b http_server);;
  rethrow_copy (start_bridge p e port r).

(** ** The destructor *)

Definition stop_http (macs : string) (inputs : list thread_input) (h : option HttpServer) :
    option (option HttpServer) :=
  match h with
  | Some s => s ← http_stop dump macs inputs s; Some (Some s)
  | None => Some None
  end.

(** [CoBridge::~CoBridge], then the members: the HTTP server (stopped again), the
    asset queue, whose destructor joins its worker, and the server, whose destructor
    joins the worker of its queue; [None] when one of the threads is not joined. *)
Definition destructor p (macs : string) (x : exit_env)
    (env : Z → ServerControl.turn) (joins : list ServerControl.turn) b : option (outcome unit) :=
  let b := set_xmlrpc b false in
  c ← match server b with
      | Some c => c ← stop_server (handlers (new_Config compile p)) env joins c; Some (Some c)
      | None => Some None
      end;
  h ← stop_http macs (http_inputs x) (http b);
  _ ← stop_http macs (http_inputs x) h;
  _ ← (if fetch_queue b then destroy_asset_queue x else Some tt);
  match c with
  | Some c => ServerControl.destroy (handlers (new_Config compile p)) (handler_exit x) c
  | None => Some (Ret tt)
  end.

(** ** [main] *)

Inductive life_event := Input (i : bridge_input) | Network (n : gmap ConnHandle Connection).

Definition run_event p (s : St Node) (i : life_event) : outcome (St Node) :=
  match i with
  | Input i => match bridge_entry (new_Config compile p) parse i [] s with
               | (Undefined, _) => Undefined
               | (_, s) => Ret s
               end
  | Network n => Ret (mkSt (srv s) n (trace s) (world s))
  end.

Fixpoint run_events p (events : list life_event) (s : St Node) : outcome (St Node) :=
  match events with
  | [] => Ret s
  | i :: events => s ← run_event p s i; run_events p events s
  end.

Definition EXIT_SUCCESS : Z := 0.
Definition EXIT_FAILURE : Z := 1.

(** The loader destroys a nodelet whose [onInit] throws, and reports it; leaving
    [main] destroys the loader with its nodelet. *)
Definition main p e (port : Z) (r : RosEnv) (spinning : list life_event)
    (x : exit_env) (env : Z → ServerControl.turn)
    (joins : list ServerControl.turn) : option (outcome Z) :=
  let macs := (get_dev_mac_addr (interfaces e)).2 in
  match onInit p e port r empty_bridge with
  | (Undefined, _) => Some Undefined
  | (Throw _, b) =>
      o ← destructor p macs x env joins b;
      Some (_ ← o; Ret EXIT_FAILURE)
  | (Ret _, b) =>
      match server b with
      | None => Some Undefined
      | Some c =>
          match run_events p spinning (ServerControl.st c) with
          | Ret s =>
              o ← destructor p macs x env joins (set_server b (ServerControl.set_st s c));
              Some (_ ← o; Ret EXIT_SUCCESS)
          | Throw ex => Some (Throw ex)
          | Undefined => Some Undefined
          end
      end
  end.

(** ** What [onInit] leaves *)

(** Nobody is connected. *)
Definition quiet (c : ServerControl.Control Node) : Prop := net (ServerControl.st c) = ∅.

(** The threads can be joined: that of the HTTP server exists exactly when it should,
    and the server was not stopped. *)
Record joinable b : Prop := {
  j_http h : http b = Some h → (thread h = NoThread ↔ _running h = false);
  j_stopped c : server b = Some c → ServerControl.stopped c = false;
  j_callbacks c : server b = Some c → ServerControl.callbacks c = [];
  j_server c : server b = Some c → quiet c
}.

Definition life_keeps {A} (P : Bridge → Prop) (m : Life Bridge A) : Prop :=
  ∀ b, P b → P (m b).2.

Lemma life_keeps_bind {A B} P (m : Life Bridge A) (f : A → Life Bridge B) :
  life_keeps P m → (∀ a, life_keeps P (f a)) → life_keeps P (m ≫= f).
Proof.
  intros Hm Hf b Hb. specialize (Hm b Hb). unfold mbind, Life_mbind.
  destruct (m b) as [[a| |] b']; [by apply Hf|done..].
Qed.
Lemma life_keeps_outcome {A} P (o : outcome A) : life_keeps P (of_outcome o).
Proof. by intros b. Qed.
Lemma life_keeps_throw_if P x : life_keeps P (throw_if x).
Proof. by intros b. Qed.
Lemma life_keeps_ret {A} P (a : A) : life_keeps P (mret a).
Proof. by intros b. Qed.
Lemma life_keeps_modify P f : (∀ b, P b → P (f b)) → life_keeps P (modify f).
Proof. intros Hf b. apply Hf. Qed.
#[local] Hint Resolve life_keeps_outcome life_keeps_throw_if life_keeps_ret : core.

Lemma joinable_server b c :
  joinable b → ServerControl.stopped c = false → ServerControl.callbacks c = [] → quiet c →
  joinable (set_server b c).
Proof. intros [Hh _ _ _] Hs Hcb Hc. split; [exact Hh|intros c' [= <-]; done..]. Qed.

Lemma create_server_keeps {A} e options r (f : ServerControl.Control Node → Life Bridge A) :
  (∀ c, ServerControl.stopped c = false → ServerControl.callbacks c = [] → quiet c →
        life_keeps joinable (f c)) →
  life_keeps joinable (c ← of_outcome (try_create_server e options (new_Node r)); f c).
Proof.
  intros Hf. unfold try_create_server. destruct (init_asio_error e); [by intros b|].
  intros b Hb. apply (Hf (ServerControl.new_Control "cobridge" options (new_Node r))); [done..].
Qed.

Lemma run_server_keeps e port :
  arrived e = ∅ → life_keeps joinable (run_server e port).
Proof.
  intros He b Hb. unfold run_server. destruct (server b) as [c|] eqn:Hc; [|done].
  destruct (start_server_spec e port c (j_stopped _ Hb c Hc)) as [Hs Hn].
  pose proof (start_server_callbacks e port c) as Hcb. rewrite (j_callbacks _ Hb c Hc) in Hcb.
  destruct (start_server e port c) as [o c']. apply joinable_server; [done..|].
  unfold quiet. simpl in Hn. by rewrite Hn.
Qed.

Lemma first_update_keeps p e :
  arrived e = ∅ → life_keeps joinable (first_update p e).
Proof.
  intros He b Hb. unfold first_update. destruct (server b) as [c|] eqn:Hc; [|done].
  destruct (update_advertised_topics_and_services _ _ _) as [o s].
  apply joinable_server; [done|exact (j_stopped _ Hb c Hc)|exact (j_callbacks _ Hb c Hc)|done].
Qed.

Lemma start_bridge_keeps p e port r :
  arrived e = ∅ → life_keeps joinable (start_bridge p e port r).
Proof.
  intros He. unfold start_bridge. destruct (get_dev_ip_addrs (interfaces e)) as [[found ips] colink].
  apply life_keeps_bind; [done|]. intros options.
  apply life_keeps_bind; [apply life_keeps_modify; by intros ? []|]. intros _.
  apply create_server_keeps. intros c Hs Hcb Hq.
  apply life_keeps_bind; [apply life_keeps_modify; intros b Hb; by apply joinable_server|]. intros _.
  apply life_keeps_bind; [by apply run_server_keeps|]. intros _.
  apply life_keeps_bind; [apply life_keeps_modify; by intros ? []|]. intros _.
  apply life_keeps_bind; [by apply first_update_keeps|]. intros _.
  destruct (p_use_sim_time p); [|done].
  apply life_keeps_bind; [done|]. intros _. apply life_keeps_modify; by intros ? [].
Qed.

Lemma rethrow_copy_keeps {A} P (m : Life Bridge A) :
  life_keeps P m → life_keeps P (rethrow_copy m).
Proof.
  intros Hm b Hb. specialize (Hm b Hb). unfold rethrow_copy.
  by destruct (m b) as [[| |] ?].
Qed.

Lemma onInit_keeps p e port r :
  arrived e = ∅ → joinable (onInit p e port r empty_bridge).2.
Proof.
  intros He. unfold onInit. apply life_keeps_bind; [done| |by split]. intros _.
  intros b [_ Hs Hcb Hq]. rewrite (life_bind (of_outcome _) _ _
    {| _running := true; thread := Starting; connections := [] |} b) by done.
  unfold modify at 1.
  rewrite (life_bind (λ b, (Ret tt, set_http b _)) _ _ tt (set_http b
    {| _running := true; thread := Starting; connections := [] |})) by done.
  apply rethrow_copy_keeps; [by apply start_bridge_keeps|]. split; [by intros h [= <-]|done..].
Qed.

(** The destructor of a bridge whose threads can be joined. *)
Lemma stop_http_returns macs inputs h :
  thread_scheduled inputs →
  (∀ s, h = Some s → (thread s = NoThread ↔ _running s = false)) →
  ∃ h', stop_http macs inputs h = Some h' ∧
    ∀ s, h' = Some s → (thread s = NoThread ↔ _running s = false).
Proof.
  intros Hi Hh. destruct h as [s|]; simpl; [|by exists None].
  destruct (http_stop_returns dump macs inputs s Hi (Hh s eq_refl)) as (s' & -> & Hr & Ht).
  exists (Some s'). split; [done|]. by intros ? [= <-].
Qed.

Lemma destructor_returns p macs x n env joins b :
  threads_scheduled x n →
  (∀ h, http b = Some h → (thread h = NoThread ↔ _running h = false)) →
  (∀ c, server b = Some c → ServerControl.stopped c = false ∧ stoppable c ∧
          (ServerControl.closings c ≤ n)%nat) →
  destructor p macs x env joins b = Some (Ret tt).
Proof.
  intros Hx Hh Hs. unfold destructor. cbn [server http set_xmlrpc fetch_queue].
  pose proof (ts_http _ _ Hx) as Hi.
  assert ((if fetch_queue b then destroy_asset_queue x else Some tt) = Some tt) as Hq
    by (rewrite (asset_queue_destroyed x n Hx); by destruct (fetch_queue b)).
  destruct (stop_http_returns macs (http_inputs x) (http b) Hi Hh) as (h1 & -> & Hh1). simpl.
  destruct (stop_http_returns macs (http_inputs x) h1 Hi Hh1) as (h2 & Hh2 & _).
  destruct (server b) as [c|]; simpl; [|rewrite Hh2; simpl; by rewrite Hq].
  destruct (Hs c eq_refl) as (Hst & Hc & Hn).
  destruct (stop_server_returns (handlers (new_Config compile p)) env joins c Hst Hc)
    as (c' & -> & Hd & Hcb). simpl. rewrite Hh2. simpl. rewrite Hq. simpl.
  rewrite ServerControl.destroy_drained; [by rewrite Hd|].
  eapply drained_le; [apply (ts_requests _ _ Hx)|]. by etrans.
Qed.


End Bridge.

(** ** Instance *)

Definition demo_start (local : string + Z) : start_env := {|
  ros_distro := Some "noetic"; interfaces := None; time := "1"; parameter_error := None;
  init_asio_error := None;
  endpoint := {| ServerControl.listen_error := None; ServerControl.accept_error := None;
                 ServerControl.listening_after := true; ServerControl.local_endpoint := local;
                 ServerControl.success_message := "Success" |};
  arrived := ∅; ros_error := None
|}.

(** A client connects, logs in and subscribes while the program runs. *)
Definition demo_spinning : list life_event :=
  Network (net bridge_init) :: (Input <$> bridge_inputs).

Abbreviation demo_main e :=
  (main (plat:=x86_64) bridge_parse demo_compile (λ _, "{}") demo_parameters e 21274
     (demo_env (Some demo_system)) demo_spinning (demo_exit 1) ServerControl.silent []).
Abbreviation demo_init e :=
  (onInit demo_compile demo_parameters e 21274 (demo_env (Some demo_system))
     empty_bridge).
Abbreviation demo_run c :=
  (run_events (plat:=x86_64) bridge_parse demo_compile demo_parameters demo_spinning
     (ServerControl.st c)).


End Ros1Life.
